(** * HistogramManager (DQM/SiPixelPhase1Common): the step-program interpreter

    A shallow embedding of [HistogramManager.cc]: the per-sample executor
    [executeStep1Spec], the per-event harvesting loop and the harvesting
    steps [executeSave], [executeGroupBy], [executeReduce] and
    [executeExtend], with the properties the specification states about
    them.

    Conventions of the embedding.
    - A C++ [double] is a rational ([Q]); the code only compares sample
      values with [0.0], converts integers to them and hands them to ROOT.
      The cells of a [TH1F] or [TH2F] are single-precision numbers
      ([Float_t]): what is stored in a cell is rounded to the nearest
      float.
    - A C++ [int] is a [Z]; the increments the code performs wrap at 32 bits
      ([wrap32]).
    - [assert] aborts the run: a failed assertion is the outcome
      [Fatal AssertionFailed]; [std::vector::at] out of range is a [Fatal]
      outcome of its own.
    - [std::map<Values, AbstractHistogram>] is a list of entries kept in
      ascending key order, because the harvesting loops depend on the
      iteration order of the map.
    - A pointer to an [AbstractHistogram] names the table entry it points
      into (or the by-value copy a range-for made of it).
    - Every table entry has a [MonitorElement] and a [TH1] of its own; the
      only alias is the [th1] of an entry that points into its own [me].
    - What ROOT and the geometry interface compute from sample values and
      columns ([TH1::Fill], [GetMean], [GetEntries], [pretty]) is a
      parameter of the definitions that call it. *)

From Stdlib Require Import ZArith QArith Qround Qabs Qpower Qreduction.
From Stdlib Require Import Bool String Ascii Lia Lqa.
From Stdlib Require Import Sorting.Sorted Permutation.
From stdpp Require Import base list sorting.

Local Open Scope Z_scope.

(** ** Machine integers *)

Definition wrap32 (z : Z) : Z := (z + 2 ^ 31) mod 2 ^ 32 - 2 ^ 31.

Definition INT_MAX : Z := 2 ^ 31 - 1.

(** ** GeometryInterface: columns, values and keys *)

(** Modelled from the spec: [GeometryInterface::Column] and
    [GeometryInterface::Value] (the header is not part of the sources): an
    opaque comparable identifier, and an integer cell value with the reserved
    sentinel [UNDEFINED]. *)
Definition Column : Type := Z.
Definition Value : Type := Z.
Definition UNDEFINED : Value := 999999999.

(** Modelled from the spec: [GeometryInterface::Values], the member [values]
    being an ordered, duplicate-free collection of (column, value) pairs with
    [get], [put], [erase] and [operator[]] by column. *)
Abbreviation Values := (list (Column * Value)).

Module Values.

(** Modelled from the spec: [Values::get]; a column that is absent reads as
    [UNDEFINED]. *)
Fixpoint get (k : Values) (c : Column) : Column * Value :=
  match k with
  | [] => (c, UNDEFINED)
  | (c', v) :: r => if Z.eqb c c' then (c', v) else get r c
  end.

(** Modelled from the spec: [Values::put]; never introduces a duplicate
    column. *)
Fixpoint put (k : Values) (p : Column * Value) : Values :=
  match k with
  | [] => [p]
  | (c', v) :: r => if Z.eqb (fst p) c' then p :: r else (c', v) :: put r p
  end.

(** Modelled from the spec: [Values::erase]. *)
Fixpoint erase (k : Values) (c : Column) : Values :=
  match k with
  | [] => []
  | (c', v) :: r => if Z.eqb c c' then r else (c', v) :: erase r c
  end.

(** Modelled from the spec: [Values::operator[]]. *)
Definition index (k : Values) (c : Column) : Value := snd (get k c).

(** Modelled from the spec: the total order on keys, the one of
    [std::vector<std::pair<Column, Value>>]: lexicographic on the pairs. *)
Definition pair_ltb (p q : Column * Value) : bool :=
  (fst p <? fst q) || ((fst p =? fst q) && (snd p <? snd q)).

Fixpoint ltb (k1 k2 : Values) : bool :=
  match k1, k2 with
  | [], [] => false
  | [], _ :: _ => true
  | _ :: _, [] => false
  | p :: r1, q :: r2 =>
      if pair_ltb p q then true
      else if pair_ltb q p then false
      else ltb r1 r2
  end.

End Values.

(** [for (auto c : step.columns) new_vals.put(old_vals.get(c));] *)
Definition regroup (cols : list Column) (old_vals : Values) : Values :=
  fold_left (fun new_vals c => Values.put new_vals (Values.get old_vals c)) cols [].

(** ** Single precision: the cells of ROOT's [TH1F] and [TH2F] *)

#[global] Instance Q_eq_dec : EqDecision Q.
Proof. solve_decision. Defined.

(** [2 ^ e], for an exponent of either sign. *)
Definition pow2 (e : Z) : Q := Qpower 2 e.

(** The binary exponent of a rational [q] that is not 0:
    [2 ^ Qlog2 q <= |q| < 2 ^ (Qlog2 q + 1)]. *)
Definition Qlog2 (q : Q) : Z :=
  let c := Z.log2 (Z.abs (Qnum q)) - Z.log2 (Zpos (Qden q)) in
  if Qle_bool (pow2 c) (Qabs q) then c else c - 1.

(** The integer nearest to [q]; of two that are as near, the even one. *)
Definition nearest_even (q : Q) : Z :=
  let f := Qfloor q in
  match (q - inject_Z f ?= 1 # 2)%Q with
  | Lt => f
  | Gt => f + 1
  | Eq => if Z.even f then f else f + 1
  end.

(** The value a [double] has once it is converted to [float] (IEEE 754
    single precision, rounding to nearest, ties to even): a significand of
    24 bits, on a grid no finer than [2 ^ -149], in lowest terms. Beyond
    the largest float (about [3.4e38]) the conversion of the code yields an
    infinity, which a rational does not express: the model is the code up
    to there. *)
Definition float_round (q : Q) : Q :=
  if Qeq_bool q 0 then 0%Q
  else
    let e := Z.max (-149) (Qlog2 q - 23) in
    Qred (inject_Z (nearest_even (q * pow2 (- e))) * pow2 e).

(** [FLT_MAX], the largest float: [(2 ^ 24 - 1) * 2 ^ 104]. *)
Definition FLT_MAX : Q := inject_Z ((2 ^ 24 - 1) * 2 ^ 104).

Definition is_float (q : Q) : Prop := float_round q = q.

(** [Float_t]: the rationals that are floats. *)
Definition Float_t : Type := dsig is_float.

(** [Double_t(f)]: a float read as a [double], which is exact. *)
Definition to_double (f : Float_t) : Q := `f.

Definition Float0 : Float_t := 0%Q ↾ I.

(** [Float_t(q)]: a [double] converted to [float]. (What the rounding
    yields is a float, lemma [float_round_idempotent]; the second branch is
    never taken.) *)
Definition to_float (q : Q) : Float_t :=
  let r := float_round q in
  match decide (Is_true (bool_decide (is_float r))) with
  | left p => r ↾ p
  | right _ => Float0
  end.

(** ** ROOT histograms *)

(** A [TAxis] with fixed bins. *)
Record TAxis := mkTAxis {
  GetNbins : Z;
  GetXmin : Q;
  GetXmax : Q;
  axis_title : string
}.

(** A [TH1] ([TH1F] when [GetDimension] is 1, [TH2F] when it is 2). [fArray]
    holds the cells, which are floats, underflow and overflow included:
    cell [i] for a 1-D histogram, cell [i + (nx + 2) * j] for a 2-D one. *)
Record TH1 := mkTH1 {
  GetName : string;
  GetTitle : string;
  GetDimension : Z;
  GetXaxis : TAxis;
  GetYaxis : TAxis;
  fArray : list Float_t
}.

(** Modelled from the spec: the handle of the persistence collaborator
    ([MonitorElement], not part of the sources); it owns a [TH1] and lives in
    a folder of the DQM store. *)
Record MonitorElement := mkME {
  me_folder : string;
  getTH1 : TH1
}.

(** What the [th1] pointer of an accumulator points to: a histogram of its
    own ([Clone], [new TH1F]) or the one its [me] owns
    ([histo.th1 = histo.me->getTH1()]). *)
Inductive TH1Ptr :=
| OwnTH1 (h : TH1)
| MeTH1.

(** ** AbstractHistogram and the table *)

(** Modelled from the spec: [AbstractHistogram] (declared in a header that is
    not part of the sources): a counter and the two nullable pointers the
    code tests. *)
Record AbstractHistogram := mkAH {
  count : Z;
  me : option MonitorElement;
  th1 : option TH1Ptr
}.

(** A default-constructed accumulator, as [operator[]] of the map creates. *)
Definition AbstractHistogram0 : AbstractHistogram :=
  {| count := 0; me := None; th1 := None |}.

(** The histogram the [th1] pointer leads to. *)
Definition th1_target (a : AbstractHistogram) : option TH1 :=
  match th1 a with
  | Some (OwnTH1 h) => Some h
  | Some MeTH1 => getTH1 <$> me a
  | None => None
  end.

Abbreviation Table := (list (Values * AbstractHistogram)).

Module Table.

(** [t.find(k)] *)
Fixpoint find (k : Values) (t : Table) : option AbstractHistogram :=
  match t with
  | [] => None
  | (k', a) :: r => if decide (k = k') then Some a else find k r
  end.

(** Ordered insertion, replacing the entry of an equal key. *)
Fixpoint insert (k : Values) (a : AbstractHistogram) (t : Table) : Table :=
  match t with
  | [] => [(k, a)]
  | (k', a') :: r =>
      if decide (k = k') then (k, a) :: r
      else if Values.ltb k k' then (k, a) :: (k', a') :: r
      else (k', a') :: insert k a r
  end.

(** [t[k]] as an lvalue: the entry is created if it is absent. *)
Definition touch (k : Values) (t : Table) : Table :=
  match find k t with
  | Some _ => t
  | None => insert k AbstractHistogram0 t
  end.

(** [t[k]] as an rvalue, after [touch]. *)
Definition at_ (k : Values) (t : Table) : AbstractHistogram :=
  default AbstractHistogram0 (find k t).

(** A write through a pointer to the entry of [k]. *)
Fixpoint modify (k : Values) (f : AbstractHistogram -> AbstractHistogram)
    (t : Table) : Table :=
  match t with
  | [] => []
  | (k', a) :: r =>
      if decide (k = k') then (k', f a) :: r else (k', a) :: modify k f r
  end.

(** The first entry after key [k] in iteration order ([++it]). *)
Fixpoint next_after (k : Values) (t : Table)
    : option (Values * AbstractHistogram) :=
  match t with
  | [] => None
  | (k', a) :: r => if Values.ltb k k' then Some (k', a) else next_after k r
  end.

End Table.

(** ** Step programs *)

Module SummationStep.

(** Modelled from the spec: [SummationStep::Type] (the header of the
    specifications is not part of the sources): the types of steps, by the
    names the code gives them. *)
Inductive Type_ :=
| SAVE | COUNT | EXTEND_X | EXTEND_Y | GROUPBY | REDUCE | CUSTOM | NO_TYPE.

(** Modelled from the spec: [SummationStep::Stage]: per event ([STAGE1]),
    per-event harvesting ([STAGE1_2]) and after the run ([STAGE2]). *)
Inductive Stage := STAGE1 | STAGE1_2 | STAGE2.

#[global] Instance Type_eq_dec : EqDecision Type_.
Proof. solve_decision. Defined.

#[global] Instance Stage_eq_dec : EqDecision Stage.
Proof. solve_decision. Defined.

End SummationStep.

Import SummationStep.

(** Modelled from the spec: [SummationStep], with the members the code
    reads. *)
Record SummationStep := mkStep {
  type : Type_;
  stage : Stage;
  columns : list Column;
  arg : string
}.

(** Modelled from the spec: [SummationSpecification], an ordered sequence of
    steps. *)
Record SummationSpecification := mkSpec {
  steps : list SummationStep
}.

(** The configuration members of [HistogramManager] the executors read. *)
Record HistogramManager := mkManager {
  enabled : bool;
  bookUndefined : bool;
  dimensions : Z;
  top_folder_name : string
}.

(** ** Outcomes *)

Inductive Error :=
| AssertionFailed
| StepsOutOfRange      (* s.steps.at(i + 1) *)
| ColumnsOutOfRange    (* step.columns.at(0) *)
| NullPointer.         (* a call through a null TH1* *)

Inductive Outcome (A : Type) :=
| Ok (a : A)
| Fatal (e : Error).
Arguments Ok {A} a.
Arguments Fatal {A} e.

(** ** Pointers to accumulators *)

(** An [AbstractHistogram*]: a pointer into the table (to the entry of a
    key; [std::map] never moves its entries), or a pointer to the copy
    [for (auto e : t)] made of the entry of a key. The copy has its own
    [count], and shares what [me] and [th1] point to with the entry. *)
Inductive HistoPtr :=
| InTable (k : Values)
| Copy (k : Values) (a : AbstractHistogram).

Definition bound (a : AbstractHistogram) : bool :=
  bool_decide (is_Some (th1 a)) || bool_decide (is_Some (me a)).

Definition set_count (c : Z) (a : AbstractHistogram) : AbstractHistogram :=
  {| count := c; me := me a; th1 := th1 a |}.

(** [count++] *)
Definition incr_count (a : AbstractHistogram) : AbstractHistogram :=
  set_count (wrap32 (count a + 1)) a.

(** [p->count] *)
Definition ptr_count (p : HistoPtr) (t : Table) : Z :=
  match p with
  | InTable k => count (Table.at_ k t)
  | Copy _ a => count a
  end.

(** [p->count++] *)
Definition ptr_incr (p : HistoPtr) (t : Table) : HistoPtr * Table :=
  match p with
  | InTable k => (p, Table.modify k incr_count t)
  | Copy k a => (Copy k (incr_count a), t)
  end.

(** [p->fill(...)], where [f] is the fill: through a copy it reaches the
    histogram the entry shares with the copy, or else the copy's counter. *)
Definition ptr_fill (f : AbstractHistogram -> AbstractHistogram)
    (p : HistoPtr) (t : Table) : HistoPtr * Table :=
  match p with
  | InTable k => (p, Table.modify k f t)
  | Copy k a => if bound a then (p, Table.modify k f t) else (Copy k (f a), t)
  end.

(** ** Stage 1: the per-sample executor *)

(** The variables of one call of [executeStep1Spec]. *)
Record Locals := mkLocals {
  l_x : Q;
  l_y : Q;
  l_dimensions : Z;
  l_significantvalues : Values;
  l_t : Table;
  l_fastpath : option HistoPtr
}.

(** How the body of the step loop leaves: on to the next step, [return], or
    an abort. *)
Inductive Flow :=
| Next (l : Locals)
| Return (l : Locals)
| Throw (e : Error).

Section Stage1.

(** ROOT's [TH1::Fill(x)] and [Fill(x, y)], which choose the bin from the
    axis ranges; the executor only hands them the values. *)
Variable TH1_Fill : TH1 -> Q -> TH1.
Variable TH1_Fill2 : TH1 -> Q -> Q -> TH1.

Definition fill_with (F : TH1 -> TH1) (a : AbstractHistogram)
    : AbstractHistogram :=
  match me a with
  | Some m =>
      {| count := count a;
         me := Some {| me_folder := me_folder m; getTH1 := F (getTH1 m) |};
         th1 := th1 a |}
  | None =>
      match th1 a with
      | Some (OwnTH1 h) =>
          {| count := count a; me := None; th1 := Some (OwnTH1 (F h)) |}
      | Some MeTH1 => a
      | None => incr_count a
      end
  end.

(** Modelled from the spec: [AbstractHistogram::fill(x)] (the header is not
    part of the sources): filling a histogram fills the bound histogram,
    filling a counter increments its count. *)
Definition fill (x : Q) : AbstractHistogram -> AbstractHistogram :=
  fill_with (fun h => TH1_Fill h x).

(** Modelled from the spec: [AbstractHistogram::fill(x, y)]. *)
Definition fill2 (x y : Q) : AbstractHistogram -> AbstractHistogram :=
  fill_with (fun h => TH1_Fill2 h x y).

(** The body of the loop over [s.steps], at index [i]. *)
Definition step1 (s : SummationSpecification) (stg : Stage) (i : nat)
    (step : SummationStep) (l : Locals) : Flow :=
  let sv := l_significantvalues l in
  let t := l_t l in
  if decide (stage step = stg) then
    match type step with
    | SAVE => Next l
    | COUNT =>
        match steps s !! (i + 1)%nat with
        | None => Throw StepsOutOfRange
        | Some nx =>
            if decide (stage nx = STAGE1_2) then
              let '(p, t1) :=
                match l_fastpath l with
                | Some p => (p, t)
                | None => (InTable sv, Table.touch sv t)
                end in
              let '(p2, t2) := ptr_incr p t1 in
              Return (mkLocals 0 0 0 sv t2 (Some p2))
            else Next (mkLocals 0 0 0 sv t (l_fastpath l))
        end
    | EXTEND_X =>
        if Qeq_bool (l_x l) 0 && negb (l_dimensions l =? 1) then
          match columns step !! 0%nat with
          | None => Throw ColumnsOutOfRange
          | Some c =>
              Next (mkLocals (inject_Z (Values.index sv c)) (l_y l)
                      (if l_dimensions l =? 0 then 1 else 2)
                      (Values.erase sv c) t (l_fastpath l))
          end
        else Throw AssertionFailed
    | EXTEND_Y =>
        if Qeq_bool (l_y l) 0 then
          match columns step !! 0%nat with
          | None => Throw ColumnsOutOfRange
          | Some c =>
              Next (mkLocals (l_x l) (inject_Z (Values.index sv c)) 2
                      (Values.erase sv c) t (l_fastpath l))
          end
        else Throw AssertionFailed
    | GROUPBY =>
        if decide (stg = STAGE1_2) then
          let '(x1, t1) :=
            match l_fastpath l with
            | None =>
                (inject_Z (count (Table.at_ sv (Table.touch sv t))),
                 Table.touch sv t)
            | Some p => (inject_Z (ptr_count p t), t)
            end in
          let t2 := Table.modify sv (set_count 0) (Table.touch sv t1) in
          Next (mkLocals x1 (l_y l) 1 (regroup (columns step) sv) t2 None)
        else Throw AssertionFailed
    | REDUCE | CUSTOM | NO_TYPE => Throw AssertionFailed
    end
  else Next l.

(** [for (unsigned int i = 0; i < s.steps.size(); i++)], from index [i] on
    the steps [rest]. *)
Fixpoint walk (s : SummationSpecification) (stg : Stage) (i : nat)
    (rest : list SummationStep) (l : Locals) : Flow :=
  match rest with
  | [] => Next l
  | step :: rest' =>
      match step1 s stg i step l with
      | Next l' => walk s stg (S i) rest' l'
      | w => w
      end
  end.

(** What the by-reference parameters hold when a call returns. *)
Definition Step1Result : Type := Values * Table * option HistoPtr.

Definition returned (l : Locals) : Step1Result :=
  (l_significantvalues l, l_t l, l_fastpath l).

(** The code after the loop: find the accumulator, fill it. *)
Definition finish (this : HistogramManager) (l : Locals)
    : Outcome Step1Result :=
  let sv := l_significantvalues l in
  let t := l_t l in
  let the_fill :=
    if l_dimensions l =? 0 then fill 0
    else if l_dimensions l =? 1 then fill (l_x l)
    else fill2 (l_x l) (l_y l) in
  let filled p :=
    let '(p', t') := ptr_fill the_fill p t in Ok (sv, t', Some p') in
  let ignored :=
    if bookUndefined this then Fatal AssertionFailed else Ok (sv, t, None) in
  match l_fastpath l with
  | Some p => filled p
  | None =>
      match Table.find sv t with
      | Some histo => if bound histo then filled (InTable sv) else ignored
      | None => ignored
      end
  end.

Definition executeStep1Spec (this : HistogramManager) (x y : Q)
    (significantvalues : Values) (s : SummationSpecification) (t : Table)
    (stg : Stage) (fastpath : option HistoPtr) : Outcome Step1Result :=
  let l0 := mkLocals x y (dimensions this) significantvalues t fastpath in
  match walk s stg 0 (steps s) l0 with
  | Throw e => Fatal e
  | Return l => Ok (returned l)
  | Next l => finish this l
  end.

End Stage1.

(** ** The manager: fills and per-event harvesting *)

(** What the manager keeps per specification [i]: [significantvalues[i]],
    [tables[i]] and [fastpath[i]]. *)
Record SpecState := mkSpecState {
  significantvalues : Values;
  tables : Table;
  fastpath : option HistoPtr
}.

Section Manager.

Variable TH1_Fill : TH1 -> Q -> TH1.
Variable TH1_Fill2 : TH1 -> Q -> Q -> TH1.

(** [HistogramManager::fill] for one specification. [cached] is the outcome
    of the comparison with the last source, [extracted] what
    [extractColumns] yields for the new one. *)
Definition fill_spec (this : HistogramManager) (s : SummationSpecification)
    (cached : bool) (extracted : Values) (x y : Q) (st : SpecState)
    : Outcome SpecState :=
  if negb (enabled this) then Ok st
  else
    let sv := if cached then significantvalues st else extracted in
    let fp := if cached then fastpath st else None in
    match executeStep1Spec TH1_Fill TH1_Fill2 this x y sv s (tables st)
            STAGE1 fp with
    | Fatal e => Fatal e
    | Ok (sv', t', fp') => Ok (mkSpecState sv' t' fp')
    end.

(** [for (auto e : t)] in [executePerEventHarvesting]: the iteration runs
    over the live map, so each round looks up the entry after the last one
    visited ([cur]) in the table as it is then. [None] when the fuel runs
    out. *)
Fixpoint harvest_loop (fuel : nat) (this : HistogramManager)
    (s : SummationSpecification) (ncolumns : nat) (cur : option Values)
    (st : SpecState) : option (Outcome SpecState) :=
  match fuel with
  | O => None
  | S fuel' =>
      let t := tables st in
      match match cur with
            | None => head t
            | Some k => Table.next_after k t
            end with
      | None => Some (Ok st)
      | Some (k, e) =>
          if decide (length k = ncolumns) then
            match executeStep1Spec TH1_Fill TH1_Fill2 this 0 0 k s t
                    STAGE1_2 (Some (Copy k e)) with
            | Fatal err => Some (Fatal err)
            | Ok (sv', t', _) =>
                harvest_loop fuel' this s ncolumns (Some k)
                  (mkSpecState sv' t' (fastpath st))
            end
          else harvest_loop fuel' this s ncolumns (Some k) st
      end
  end.

(** [executePerEventHarvesting] for one specification. [s.steps[0]] is only
    evaluated when the table has an entry. *)
Definition executePerEventHarvesting (fuel : nat) (this : HistogramManager)
    (s : SummationSpecification) (st : SpecState)
    : option (Outcome SpecState) :=
  if negb (enabled this) then Some (Ok st)
  else
    match tables st with
    | [] => Some (Ok st)
    | _ :: _ =>
        match steps s !! 0%nat with
        | None => Some (Fatal StepsOutOfRange)
        | Some step0 =>
            harvest_loop fuel this s (length (columns step0)) None st
        end
    end.

(** A call of the executor on a sample of one source: whether the key the
    last call left is passed (or else the extracted one), whether the cache
    slot the last call left is passed (or else an empty one), and the sample
    values. *)
Definition Call : Type := bool * bool * Q * Q.

(** A sequence of calls of the executor in stage [STAGE1] on samples of one
    source, whose extracted key is [k]. *)
Fixpoint run_calls (this : HistogramManager) (s : SummationSpecification)
    (k : Values) (calls : list Call) (st : SpecState) : Outcome SpecState :=
  match calls with
  | [] => Ok st
  | (reuse_key, keep_slot, x, y) :: rest =>
      let sv := if reuse_key then significantvalues st else k in
      let fp := if keep_slot then fastpath st else None in
      match executeStep1Spec TH1_Fill TH1_Fill2 this x y sv s (tables st)
              STAGE1 fp with
      | Fatal e => Fatal e
      | Ok (sv', t', fp') => run_calls this s k rest (mkSpecState sv' t' fp')
      end
  end.

(** The calls of [fill] for the samples of one source, for one
    specification: [cached] tells whether the first call is a cache hit,
    the following ones are. *)
Fixpoint fills (this : HistogramManager) (s : SummationSpecification)
    (extracted : Values) (cached : bool) (samples : list (Q * Q))
    (st : SpecState) : Outcome SpecState :=
  match samples with
  | [] => Ok st
  | (x, y) :: rest =>
      match fill_spec this s cached extracted x y st with
      | Fatal e => Fatal e
      | Ok st' => fills this s extracted true rest st'
      end
  end.

End Manager.

(** ** ROOT: bins, constructors, [Add] *)

Definition Nx (h : TH1) : Z := GetNbins (GetXaxis h).
Definition Ny (h : TH1) : Z := GetNbins (GetYaxis h).

Definition clamp (lo hi z : Z) : Z := Z.max lo (Z.min hi z).

(** [TH1::GetBin(binx, biny)]: the cell of a pair of bin numbers, each
    brought into the range of its axis; a 1-D histogram ignores [biny]. *)
Definition GetBin (h : TH1) (binx biny : Z) : Z :=
  let bx := clamp 0 (Nx h + 1) binx in
  if GetDimension h <? 2 then bx
  else bx + (Nx h + 2) * clamp 0 (Ny h + 1) biny.

(** [TH1::GetBinContent(bin)]: the cell, as a [double]. *)
Definition GetBinContent (h : TH1) (bin : Z) : Q :=
  let ncells := Z.of_nat (length (fArray h)) in
  to_double (default Float0 (fArray h !! Z.to_nat (clamp 0 (ncells - 1) bin))).

(** [TH1::GetBinContent(binx, biny)] *)
Definition GetBinContent2 (h : TH1) (binx biny : Z) : Q :=
  GetBinContent h (GetBin h binx biny).

Definition with_fArray (h : TH1) (a : list Float_t) : TH1 :=
  {| GetName := GetName h; GetTitle := GetTitle h;
     GetDimension := GetDimension h; GetXaxis := GetXaxis h;
     GetYaxis := GetYaxis h; fArray := a |}.

(** [TH1::SetBinContent(bin, content)]
    ([fArray[bin] = Float_t(content)]): a cell outside the array is left
    alone. *)
Definition SetBinContent (h : TH1) (bin : Z) (content : Q) : TH1 :=
  if bin <? 0 then h
  else with_fArray h (<[Z.to_nat bin := to_float content]> (fArray h)).

(** [TH2::SetBinContent(binx, biny, content)] *)
Definition SetBinContent2 (h : TH1) (binx biny : Z) (content : Q) : TH1 :=
  SetBinContent h (GetBin h binx biny) content.

(** A title of the form [title;x axis;y axis] is split by ROOT when a
    histogram is constructed. *)
Fixpoint split_title (s : string) : list string :=
  match s with
  | EmptyString => [EmptyString]
  | String c r =>
      if Ascii.eqb c ";" then EmptyString :: split_title r
      else
        match split_title r with
        | p :: ps => String c p :: ps
        | [] => [String c EmptyString]
        end
  end.

Definition title_part (i : nat) (s : string) : string :=
  default EmptyString (split_title s !! i).

(** ROOT gives a histogram at least one bin per axis. *)
Definition at_least_one (nbins : Z) : Z := if nbins <=? 0 then 1 else nbins.

(** [new TH1F(name, title, nbinsx, xlow, xup)] *)
Definition new_TH1F (name title : string) (nbinsx : Z) (xlow xup : Q)
    : TH1 :=
  let nx := at_least_one nbinsx in
  {| GetName := name;
     GetTitle := title_part 0 title;
     GetDimension := 1;
     GetXaxis := mkTAxis nx xlow xup (title_part 1 title);
     GetYaxis := mkTAxis 1 0 1 (title_part 2 title);
     fArray := replicate (Z.to_nat (nx + 2)) Float0 |}.

(** [new TH2F(name, title, nbinsx, xlow, xup, nbinsy, ylow, yup)] *)
Definition new_TH2F (name title : string) (nbinsx : Z) (xlow xup : Q)
    (nbinsy : Z) (ylow yup : Q) : TH1 :=
  let nx := at_least_one nbinsx in
  let ny := at_least_one nbinsy in
  {| GetName := name;
     GetTitle := title_part 0 title;
     GetDimension := 2;
     GetXaxis := mkTAxis nx xlow xup (title_part 1 title);
     GetYaxis := mkTAxis ny ylow yup (title_part 2 title);
     fArray := replicate (Z.to_nat ((nx + 2) * (ny + 2))) Float0 |}.

(** The cells of two histograms added one by one
    ([fArray[bin] += Float_t(w)]): the sum of two cells is rounded to a
    float. *)
Definition add_cells (a b : list Float_t) : list Float_t :=
  zip_with (fun x y => to_float (to_double x + to_double y)) a b.

(** [h->Add(h1)]: the cells of [h1] are added to those of [h]. ROOT reports
    an error and leaves [h] alone when [h1] is null or when the two do not
    have the same number of cells. *)
Definition TH1_Add (h : TH1) (h1 : option TH1) : TH1 :=
  match h1 with
  | None => h
  | Some h1 =>
      if decide (length (fArray h) = length (fArray h1))
      then with_fArray h (add_cells (fArray h) (fArray h1))
      else h
  end.

(** [for (int i = 1; i <= n; i++)]: the values [i] takes. *)
Definition from_1_to (n : Z) : list Z :=
  Z.of_nat <$> seq 1 (Z.to_nat n).

(** ** The DQM store seen through [DQMStore::IBooker] *)

(** Modelled from the spec: the persistence collaborator
    ([DQMStore::IBooker], not part of the sources), which is given a name, a
    title, bin counts and ranges and returns a handle: the current folder
    and the monitor elements booked so far, as (folder, name) pairs. Booking
    is taken to hand out a new [MonitorElement] each time. *)
Record IBooker := mkIBooker {
  currentFolder : string;
  booked : list (string * string)
}.

Definition setCurrentFolder (path : string) (b : IBooker) : IBooker :=
  {| currentFolder := path; booked := booked b |}.

Definition book1D (name title : string) (nbins : Z) (lo hi : Q)
    (b : IBooker) : IBooker * MonitorElement :=
  ({| currentFolder := currentFolder b;
      booked := booked b ++ [(currentFolder b, name)] |},
   {| me_folder := currentFolder b;
      getTH1 := new_TH1F name title nbins lo hi |}).

Definition book2D (name title : string) (nbinsx : Z) (xlo xhi : Q)
    (nbinsy : Z) (ylo yhi : Q) (b : IBooker) : IBooker * MonitorElement :=
  ({| currentFolder := currentFolder b;
      booked := booked b ++ [(currentFolder b, name)] |},
   {| me_folder := currentFolder b;
      getTH1 := new_TH2F name title nbinsx xlo xhi nbinsy ylo yhi |}).

Definition with_title (a : TAxis) (title : string) : TAxis :=
  mkTAxis (GetNbins a) (GetXmin a) (GetXmax a) title.

(** [me->setAxisTitle(title, axis)] *)
Definition setAxisTitle (title : string) (axis : Z) (m : MonitorElement)
    : MonitorElement :=
  let h := getTH1 m in
  {| me_folder := me_folder m;
     getTH1 :=
       {| GetName := GetName h; GetTitle := GetTitle h;
          GetDimension := GetDimension h;
          GetXaxis :=
            if axis =? 1 then with_title (GetXaxis h) title else GetXaxis h;
          GetYaxis :=
            if axis =? 2 then with_title (GetYaxis h) title else GetYaxis h;
          fArray := fArray h |} |}.

(** ** Stage 2: harvesting *)

Section Stage2.

(** [geometryInterface.pretty] and [std::to_string] on a [Value]. *)
Variable pretty : Column -> string.
Variable to_string : Value -> string.

(** ROOT's [TH1::GetMean] and [TH1::GetEntries]. *)
Variable GetMean : TH1 -> Q.
Variable GetEntries : TH1 -> Q.

Local Open Scope string_scope.

(** [std::map<int, std::string> shellname] read with [operator[]]. *)
Definition shellname (v : Value) : string :=
  if (v =? 11)%Z then "_mI"
  else if (v =? 12)%Z then "_mO"
  else if (v =? 21)%Z then "_pI"
  else if (v =? 22)%Z then "_pO"
  else EmptyString.

(** What one (column, value) pair adds to the path. *)
Definition makePath_entry (e : Column * Value) : string :=
  let name := pretty (fst e) in
  let value := "_" ++ to_string (snd e) in
  let value := if (snd e =? 0)%Z then EmptyString else value in
  if String.eqb name EmptyString then EmptyString
  else
    let value :=
      if String.eqb name "PXDisk" && (0 <? snd e)%Z
      then "_+" ++ to_string (snd e) else value in
    let value :=
      if String.eqb name "HalfCylinder" || String.eqb name "Shell"
      then shellname (snd e) else value in
    let value :=
      if (snd e =? UNDEFINED)%Z then "_UNDEFINED" else value in
    name ++ value ++ "/".

Definition makePath (this : HistogramManager) (significantvalues : Values)
    : string :=
  top_folder_name this ++ "/"
    ++ String.concat EmptyString (makePath_entry <$> significantvalues).

(** The body of the loop of [executeSave] for one entry. *)
Definition save_entry (this : HistogramManager) (k : Values)
    (e : AbstractHistogram) (iBooker : IBooker)
    : Outcome (AbstractHistogram * IBooker) :=
  if bool_decide (is_Some (me e)) then Ok (e, iBooker)
  else if bookUndefined this && negb (bool_decide (is_Some (th1 e)))
  then Fatal AssertionFailed
  else
    match th1 e with
    | None => Ok (e, iBooker)
    | Some _ =>
        match th1_target e with
        | None => Fatal NullPointer
        | Some h =>
            let b1 := setCurrentFolder (makePath this k) iBooker in
            let '(b2, m) :=
              if (GetDimension h =? 1)%Z then
                let ax := GetXaxis h in
                let '(b2, m) :=
                  book1D (GetName h) (GetTitle h) (GetNbins ax) (GetXmin ax)
                    (GetXmax ax) b1 in
                (b2, setAxisTitle (axis_title (GetYaxis h)) 2
                       (setAxisTitle (axis_title ax) 1 m))
              else
                let axX := GetXaxis h in
                let axY := GetYaxis h in
                let '(b2, m) :=
                  book2D (GetName h) (GetTitle h) (GetNbins axX) (GetXmin axX)
                    (GetXmax axX) (GetNbins axY) (GetXmin axY) (GetXmax axY)
                    b1 in
                (b2, setAxisTitle (axis_title axY) 2
                       (setAxisTitle (axis_title axX) 1 m)) in
            let m' :=
              {| me_folder := me_folder m;
                 getTH1 := TH1_Add (getTH1 m) (Some h) |} in
            Ok ({| count := count e; me := Some m'; th1 := Some MeTH1 |}, b2)
        end
    end.

(** [executeSave]: [for (auto& e : t)], the entries changed in place. *)
Fixpoint executeSave (this : HistogramManager) (t : Table)
    (iBooker : IBooker) : Outcome (Table * IBooker) :=
  match t with
  | [] => Ok ([], iBooker)
  | (k, e) :: r =>
      match save_entry this k e iBooker with
      | Fatal err => Fatal err
      | Ok (e', b') =>
          match executeSave this r b' with
          | Fatal err => Fatal err
          | Ok (r', b'') => Ok ((k, e') :: r', b'')
          end
      end
  end.

(** The end of a line of the log. *)
Definition newline : string := String (ascii_of_nat 10) EmptyString.

(** The body of the loop of [executeGroupBy] for one entry. *)
Definition groupby_entry (step : SummationStep) (k : Values)
    (e : AbstractHistogram) (out : Table) : Outcome Table :=
  let new_vals := regroup (columns step) k in
  let out1 := Table.touch new_vals out in
  let new_histo := Table.at_ new_vals out1 in
  match th1 new_histo with
  | None =>
      (* [new_histo.th1 = th1->Clone()] *)
      match th1_target e with
      | None => Fatal NullPointer
      | Some h =>
          Ok (Table.modify new_vals
                (fun a => {| count := count a; me := me a;
                             th1 := Some (OwnTH1 h) |}) out1)
      end
  | Some (OwnTH1 nh) =>
      (* [new_histo.th1->Add(th1)] *)
      Ok (Table.modify new_vals
            (fun a => {| count := count a; me := me a;
                         th1 := Some (OwnTH1 (TH1_Add nh (th1_target e))) |})
            out1)
  | Some MeTH1 => Fatal NullPointer
  end.

Fixpoint groupby_loop (step : SummationStep) (t : Table) (out : Table)
    : Outcome Table :=
  match t with
  | [] => Ok out
  | (k, e) :: r =>
      match groupby_entry step k e out with
      | Fatal err => Fatal err
      | Ok out' => groupby_loop step r out'
      end
  end.

(** [executeGroupBy]: the table is swapped for [out]. *)
Definition executeGroupBy (step : SummationStep) (t : Table)
    : Outcome Table :=
  groupby_loop step t [].

(** The body of the loop of [executeReduce] for one entry; the second
    component is what the entry sends to [edm::LogError]. *)
Definition reduce_entry (step : SummationStep) (k : Values)
    (e : AbstractHistogram) (out : Table) : Outcome (Table * list string) :=
  match th1_target e with
  | None => Fatal NullPointer
  | Some h =>
      let out1 := Table.touch k out in
      let '(reduced_quantity, label, name, errors) :=
        if String.eqb (arg step) "MEAN" then
          (GetMean h, EmptyString ++ "mean of " ++ axis_title (GetXaxis h),
           "mean_" ++ GetName h, [])
        else if String.eqb (arg step) "COUNT" then
          (GetEntries h,
           EmptyString ++ "# of " ++ axis_title (GetXaxis h) ++ " entries",
           "num_" ++ GetName h, [])
        else
          (0%Q, EmptyString, GetName h,
           ["+++ Reduction '" ++ arg step ++ " not yet implemented"
              ++ newline]) in
      let new_th1 :=
        SetBinContent
          (new_TH1F name (EmptyString ++ GetTitle h ++ ";;" ++ label) 1 0 1)
          1 reduced_quantity in
      Ok (Table.modify k
            (fun a => {| count := count a; me := me a;
                         th1 := Some (OwnTH1 new_th1) |}) out1,
          errors)
  end.

Fixpoint reduce_loop (step : SummationStep) (t : Table) (out : Table)
    (log : list string) : Outcome (Table * list string) :=
  match t with
  | [] => Ok (out, log)
  | (k, e) :: r =>
      match reduce_entry step k e out with
      | Fatal err => Fatal err
      | Ok (out', errors) => reduce_loop step r out' (log ++ errors)%list
      end
  end.

(** [executeReduce]: the new table and the errors logged. *)
Definition executeReduce (step : SummationStep) (t : Table)
    : Outcome (Table * list string) :=
  reduce_loop step t [] [].

(** [std::map<GeometryInterface::Values, int> nbins], read with
    [operator[]]. *)
Fixpoint nbins_at (new_vals : Values) (nbins : list (Values * Z)) : Z :=
  match nbins with
  | [] => 0%Z
  | (k, n) :: r => if decide (new_vals = k) then n else nbins_at new_vals r
  end.

Fixpoint nbins_set (new_vals : Values) (n : Z) (nbins : list (Values * Z))
    : list (Values * Z) :=
  match nbins with
  | [] => [(new_vals, n)]
  | (k, m) :: r =>
      if decide (new_vals = k) then (k, n) :: r
      else (k, m) :: nbins_set new_vals n r
  end.

(** The first pass of [executeExtend]: the number of bins of every
    resulting key. *)
Fixpoint extend_nbins (step : SummationStep) (isX : bool) (t : Table)
    (nbins : list (Values * Z)) : Outcome (list (Values * Z)) :=
  match t with
  | [] => Ok nbins
  | (k, e) :: r =>
      match columns step !! 0%nat with
      | None => Fatal ColumnsOutOfRange
      | Some c =>
          let new_vals := Values.erase k c in
          match th1 e, th1_target e with
          | None, _ => Fatal AssertionFailed
          | Some _, None => Fatal NullPointer
          | Some _, Some h =>
              let n := nbins_at new_vals nbins in
              let n' := wrap32 (n + (if isX then Nx h else Ny h)) in
              extend_nbins step isX r (nbins_set new_vals n' nbins)
          end
      end
  end.

(** The loops that add the data of [h] to [new_th1] at the fill pointer
    [cnt]. *)
Definition copy_1D (h : TH1) (acc : TH1 * Z) : TH1 * Z :=
  fold_left
    (fun '(new_th1, cnt) i =>
       (SetBinContent new_th1 cnt (GetBinContent h i), wrap32 (cnt + 1)))
    (from_1_to (Nx h)) acc.

Definition copy_2D_X (h : TH1) (acc : TH1 * Z) : TH1 * Z :=
  fold_left
    (fun '(new_th1, cnt) i =>
       (fold_left
          (fun new_th1 j =>
             SetBinContent2 new_th1 cnt j (GetBinContent2 h i j))
          (from_1_to (Ny h)) new_th1,
        wrap32 (cnt + 1)))
    (from_1_to (Nx h)) acc.

Definition copy_2D_Y (h : TH1) (acc : TH1 * Z) : TH1 * Z :=
  fold_left
    (fun '(new_th1, cnt) j =>
       (fold_left
          (fun new_th1 i =>
             SetBinContent2 new_th1 i cnt (GetBinContent2 h i j))
          (from_1_to (Nx h)) new_th1,
        wrap32 (cnt + 1)))
    (from_1_to (Ny h)) acc.

(** The histogram booked for a resulting key when its first entry arrives.
    The code keeps the title as [c_str()] of a temporary string, which is
    gone when the histogram is constructed: what ROOT reads as the title
    is not determined by the language. The model takes the string that
    was built; nothing that is stated of [executeExtend] reads the title
    or the axis titles of the histogram it books. *)
Definition extend_book (isX : bool) (colname : string) (h : TH1) (n : Z)
    : TH1 :=
  let title :=
    if isX then
      EmptyString ++ GetTitle h ++ " per " ++ colname ++ ";" ++ colname ++ "/"
         ++ axis_title (GetXaxis h) ++ ";" ++ axis_title (GetYaxis h)
    else
      EmptyString ++ GetTitle h ++ " per " ++ colname ++ ";"
         ++ axis_title (GetXaxis h) ++ ";" ++ colname ++ "/"
         ++ axis_title (GetYaxis h) in
  if (GetDimension h =? 1)%Z && isX then
    new_TH1F (GetName h) title n (1 # 2) (inject_Z n + (1 # 2))
  else if isX then
    new_TH2F (GetName h) title n (1 # 2) (inject_Z n + (1 # 2))
      (Ny h) (1 # 2) (inject_Z (Ny h) + (1 # 2))
  else
    new_TH2F (GetName h) title (Nx h) (1 # 2) (inject_Z (Nx h) + (1 # 2))
      n (1 # 2) (inject_Z n + (1 # 2)).

(** The body of the second loop of [executeExtend] for one entry. *)
Definition extend_entry (step : SummationStep) (isX : bool)
    (nbins : list (Values * Z)) (k : Values) (e : AbstractHistogram)
    (out : Table) : Outcome Table :=
  match columns step !! 0%nat with
  | None => Fatal ColumnsOutOfRange
  | Some c =>
      let col0 := fst (Values.get k c) in
      let new_vals := Values.erase k c in
      let colname := pretty col0 in
      match th1 e, th1_target e with
      | None, _ => Fatal AssertionFailed
      | Some _, None => Fatal NullPointer
      | Some _, Some h =>
          let out1 := Table.touch new_vals out in
          let new_histo := Table.at_ new_vals out1 in
          let booked_histo :=
            match th1 new_histo with
            | None =>
                Some (extend_book isX colname h (nbins_at new_vals nbins), 1%Z)
            | Some (OwnTH1 nh) => Some (nh, count new_histo)
            | Some MeTH1 => None
            end in
          match booked_histo with
          | None => Fatal NullPointer
          | Some (nh, cnt) =>
              let '(nh', cnt') :=
                if (GetDimension nh =? 1)%Z then copy_1D h (nh, cnt)
                else if isX then copy_2D_X h (nh, cnt)
                else copy_2D_Y h (nh, cnt) in
              Ok (Table.modify new_vals
                    (fun a => {| count := cnt'; me := me a;
                                 th1 := Some (OwnTH1 nh') |}) out1)
          end
      end
  end.

Fixpoint extend_loop (step : SummationStep) (isX : bool)
    (nbins : list (Values * Z)) (t : Table) (out : Table) : Outcome Table :=
  match t with
  | [] => Ok out
  | (k, e) :: r =>
      match extend_entry step isX nbins k e out with
      | Fatal err => Fatal err
      | Ok out' => extend_loop step isX nbins r out'
      end
  end.

(** [executeExtend]: both passes, then the table is swapped for [out]. *)
Definition executeExtend (step : SummationStep) (t : Table) (isX : bool)
    : Outcome Table :=
  match extend_nbins step isX t [] with
  | Fatal err => Fatal err
  | Ok nbins => extend_loop step isX nbins t []
  end.

(** What stage 2 works on: the table, the booker and the error log. *)
Definition Harvest : Type := Table * IBooker * list string.

(** The body of the loop over the steps in [executeHarvestingOffline];
    [customHandler] is the handler a client may have installed. *)
Definition harvest_step (this : HistogramManager)
    (customHandler : option (SummationStep -> Table -> Table))
    (step : SummationStep) (st : Harvest) : Outcome Harvest :=
  let '(t, iBooker, log) := st in
  if decide (stage step = STAGE2) then
    match type step with
    | SAVE =>
        match executeSave this t iBooker with
        | Fatal err => Fatal err
        | Ok (t', b') => Ok (t', b', log)
        end
    | GROUPBY =>
        match executeGroupBy step t with
        | Fatal err => Fatal err
        | Ok t' => Ok (t', iBooker, log)
        end
    | REDUCE =>
        match executeReduce step t with
        | Fatal err => Fatal err
        | Ok (t', errors) => Ok (t', iBooker, (log ++ errors)%list)
        end
    | EXTEND_X =>
        match executeExtend step t true with
        | Fatal err => Fatal err
        | Ok t' => Ok (t', iBooker, log)
        end
    | EXTEND_Y =>
        match executeExtend step t false with
        | Fatal err => Fatal err
        | Ok t' => Ok (t', iBooker, log)
        end
    | CUSTOM =>
        match customHandler with
        | Some handler => Ok (handler step t, iBooker, log)
        | None => Ok st
        end
    | COUNT | NO_TYPE => Fatal AssertionFailed
    end
  else Ok st.

End Stage2.

(** ** An instance of ROOT's [Fill] for fixed bins *)

(** [TAxis::FindBin] *)
Definition FindBin (a : TAxis) (x : Q) : Z :=
  if Qlt_le_dec x (GetXmin a) then 0
  else if Qlt_le_dec x (GetXmax a) then
    1 + Qfloor (inject_Z (GetNbins a) * (x - GetXmin a)
                / (GetXmax a - GetXmin a))
  else GetNbins a + 1.

Definition AddBinContent (h : TH1) (bin : Z) : TH1 :=
  SetBinContent h bin (GetBinContent h bin + 1).

Definition Fill_fixed (h : TH1) (x : Q) : TH1 :=
  AddBinContent h (FindBin (GetXaxis h) x).

Definition Fill2_fixed (h : TH1) (x y : Q) : TH1 :=
  AddBinContent h (GetBin h (FindBin (GetXaxis h) x) (FindBin (GetYaxis h) y)).

(** ** Vocabulary of the properties *)

(** The invariant of a [std::map]: the keys of the entries ascend
    strictly. *)
Definition key_lt (k1 k2 : Values) : Prop := Values.ltb k1 k2 = true.

Definition Table_sorted (t : Table) : Prop := StronglySorted key_lt t.*1.

(** [k] is above all the keys of [t]. *)
Definition all_below (k : Values) (t : Table) : Prop :=
  Forall (fun e : Values * AbstractHistogram => Values.ltb e.1 k = true) t.

(** Every entry has a distribution behind its [th1]. *)
Definition all_have_th1 (t : Table) : Prop :=
  Forall (fun e : Values * AbstractHistogram => is_Some (th1_target e.2)) t.

Definition is_Return (f : Flow) : bool :=
  match f with Return _ => true | _ => false end.

(** The step after index [i] is a [GROUPBY] of the per-event harvesting
    stage. *)
Definition next_is_harvest_GROUPBY (s : SummationSpecification) (i : nat)
    : bool :=
  match steps s !! (i + 1)%nat with
  | Some nx => bool_decide (type nx = GROUPBY ∧ stage nx = STAGE1_2)
  | None => false
  end.

(** A histogram is booked for key [k]: the entry exists and has a
    histogram bound. *)
Definition booked_in (k : Values) (t : Table) : bool :=
  match Table.find k t with
  | Some histo => bound histo
  | None => false
  end.

(** A step that the stage-1 executor executes as a [COUNT]. *)
Definition COUNT_at (stg : Stage) (step : SummationStep) : Prop :=
  type step = COUNT ∧ stage step = stg.

(** The accumulator the per-event increment path works on, and the table
    once it is there. *)
Definition counter_of (l : Locals) : HistoPtr * Table :=
  match l_fastpath l with
  | Some p => (p, l_t l)
  | None =>
      (InTable (l_significantvalues l),
       Table.touch (l_significantvalues l) (l_t l))
  end.

(** The variables after a [COUNT] that goes on: only [x], [y] and
    [dimensions] are reset. *)
Definition count_reset (l : Locals) : Locals :=
  mkLocals 0 0 0 (l_significantvalues l) (l_t l) (l_fastpath l).

(** The variables at the [return] of the per-event increment path. *)
Definition count_incremented (l : Locals) : Locals :=
  let '(p, t1) := counter_of l in
  let '(p2, t2) := ptr_incr p t1 in
  mkLocals 0 0 0 (l_significantvalues l) t2 (Some p2).

(** Programs and tables of the examples. Columns 1 and 2 stand for two
    categorical dimensions. *)
Definition step_COUNT (stg : Stage) : SummationStep :=
  mkStep COUNT stg [1; 2] EmptyString.

Definition step_of (ty : Type_) (stg : Stage) (cols : list Column)
    : SummationStep :=
  mkStep ty stg cols EmptyString.

Definition manager0 : HistogramManager := mkManager true false 0 "Top".

Definition locals0 (sv : Values) (t : Table) : Locals :=
  mkLocals 0 0 0 sv t None.

(** [COUNT], then an [EXTEND_X] tagged with the per-event harvesting
    stage. *)
Definition spec_COUNT_EXTEND : SummationSpecification :=
  mkSpec [step_COUNT STAGE1; step_of EXTEND_X STAGE1_2 [2]].

(** [COUNT], then an [EXTEND_X] in the stage of the fills: the ladder
    becomes the x axis of a histogram per layer. *)
Definition spec_per_ladder : SummationSpecification :=
  mkSpec [step_COUNT STAGE1; step_of EXTEND_X STAGE1 [2];
          step_of SAVE STAGE2 []].

(** The claim that the increment path is taken exactly when a harvesting
    [GROUPBY] follows, at one [COUNT] step. *)
Definition increment_iff_GROUPBY (s : SummationSpecification) (stg : Stage)
    (i : nat) (step : SummationStep) (l : Locals) : Prop :=
  is_Return (step1 s stg i step l) = true
  <-> next_is_harvest_GROUPBY s i = true.

(** *** Stage 2 *)

(** What an entry becomes under a [REDUCE] whose reduction is not
    implemented: one bin, holding 0, under the name of the old
    distribution. *)
Definition zero_bin_of (e : AbstractHistogram) : AbstractHistogram :=
  match th1_target e with
  | Some h =>
      {| count := 0; me := None;
         th1 := Some (OwnTH1
                  (SetBinContent
                     (new_TH1F (GetName h) (GetTitle h ++ ";;") 1 0 1)
                     1 0)) |}
  | None => AbstractHistogram0
  end.

Definition not_implemented (step : SummationStep) : string :=
  "+++ Reduction '" ++ arg step ++ " not yet implemented" ++ newline.

(** The claim that a [REDUCE] leaves the distributions as they were. *)
Definition reduce_keeps_distributions (GetMean GetEntries : TH1 -> Q)
    (step : SummationStep) (t : Table) : Prop :=
  forall t' log,
    executeReduce GetMean GetEntries step t = Ok (t', log) ->
    forall k, th1_target <$> Table.find k t' = th1_target <$> Table.find k t.

(** Two entries that [EXTEND] on column [c] sends to one resulting key, one
    with a 1-D and one with a 2-D distribution. *)
Definition mixed_dimensionality (c : Column) (t : Table) : Prop :=
  exists k1 e1 h1 k2 e2 h2,
    (k1, e1) ∈ t /\ (k2, e2) ∈ t
    /\ Values.erase k1 c = Values.erase k2 c
    /\ th1_target e1 = Some h1 /\ th1_target e2 = Some h2
    /\ GetDimension h1 = 1 /\ GetDimension h2 = 2.

(** The claim that [EXTEND] is fatal on mixed dimensionality. *)
Definition extend_rejects_mixed (pretty : Column -> string)
    (step : SummationStep) (t : Table) (isX : bool) : Prop :=
  forall c,
    columns step !! 0%nat = Some c -> mixed_dimensionality c t ->
    exists err, executeExtend pretty step t isX = Fatal err.

(** Histograms of the examples: 1-D with the given bins (underflow and
    overflow empty), and 2-D with [nx] times one bin. *)
Definition th1_of_bins (name : string) (bins : list Q) : TH1 :=
  {| GetName := name; GetTitle := name; GetDimension := 1;
     GetXaxis := mkTAxis (Z.of_nat (length bins)) 0
                   (inject_Z (Z.of_nat (length bins))) "x";
     GetYaxis := mkTAxis 1 0 1 "y";
     fArray := [Float0] ++ (to_float <$> bins) ++ [Float0] |}.

Definition th2_of_bins (name : string) (bins : list Q) : TH1 :=
  {| GetName := name; GetTitle := name; GetDimension := 2;
     GetXaxis := mkTAxis (Z.of_nat (length bins)) 0
                   (inject_Z (Z.of_nat (length bins))) "x";
     GetYaxis := mkTAxis 1 0 1 "y";
     fArray := replicate (length bins + 2) Float0
               ++ [Float0] ++ (to_float <$> bins) ++ [Float0]
               ++ replicate (length bins + 2) Float0 |}.

Definition own (h : TH1) : AbstractHistogram :=
  {| count := 0; me := None; th1 := Some (OwnTH1 h) |}.

Definition pretty0 (c : Column) : string :=
  if c =? 1 then "Layer" else if c =? 2 then "Ladder" else EmptyString.

Definition to_string0 (v : Value) : string :=
  if v =? 1 then "1" else if v =? 2 then "2" else "n".

(** One 1-D distribution of two bins under layer 1. *)
Definition table_layer1 : Table :=
  [([(1, 1)], own (th1_of_bins "adc" [5; 3]%Q))].

(** Under layer 1, a 1-D distribution for ladder 10 and a 2-D one for
    ladder 20. *)
Definition table_mixed : Table :=
  [([(1, 1); (2, 10)], own (th1_of_bins "adc" [5; 3]%Q));
   ([(1, 1); (2, 20)], own (th2_of_bins "adc" [7]%Q))].

(** The [th1] of an accumulator points to a histogram of its own. *)
Definition owns_th1 (a : AbstractHistogram) : Prop :=
  exists h, th1 a = Some (OwnTH1 h).

(** No [th1] of the table dangles: it is null or leads to a histogram. *)
Definition no_dangling_th1 (t : Table) : Prop :=
  Forall (fun e : Values * AbstractHistogram =>
            th1 e.2 = None \/ is_Some (th1_target e.2)) t.

(** Under layer 1, a distribution for ladder 10 and an entry without one
    for ladder 20. *)
Definition table_hole : Table :=
  [([(1, 1); (2, 10)], own (th1_of_bins "adc" [5; 3]%Q));
   ([(1, 1); (2, 20)], AbstractHistogram0)].

(** *** Stage 1: the walk of a [fill], without the table *)

(** Where the walk of the executor leads in stage [STAGE1]: an abort, the
    per-event increment path on a key, or the end of the steps with the
    sample values, the dimensionality and the key it has then. *)
Inductive Route :=
| RThrow (e : Error)
| RCount (sv : Values)
| REnd (x y : Q) (d : Z) (sv : Values).

(** One step of [step1] in stage [STAGE1], on the variables that are not
    the table or the cache slot. *)
Definition route_step (s : SummationSpecification) (i : nat)
    (step : SummationStep) (x y : Q) (d : Z) (sv : Values) : Route :=
  if decide (stage step = STAGE1) then
    match type step with
    | SAVE => REnd x y d sv
    | COUNT =>
        match steps s !! (i + 1)%nat with
        | None => RThrow StepsOutOfRange
        | Some nx =>
            if decide (stage nx = STAGE1_2) then RCount sv
            else REnd 0 0 0 sv
        end
    | EXTEND_X =>
        if Qeq_bool x 0 && negb (d =? 1) then
          match columns step !! 0%nat with
          | None => RThrow ColumnsOutOfRange
          | Some c =>
              REnd (inject_Z (Values.index sv c)) y
                (if d =? 0 then 1 else 2) (Values.erase sv c)
          end
        else RThrow AssertionFailed
    | EXTEND_Y =>
        if Qeq_bool y 0 then
          match columns step !! 0%nat with
          | None => RThrow ColumnsOutOfRange
          | Some c =>
              REnd x (inject_Z (Values.index sv c)) 2 (Values.erase sv c)
          end
        else RThrow AssertionFailed
    | GROUPBY | REDUCE | CUSTOM | NO_TYPE => RThrow AssertionFailed
    end
  else REnd x y d sv.

Fixpoint route (s : SummationSpecification) (i : nat)
    (rest : list SummationStep) (x y : Q) (d : Z) (sv : Values) : Route :=
  match rest with
  | [] => REnd x y d sv
  | step :: rest' =>
      match route_step s i step x y d sv with
      | REnd x' y' d' sv' => route s (S i) rest' x' y' d' sv'
      | r => r
      end
  end.

(** The key a route ends on, when it does not abort. *)
Definition route_key (r : Route) : option (bool * Values) :=
  match r with
  | RThrow _ => None
  | RCount sv => Some (true, sv)
  | REnd _ _ _ sv => Some (false, sv)
  end.

(** Whether the walk of a [fill] ends on the per-event increment path, and
    the columns it erases from the key until then; the sample values decide
    only whether it gets that far. *)
Fixpoint walked (s : SummationSpecification) (i : nat)
    (rest : list SummationStep) : bool * list Column :=
  match rest with
  | [] => (false, [])
  | step :: rest' =>
      if decide (stage step = STAGE1) then
        match type step with
        | SAVE => walked s (S i) rest'
        | COUNT =>
            match steps s !! (i + 1)%nat with
            | None => (false, [])
            | Some nx =>
                if decide (stage nx = STAGE1_2) then (true, [])
                else walked s (S i) rest'
            end
        | EXTEND_X | EXTEND_Y =>
            match columns step !! 0%nat with
            | None => (false, [])
            | Some c => let '(b, E) := walked s (S i) rest' in (b, c :: E)
            end
        | GROUPBY | REDUCE | CUSTOM | NO_TYPE => (false, [])
        end
      else walked s (S i) rest'
  end.

(** The key the fills of a source with extracted key [k] work on. *)
Definition fill_key (s : SummationSpecification) (k : Values) : Values :=
  fold_left Values.erase (walked s 0 (steps s)).2 k.

(** What a cache slot [fp] left by a call for key [k] is: empty, or a
    pointer to the table entry the fills of [k] work on, which is there
    (and is a booked histogram when the fills fill). *)
Definition slot_valid (s : SummationSpecification) (k : Values) (t : Table)
    (fp : option HistoPtr) : Prop :=
  match fp with
  | None => True
  | Some p =>
      p = InTable (fill_key s k)
      /\ if (walked s 0 (steps s)).1
         then is_Some (Table.find (fill_key s k) t)
         else booked_in (fill_key s k) t = true
  end.

(** A key that the walk takes to the same key as [k]. *)
Definition key_ok (s : SummationSpecification) (k sv : Values) : Prop :=
  fill_key s sv = fill_key s k.

(** The same call without the cache slot. *)
Definition without_slot (c : Call) : Call :=
  let '(reuse_key, _, x, y) := c in (reuse_key, false, x, y).

(** The calls [HistogramManager::fill] makes for samples of one source: on
    a cache hit the key and the slot of the last call are passed, else
    neither. *)
Definition fill_call (c : bool * Q * Q) : Call :=
  let '(cached, x, y) := c in (cached, cached, x, y).

(** The executor called on every sample with the extracted key and the
    slot of the last call. *)
Definition carried_call (c : Q * Q) : Call :=
  let '(x, y) := c in (false, true, x, y).

Definition table_of (o : Outcome SpecState) : Outcome Table :=
  match o with
  | Ok st => Ok (tables st)
  | Fatal e => Fatal e
  end.

(** *** Per-event counting *)

(** The key following [cur] in the iteration over [t]. *)
Definition next_entry (cur : option Values) (t : Table)
    : option (Values * AbstractHistogram) :=
  match cur with
  | None => head t
  | Some k => Table.next_after k t
  end.

(** A program that counts per event and histograms the counts at harvest:
    [COUNT], then a [GROUPBY] on [cols] tagged with the per-event
    harvesting stage, then steps of stage 2 only. *)
Definition counts_per_event (s : SummationSpecification)
    (seed cols : list Column) : Prop :=
  exists a0 a1 rest,
    steps s = mkStep COUNT STAGE1 seed a0
              :: mkStep GROUPBY STAGE1_2 cols a1 :: rest
    /\ Forall (fun step => stage step = STAGE2) rest.

(** The example: counting per (layer, ladder), histogrammed per layer. *)
Definition spec_ndigis : SummationSpecification :=
  mkSpec [step_COUNT STAGE1; step_of GROUPBY STAGE1_2 [1];
          step_of SAVE STAGE2 []].

Definition me_per_layer : AbstractHistogram :=
  {| count := 0;
     me := Some (mkME "Top/Layer_1/" (new_TH1F "num_digis" "digis" 10 0 10));
     th1 := None |}.

Definition table_booked : Table := [([(1, 1)], me_per_layer)].

(** *** Stage 2: [GROUPBY] *)

(** Floats read as doubles. *)
Definition doubles (l : list Float_t) : list Q := to_double <$> l.

(** The cells of a distribution, as [GetBinContent] reads them. *)
Definition cells (h : TH1) : list Q := doubles (fArray h).

(** The cells of the distribution stored under key [g]. *)
Definition cells_at (g : Values) (t : Table) : option (list Q) :=
  cells <$> (Table.find g t ≫= th1_target).

(** The distributions of the entries of [t] whose key projects to [g] on
    the columns of the step, in the order of [t]. *)
Definition projecting (step : SummationStep) (g : Values) (t : Table)
    : list TH1 :=
  omap (fun e : Values * AbstractHistogram =>
          if decide (regroup (columns step) e.1 = g) then th1_target e.2
          else None) t.

(** Two lists of cells added bin by bin, in exact arithmetic. *)
Definition exact_add (a b : list Q) : list Q := zip_with Qplus a b.

(** The bin-wise sum of some distributions; there is none of no
    distribution. *)
Definition binwise_sum (hs : list TH1) : option (list Q) :=
  match hs with
  | [] => None
  | h :: r => Some (fold_left exact_add (cells <$> r) (cells h))
  end.

(** All the distributions of the table have [ncells] cells. *)
Definition same_binning (ncells : nat) (t : Table) : Prop :=
  Forall (fun e : Values * AbstractHistogram =>
            forall h, th1_target e.2 = Some h -> length (fArray h) = ncells) t.

(** A count that single precision holds exactly: an integer from 0 to
    [2 ^ 24]. *)
Definition is_count (x : Q) : Prop :=
  exists n : Z, 0 <= n <= 2 ^ 24 /\ x = inject_Z n.

(** An integer from 0 on. *)
Definition is_natural (x : Q) : Prop :=
  exists n : Z, 0 <= n /\ x = inject_Z n.

(** The distributions of the table hold counts, and so do their bin-wise
    sums under the keys of the result. *)
Definition counts_in_single_precision (step : SummationStep) (t : Table)
    : Prop :=
  Forall (fun e : Values * AbstractHistogram =>
            forall h, th1_target e.2 = Some h -> Forall is_count (cells h)) t
  /\ forall g sums,
       binwise_sum (projecting step g t) = Some sums -> Forall is_count sums.

(** The floats stored under key [g]. *)
Definition fArray_at (g : Values) (t : Table) : option (list Float_t) :=
  fArray <$> (Table.find g t ≫= th1_target).

(** What [Add] accumulates of some distributions, from the first on, in
    single precision. *)
Definition accumulated (hs : list TH1) : option (list Float_t) :=
  match hs with
  | [] => None
  | h :: r => Some (fold_left add_cells (fArray <$> r) (fArray h))
  end.

(** What the loop of [executeGroupBy] keeps true: the entries of [out] own
    their histograms, and each holds what [Add] has accumulated of the
    entries done so far that project to its key, in their order. *)
Definition groupby_inv (step : SummationStep) (out done : Table) : Prop :=
  Forall (fun x : Values * AbstractHistogram => owns_th1 x.2) out
  /\ forall g, fArray_at g out = accumulated (projecting step g done).

(** The claim that the distribution under every key of the result is the
    bin-wise sum of the distributions that project to it. *)
Definition groupby_sums (step : SummationStep) (t : Table) : Prop :=
  forall out g,
    executeGroupBy step t = Ok out ->
    cells_at g out = binwise_sum (projecting step g t).

(** Two counts of one bin under layer 1: 5 for ladder 10, 3 for ladder
    20. *)
Definition table_5_3 : Table :=
  [([(1, 1); (2, 10)], own (th1_of_bins "n" [5]%Q));
   ([(1, 1); (2, 20)], own (th1_of_bins "n" [3]%Q))].

(** The counts 16777216, 1 and 1 of the ladders 10, 20 and 30 of layer 1,
    the same counts in the other order, and what [executeGroupBy] makes of
    the two. *)
Definition table_2p24_1_1 : Table :=
  [([(1, 1); (2, 10)], own (th1_of_bins "n" [16777216]%Q));
   ([(1, 1); (2, 20)], own (th1_of_bins "n" [1]%Q));
   ([(1, 1); (2, 30)], own (th1_of_bins "n" [1]%Q))].

Definition table_1_1_2p24 : Table :=
  [([(1, 1); (2, 10)], own (th1_of_bins "n" [1]%Q));
   ([(1, 1); (2, 20)], own (th1_of_bins "n" [1]%Q));
   ([(1, 1); (2, 30)], own (th1_of_bins "n" [16777216]%Q))].

Definition groupby_2p24_1_1 : Table :=
  Eval vm_compute in
    match executeGroupBy (step_of GROUPBY STAGE2 [1]) table_2p24_1_1 with
    | Ok out => out
    | Fatal _ => []
    end.

Definition groupby_1_1_2p24 : Table :=
  Eval vm_compute in
    match executeGroupBy (step_of GROUPBY STAGE2 [1]) table_1_1_2p24 with
    | Ok out => out
    | Fatal _ => []
    end.

(** *** Stage 2: [EXTEND_X] on 1-D distributions *)

(** The bins of a 1-D distribution, from bin 1 to the last (underflow and
    overflow apart). *)
Definition bins_of (h : TH1) : list Q := GetBinContent h <$> from_1_to (Nx h).

(** The distributions of a table, in the order of the table. *)
Definition histograms (t : Table) : list TH1 :=
  omap (fun e : Values * AbstractHistogram => th1_target e.2) t.

Definition total_bins (hs : list TH1) : Z := foldr Z.add 0 (Nx <$> hs).

(** The entries of [t] are 1-D distributions that agree on all columns but
    [c]: the keys have the columns [layout], and all become [g] once [c] is
    dropped. *)
Definition differ_only_in (c : Column) (layout : list Column) (g : Values)
    (t : Table) : Prop :=
  Forall (fun e : Values * AbstractHistogram =>
            e.1.*1 = layout /\ Values.erase e.1 c = g
            /\ exists h, th1_target e.2 = Some h
                 /\ GetDimension h = 1 /\ 1 <= Nx h) t.

(** The cells 1..[Nx] of a histogram as the copy loop stores them:
    [SetBinContent(count, GetBinContent(i))] converts the double it read
    back to the cell type. *)
Definition stored_bins_of (h : TH1) : list Float_t :=
  (fun i => to_float (GetBinContent h i)) <$> from_1_to (Nx h).

(** The table the second loop of [executeExtend] has built when the bins
    [filled] have been copied into a histogram of [N] bins: one entry,
    whose [count] is the fill pointer. *)
Definition extend_state (g : Values) (N : Z) (filled : list Float_t)
    (out : Table) : Prop :=
  exists H,
    out = [(g, {| count := 1 + Z.of_nat (length filled); me := None;
                  th1 := Some (OwnTH1 H) |})]
    /\ GetDimension H = 1 /\ Nx H = N
    /\ fArray H = Float0 :: filled
                    ++ replicate (Z.to_nat N - length filled + 1) Float0.

(** Distributions of 2, 3 and 1 bins for the ladders 10, 20 and 30 of
    layer 1. *)
Definition table_2_3_1 : Table :=
  [([(1, 1); (2, 10)], own (th1_of_bins "adc" [1; 2]%Q));
   ([(1, 1); (2, 20)], own (th1_of_bins "adc" [3; 4; 5]%Q));
   ([(1, 1); (2, 30)], own (th1_of_bins "adc" [6]%Q))].

(** ** The manager: its vectors, [addSpec] and [fill] over all the
       specifications *)

(** Modelled from the spec: [GeometryInterface::InterestingQuantities] (the
    header is not part of the sources), the identity of the source of a
    sample: the module (a [DetId], by its raw id), the event (a pointer, by
    its address) and the pixel column and row. *)
Record InterestingQuantities := mkIQ {
  sourceModule : Z;
  sourceEvent : Z;
  col : Z;
  row : Z
}.

(** The members [addSpec] extends, each a vector with one element per
    specification ([specs], [tables], [significantvalues], [fastpath]), and
    the source of the last [fill] ([iq]). *)
Record Members := mkMembers {
  specs : list SummationSpecification;
  m_tables : list Table;
  m_significantvalues : list Values;
  m_fastpath : list (option HistoPtr);
  iq : InterestingQuantities
}.

(** [HistogramManager::addSpec]: four [push_back]s. *)
Definition addSpec (spec : SummationSpecification) (m : Members) : Members :=
  {| specs := specs m ++ [spec];
     m_tables := m_tables m ++ [[]];
     m_significantvalues := m_significantvalues m ++ [[]];
     m_fastpath := m_fastpath m ++ [None];
     iq := iq m |}.

(** The loop of the constructor over the configured specifications, each
    given as its flag [enabled] and the specification that
    [SummationSpecification(spec, geometryInterface)] builds of it: the
    enabled ones are added. [iq0] is what the member [iq] holds before the
    first [fill]. *)
Definition construct (spec_configs : list (bool * SummationSpecification))
    (iq0 : InterestingQuantities) : Members :=
  fold_left
    (fun m (spec : bool * SummationSpecification) =>
       if spec.1 then addSpec spec.2 m else m)
    spec_configs (mkMembers [] [] [] [] iq0).

(** [for (unsigned int i = 0; i < specs.size(); i++)], the indices [todo]
    being left. The body reads the vectors with [operator[]], which is not
    defined outside of a vector: the body yields [None] there, and so does
    the loop. *)
Fixpoint for_specs {A : Type} (body : nat -> A -> option (Outcome A))
    (todo : list nat) (a : A) : option (Outcome A) :=
  match todo with
  | [] => Some (Ok a)
  | i :: todo' =>
      match body i a with
      | Some (Ok a') => for_specs body todo' a'
      | r => r
      end
  end.

Section Fills.

Variable TH1_Fill : TH1 -> Q -> TH1.
Variable TH1_Fill2 : TH1 -> Q -> Q -> TH1.

(** Modelled from the spec: [GeometryInterface::extractColumns], which maps
    the source of a sample to its values for the requested columns. *)
Variable extractColumns : list Column -> InterestingQuantities -> Values.

(** The comparison of the source of a sample with the source of the last
    call; module 0 never counts as the same source. *)
Definition same_source (m : Members)
    (sourceModule' sourceEvent' col' row' : Z) : bool :=
  negb (negb (col' =? col (iq m)) || negb (row' =? row (iq m))
        || negb (sourceModule' =? sourceModule (iq m))
        || negb (sourceEvent' =? sourceEvent (iq m))
        || (sourceModule' =? 0)).

(** The body of the loop of [fill] for specification [i]. *)
Definition fill_at (this : HistogramManager) (cached : bool) (x y : Q)
    (i : nat) (m : Members) : option (Outcome Members) :=
  match specs m !! i, m_tables m !! i, m_significantvalues m !! i,
        m_fastpath m !! i with
  | Some s, Some t, Some sv, Some fp =>
      let args :=
        if cached then Some (sv, fp)
        else
          (fun step0 => (extractColumns (columns step0) (iq m), None))
            <$> steps s !! 0%nat in
      match args with
      | None => None
      | Some (sv1, fp1) =>
          match executeStep1Spec TH1_Fill TH1_Fill2 this x y sv1 s t STAGE1
                  fp1 with
          | Fatal e => Some (Fatal e)
          | Ok (sv', t', fp') =>
              Some (Ok {| specs := specs m;
                          m_tables := <[i := t']> (m_tables m);
                          m_significantvalues :=
                            <[i := sv']> (m_significantvalues m);
                          m_fastpath := <[i := fp']> (m_fastpath m);
                          iq := iq m |})
          end
      end
  | _, _, _, _ => None
  end.

(** [HistogramManager::fill(x, y, sourceModule, sourceEvent, col, row)] *)
Definition fill_xy (this : HistogramManager) (x y : Q)
    (sourceModule' sourceEvent' col' row' : Z) (m : Members)
    : option (Outcome Members) :=
  if negb (enabled this) then Some (Ok m)
  else
    let cached := same_source m sourceModule' sourceEvent' col' row' in
    let m1 :=
      if cached then m
      else {| specs := specs m; m_tables := m_tables m;
              m_significantvalues := m_significantvalues m;
              m_fastpath := m_fastpath m;
              iq := mkIQ sourceModule' sourceEvent' col' row' |} in
    for_specs (fill_at this cached x y) (seq 0 (length (specs m1))) m1.

(** [HistogramManager::fill(x, sourceModule, sourceEvent, col, row)] *)
Definition fill_x (this : HistogramManager) (x : Q)
    (sourceModule' sourceEvent' col' row' : Z) (m : Members)
    : option (Outcome Members) :=
  if dimensions this =? 1
  then fill_xy this x 0 sourceModule' sourceEvent' col' row' m
  else Some (Fatal AssertionFailed).

(** [HistogramManager::fill(sourceModule, sourceEvent, col, row)] *)
Definition fill_0 (this : HistogramManager)
    (sourceModule' sourceEvent' col' row' : Z) (m : Members)
    : option (Outcome Members) :=
  if dimensions this =? 0
  then fill_xy this 0 0 sourceModule' sourceEvent' col' row' m
  else Some (Fatal AssertionFailed).

(** The body of the outer loop of [executePerEventHarvesting] for
    specification [i]; the cache slot of the specification is not involved
    (the loop has a pointer of its own). [None] also when the fuel of the
    inner loop runs out. *)
Definition harvest_at (fuel : nat) (this : HistogramManager) (i : nat)
    (m : Members) : option (Outcome Members) :=
  match specs m !! i, m_tables m !! i, m_significantvalues m !! i with
  | Some s, Some t, Some sv =>
      match executePerEventHarvesting TH1_Fill TH1_Fill2 fuel this s
              (mkSpecState sv t None) with
      | None => None
      | Some (Fatal e) => Some (Fatal e)
      | Some (Ok st) =>
          Some (Ok {| specs := specs m;
                      m_tables := <[i := tables st]> (m_tables m);
                      m_significantvalues :=
                        <[i := significantvalues st]> (m_significantvalues m);
                      m_fastpath := m_fastpath m;
                      iq := iq m |})
      end
  | _, _, _ => None
  end.

(** [HistogramManager::executePerEventHarvesting], over all the
    specifications. *)
Definition executePerEventHarvesting_all (fuel : nat)
    (this : HistogramManager) (m : Members) : option (Outcome Members) :=
  if negb (enabled this) then Some (Ok m)
  else for_specs (harvest_at fuel this) (seq 0 (length (specs m))) m.

End Fills.

(** ** Booking *)

Definition INT_MIN : Z := - 2 ^ 31.

(** [int(d)]: the conversion of a [double] to [int] drops the fraction.
    The language leaves the result open for a value outside of the range
    of [int]; the conversion instruction of x86-64 ([cvttsd2si]), which the
    code is compiled to, then yields [INT_MIN]. *)
Definition to_int (d : Q) : Z :=
  let z := if Qlt_le_dec d 0 then Qceiling d else Qfloor d in
  if (INT_MIN <=? z) && (z <=? INT_MAX) then z else INT_MIN.

(** The members of [HistogramManager] that describe the quantity and that
    only booking and loading read ([this->name], ...). *)
Record Quantity := mkQuantity {
  this_name : string;
  this_title : string;
  this_xlabel : string;
  this_ylabel : string;
  this_range_nbins : Z;
  this_range_min : Q;
  this_range_max : Q;
  this_range_y_nbins : Z;
  this_range_y_min : Q;
  this_range_y_max : Q
}.

(** The variables of the loop over the modules in [book]. *)
Record BookLocals := mkBookLocals {
  b_dimensions : Z;
  b_name : string;
  b_title : string;
  b_xlabel : string;
  b_ylabel : string;
  b_range_x_nbins : Z;
  b_range_x_min : Q;
  b_range_x_max : Q;
  b_range_y_nbins : Z;
  b_range_y_min : Q;
  b_range_y_max : Q;
  b_significantvalues : Values;
  b_t : Table
}.

(** [step.stage == STAGE1 || step.stage == STAGE1_2] *)
Definition in_step1 (step : SummationStep) : bool :=
  bool_decide (stage step = STAGE1) || bool_decide (stage step = STAGE1_2).

(** [ctr = t[significantvalues]; ctr.count = 0] *)
Definition reset_counter (k : Values) (t : Table) : Table :=
  Table.modify k (set_count 0) (Table.touch k t).

(** [histo.me = me] *)
Definition set_me (m : MonitorElement) (a : AbstractHistogram)
    : AbstractHistogram :=
  {| count := count a; me := Some m; th1 := th1 a |}.

Section Booking.

(** Modelled from the spec: what the geometry interface tells of a column:
    [pretty], its name, and [minValue] and [maxValue], the range of its
    values (the code asks for the range of the first component of the
    column, [col0[0]]). *)
Variable pretty : Column -> string.
Variable to_string : Value -> string.
Variables minValue maxValue : Column -> Q.

Local Open Scope string_scope.

(** The body of the loop over [s.steps] in [book]. *)
Definition book_step (q : Quantity) (s : SummationSpecification)
    (step : SummationStep) (l : BookLocals) : Outcome BookLocals :=
  let sv := b_significantvalues l in
  if in_step1 step then
    match type step with
    | SAVE => Ok l
    | COUNT =>
        Ok {| b_dimensions := 0;
              b_name := "num_" ++ b_name l;
              b_title := "Count of " ++ b_title l;
              b_xlabel := EmptyString;
              b_ylabel := "#" ++ b_xlabel l;
              b_range_x_nbins := 1; b_range_x_min := 0; b_range_x_max := 1;
              b_range_y_nbins := 1; b_range_y_min := 0; b_range_y_max := 1;
              b_significantvalues := sv;
              b_t := reset_counter sv (b_t l) |}
    | EXTEND_X =>
        match columns step !! 0%nat with
        | None => Fatal ColumnsOutOfRange
        | Some c =>
            let col0 := fst (Values.get sv c) in
            let colname := pretty col0 in
            if (b_dimensions l =? 1)%Z then Fatal AssertionFailed
            else
              let range_x_min := (minValue col0 - (1 # 2))%Q in
              let range_x_max := (maxValue col0 + (1 # 2))%Q in
              Ok {| b_dimensions := if (b_dimensions l =? 0)%Z then 1 else 2;
                    b_name := b_name l ++ "_per_" ++ colname;
                    b_title := b_title l ++ " per " ++ colname;
                    b_xlabel := colname;
                    b_ylabel := b_ylabel l;
                    b_range_x_nbins := to_int (range_x_max - range_x_min);
                    b_range_x_min := range_x_min;
                    b_range_x_max := range_x_max;
                    b_range_y_nbins := b_range_y_nbins l;
                    b_range_y_min := b_range_y_min l;
                    b_range_y_max := b_range_y_max l;
                    b_significantvalues := Values.erase sv col0;
                    b_t := b_t l |}
        end
    | EXTEND_Y =>
        match columns step !! 0%nat with
        | None => Fatal ColumnsOutOfRange
        | Some c =>
            let col0 := fst (Values.get sv c) in
            let colname := pretty col0 in
            if (b_dimensions l =? 2)%Z then Fatal AssertionFailed
            else
              let range_y_min := (minValue col0 - (1 # 2))%Q in
              let range_y_max := (maxValue col0 + (1 # 2))%Q in
              Ok {| b_dimensions := 2;
                    b_name := b_name l ++ "_per_" ++ colname;
                    b_title := b_title l ++ " per " ++ colname;
                    b_xlabel := b_xlabel l;
                    b_ylabel := colname;
                    b_range_x_nbins := b_range_x_nbins l;
                    b_range_x_min := b_range_x_min l;
                    b_range_x_max := b_range_x_max l;
                    b_range_y_nbins := to_int (range_y_max - range_y_min);
                    b_range_y_min := range_y_min;
                    b_range_y_max := range_y_max;
                    b_significantvalues := Values.erase sv col0;
                    b_t := b_t l |}
        end
    | GROUPBY =>
        if negb (b_dimensions l =? 0)%Z then Fatal AssertionFailed
        else
          let new_vals := regroup (columns step) sv in
          let xlabel := b_ylabel l ++ " per Event" in
          let columns0 := default [] (columns <$> steps s !! 0%nat) in
          let xlabel :=
            match last columns0 with
            | Some c => xlabel ++ " and " ++ pretty (fst (Values.get sv c))
            | None => xlabel
            end in
          Ok {| b_dimensions := 1;
                b_name := b_name l;
                b_title := b_title l;
                b_xlabel := xlabel;
                b_ylabel := "#Entries";
                b_range_x_nbins := this_range_nbins q;
                b_range_x_min := this_range_min q;
                b_range_x_max := this_range_max q;
                b_range_y_nbins := b_range_y_nbins l;
                b_range_y_min := b_range_y_min l;
                b_range_y_max := b_range_y_max l;
                b_significantvalues := new_vals;
                b_t := b_t l |}
    | REDUCE | CUSTOM | NO_TYPE => Fatal AssertionFailed
    end
  else Ok l.

(** [for (SummationStep step : s.steps)], the steps [rest] being left. *)
Fixpoint book_walk (q : Quantity) (s : SummationSpecification)
    (rest : list SummationStep) (l : BookLocals) : Outcome BookLocals :=
  match rest with
  | [] => Ok l
  | step :: rest' =>
      match book_step q s step l with
      | Fatal e => Fatal e
      | Ok l' => book_walk q s rest' l'
      end
  end.

(** The code after the loop over the steps: the entry of the final key is
    created, and a monitor element booked for it unless it has one. *)
Definition book_histogram (this : HistogramManager) (l : BookLocals)
    (iBooker : IBooker) : Table * IBooker :=
  let sv := b_significantvalues l in
  let t1 := Table.touch sv (b_t l) in
  if bool_decide (is_Some (me (Table.at_ sv t1))) then (t1, iBooker)
  else
    let b1 := setCurrentFolder (makePath pretty to_string this sv) iBooker in
    if (b_dimensions l =? 0)%Z || (b_dimensions l =? 1)%Z then
      let '(b2, m) :=
        book1D (b_name l) (b_title l ++ ";" ++ b_xlabel l)
          (b_range_x_nbins l) (b_range_x_min l) (b_range_x_max l) b1 in
      (Table.modify sv (set_me m) t1, b2)
    else if (b_dimensions l =? 2)%Z then
      let '(b2, m) :=
        book2D (b_name l) (b_title l ++ ";" ++ b_xlabel l ++ ";" ++ b_ylabel l)
          (b_range_x_nbins l) (b_range_x_min l) (b_range_x_max l)
          (b_range_y_nbins l) (b_range_y_min l) (b_range_y_max l) b1 in
      (Table.modify sv (set_me m) t1, b2)
    else (t1, b1).

(** The variables at the start of the loop over the steps. *)
Definition book_locals (this : HistogramManager) (q : Quantity)
    (significantvalues : Values) (t : Table) : BookLocals :=
  {| b_dimensions := dimensions this;
     b_name := this_name q;
     b_title := this_title q;
     b_xlabel := this_xlabel q;
     b_ylabel := this_ylabel q;
     b_range_x_nbins := this_range_nbins q;
     b_range_x_min := this_range_min q;
     b_range_x_max := this_range_max q;
     b_range_y_nbins := this_range_y_nbins q;
     b_range_y_min := this_range_y_min q;
     b_range_y_max := this_range_y_max q;
     b_significantvalues := significantvalues;
     b_t := t |}.

(** The body of the loop over the modules, for a module whose extracted
    values are [significantvalues]. *)
Definition book_module (this : HistogramManager) (q : Quantity)
    (s : SummationSpecification) (significantvalues : Values) (t : Table)
    (iBooker : IBooker) : Outcome (Table * IBooker) :=
  match book_walk q s (steps s) (book_locals this q significantvalues t) with
  | Fatal e => Fatal e
  | Ok l => Ok (book_histogram this l iBooker)
  end.

(** [for (auto e : significantvalues.values) if (e.second == UNDEFINED) ok
    = false;] *)
Definition any_UNDEFINED (significantvalues : Values) : bool :=
  existsb (fun e : Column * Value => (snd e =? UNDEFINED)%Z) significantvalues.

(** Modelled from the spec: [GeometryInterface::extractColumns] and
    [GeometryInterface::allModules], the sources booking goes through. *)
Variable extractColumns : list Column -> InterestingQuantities -> Values.

(** [for (auto iq : geometryInterface.allModules())] in [book], for one
    specification and its table, the modules [modules] being left.
    ([s.steps[0]] is not defined for a specification without steps; the
    model stops there, as it does in [executePerEventHarvesting].) *)
Fixpoint book_modules (this : HistogramManager) (q : Quantity)
    (s : SummationSpecification) (modules : list InterestingQuantities)
    (t : Table) (iBooker : IBooker) : Outcome (Table * IBooker) :=
  match modules with
  | [] => Ok (t, iBooker)
  | iq :: modules' =>
      match steps s !! 0%nat with
      | None => Fatal StepsOutOfRange
      | Some step0 =>
          let significantvalues := extractColumns (columns step0) iq in
          if negb (bookUndefined this) && any_UNDEFINED significantvalues
          then book_modules this q s modules' t iBooker
          else
            match book_module this q s significantvalues t iBooker with
            | Fatal e => Fatal e
            | Ok (t', b') => book_modules this q s modules' t' b'
            end
      end
  end.

(** The body of the loop over the specifications in [book]. *)
Definition book_at (this : HistogramManager) (q : Quantity)
    (allModules : list InterestingQuantities) (i : nat)
    (mb : Members * IBooker) : option (Outcome (Members * IBooker)) :=
  let '(m, iBooker) := mb in
  match specs m !! i, m_tables m !! i with
  | Some s, Some t =>
      match book_modules this q s allModules t iBooker with
      | Fatal e => Some (Fatal e)
      | Ok (t', b') =>
          Some (Ok ({| specs := specs m;
                       m_tables := <[i := t']> (m_tables m);
                       m_significantvalues := m_significantvalues m;
                       m_fastpath := m_fastpath m;
                       iq := iq m |}, b'))
      end
  | _, _ => None
  end.

(** [HistogramManager::book] (loading the geometry apart). *)
Definition book (this : HistogramManager) (q : Quantity)
    (allModules : list InterestingQuantities) (m : Members)
    (iBooker : IBooker) : option (Outcome (Members * IBooker)) :=
  if negb (enabled this) then Some (Ok (m, iBooker))
  else
    for_specs (book_at this q allModules) (seq 0 (length (specs m)))
      (m, iBooker).

(** ** Offline harvesting *)

(** The body of the loop over [s.steps] in [loadFromDQMStore], on the name
    and the key. *)
Definition load_step (step : SummationStep) (l : string * Values)
    : Outcome (string * Values) :=
  let '(name, sv) := l in
  if in_step1 step then
    match type step with
    | SAVE => Ok l
    | COUNT => Ok ("num_" ++ name, sv)
    | EXTEND_X | EXTEND_Y =>
        match columns step !! 0%nat with
        | None => Fatal ColumnsOutOfRange
        | Some c =>
            let col0 := fst (Values.get sv c) in
            let colname := pretty col0 in
            Ok (name ++ "_per_" ++ colname, Values.erase sv col0)
        end
    | GROUPBY => Ok (name, regroup (columns step) sv)
    | REDUCE | CUSTOM | NO_TYPE => Fatal AssertionFailed
    end
  else Ok l.

Fixpoint load_walk (rest : list SummationStep) (l : string * Values)
    : Outcome (string * Values) :=
  match rest with
  | [] => Ok l
  | step :: rest' =>
      match load_step step l with
      | Fatal e => Fatal e
      | Ok l' => load_walk rest' l'
      end
  end.

(** [histo.me = me; histo.th1 = histo.me->getTH1()] *)
Definition set_loaded (m : MonitorElement) (a : AbstractHistogram)
    : AbstractHistogram :=
  {| count := count a; me := Some m; th1 := Some MeTH1 |}.

(** Modelled from the spec: [DQMStore::IGetter], the persistence
    collaborator read back: [get] yields the monitor element stored under a
    path, or null. *)
Definition IGetter : Type := string -> option MonitorElement.

(** [loadFromDQMStore], the modules [modules] being left; the second
    component is what is sent to [edm::LogError]. *)
Fixpoint loadFromDQMStore (this : HistogramManager) (q : Quantity)
    (s : SummationSpecification) (modules : list InterestingQuantities)
    (iGetter : IGetter) (t : Table) (log : list string)
    : Outcome (Table * list string) :=
  match modules with
  | [] => Ok (t, log)
  | iq :: modules' =>
      match steps s !! 0%nat with
      | None => Fatal StepsOutOfRange
      | Some step0 =>
          let significantvalues := extractColumns (columns step0) iq in
          match load_walk (steps s) (this_name q, significantvalues) with
          | Fatal e => Fatal e
          | Ok (name, sv) =>
              let path := makePath pretty to_string this sv ++ name in
              match iGetter path with
              | None =>
                  loadFromDQMStore this q s modules' iGetter t
                    (if bookUndefined this
                     then (log ++ [("ME " ++ path ++ " not found" ++ newline)%string])%list
                     else log)
              | Some m =>
                  loadFromDQMStore this q s modules' iGetter
                    (Table.modify sv (set_loaded m) (Table.touch sv t)) log
              end
          end
      end
  end.

(** ROOT's [TH1::GetMean] and [TH1::GetEntries]. *)
Variable GetMean : TH1 -> Q.
Variable GetEntries : TH1 -> Q.

(** [for (SummationStep step : s.steps)] in [executeHarvestingOffline]. *)
Fixpoint harvest_steps (this : HistogramManager)
    (customHandler : option (SummationStep -> Table -> Table))
    (rest : list SummationStep) (st : Harvest) : Outcome Harvest :=
  match rest with
  | [] => Ok st
  | step :: rest' =>
      match harvest_step pretty to_string GetMean GetEntries this
              customHandler step st with
      | Fatal e => Fatal e
      | Ok st' => harvest_steps this customHandler rest' st'
      end
  end.

(** The body of the loop over the specifications in
    [executeHarvestingOffline], for one specification and its table. *)
Definition harvest_spec (this : HistogramManager) (q : Quantity)
    (customHandler : option (SummationStep -> Table -> Table))
    (allModules : list InterestingQuantities) (iGetter : IGetter)
    (s : SummationSpecification) (st : Harvest) : Outcome Harvest :=
  let '(t, iBooker, log) := st in
  match loadFromDQMStore this q s allModules iGetter t log with
  | Fatal e => Fatal e
  | Ok (t', log') =>
      harvest_steps this customHandler (steps s) (t', iBooker, log')
  end.

Definition harvest_at_offline (this : HistogramManager) (q : Quantity)
    (customHandler : option (SummationStep -> Table -> Table))
    (allModules : list InterestingQuantities) (iGetter : IGetter) (i : nat)
    (mb : Members * IBooker * list string)
    : option (Outcome (Members * IBooker * list string)) :=
  let '(m, iBooker, log) := mb in
  match specs m !! i, m_tables m !! i with
  | Some s, Some t =>
      match harvest_spec this q customHandler allModules iGetter s
              (t, iBooker, log) with
      | Fatal e => Some (Fatal e)
      | Ok (t', b', log') =>
          Some (Ok ({| specs := specs m;
                       m_tables := <[i := t']> (m_tables m);
                       m_significantvalues := m_significantvalues m;
                       m_fastpath := m_fastpath m;
                       iq := iq m |}, b', log'))
      end
  | _, _ => None
  end.

(** [HistogramManager::executeHarvestingOffline] (the dump of the
    specifications to [edm::LogInfo] apart). *)
Definition executeHarvestingOffline (this : HistogramManager) (q : Quantity)
    (customHandler : option (SummationStep -> Table -> Table))
    (allModules : list InterestingQuantities) (iGetter : IGetter)
    (m : Members) (iBooker : IBooker) (log : list string)
    : option (Outcome (Members * IBooker * list string)) :=
  if negb (enabled this) then Some (Ok (m, iBooker, log))
  else
    for_specs (harvest_at_offline this q customHandler allModules iGetter)
      (seq 0 (length (specs m))) (m, iBooker, log).

End Booking.

(** ** Vocabulary of the properties of the rest of the code *)

(** *** Stage 1 *)

(** The keys of the table after a call of the executor in stage [STAGE1]
    that was given the table [t] and the cache slot [fp], and that returned
    the key [sv']: the per-event increment path creates the counter it
    does not find, nothing else touches the keys. *)
Definition keys_after_fill (s : SummationSpecification)
    (fp : option HistoPtr) (sv' : Values) (t : Table) : list Values :=
  match fp with
  | None => if (walked s 0 (steps s)).1 then (Table.touch sv' t).*1 else t.*1
  | Some _ => t.*1
  end.

Section Snapshot.

Variable TH1_Fill : TH1 -> Q -> TH1.

(** What the per-event harvesting of the counter [e] does to the table
    [T]: the counter is reset, and its count filled into the histogram of
    the grouped key. *)
Definition harvest_counter (cols : list Column) (T : Table)
    (e : Values * AbstractHistogram) : Table :=
  Table.modify (regroup cols e.1) (fill TH1_Fill (inject_Z (count e.2)))
    (Table.modify e.1 (set_count 0) T).

(** The same for an entry [e] that is a counter when its key has
    [ncolumns] columns. *)
Definition harvest_entry (ncolumns : nat) (cols : list Column) (T : Table)
    (e : Values * AbstractHistogram) : Table :=
  if decide (length e.1 = ncolumns) then harvest_counter cols T e else T.

(** The counters of [t] harvested one after the other in the order of
    [t]. *)
Definition harvest_snapshot (ncolumns : nat) (cols : list Column) (t : Table)
    : Table :=
  fold_left (harvest_entry ncolumns cols) t t.

End Snapshot.

(** Every counter of [t] has a histogram booked for its grouped key, and
    this key is not taken for a counter. *)
Definition counters_have_histograms (ncolumns : nat) (cols : list Column)
    (t : Table) : Prop :=
  Forall (fun e : Values * AbstractHistogram =>
            length e.1 = ncolumns ->
            length (regroup cols e.1) <> ncolumns
            /\ booked_in (regroup cols e.1) t = true) t.

(** Two counters of layer 1, for the ladders 7 and 8, and the histogram of
    the layer. *)
Definition table_two_counters : Table :=
  [([(1, 1)], me_per_layer);
   ([(1, 1); (2, 7)], set_count 2 AbstractHistogram0);
   ([(1, 1); (2, 8)], set_count 3 AbstractHistogram0)].

(** *** The manager *)

(** The vectors of the manager have one element per specification. *)
Definition aligned (m : Members) : Prop :=
  length (m_tables m) = length (specs m)
  /\ length (m_significantvalues m) = length (specs m)
  /\ length (m_fastpath m) = length (specs m).

(** The manager as the constructor leaves it for two enabled
    specifications and a disabled one. *)
Definition members0 : Members :=
  construct [(true, spec_per_ladder); (false, spec_COUNT_EXTEND);
             (true, spec_ndigis)] (mkIQ 0 0 0 0).

(** The geometry of the examples: the module numbers its layer by its
    hundreds and its ladder by the rest. *)
Definition extractColumns0 (cols : list Column) (iq : InterestingQuantities)
    : Values :=
  (fun c => (c, if c =? 1 then sourceModule iq / 100
                else if c =? 2 then sourceModule iq mod 100
                else UNDEFINED)) <$> cols.

(** Two states of the manager that differ at most in what the last [fill]
    left of the values and the cache slots up from specification [i]. *)
Definition same_but_cache (n i : nat) (a b : Members) : Prop :=
  specs a = specs b /\ m_tables a = m_tables b /\ iq a = iq b
  /\ length (specs a) = n /\ aligned a /\ aligned b
  /\ take i (m_significantvalues a) = take i (m_significantvalues b)
  /\ take i (m_fastpath a) = take i (m_fastpath b).

(** The manager of the examples after a sample of module 107. *)
Definition members1 : Members :=
  {| specs := specs members0;
     m_tables := m_tables members0;
     m_significantvalues := [[(1, 1)]; [(1, 1); (2, 7)]];
     m_fastpath := [None; Some (InTable [(1, 1); (2, 7)])];
     iq := mkIQ 107 1 0 0 |}.

(** *** Booking *)

(** The variables of the loop of [book] with another table. *)
Definition with_t (l : BookLocals) (t : Table) : BookLocals :=
  {| b_dimensions := b_dimensions l;
     b_name := b_name l;
     b_title := b_title l;
     b_xlabel := b_xlabel l;
     b_ylabel := b_ylabel l;
     b_range_x_nbins := b_range_x_nbins l;
     b_range_x_min := b_range_x_min l;
     b_range_x_max := b_range_x_max l;
     b_range_y_nbins := b_range_y_nbins l;
     b_range_y_min := b_range_y_min l;
     b_range_y_max := b_range_y_max l;
     b_significantvalues := b_significantvalues l;
     b_t := t |}.

(** A step that [book] executes as a [COUNT]. *)
Definition counts_here (step : SummationStep) : bool :=
  in_step1 step && bool_decide (type step = COUNT).

(** The counters of the keys [cs] reset one after the other. *)
Definition reset_counters (cs : list Values) (t : Table) : Table :=
  fold_left (fun t k => reset_counter k t) cs t.

(** The table has a counter at 0 under [k]. *)
Definition zero_at (k : Values) (t : Table) : Prop :=
  exists a, Table.find k t = Some a /\ count a = 0.

(** The table has an entry with a monitor element under [k]. *)
Definition has_me (k : Values) (t : Table) : Prop :=
  exists a m, Table.find k t = Some a /\ me a = Some m.

Definition is_Some_Ok {A : Type} (o : Outcome A) : bool :=
  match o with Ok _ => true | Fatal _ => false end.

(** The module is not passed over by [book]: every histogram is to be
    booked, or none of its values is [UNDEFINED]. *)
Definition to_be_booked (this : HistogramManager) (sv : Values) : bool :=
  bookUndefined this || negb (any_UNDEFINED sv).

Section BookingVocabulary.

Variable pretty : Column -> string.
Variables minValue maxValue : Column -> Q.

(** The keys whose counter the walk of [book] resets, in the order of the
    walk. *)
Fixpoint book_counters (q : Quantity) (s : SummationSpecification)
    (rest : list SummationStep) (l : BookLocals) : list Values :=
  match rest with
  | [] => []
  | step :: rest' =>
      match book_step pretty minValue maxValue q s step l with
      | Fatal _ => []
      | Ok l' =>
          (if counts_here step then [b_significantvalues l] else [])
            ++ book_counters q s rest' l'
      end
  end.

(** What [book] has done for a module whose extracted values are [sv] is
    there in [t]: the counters its walk resets are at 0, and the key its
    walk ends on has a monitor element. *)
Definition module_booked (this : HistogramManager) (q : Quantity)
    (s : SummationSpecification) (sv : Values) (t : Table) : Prop :=
  match book_walk pretty minValue maxValue q s (steps s)
          (book_locals this q sv []) with
  | Fatal _ => False
  | Ok l =>
      Forall (fun k => zero_at k t)
        (book_counters q s (steps s) (book_locals this q sv []))
      /\ has_me (b_significantvalues l) t
  end.

End BookingVocabulary.

(** The geometry of the examples: layers 1 to 4, ladders 1 to 20. *)
Definition minValue0 (c : Column) : Q := 1.

Definition maxValue0 (c : Column) : Q := if c =? 1 then 4 else 20.

Definition quantity0 : Quantity :=
  mkQuantity "digis" "Digis" "adc" "entries" 10 0 10 1 0 1.

(** Two modules of layer 1, on the ladders 7 and 8. *)
Definition modules0 : list InterestingQuantities :=
  [mkIQ 107 0 0 0; mkIQ 108 0 0 0].

Definition iBooker0 : IBooker := mkIBooker EmptyString [].

(** What [book] leaves for the program that counts per event. *)
Definition booked_ndigis : Table * IBooker :=
  Eval vm_compute in
    match book_modules pretty0 to_string0 minValue0 maxValue0 extractColumns0
            manager0 quantity0 spec_ndigis modules0 [] iBooker0 with
    | Ok r => r
    | Fatal _ => ([], iBooker0)
    end.

(** The same on a table that has the histogram of layer 1 already. *)
Definition booked_over_booked : Table * IBooker :=
  Eval vm_compute in
    match book_modules pretty0 to_string0 minValue0 maxValue0 extractColumns0
            manager0 quantity0 spec_ndigis modules0 table_booked iBooker0 with
    | Ok r => r
    | Fatal _ => ([], iBooker0)
    end.

(** The variables of [book] after the [EXTEND_X] on the ladder, and at the
    end of the walk for module 107, for the program of the histogram per
    ladder. *)
Definition extended_per_ladder : BookLocals :=
  Eval vm_compute in
    match book_step pretty0 minValue0 maxValue0 quantity0 spec_per_ladder
            (step_of EXTEND_X STAGE1 [2])
            (book_locals manager0 quantity0 [(1, 1); (2, 7)] []) with
    | Ok l => l
    | Fatal _ => book_locals manager0 quantity0 [] []
    end.

Definition locals_per_ladder : BookLocals :=
  Eval vm_compute in
    match book_walk pretty0 minValue0 maxValue0 quantity0 spec_per_ladder
            (steps spec_per_ladder)
            (book_locals manager0 quantity0 [(1, 1); (2, 7)] []) with
    | Ok l => l
    | Fatal _ => book_locals manager0 quantity0 [] []
    end.

(** What [book] leaves for the program of the histogram per ladder, and
    the table after a sample of module 108. *)
Definition booked_per_ladder : Table * IBooker :=
  Eval vm_compute in
    match book_modules pretty0 to_string0 minValue0 maxValue0 extractColumns0
            manager0 quantity0 spec_per_ladder modules0 [] iBooker0 with
    | Ok r => r
    | Fatal _ => ([], iBooker0)
    end.

Definition filled_per_ladder : Table :=
  Eval vm_compute in
    match executeStep1Spec Fill_fixed Fill2_fixed manager0 0 0
            (extractColumns0 [1; 2] (mkIQ 108 0 0 0)) spec_per_ladder
            booked_per_ladder.1 STAGE1 None with
    | Ok (_, t, _) => t
    | Fatal _ => []
    end.

(** *** Offline harvesting *)

(** An entry as [loadFromDQMStore] leaves it: with a monitor element, its
    [th1] pointing to the histogram of the monitor element. *)
Definition loaded (a : AbstractHistogram) : Prop :=
  is_Some (me a) /\ th1 a = Some MeTH1.

(** A step that the offline harvesting can execute: of another stage, or a
    [SAVE], a [GROUPBY], a [REDUCE], or an [EXTEND] that names its
    column. *)
Definition harvestable (step : SummationStep) : Prop :=
  stage step = STAGE2 ->
  match type step with
  | SAVE | GROUPBY | REDUCE => True
  | EXTEND_X | EXTEND_Y => columns step <> []
  | COUNT | CUSTOM | NO_TYPE => False
  end.

(** A store that holds the histogram of layer 1 booked by the example. *)
Definition iGetter0 : IGetter :=
  fun path =>
    if String.eqb path "Top/Layer_1/num_digis_per_Ladder"
    then Some (mkME "Top/Layer_1/"
                 (th1_of_bins "num_digis_per_Ladder" [5; 3]%Q))
    else None.

(** What [loadFromDQMStore] makes of that store. *)
Definition loaded_per_ladder : Table :=
  Eval vm_compute in
    match loadFromDQMStore pretty0 to_string0 extractColumns0 manager0
            quantity0 spec_per_ladder modules0 iGetter0 [] [] with
    | Ok (t, _) => t
    | Fatal _ => []
    end.

(** *** Stage 2 *)

(** A histogram as ROOT builds them: 1-D or 2-D, with at least one bin per
    axis and one cell per bin, underflow and overflow included. *)
Definition well_formed (h : TH1) : Prop :=
  1 <= Nx h
  /\ ((GetDimension h = 1 /\ length (fArray h) = Z.to_nat (Nx h + 2))
      \/ (GetDimension h = 2 /\ 1 <= Ny h
          /\ length (fArray h) = Z.to_nat ((Nx h + 2) * (Ny h + 2)))).

(** [h'] is a copy of [h]: the name, the dimension, the x axis, the title
    of the y axis (and the y axis, for a 2-D histogram), and the cells;
    the title, up to its first semicolon. *)
Definition copy_of (h h' : TH1) : Prop :=
  GetName h' = GetName h
  /\ GetTitle h' = title_part 0 (GetTitle h)
  /\ GetDimension h' = GetDimension h
  /\ GetXaxis h' = GetXaxis h
  /\ axis_title (GetYaxis h') = axis_title (GetYaxis h)
  /\ (GetDimension h = 2 -> GetYaxis h' = GetYaxis h)
  /\ fArray h' = fArray h.

(** What [SAVE] makes of an entry that has a histogram of its own and no
    monitor element: the entry gets a monitor element in the folder of its
    key, with a copy of the histogram, and its [th1] points to that
    copy. *)
Definition published (folder : string) (e e' : AbstractHistogram) : Prop :=
  count e' = count e /\ th1 e' = Some MeTH1
  /\ exists h m,
       th1 e = Some (OwnTH1 h) /\ me e' = Some m
       /\ me_folder m = folder /\ copy_of h (getTH1 m).

(** An entry with a histogram of its own, well formed, and no monitor
    element. *)
Definition unpublished (e : AbstractHistogram) : Prop :=
  me e = None /\ exists h, th1 e = Some (OwnTH1 h) /\ well_formed h.

(** What [REDUCE] by [MEAN] or [COUNT] makes of a histogram. *)
Definition reduced (GetMean GetEntries : TH1 -> Q) (step : SummationStep)
    (h : TH1) : TH1 :=
  if String.eqb (arg step) "MEAN" then
    SetBinContent
      (new_TH1F ("mean_" ++ GetName h)
         (EmptyString ++ GetTitle h ++ ";;"
            ++ (EmptyString ++ "mean of " ++ axis_title (GetXaxis h))) 1 0 1)
      1 (GetMean h)
  else
    SetBinContent
      (new_TH1F ("num_" ++ GetName h)
         (EmptyString ++ GetTitle h ++ ";;"
            ++ (EmptyString ++ "# of " ++ axis_title (GetXaxis h)
                  ++ " entries")) 1 0 1)
      1 (GetEntries h).

(** The quantity a [REDUCE] by [MEAN] or [COUNT] computes: the [double]
    that [executeReduce] calls [reduced_quantity]. *)
Definition quantity (GetMean GetEntries : TH1 -> Q) (step : SummationStep)
    (h : TH1) : Q :=
  if String.eqb (arg step) "MEAN" then GetMean h else GetEntries h.

Definition reduced_entry (GetMean GetEntries : TH1 -> Q)
    (step : SummationStep) (e : AbstractHistogram) : AbstractHistogram :=
  match th1_target e with
  | Some h => own (reduced GetMean GetEntries step h)
  | None => AbstractHistogram0
  end.

(** The table has, under [k], an entry with the monitor element [m] and the
    [th1] pointer [p]. *)
Definition holds_me (k : Values) (m : MonitorElement) (p : option TH1Ptr)
    (t : Table) : Prop :=
  exists a, Table.find k t = Some a /\ me a = Some m /\ th1 a = p.

(** Every monitor element of the table holds a histogram of dimension
    [D]. *)
Definition all_me_dimension (D : Z) (t : Table) : Prop :=
  Forall (fun e : Values * AbstractHistogram =>
            forall m, me e.2 = Some m -> GetDimension (getTH1 m) = D) t.

(** The dimension of the histogram that takes the fills of dimensionality
    [d]: [fill(x, y)] goes to a 2-D histogram, [fill(x)] and [fill(0)] to a
    1-D one. *)
Definition histogram_dimension (d : Z) : Z := if d =? 2 then 2 else 1.

(** *** Stage 2: [EXTEND_Y] on 1-D distributions *)

(** A 2-D histogram of [n] times [N] bins, with one cell per bin, underflow
    and overflow included. *)
Definition shape_2D (n N : Z) (H : TH1) : Prop :=
  GetDimension H = 2 /\ Nx H = n /\ Ny H = N
  /\ length (fArray H) = Z.to_nat ((n + 2) * (N + 2)).

(** The distributions of the table are 1-D as ROOT builds them, with [n]
    bins: the y axis has one bin. *)
Definition all_of_bins (n : Z) (t : Table) : Prop :=
  Forall (fun e : Values * AbstractHistogram =>
            forall h, th1_target e.2 = Some h -> Nx h = n /\ Ny h = 1) t.

(** The table the second loop of [executeExtend] has built when the
    distributions [done] have been copied into a 2-D histogram of [n] times
    [N] bins: one entry, whose [count] is the fill pointer, and whose rows
    are the distributions copied so far. *)
Definition stack_state (g : Values) (n N : Z) (done : list TH1) (out : Table)
    : Prop :=
  exists H,
    out = [(g, {| count := 1 + Z.of_nat (length done); me := None;
                  th1 := Some (OwnTH1 H) |})]
    /\ shape_2D n N H
    /\ forall r h i,
         done !! r = Some h -> 1 <= i <= n ->
         GetBinContent2 H i (Z.of_nat r + 1) = GetBinContent h i.

(** Distributions of 2 bins for the ladders 10, 20 and 30 of layer 1. *)
Definition table_2_2_2 : Table :=
  [([(1, 1); (2, 10)], own (th1_of_bins "adc" [1; 2]%Q));
   ([(1, 1); (2, 20)], own (th1_of_bins "adc" [3; 4]%Q));
   ([(1, 1); (2, 30)], own (th1_of_bins "adc" [5; 6]%Q))].

(** *** Stage 2: [EXTEND_X] on 2-D distributions *)

(** The entries of [t] are 2-D distributions of [ny] bins along y that all
    become [g] once [c] is dropped. *)
Definition panels (c : Column) (g : Values) (ny : Z) (t : Table) : Prop :=
  Forall (fun e : Values * AbstractHistogram =>
            Values.erase e.1 c = g
            /\ exists h, th1_target e.2 = Some h
                 /\ GetDimension h = 2 /\ 1 <= Nx h /\ Ny h = ny) t.

(** The table the second loop of [executeExtend] has built when the
    distributions [done] have been copied into a 2-D histogram of [N] times
    [ny] bins: one entry, whose [count] is the fill pointer, and whose
    columns are those of the distributions copied so far, one distribution
    after the other. *)
Definition side_by_side (g : Values) (N ny : Z) (done : list TH1)
    (out : Table) : Prop :=
  exists H,
    out = [(g, {| count := 1 + total_bins done; me := None;
                  th1 := Some (OwnTH1 H) |})]
    /\ shape_2D N ny H
    /\ forall r h i j,
         done !! r = Some h -> 1 <= i <= Nx h -> 1 <= j <= ny ->
         GetBinContent2 H (total_bins (take r done) + i) j
         = GetBinContent2 h i j.

(** 2-D distributions of 2 and 1 bins along x for the ladders 10 and 20 of
    layer 1. *)
Definition table_panels : Table :=
  [([(1, 1); (2, 10)], own (th2_of_bins "adc" [1; 2]%Q));
   ([(1, 1); (2, 20)], own (th2_of_bins "adc" [7]%Q))].

(** *** The manager after [book] *)

(** The table of specification [i] is settled: booking it again, with any
    booker, books nothing and leaves it as it is. *)
Definition book_settled_at (pretty : Column -> string)
    (to_string : Value -> string) (minValue maxValue : Column -> Q)
    (extractColumns : list Column -> InterestingQuantities -> Values)
    (this : HistogramManager) (q : Quantity)
    (allModules : list InterestingQuantities) (m : Members) (i : nat)
    : Prop :=
  exists s t,
    specs m !! i = Some s /\ m_tables m !! i = Some t
    /\ forall b,
         book_modules pretty to_string minValue maxValue extractColumns this
           q s allModules t b = Ok (t, b).

(** The manager and the booker after [book], from the state the
    constructor leaves. *)
Definition booked_members : Members * IBooker :=
  Eval vm_compute in
    match book pretty0 to_string0 minValue0 maxValue0 extractColumns0
            manager0 quantity0 modules0 members0 iBooker0 with
    | Some (Ok r) => r
    | _ => (members0, iBooker0)
    end.

(** *** The offline harvesting of the manager *)

(** A step that [loadFromDQMStore] can replay: a step of stage 2, which it
    passes over, or a [SAVE], [COUNT] or [GROUPBY], or an [EXTEND] that
    names its column. *)
Definition loadable (step : SummationStep) : Prop :=
  in_step1 step = true ->
  match type step with
  | SAVE | COUNT | GROUPBY => True
  | EXTEND_X | EXTEND_Y => columns step <> []
  | REDUCE | CUSTOM | NO_TYPE => False
  end.

(** A specification the offline harvesting can execute. *)
Definition harvestable_spec (s : SummationSpecification) : Prop :=
  steps s <> [] /\ Forall loadable (steps s) /\ Forall harvestable (steps s).

(** *** The per-event harvesting on a program that does not count *)

Section Plain.

Variable TH1_Fill : TH1 -> Q -> TH1.
Variable TH1_Fill2 : TH1 -> Q -> Q -> TH1.

(** The fill at the end of a call of [executeStep1Spec] that has passed
    over every step, for the sample (0, 0) of the per-event harvesting. *)
Definition fill_of_0 (this : HistogramManager)
    : AbstractHistogram -> AbstractHistogram :=
  if dimensions this =? 0 then fill TH1_Fill 0
  else if dimensions this =? 1 then fill TH1_Fill 0
  else fill2 TH1_Fill2 0 0.

(** An entry after the per-event harvesting has passed it, for a program
    without steps of the per-event harvesting: a histogram under a key of
    [ncolumns] columns has been filled. *)
Definition passed_entry (this : HistogramManager) (ncolumns : nat)
    (e : Values * AbstractHistogram) : Values * AbstractHistogram :=
  if decide (length e.1 = ncolumns) then
    if bound e.2 then (e.1, fill_of_0 this e.2) else e
  else e.

End Plain.

(** A histogram per (layer, ladder), without counting. *)
Definition spec_plain : SummationSpecification :=
  mkSpec [step_of SAVE STAGE1 [1; 2]; step_of SAVE STAGE2 []].

(** *** What a fill does to the histogram it reaches *)

(** The call of ROOT's [Fill] at the end of [executeStep1Spec], by the
    dimensionality [d] the walk ended with: [Fill(0)], [Fill(x)] or
    [Fill(x, y)]. *)
Definition TH1_fill_of (TH1_Fill : TH1 -> Q -> TH1)
    (TH1_Fill2 : TH1 -> Q -> Q -> TH1) (d : Z) (x y : Q) (h : TH1) : TH1 :=
  if d =? 0 then TH1_Fill h 0%Q
  else if d =? 1 then TH1_Fill h x
  else TH1_Fill2 h x y.

(** *** Counting and harvesting on a table with several counters *)








(** Proves that the cells of a concrete list are counts. *)
Ltac count_cells :=
  match goal with
  | |- Forall is_count ?l =>
      let l' := eval vm_compute in l in
      change l with l';
      repeat (apply List.Forall_cons;
              [eexists; split; [|reflexivity]; lia|]);
      apply List.Forall_nil
  end.


(** * Facts about single precision *)

Section SinglePrecision.

(** Powers of two. *)
Lemma pow2_pos e : (0 < pow2 e)%Q.
Proof. apply Qpower_0_lt. reflexivity. Qed.

Lemma pow2_plus a b : (pow2 (a + b) == pow2 a * pow2 b)%Q.
Proof. apply Qpower_plus. discriminate. Qed.

Lemma pow2_cancel e : (pow2 (- e) * pow2 e == 1)%Q.
Proof. rewrite <- pow2_plus. replace (- e + e) with 0 by lia. reflexivity. Qed.

Lemma pow2_lt a b : a < b -> (pow2 a < pow2 b)%Q.
Proof. intros H. apply Qpower_lt_compat_l; [exact H|reflexivity]. Qed.

Lemma pow2_le a b : a <= b -> (pow2 a <= pow2 b)%Q.
Proof. intros H. apply Qpower_le_compat_l; [exact H|discriminate]. Qed.

Lemma pow2_lt_inv a b : (pow2 a < pow2 b)%Q -> a < b.
Proof. intros H. apply (Qpower_lt_compat_l_inv 2); [exact H|reflexivity]. Qed.

Lemma pow2_Z e : 0 <= e -> (pow2 e == inject_Z (2 ^ e))%Q.
Proof. intros H. symmetry. apply (Zpower_Qpower 2 e H). Qed.

(** Moving a power of two across an inequality *)
Lemma Qlt_pow2_r x y k : (x * pow2 k < y)%Q -> (x < y * pow2 (- k))%Q.
Proof.
  intros H.
  assert (E : (x == x * pow2 k * pow2 (- k))%Q).
  { rewrite <- Qmult_assoc, (Qmult_comm (pow2 k)), pow2_cancel. ring. }
  rewrite E. apply Qmult_lt_compat_r; [apply pow2_pos|exact H].
Qed.

Lemma Qlt_pow2_l x y k : (x < y * pow2 k)%Q -> (x * pow2 (- k) < y)%Q.
Proof.
  intros H.
  assert (E : (y == y * pow2 k * pow2 (- k))%Q).
  { rewrite <- Qmult_assoc, (Qmult_comm (pow2 k)), pow2_cancel. ring. }
  rewrite E. apply Qmult_lt_compat_r; [apply pow2_pos|exact H].
Qed.

Lemma Qle_pow2_l x y k : (x <= y * pow2 k)%Q -> (x * pow2 (- k) <= y)%Q.
Proof.
  intros H.
  assert (E : (y == y * pow2 k * pow2 (- k))%Q).
  { rewrite <- Qmult_assoc, (Qmult_comm (pow2 k)), pow2_cancel. ring. }
  rewrite E. apply Qmult_le_compat_r; [exact H|apply Qlt_le_weak, pow2_pos].
Qed.

(** The nearest integer *)
Lemma nearest_even_comp q q' : (q == q')%Q -> nearest_even q = nearest_even q'.
Proof.
  intros E. unfold nearest_even. rewrite (Qfloor_comp _ _ E).
  assert (E' : (q - inject_Z (Qfloor q') == q' - inject_Z (Qfloor q'))%Q)
    by (rewrite E; reflexivity).
  rewrite (Qcompare_comp _ _ E' (1 # 2) (1 # 2) (Qeq_refl _)). reflexivity.
Qed.

Lemma nearest_even_Z k : nearest_even (inject_Z k) = k.
Proof.
  unfold nearest_even. rewrite Qfloor_Z.
  assert (E : (inject_Z k - inject_Z k == 0)%Q) by ring.
  rewrite (Qcompare_comp _ _ E (1 # 2) (1 # 2) (Qeq_refl _)). reflexivity.
Qed.

Lemma nearest_even_bounds A B q :
  (inject_Z A <= q)%Q -> (q <= inject_Z B)%Q -> A <= nearest_even q <= B.
Proof.
  intros HA HB. unfold nearest_even.
  assert (H1 : A <= Qfloor q).
  { rewrite <- (Qfloor_Z A). apply Qfloor_resp_le, HA. }
  assert (H2 : Qfloor q <= B).
  { rewrite <- (Qfloor_Z B). apply Qfloor_resp_le, HB. }
  assert (H3 : Qfloor q = B -> (q - inject_Z (Qfloor q) ?= 1 # 2)%Q = Lt).
  { intros E. rewrite E. apply (proj1 (Qlt_alt _ _)). lra. }
  destruct (q - inject_Z (Qfloor q) ?= 1 # 2)%Q eqn:C.
  - destruct (Z.even (Qfloor q)); [lia|].
    destruct (Z.eq_dec (Qfloor q) B) as [E|E]; [|lia].
    discriminate (H3 E).
  - lia.
  - destruct (Z.eq_dec (Qfloor q) B) as [E|E]; [|lia].
    discriminate (H3 E).
Qed.

(** The exponent *)
Lemma Qabs_num_den q :
  (Qabs q * inject_Z (Zpos (Qden q)) == inject_Z (Z.abs (Qnum q)))%Q.
Proof.
  destruct q as [n d]. unfold Qabs, Qeq, Qmult, inject_Z. simpl. lia.
Qed.

Lemma Qlog2_bounds q :
  ~ (q == 0)%Q ->
  let c := Z.log2 (Z.abs (Qnum q)) - Z.log2 (Zpos (Qden q)) in
  (pow2 (c - 1) < Qabs q)%Q /\ (Qabs q < pow2 (c + 1))%Q.
Proof.
  intros Hq c.
  set (a := Z.abs (Qnum q)). set (d := Zpos (Qden q)).
  assert (Ha : 0 < a).
  { unfold a. destruct q as [[|n|n] dd]; simpl; try lia.
    exfalso. apply Hq. reflexivity. }
  assert (Hd : 0 < d) by (unfold d; lia).
  destruct (Z.log2_spec a Ha) as [Ha1 Ha2].
  destruct (Z.log2_spec d Hd) as [Hd1 Hd2].
  pose proof (Z.log2_nonneg a) as Hla. pose proof (Z.log2_nonneg d) as Hld.
  fold a d in c.
  set (la := Z.log2 a) in *. set (ld := Z.log2 d) in *.
  pose proof (Qabs_num_den q) as E. fold a d in E.
  assert (Hx : (0 < Qabs q)%Q).
  { clear -Hq. destruct q as [[|n|n] dd];
      [exfalso; apply Hq; reflexivity|reflexivity|reflexivity]. }
  assert (Qa1 : (pow2 la <= inject_Z a)%Q)
    by (rewrite pow2_Z by lia; rewrite <- Zle_Qle; exact Ha1).
  assert (Qa2 : (inject_Z a < pow2 (la + 1))%Q)
    by (rewrite pow2_Z by lia; rewrite <- Zlt_Qlt; unfold Z.succ in Ha2; exact Ha2).
  assert (Qd1 : (pow2 ld <= inject_Z d)%Q)
    by (rewrite pow2_Z by lia; rewrite <- Zle_Qle; exact Hd1).
  assert (Qd2 : (inject_Z d < pow2 (ld + 1))%Q)
    by (rewrite pow2_Z by lia; rewrite <- Zlt_Qlt; unfold Z.succ in Hd2; exact Hd2).
  split.
  - (* pow2 la <= a = x * d < x * pow2 (ld + 1) *)
    assert (H : (pow2 la < Qabs q * pow2 (ld + 1))%Q).
    { apply Qle_lt_trans with (y := (Qabs q * inject_Z d)%Q); [lra|].
      apply Qmult_lt_l; assumption. }
    apply Qlt_pow2_l in H. rewrite <- pow2_plus in H.
    replace (la + - (ld + 1)) with (c - 1) in H by (unfold c; lia). exact H.
  - assert (H : (Qabs q * pow2 ld < pow2 (la + 1))%Q).
    { apply Qle_lt_trans with (y := (Qabs q * inject_Z d)%Q); [|lra].
      apply Qmult_le_l; assumption. }
    apply Qlt_pow2_r in H. rewrite <- pow2_plus in H.
    replace (la + 1 + - ld) with (c + 1) in H by (unfold c; lia). exact H.
Qed.

Lemma Qlog2_spec q :
  ~ (q == 0)%Q ->
  (pow2 (Qlog2 q) <= Qabs q)%Q /\ (Qabs q < pow2 (Qlog2 q + 1))%Q.
Proof.
  intros Hq. destruct (Qlog2_bounds q Hq) as [H1 H2]. unfold Qlog2.
  set (c := Z.log2 (Z.abs (Qnum q)) - Z.log2 (Zpos (Qden q))) in *.
  destruct (Qle_bool (pow2 c) (Qabs q)) eqn:E.
  - apply Qle_bool_iff in E. split; [exact E|exact H2].
  - split; [apply Qlt_le_weak, H1|].
    replace (c - 1 + 1) with c by lia.
    apply Qnot_le_lt. intros H. apply Qle_bool_iff in H. congruence.
Qed.

Lemma Qlog2_unique q L :
  (pow2 L <= Qabs q)%Q -> (Qabs q < pow2 (L + 1))%Q -> Qlog2 q = L.
Proof.
  intros H1 H2.
  assert (Hq : ~ (q == 0)%Q).
  { intros E. rewrite E in H1. pose proof (pow2_pos L).
    change (Qabs 0) with 0%Q in H1. lra. }
  destruct (Qlog2_spec q Hq) as [S1 S2].
  assert (Qlog2 q < L + 1) by (apply pow2_lt_inv; lra).
  assert (L < Qlog2 q + 1) by (apply pow2_lt_inv; lra).
  lia.
Qed.

Lemma Qlog2_comp q q' : (q == q')%Q -> ~ (q == 0)%Q -> Qlog2 q = Qlog2 q'.
Proof.
  intros E Hq. symmetry.
  destruct (Qlog2_spec q Hq) as [S1 S2].
  apply Qlog2_unique; rewrite <- E; assumption.
Qed.

(** Rounding *)
Lemma Qeq_bool_false_neq q : Qeq_bool q 0 = false -> ~ (q == 0)%Q.
Proof. intros H E. apply Qeq_bool_iff in E. congruence. Qed.

Lemma float_round_comp q q' : (q == q')%Q -> float_round q = float_round q'.
Proof.
  intros E. unfold float_round.
  assert (Eb : Qeq_bool q 0 = Qeq_bool q' 0).
  { destruct (Qeq_bool q 0) eqn:B, (Qeq_bool q' 0) eqn:B'; try reflexivity.
    - apply Qeq_bool_iff in B. apply Qeq_bool_false_neq in B'.
      exfalso. apply B'. rewrite <- E. exact B.
    - apply Qeq_bool_iff in B'. apply Qeq_bool_false_neq in B.
      exfalso. apply B. rewrite E. exact B'. }
  rewrite <- Eb. destruct (Qeq_bool q 0) eqn:B; [reflexivity|].
  apply Qeq_bool_false_neq in B.
  rewrite <- (Qlog2_comp q q' E B).
  set (e := Z.max (-149) (Qlog2 q - 23)).
  rewrite (nearest_even_comp (q * pow2 (- e)) (q' * pow2 (- e)))
    by (rewrite E; reflexivity).
  reflexivity.
Qed.

Lemma Qabs_Z_pow2 m e :
  (Qabs (inject_Z m * pow2 e) == inject_Z (Z.abs m) * pow2 e)%Q.
Proof.
  rewrite Qabs_Qmult, (Qabs_pos (pow2 e)) by apply Qlt_le_weak, pow2_pos.
  apply Qmult_comp; [|reflexivity].
  unfold inject_Z. rewrite <- Zabs_Qabs. reflexivity.
Qed.

Lemma Qlog2_Z_pow2 m e :
  m <> 0 -> Qlog2 (inject_Z m * pow2 e) = Z.log2 (Z.abs m) + e.
Proof.
  intros Hm. assert (Ha : 0 < Z.abs m) by lia.
  destruct (Z.log2_spec _ Ha) as [H1 H2].
  pose proof (Z.log2_nonneg (Z.abs m)) as Hn.
  set (j := Z.log2 (Z.abs m)) in *.
  apply Qlog2_unique; rewrite Qabs_Z_pow2.
  - rewrite pow2_plus. apply Qmult_le_compat_r;
      [|apply Qlt_le_weak, pow2_pos].
    rewrite pow2_Z by lia. rewrite <- Zle_Qle. exact H1.
  - replace (j + e + 1) with (j + 1 + e) by lia. rewrite pow2_plus.
    apply Qmult_lt_compat_r; [apply pow2_pos|].
    rewrite pow2_Z by lia. rewrite <- Zlt_Qlt. exact H2.
Qed.

(** A value with a significand of 24 bits on a grid no finer than
    [2 ^ -149] is a float. *)
Lemma float_round_exact m e :
  -149 <= e -> Z.abs m <= 2 ^ 24 ->
  float_round (inject_Z m * pow2 e) = Qred (inject_Z m * pow2 e).
Proof.
  intros He Hm. set (q := (inject_Z m * pow2 e)%Q).
  destruct (Z.eq_dec m 0) as [->|Hm0].
  { assert (E : (q == 0)%Q) by (unfold q; ring).
    rewrite (float_round_comp q 0 E), (Qred_complete q 0 E). reflexivity. }
  unfold float_round.
  assert (Hq : ~ (q == 0)%Q).
  { unfold q. intros E. apply Qmult_integral in E as [E|E].
    - change 0%Q with (inject_Z 0) in E. rewrite inject_Z_injective in E. lia.
    - pose proof (pow2_pos e). lra. }
  destruct (Qeq_bool q 0) eqn:B; [apply Qeq_bool_iff in B; contradiction|].
  change (Qlog2 q) with (Qlog2 (inject_Z m * pow2 e)).
  rewrite (Qlog2_Z_pow2 m e Hm0).
  assert (Ha : 0 < Z.abs m) by lia.
  destruct (Z.log2_spec _ Ha) as [H1 H2].
  pose proof (Z.log2_nonneg (Z.abs m)) as Hn.
  set (j := Z.log2 (Z.abs m)) in *.
  set (e' := Z.max (-149) (j + e - 23)).
  assert (Hk : exists k, (q * pow2 (- e') == inject_Z k)%Q).
  { destruct (Z.le_gt_cases e' e) as [Hle|Hgt].
    - exists (m * 2 ^ (e - e')).
      rewrite inject_Z_mult, <- (pow2_Z (e - e')) by lia.
      unfold q. rewrite <- Qmult_assoc, <- pow2_plus.
      replace (e + - e') with (e - e') by lia. reflexivity.
    - assert (Hj : j = 24).
      { assert (j <= 24); [|unfold e' in Hgt; lia].
        unfold j. rewrite <- (Z.log2_pow2 24) by lia.
        apply Z.log2_le_mono. exact Hm. }
      assert (He' : e' = e + 1) by (unfold e'; lia).
      assert (Hm' : Z.abs m = 2 ^ 24) by (rewrite Hj in H1; lia).
      exists (m / 2).
      assert (Em : m = 2 * (m / 2)).
      { apply Z.div_exact; [lia|].
        destruct (Z.abs_spec m) as [[_ E]|[_ E]]; rewrite Hm' in E.
        - rewrite <- E. reflexivity.
        - replace m with (- 2 ^ 24) by lia. reflexivity. }
      rewrite He'. unfold q. rewrite Em at 1.
      rewrite inject_Z_mult, <- Qmult_assoc, <- Qmult_assoc.
      replace (- (e + 1)) with (- e + - 1) by lia.
      rewrite (pow2_plus (- e)), (Qmult_assoc (pow2 e)),
        (Qmult_comm (pow2 e)), pow2_cancel.
      change (pow2 (-1)) with (1 # 2)%Q. ring. }
  destruct Hk as [k Hk].
  rewrite (nearest_even_comp _ _ Hk), nearest_even_Z.
  apply Qred_complete.
  assert (E : (q == q * pow2 (- e') * pow2 e')%Q).
  { rewrite <- Qmult_assoc, pow2_cancel. ring. }
  rewrite E, Hk. reflexivity.
Qed.

Lemma Qred_Z z : Qred (inject_Z z) = inject_Z z.
Proof.
  unfold Qred, inject_Z.
  pose proof (Z.ggcd_gcd z 1) as Hg.
  pose proof (Z.ggcd_correct_divisors z 1) as Hd.
  destruct (Z.ggcd z 1) as [g [aa bb]]. simpl in *.
  rewrite Z.gcd_1_r in Hg. subst g. destruct Hd as [Ha Hb].
  rewrite Z.mul_1_l in Ha, Hb. subst aa. rewrite <- Hb. reflexivity.
Qed.

(** The integers up to [2 ^ 24] are floats. *)
Lemma float_round_Z z :
  Z.abs z <= 2 ^ 24 -> float_round (inject_Z z) = inject_Z z.
Proof.
  intros Hz.
  assert (E : (inject_Z z == inject_Z z * pow2 0)%Q)
    by (change (pow2 0) with 1%Q; ring).
  rewrite (float_round_comp _ _ E), float_round_exact by lia.
  rewrite <- (Qred_complete _ _ E). apply Qred_Z.
Qed.

(** What the rounding yields is a float. *)
Lemma float_round_idempotent q : float_round (float_round q) = float_round q.
Proof.
  destruct (Qeq_bool q 0) eqn:B.
  { assert (E : float_round q = 0%Q)
      by (unfold float_round; rewrite B; reflexivity).
    rewrite E. reflexivity. }
  pose proof (Qeq_bool_false_neq q B) as Hq.
  set (e := Z.max (-149) (Qlog2 q - 23)).
  set (m := nearest_even (q * pow2 (- e))).
  assert (E : float_round q = Qred (inject_Z m * pow2 e))
    by (unfold float_round; rewrite B; reflexivity).
  rewrite E, (float_round_comp _ _ (Qred_correct _)).
  apply float_round_exact; [unfold e; lia|].
  destruct (Qlog2_spec q Hq) as [_ S2].
  assert (Hb : (Qabs (q * pow2 (- e)) <= inject_Z (2 ^ 24))%Q).
  { rewrite Qabs_Qmult, (Qabs_pos (pow2 (- e)))
      by apply Qlt_le_weak, pow2_pos.
    apply Qle_pow2_l. rewrite <- pow2_Z by lia. rewrite <- pow2_plus.
    apply Qlt_le_weak. eapply Qlt_le_trans; [exact S2|].
    apply pow2_le. unfold e. lia. }
  apply Qabs_Qle_condition in Hb as [Hb1 Hb2].
  rewrite <- inject_Z_opp in Hb1.
  pose proof (nearest_even_bounds _ _ _ Hb1 Hb2). fold m in H. lia.
Qed.

Lemma to_double_to_float q : to_double (to_float q) = float_round q.
Proof.
  unfold to_float, to_double. simpl.
  destruct (decide _) as [p|n]; [reflexivity|].
  exfalso. apply n. apply bool_decide_pack. apply float_round_idempotent.
Qed.

Lemma to_float_to_double f : to_float (to_double f) = f.
Proof.
  destruct f as [r p]. unfold to_float, to_double. simpl.
  pose proof (bool_decide_unpack _ p) as H. unfold is_float in H.
  rewrite H. destruct (decide _) as [p'|n]; [|contradiction].
  apply (sig_eq_pi _). reflexivity.
Qed.

Lemma to_float_comp q q' : (q == q')%Q -> to_float q = to_float q'.
Proof.
  intros E. apply (sig_eq_pi _).
  change (to_double (to_float q) = to_double (to_float q')).
  rewrite !to_double_to_float. apply float_round_comp, E.
Qed.

(** A float is added to 0 without rounding. *)
Lemma to_float_plus_0 f : to_float (to_double Float0 + to_double f) = f.
Proof.
  rewrite <- (to_float_to_double f) at 2. apply to_float_comp.
  change (to_double Float0) with 0%Q. ring.
Qed.

Lemma inject_Z_plus_eq a b : (inject_Z a + inject_Z b)%Q = inject_Z (a + b).
Proof. unfold Qplus, inject_Z. simpl. rewrite !Z.mul_1_r. reflexivity. Qed.

(** Counts are added without rounding as long as the sum is one. *)
Lemma to_double_plus_counts x y a b :
  to_double x = inject_Z a -> to_double y = inject_Z b ->
  Z.abs (a + b) <= 2 ^ 24 ->
  to_double (to_float (to_double x + to_double y)) = inject_Z (a + b).
Proof.
  intros -> -> H. rewrite inject_Z_plus_eq, to_double_to_float.
  apply float_round_Z, H.
Qed.

End SinglePrecision.

(** * Facts about keys and tables *)

Section KeyOrder.

Lemma pair_ltb_irrefl p : Values.pair_ltb p p = false.
Proof.
  unfold Values.pair_ltb. rewrite !Z.ltb_irrefl, andb_false_r. reflexivity.
Qed.

Lemma pair_ltb_spec p q :
  Values.pair_ltb p q = true
  <-> (p.1 < q.1 \/ (p.1 = q.1 /\ p.2 < q.2)).
Proof.
  unfold Values.pair_ltb.
  rewrite orb_true_iff, andb_true_iff, !Z.ltb_lt, Z.eqb_eq. reflexivity.
Qed.

Lemma pair_ltb_false p q :
  Values.pair_ltb p q = false
  <-> (q.1 < p.1 \/ (p.1 = q.1 /\ q.2 <= p.2)).
Proof.
  rewrite <- not_true_iff_false, pair_ltb_spec. lia.
Qed.

Lemma pair_ltb_total p q :
  Values.pair_ltb p q = false -> Values.pair_ltb q p = false -> p = q.
Proof.
  rewrite !pair_ltb_false. destruct p, q; simpl. intros. f_equal; lia.
Qed.

Lemma ltb_irrefl k : Values.ltb k k = false.
Proof.
  induction k as [|p k IH]; simpl; [reflexivity|].
  rewrite pair_ltb_irrefl. exact IH.
Qed.

Lemma ltb_trans a : forall b c,
  Values.ltb a b = true -> Values.ltb b c = true -> Values.ltb a c = true.
Proof.
  induction a as [|p a IH]; intros [|q b] [|r c]; simpl; try congruence.
  destruct (Values.pair_ltb p q) eqn:Epq.
  - intros _. destruct (Values.pair_ltb q r) eqn:Eqr.
    + intros _. apply pair_ltb_spec in Epq, Eqr.
      assert (Values.pair_ltb p r = true) as -> by (apply pair_ltb_spec; lia).
      reflexivity.
    + destruct (Values.pair_ltb r q) eqn:Erq; [discriminate|].
      intros _. rewrite <- (pair_ltb_total _ _ Eqr Erq), Epq. reflexivity.
  - destruct (Values.pair_ltb q p) eqn:Eqp; [discriminate|].
    pose proof (pair_ltb_total _ _ Epq Eqp) as ->.
    intros Hab. destruct (Values.pair_ltb q r); [reflexivity|].
    destruct (Values.pair_ltb r q); [discriminate|]. apply IH, Hab.
Qed.

Lemma ltb_asym a b : Values.ltb a b = true -> Values.ltb b a = false.
Proof.
  intros H. destruct (Values.ltb b a) eqn:E; [|reflexivity].
  pose proof (ltb_trans _ _ _ H E) as T. rewrite ltb_irrefl in T. discriminate.
Qed.

Lemma ltb_total a : forall b,
  Values.ltb a b = false -> Values.ltb b a = false -> a = b.
Proof.
  induction a as [|p a IH]; intros [|q b]; simpl; try congruence.
  destruct (Values.pair_ltb p q) eqn:Epq; [discriminate|].
  destruct (Values.pair_ltb q p) eqn:Eqp; [discriminate|].
  intros H1 H2. rewrite (pair_ltb_total _ _ Epq Eqp), (IH _ H1 H2). reflexivity.
Qed.

End KeyOrder.

Section TableFacts.

Implicit Types (t out : Table) (k : Values) (a : AbstractHistogram).

Lemma find_insert_eq k a t : Table.find k (Table.insert k a t) = Some a.
Proof.
  induction t as [|[k' a'] t IH]; simpl.
  - rewrite decide_True; auto.
  - destruct (decide (k = k')); simpl; [rewrite decide_True; auto|].
    destruct (Values.ltb k k'); simpl.
    + rewrite decide_True; auto.
    + rewrite decide_False; auto.
Qed.

Lemma find_insert_ne k j a t :
  j <> k -> Table.find j (Table.insert k a t) = Table.find j t.
Proof.
  intros Hne. induction t as [|[k' a'] t IH]; simpl.
  - rewrite decide_False; auto.
  - destruct (decide (k = k')) as [->|]; simpl.
    + rewrite !decide_False; auto.
    + destruct (Values.ltb k k'); simpl.
      * rewrite (decide_False (P := j = k)); auto.
      * destruct (decide (j = k')); auto.
Qed.

Lemma find_modify_eq k f t :
  Table.find k (Table.modify k f t) = f <$> Table.find k t.
Proof.
  induction t as [|[k' a'] t IH]; simpl; [reflexivity|].
  destruct (decide (k = k')); simpl.
  - rewrite decide_True; auto.
  - rewrite decide_False; auto.
Qed.

Lemma find_modify_ne k j f t :
  j <> k -> Table.find j (Table.modify k f t) = Table.find j t.
Proof.
  intros Hne. induction t as [|[k' a'] t IH]; simpl; [reflexivity|].
  destruct (decide (k = k')) as [<-|]; simpl.
  - destruct (decide (j = k)); [contradiction|reflexivity].
  - destruct (decide (j = k')); auto.
Qed.

Lemma find_touch_eq k t : is_Some (Table.find k (Table.touch k t)).
Proof.
  unfold Table.touch. destruct (Table.find k t) eqn:E.
  - rewrite E. eauto.
  - rewrite find_insert_eq. eauto.
Qed.

Lemma touch_present k a t : Table.find k t = Some a -> Table.touch k t = t.
Proof. intros H. unfold Table.touch. rewrite H. reflexivity. Qed.

Lemma at_touch k t : Table.at_ k (Table.touch k t) = Table.at_ k t.
Proof.
  unfold Table.at_, Table.touch. destruct (Table.find k t) eqn:E.
  - rewrite E. reflexivity.
  - rewrite find_insert_eq. reflexivity.
Qed.

Lemma find_all_below k t : all_below k t -> Table.find k t = None.
Proof.
  induction 1 as [|[k' a'] t Hk _ IH]; simpl; [reflexivity|].
  simpl in Hk. rewrite decide_False; [exact IH|].
  intros ->. rewrite ltb_irrefl in Hk. discriminate.
Qed.

Lemma insert_all_below k a t :
  all_below k t -> Table.insert k a t = t ++ [(k, a)].
Proof.
  induction 1 as [|[k' a'] t Hk _ IH]; simpl; [reflexivity|].
  simpl in Hk. rewrite decide_False.
  - rewrite (ltb_asym _ _ Hk), IH. reflexivity.
  - intros ->. rewrite ltb_irrefl in Hk. discriminate.
Qed.

Lemma find_app_last k a t :
  Table.find k t = None -> Table.find k (t ++ [(k, a)]) = Some a.
Proof.
  induction t as [|[k' a'] t IH]; simpl.
  - rewrite decide_True; auto.
  - destruct (decide (k = k')); [discriminate|]. exact IH.
Qed.

Lemma modify_app_last k f a t :
  Table.find k t = None ->
  Table.modify k f (t ++ [(k, a)]) = t ++ [(k, f a)].
Proof.
  induction t as [|[k' a'] t IH]; simpl.
  - rewrite decide_True; auto.
  - destruct (decide (k = k')); [discriminate|]. intros H. rewrite IH; auto.
Qed.

(** What [out[k]] followed by a write does when [k] is above the keys of
    [out]. *)
Lemma touch_modify_all_below k f t :
  all_below k t ->
  Table.modify k f (Table.touch k t) = t ++ [(k, f AbstractHistogram0)]
  /\ Table.at_ k (Table.touch k t) = AbstractHistogram0.
Proof.
  intros H. pose proof (find_all_below _ _ H) as Hn.
  unfold Table.touch, Table.at_. rewrite Hn, (insert_all_below _ _ _ H).
  rewrite (modify_app_last _ _ _ _ Hn), (find_app_last _ _ _ Hn). auto.
Qed.

Lemma Table_sorted_cons_inv k a t :
  Table_sorted ((k, a) :: t) ->
  Table_sorted t
  /\ Forall (fun e : Values * AbstractHistogram => Values.ltb k e.1 = true) t.
Proof.
  unfold Table_sorted. csimpl. intros H. inversion H as [|? ? Hs Hk]; subst.
  split; [exact Hs|]. rewrite Forall_fmap in Hk. exact Hk.
Qed.

Lemma modify_keys k f t : (Table.modify k f t).*1 = t.*1.
Proof.
  induction t as [|[k' a'] t IH]; csimpl; [reflexivity|].
  destruct (decide (k = k')); csimpl; [reflexivity|]. rewrite IH. reflexivity.
Qed.

Lemma Forall_insert_keys (P : Values -> Prop) k a t :
  P k -> Forall P t.*1 -> Forall P (Table.insert k a t).*1.
Proof.
  intros Hk. induction t as [|[k' a'] t IH]; csimpl; intros H.
  - repeat constructor. exact Hk.
  - inversion H; subst.
    destruct (decide (k = k')); csimpl; [constructor; auto|].
    destruct (Values.ltb k k'); csimpl; repeat constructor; auto.
Qed.

Lemma insert_sorted k a t :
  Table_sorted t -> Table_sorted (Table.insert k a t).
Proof.
  unfold Table_sorted. induction t as [|[k' a'] t IH]; csimpl; intros H.
  - repeat constructor.
  - inversion H as [|? ? Hs Hk]; subst.
    destruct (decide (k = k')) as [->|Hne]; csimpl; [exact H|].
    destruct (Values.ltb k k') eqn:E; csimpl.
    + constructor; [exact H|]. constructor; [exact E|].
      eapply Forall_impl; [exact Hk|]. intros j Hj. exact (ltb_trans _ _ _ E Hj).
    + constructor; [apply IH, Hs|]. apply Forall_insert_keys; [|exact Hk].
      unfold key_lt. destruct (Values.ltb k' k) eqn:E'; [reflexivity|].
      destruct Hne. apply ltb_total; assumption.
Qed.




Lemma find_app_r k t1 t2 :
  k ∉ t1.*1 -> Table.find k (t1 ++ t2) = Table.find k t2.
Proof.
  induction t1 as [|[k' a'] t1 IH]; csimpl; [reflexivity|].
  rewrite not_elem_of_cons. intros [Hne Hk].
  rewrite decide_False; auto.
Qed.

Lemma next_after_app kc t1 t2 :
  Forall (fun j => Values.ltb kc j = false) t1.*1 ->
  Table.next_after kc (t1 ++ t2) = Table.next_after kc t2.
Proof.
  induction t1 as [|[k' a'] t1 IH]; csimpl; [reflexivity|].
  intros H. inversion H as [|? ? Hk Ht]; subst. rewrite Hk. apply IH, Ht.
Qed.

End TableFacts.

Section TableInvariants.

Variable P : AbstractHistogram -> Prop.

Lemma modify_insert k f a t :
  Table.modify k f (Table.insert k a t) = Table.insert k (f a) t.
Proof.
  induction t as [|[k' a'] t IH]; csimpl.
  - rewrite decide_True; auto.
  - destruct (decide (k = k')); csimpl.
    + rewrite decide_True; auto.
    + destruct (Values.ltb k k'); csimpl.
      * rewrite decide_True; auto.
      * rewrite decide_False, IH; auto.
Qed.

Lemma Forall_insert k a t :
  P a -> Forall (fun e => P e.2) t ->
  Forall (fun e => P e.2) (Table.insert k a t).
Proof.
  intros Ha. induction 1 as [|[k' a'] t Hk Ht IH]; csimpl.
  - repeat constructor. exact Ha.
  - destruct (decide (k = k')); [constructor; auto|].
    destruct (Values.ltb k k'); repeat constructor; auto.
Qed.

Lemma Forall_modify k f t :
  (forall a, P (f a)) -> Forall (fun e => P e.2) t ->
  Forall (fun e => P e.2) (Table.modify k f t).
Proof.
  intros Hf. induction 1 as [|[k' a'] t Hk Ht IH]; csimpl; [constructor|].
  destruct (decide (k = k')); constructor; auto. apply Hf.
Qed.

Lemma Forall_modify_touch k f t :
  (forall a, P (f a)) -> Forall (fun e => P e.2) t ->
  Forall (fun e => P e.2) (Table.modify k f (Table.touch k t)).
Proof.
  intros Hf Ht. unfold Table.touch. destruct (Table.find k t).
  - apply Forall_modify; auto.
  - rewrite modify_insert. apply Forall_insert; auto.
Qed.

Lemma Forall_find k a t :
  Forall (fun e => P e.2) t -> Table.find k t = Some a -> P a.
Proof.
  induction 1 as [|[k' a'] t Hk Ht IH]; csimpl; [discriminate|].
  destruct (decide (k = k')); [|exact IH]. intros [= <-]. exact Hk.
Qed.

End TableInvariants.

(** * Properties *)

(** ** The [COUNT] step of the stage-1 executor *)

Lemma step1_other_stage s stg i step l :
  stage step <> stg -> step1 s stg i step l = Next l.
Proof.
  intros Hne. unfold step1. destruct (decide (stage step = stg)); congruence.
Qed.

Lemma step1_COUNT s stg i step l :
  COUNT_at stg step ->
  step1 s stg i step l =
    match steps s !! (i + 1)%nat with
    | None => Throw StepsOutOfRange
    | Some nx =>
        if decide (stage nx = STAGE1_2) then Return (count_incremented l)
        else Next (count_reset l)
    end.
Proof.
  intros [Hty Hst]. unfold step1, count_incremented, count_reset, counter_of.
  destruct (decide (stage step = stg)) as [_|]; [|congruence].
  rewrite Hty. destruct (steps s !! (i + 1)%nat) as [nx|]; [|reflexivity].
  destruct (decide (stage nx = STAGE1_2)); [|reflexivity].
  destruct (l_fastpath l) as [p|]; simpl.
  - destruct (ptr_incr p (l_t l)); reflexivity.
  - reflexivity.
Qed.

(** C3, as the code has it. At a [COUNT] step of the requested stage that is
    followed by a step [nx], the per-event increment path (increment the
    counter, [return] at once: the remaining steps [rest] are not looked at
    and nothing is filled) is taken exactly when [nx] is tagged with the
    per-event harvesting stage, whatever the type of [nx]; otherwise the
    step resets [x], [y] and [dimensions] to 0 and the walk goes on. *)
Theorem COUNT_increments_iff_next_stage_is_harvest :
  forall s stg i step rest l nx,
    COUNT_at stg step ->
    steps s !! (i + 1)%nat = Some nx ->
    (stage nx = STAGE1_2 ->
       walk s stg i (step :: rest) l = Return (count_incremented l))
    /\ (stage nx <> STAGE1_2 ->
          walk s stg i (step :: rest) l = walk s stg (S i) rest (count_reset l))
    /\ (is_Return (step1 s stg i step l) = true <-> stage nx = STAGE1_2).
Proof.
  intros s stg i step rest l nx Hc Hnx.
  pose proof (step1_COUNT s stg i step l Hc) as E. rewrite Hnx in E.
  repeat split.
  - intros H. simpl. rewrite E. destruct (decide _); [reflexivity|contradiction].
  - intros H. simpl. rewrite E. destruct (decide _); [contradiction|reflexivity].
  - rewrite E. destruct (decide _); [trivial|discriminate].
  - intros H. rewrite E. destruct (decide _); [reflexivity|contradiction].
Qed.

Lemma COUNT_increments_iff_next_stage_is_harvest_witness :
  walk spec_COUNT_EXTEND STAGE1 0 (steps spec_COUNT_EXTEND)
    (locals0 [(1, 5); (2, 7)] [])
  = Return (count_incremented (locals0 [(1, 5); (2, 7)] [])).
Proof.
  refine (proj1 (COUNT_increments_iff_next_stage_is_harvest
                   spec_COUNT_EXTEND STAGE1 0 (step_COUNT STAGE1) _ _
                   (step_of EXTEND_X STAGE1_2 [2]) _ _) _);
    [split; reflexivity | reflexivity | reflexivity].
Defined.

(** C3, as stated, fails: after [COUNT] comes an [EXTEND_X] tagged with the
    per-event harvesting stage; the increment path is taken although the
    next step is no [GROUPBY]. *)
Lemma increment_iff_GROUPBY_fails :
  ~ increment_iff_GROUPBY spec_COUNT_EXTEND STAGE1 0 (step_COUNT STAGE1)
      (locals0 [(1, 5); (2, 7)] []).
Proof.
  unfold increment_iff_GROUPBY. intros [H _].
  assert (E : next_is_harvest_GROUPBY spec_COUNT_EXTEND 0 = true)
    by (apply H; reflexivity).
  vm_compute in E. discriminate E.
Qed.

(** ** After the step walk: unbooked keys *)

(** C7. The walk is over, the cache slot is empty and no histogram is booked
    for the final key: when [bookUndefined] is off the call returns with the
    table as the walk left it (no entry is created) and the slot still
    empty; when it is on the assertion fails. *)
Theorem unbooked_key_dropped_or_fatal :
  forall TH1_Fill TH1_Fill2 this x y sv s t stg fp l,
    walk s stg 0 (steps s) (mkLocals x y (dimensions this) sv t fp) = Next l ->
    l_fastpath l = None ->
    booked_in (l_significantvalues l) (l_t l) = false ->
    executeStep1Spec TH1_Fill TH1_Fill2 this x y sv s t stg fp =
      if bookUndefined this then Fatal AssertionFailed
      else Ok (l_significantvalues l, l_t l, None).
Proof.
  intros F F2 this x y sv s t stg fp l Hw Hfp Hb.
  unfold executeStep1Spec. rewrite Hw. unfold finish. rewrite Hfp.
  unfold booked_in in Hb.
  destruct (Table.find _ _) as [histo|]; [rewrite Hb|]; reflexivity.
Qed.

Lemma unbooked_key_dropped_or_fatal_witness :
  executeStep1Spec Fill_fixed Fill2_fixed manager0 0 0 [(1, 5)]
    (mkSpec [step_of SAVE STAGE1 [1]]) [([(1, 4)], AbstractHistogram0)]
    STAGE1 None
  = Ok ([(1, 5)], [([(1, 4)], AbstractHistogram0)], None).
Proof.
  apply (unbooked_key_dropped_or_fatal Fill_fixed Fill2_fixed manager0 0 0
           [(1, 5)] (mkSpec [step_of SAVE STAGE1 [1]])
           [([(1, 4)], AbstractHistogram0)] STAGE1 None
           (mkLocals 0 0 0 [(1, 5)] [([(1, 4)], AbstractHistogram0)] None));
    reflexivity.
Defined.

(** ** [s.steps.at(i + 1)] *)

Lemma walk_StepsOutOfRange s stg rest :
  forall i l,
    walk s stg i rest l = Throw StepsOutOfRange ->
    exists j step,
      rest !! j = Some step /\ COUNT_at stg step
      /\ steps s !! (i + j + 1)%nat = None.
Proof.
  induction rest as [|step rest IH]; intros i l H; simpl in H; [discriminate|].
  destruct (step1 s stg i step l) as [l'| |e] eqn:E.
  - destruct (IH _ _ H) as (j & st & Hj & Hc & Ho).
    exists (S j), st. repeat split; try apply Hc; [exact Hj|].
    replace (i + S j + 1)%nat with (S i + j + 1)%nat by lia. exact Ho.
  - discriminate.
  - injection H as ->. exists 0%nat, step.
    unfold step1 in E.
    destruct (decide (stage step = stg)) as [Hs|]; [|discriminate].
    destruct (type step) eqn:Hty; try discriminate.
    + destruct (steps s !! (i + 1)%nat) eqn:Hn.
      * destruct (decide _); [|discriminate].
        destruct (l_fastpath l) as [[]|]; discriminate.
      * repeat split; auto. replace (i + 0 + 1)%nat with (i + 1)%nat by lia.
        exact Hn.
    + destruct (_ && _); [|discriminate]. destruct (columns step !! _); discriminate.
    + destruct (Qeq_bool _ _); [|discriminate]. destruct (columns step !! _); discriminate.
    + destruct (decide _); [|discriminate].
      destruct (l_fastpath l); discriminate.
Qed.

Lemma finish_Fatal TH1_Fill TH1_Fill2 this l e :
  finish TH1_Fill TH1_Fill2 this l = Fatal e -> e = AssertionFailed.
Proof.
  unfold finish. cbv zeta.
  destruct (l_fastpath l) as [p|].
  - destruct (ptr_fill _ p (l_t l)); discriminate.
  - destruct (Table.find _ _) as [h|]; [destruct (bound h)|].
    + destruct (ptr_fill _ _ (l_t l)); discriminate.
    + destruct (bookUndefined this); congruence.
    + destruct (bookUndefined this); congruence.
Qed.

(** C10. A [COUNT] step of the requested stage, at index [i], reads
    [s.steps.at(i + 1)]: the read is out of range exactly when the step is
    the last of the program; and a call of the executor can only end in that
    failure when the last step of the program is such a [COUNT]. *)
Theorem COUNT_lookahead_in_bounds :
  (forall s stg i step l,
     steps s !! i = Some step -> COUNT_at stg step ->
     (step1 s stg i step l = Throw StepsOutOfRange
      <-> S i = length (steps s)))
  /\ (forall TH1_Fill TH1_Fill2 this x y sv s t stg fp,
        executeStep1Spec TH1_Fill TH1_Fill2 this x y sv s t stg fp
          = Fatal StepsOutOfRange ->
        exists step, last (steps s) = Some step /\ COUNT_at stg step).
Proof.
  split.
  - intros s stg i step l Hi Hc. rewrite (step1_COUNT _ _ _ _ _ Hc).
    apply lookup_lt_Some in Hi.
    destruct (steps s !! (i + 1)%nat) as [nx|] eqn:Hn.
    + apply lookup_lt_Some in Hn. split; [|lia].
      destruct (decide _); discriminate.
    + apply lookup_ge_None in Hn. split; [lia|reflexivity].
  - intros F F2 this x y sv s t stg fp H. unfold executeStep1Spec in H.
    destruct (walk _ _ _ _ _) as [l| |e] eqn:W.
    + apply finish_Fatal in H. discriminate.
    + discriminate.
    + injection H as ->.
      destruct (walk_StepsOutOfRange _ _ _ _ _ W) as (j & step & Hj & Hc & Ho).
      exists step. split; [|exact Hc].
      apply lookup_ge_None in Ho. pose proof (lookup_lt_Some _ _ _ Hj).
      rewrite last_lookup. rewrite <- Hj. f_equal. lia.
Qed.

Lemma COUNT_lookahead_in_bounds_witness :
  step1 (mkSpec [step_COUNT STAGE1]) STAGE1 0 (step_COUNT STAGE1)
    (locals0 [(1, 5)] []) = Throw StepsOutOfRange
  /\ exists step,
       last (steps (mkSpec [step_COUNT STAGE1])) = Some step
       /\ COUNT_at STAGE1 step.
Proof.
  destruct COUNT_lookahead_in_bounds as [A B]. split.
  - apply (A (mkSpec [step_COUNT STAGE1]) STAGE1 0%nat (step_COUNT STAGE1));
      [reflexivity | split; reflexivity | reflexivity].
  - apply (B Fill_fixed Fill2_fixed manager0 0%Q 0%Q [(1, 5)]
             (mkSpec [step_COUNT STAGE1]) [] STAGE1 None).
    reflexivity.
Defined.

(** ** Stage 2: [SAVE] *)

Section Save.

Variable pretty : Column -> string.
Variable to_string : Value -> string.

Lemma save_entry_again this k e b e' b' :
  save_entry pretty to_string this k e b = Ok (e', b') ->
  forall b2, save_entry pretty to_string this k e' b2 = Ok (e', b2).
Proof.
  unfold save_entry. intros H b2.
  destruct (me e) as [m|] eqn:Hme; simpl in H.
  - injection H as <- <-. rewrite Hme. reflexivity.
  - destruct (th1 e) as [p|] eqn:Hth; simpl in H.
    + rewrite andb_false_r in H.
      destruct (th1_target e) as [h|]; [|discriminate].
      destruct (GetDimension h =? 1);
        simpl in H; injection H as <- <-; reflexivity.
    + destruct (bookUndefined this) eqn:Hb; simpl in H; [discriminate|].
      injection H as <- <-. rewrite Hme, Hth. reflexivity.
Qed.

Lemma executeSave_again this t :
  forall b t' b',
    executeSave pretty to_string this t b = Ok (t', b') ->
    forall b2, executeSave pretty to_string this t' b2 = Ok (t', b2).
Proof.
  induction t as [|[k e] t IH]; simpl; intros b t' b' H b2.
  - injection H as <- <-. reflexivity.
  - destruct (save_entry _ _ _ _ _ _) as [[e1 b1]|] eqn:E1; [|discriminate].
    destruct (executeSave _ _ _ t b1) as [[r1 b3]|] eqn:E2; [|discriminate].
    injection H as <- <-. simpl.
    rewrite (save_entry_again _ _ _ _ _ _ E1 b2), (IH _ _ _ E2 b2).
    reflexivity.
Qed.

(** C9. [SAVE] is idempotent: when a first [executeSave] has gone through,
    a second one on the table and the booker it left changes neither the
    table nor what is booked (every entry either holds a monitor element
    by then, or has no distribution and is skipped again). *)
Theorem executeSave_idempotent :
  forall this t iBooker t' iBooker',
    executeSave pretty to_string this t iBooker = Ok (t', iBooker') ->
    executeSave pretty to_string this t' iBooker' = Ok (t', iBooker').
Proof.
  intros this t b t' b' H. exact (executeSave_again _ _ _ _ _ H b').
Qed.

End Save.

Lemma executeSave_idempotent_witness :
  exists t' b',
    executeSave pretty0 to_string0 manager0 table_layer1 (mkIBooker EmptyString [])
      = Ok (t', b')
    /\ executeSave pretty0 to_string0 manager0 t' b' = Ok (t', b')
    /\ booked b' = [("Top/Layer_1/", "adc")]%string.
Proof.
  eexists _, _. split; [reflexivity|]. split; [|reflexivity].
  apply (executeSave_idempotent pretty0 to_string0 manager0 table_layer1
           (mkIBooker EmptyString [])).
  reflexivity.
Defined.

(** ** Stage 2: [REDUCE] *)

Section Reduce.

Variable GetMean : TH1 -> Q.
Variable GetEntries : TH1 -> Q.

Lemma reduce_entry_not_implemented step k e out :
  arg step <> "MEAN"%string -> arg step <> "COUNT"%string ->
  is_Some (th1_target e) -> all_below k out ->
  reduce_entry GetMean GetEntries step k e out
  = Ok (out ++ [(k, zero_bin_of e)], [not_implemented step]).
Proof.
  intros H1 H2 [h Hh] Hb. unfold reduce_entry, zero_bin_of. rewrite Hh.
  apply String.eqb_neq in H1, H2. rewrite H1, H2.
  destruct (touch_modify_all_below k
              (fun a => {| count := count a; me := me a;
                           th1 := Some (OwnTH1
                             (SetBinContent
                                (new_TH1F (GetName h) (GetTitle h ++ ";;") 1 0 1)
                                1 0)) |}) out Hb) as [E _].
  simpl. rewrite E. reflexivity.
Qed.

Lemma reduce_loop_not_implemented step t :
  arg step <> "MEAN"%string -> arg step <> "COUNT"%string ->
  forall out log,
    Table_sorted t -> all_have_th1 t ->
    Forall (fun e : Values * AbstractHistogram => all_below e.1 out) t ->
    reduce_loop GetMean GetEntries step t out log
    = Ok (out ++ ((fun e => (e.1, zero_bin_of e.2)) <$> t),
          log ++ ((fun _ => not_implemented step) <$> t)).
Proof.
  intros H1 H2. induction t as [|[k e] t IH]; intros out log Hs Ht Hb; simpl.
  - rewrite !app_nil_r. reflexivity.
  - apply Table_sorted_cons_inv in Hs as [Hs Hk].
    inversion Ht as [|? ? He Ht']; subst. inversion Hb as [|? ? Hbk Hb']; subst.
    rewrite (reduce_entry_not_implemented step k e out H1 H2 He Hbk).
    rewrite IH; auto.
    + rewrite <- !app_assoc. reflexivity.
    + rewrite Forall_forall in *. intros x Hx.
      apply Forall_app. split; [apply Hb', Hx|].
      constructor; [|constructor]. apply Hk, Hx.
Qed.

(** C4, as the code has it. Under a [REDUCE] whose reduction name is neither
    [MEAN] nor [COUNT], every entry of the table (a [std::map], every entry
    having a distribution) sends one error to the log, the step is not
    fatal, and the entry's distribution is replaced by a distribution of
    one bin that holds 0. *)
Theorem REDUCE_not_implemented :
  forall step t,
    arg step <> "MEAN"%string -> arg step <> "COUNT"%string ->
    Table_sorted t -> all_have_th1 t ->
    executeReduce GetMean GetEntries step t
    = Ok ((fun e => (e.1, zero_bin_of e.2)) <$> t,
          (fun _ => not_implemented step) <$> t).
Proof.
  intros step t H1 H2 Hs Ht. unfold executeReduce.
  rewrite (reduce_loop_not_implemented step t H1 H2 [] []); auto.
  apply Forall_forall. intros; constructor.
Qed.

End Reduce.

Lemma REDUCE_not_implemented_witness :
  executeReduce (fun _ => 1%Q) (fun _ => 1%Q)
    (mkStep REDUCE STAGE2 [] "MAX") table_layer1
  = Ok ([([(1, 1)], zero_bin_of (own (th1_of_bins "adc" [5; 3]%Q)))],
        [("+++ Reduction 'MAX not yet implemented" ++ newline)%string]).
Proof.
  apply (REDUCE_not_implemented (fun _ => 1%Q) (fun _ => 1%Q)
           (mkStep REDUCE STAGE2 [] "MAX") table_layer1).
  - discriminate.
  - discriminate.
  - repeat constructor.
  - repeat constructor. simpl. eauto.
Defined.

(** C4, as stated, fails: the distribution with bins 5 and 3 does not
    survive a [REDUCE] by the unknown name [MAX]. *)
Lemma reduce_keeps_distributions_fails :
  ~ reduce_keeps_distributions (fun _ => 1%Q) (fun _ => 1%Q)
      (mkStep REDUCE STAGE2 [] "MAX") table_layer1.
Proof.
  intros H. specialize (H _ _ eq_refl [(1, 1)]). vm_compute in H.
  discriminate H.
Qed.

(** ** Stage 2: [EXTEND] and dimensionality *)

Section ExtendTotal.

Variable pretty : Column -> string.

Lemma th1_target_Some_th1 e : is_Some (th1_target e) -> is_Some (th1 e).
Proof.
  unfold th1_target. destruct (th1 e); [eauto|]. intros [? ?]. discriminate.
Qed.

Lemma extend_nbins_total step isX c t :
  columns step !! 0%nat = Some c -> all_have_th1 t ->
  forall nbins, exists nb, extend_nbins step isX t nbins = Ok nb.
Proof.
  intros Hc. induction 1 as [|[k e] t He Ht IH]; intros nbins; simpl.
  - eauto.
  - rewrite Hc. simpl in He. destruct (th1_target_Some_th1 _ He) as [p ->].
    destruct He as [h ->]. apply IH.
Qed.

Lemma extend_nbins_hole step isX c t :
  columns step !! 0%nat = Some c -> no_dangling_th1 t ->
  Exists (fun e : Values * AbstractHistogram => th1 e.2 = None) t ->
  forall nbins, extend_nbins step isX t nbins = Fatal AssertionFailed.
Proof.
  intros Hc. induction 1 as [|[k e] t He Ht IH]; intros Hex nbins; simpl.
  - inversion Hex.
  - rewrite Hc. simpl in He. destruct He as [->|He]; [reflexivity|].
    destruct (th1_target_Some_th1 _ He) as [p Hp]. rewrite Hp.
    destruct He as [h ->]. apply IH.
    inversion Hex as [? ? Hx|]; subst; [|assumption].
    simpl in Hx. congruence.
Qed.

Lemma extend_entry_total step isX nbins c k e out :
  columns step !! 0%nat = Some c -> is_Some (th1_target e) ->
  Forall (fun x : Values * AbstractHistogram => owns_th1 x.2) out ->
  exists out',
    extend_entry pretty step isX nbins k e out = Ok out'
    /\ Forall (fun x : Values * AbstractHistogram => owns_th1 x.2) out'.
Proof.
  intros Hc He Hout. unfold extend_entry. rewrite Hc.
  destruct (th1_target_Some_th1 _ He) as [p ->]. destruct He as [h ->].
  set (nv := Values.erase k c).
  assert (Hb : exists nh cnt,
             match th1 (Table.at_ nv (Table.touch nv out)) with
             | Some (OwnTH1 nh) =>
                 Some (nh, count (Table.at_ nv (Table.touch nv out)))
             | Some MeTH1 => None
             | None =>
                 Some (extend_book isX (pretty (Values.get k c).1) h
                         (nbins_at nv nbins), 1)
             end = Some (nh, cnt)).
  { rewrite at_touch. unfold Table.at_.
    destruct (Table.find nv out) as [a|] eqn:Ef; simpl; [|eauto].
    destruct (Forall_find owns_th1 _ _ _ Hout Ef) as [nh ->]. eauto. }
  destruct Hb as (nh & cnt & ->).
  destruct (if GetDimension nh =? 1 then _ else _) as [nh' cnt'].
  eexists. split; [reflexivity|].
  apply Forall_modify_touch; [|exact Hout]. intros a. eexists. reflexivity.
Qed.

Lemma extend_loop_total step isX nbins c t :
  columns step !! 0%nat = Some c -> all_have_th1 t ->
  forall out,
    Forall (fun x : Values * AbstractHistogram => owns_th1 x.2) out ->
    exists out', extend_loop pretty step isX nbins t out = Ok out'.
Proof.
  intros Hc. induction 1 as [|[k e] t He Ht IH]; intros out Hout; simpl.
  - eauto.
  - destruct (extend_entry_total step isX nbins c k e out Hc He Hout)
      as (out1 & -> & Hout1).
    apply IH, Hout1.
Qed.

(** C8, as the code has it. [executeExtend] does not look at the
    dimensionality of what it merges: when every entry has a distribution
    the step goes through, also when 1-D and 2-D distributions meet under
    one resulting key; what is fatal is an entry without a distribution,
    by the assertion of the first pass. *)
Theorem EXTEND_does_not_check_dimensionality :
  forall step t isX c,
    columns step !! 0%nat = Some c ->
    (all_have_th1 t -> exists out, executeExtend pretty step t isX = Ok out)
    /\ (no_dangling_th1 t ->
        Exists (fun e : Values * AbstractHistogram => th1 e.2 = None) t ->
        executeExtend pretty step t isX = Fatal AssertionFailed).
Proof.
  intros step t isX c Hc. unfold executeExtend. split.
  - intros Ht. destruct (extend_nbins_total step isX c t Hc Ht []) as [nb ->].
    apply (extend_loop_total step isX nb c t Hc Ht). constructor.
  - intros Hd Hex. rewrite (extend_nbins_hole step isX c t Hc Hd Hex).
    reflexivity.
Qed.

End ExtendTotal.

Lemma EXTEND_does_not_check_dimensionality_witness :
  (exists out,
     executeExtend pretty0 (step_of EXTEND_X STAGE2 [2]) table_mixed true
     = Ok out)
  /\ executeExtend pretty0 (step_of EXTEND_X STAGE2 [2]) table_hole true
     = Fatal AssertionFailed.
Proof.
  split.
  - apply (EXTEND_does_not_check_dimensionality pretty0
             (step_of EXTEND_X STAGE2 [2]) table_mixed true 2 eq_refl).
    repeat constructor; simpl; eauto.
  - apply (EXTEND_does_not_check_dimensionality pretty0
             (step_of EXTEND_X STAGE2 [2]) table_hole true 2 eq_refl).
    + constructor; [right; simpl; eauto|].
      constructor; [left; reflexivity | constructor].
    + apply Exists_cons_tl, Exists_cons_hd. reflexivity.
Defined.

(** C8, as stated, fails: a 1-D and a 2-D distribution under layer 1 are
    merged along the ladder without a fatal error. *)
Lemma extend_rejects_mixed_fails :
  ~ extend_rejects_mixed pretty0 (step_of EXTEND_X STAGE2 [2]) table_mixed
      true.
Proof.
  intros H. destruct (H 2 eq_refl) as [err E].
  - exists [(1, 1); (2, 10)], (own (th1_of_bins "adc" [5; 3]%Q)),
      (th1_of_bins "adc" [5; 3]%Q), [(1, 1); (2, 20)],
      (own (th2_of_bins "adc" [7]%Q)), (th2_of_bins "adc" [7]%Q).
    repeat split; try reflexivity.
    + apply list_elem_of_here.
    + apply list_elem_of_further, list_elem_of_here.
  - vm_compute in E. discriminate E.
Qed.

(** ** Stage 1: the cache slot *)

Section Cache.

Variable TH1_Fill : TH1 -> Q -> TH1.
Variable TH1_Fill2 : TH1 -> Q -> Q -> TH1.

Lemma step1_route s i step l :
  step1 s STAGE1 i step l =
    match route_step s i step (l_x l) (l_y l) (l_dimensions l)
            (l_significantvalues l) with
    | RThrow e => Throw e
    | RCount sv =>
        Return (count_incremented (mkLocals 0 0 0 sv (l_t l) (l_fastpath l)))
    | REnd x y d sv => Next (mkLocals x y d sv (l_t l) (l_fastpath l))
    end.
Proof.
  unfold step1, route_step.
  destruct (decide (stage step = STAGE1)); [|destruct l; reflexivity].
  destruct (type step); try reflexivity.
  - destruct l; reflexivity.
  - destruct (steps s !! (i + 1)%nat) as [nx|]; [|reflexivity].
    destruct (decide (stage nx = STAGE1_2)); [|reflexivity].
    unfold count_incremented, counter_of. simpl.
    destruct (l_fastpath l) as [p|]; simpl.
    + destruct (ptr_incr p (l_t l)); reflexivity.
    + reflexivity.
  - destruct (_ && _); [|reflexivity].
    destruct (columns step !! 0%nat); reflexivity.
  - destruct (Qeq_bool _ _); [|reflexivity].
    destruct (columns step !! 0%nat); reflexivity.
Qed.

Lemma walk_route s rest :
  forall i l,
    walk s STAGE1 i rest l =
      match route s i rest (l_x l) (l_y l) (l_dimensions l)
              (l_significantvalues l) with
      | RThrow e => Throw e
      | RCount sv =>
          Return (count_incremented (mkLocals 0 0 0 sv (l_t l) (l_fastpath l)))
      | REnd x y d sv => Next (mkLocals x y d sv (l_t l) (l_fastpath l))
      end.
Proof.
  induction rest as [|step rest IH]; intros i l; simpl.
  - destruct l; reflexivity.
  - rewrite step1_route.
    destruct (route_step _ _ _ _ _ _ _); try reflexivity.
    rewrite IH. reflexivity.
Qed.

(** Which key a route ends on, and whether it counts, is fixed by the
    program: the sample values decide only whether it aborts. *)
Lemma route_walked s rest :
  forall i x y d sv b sv',
    route_key (route s i rest x y d sv) = Some (b, sv') ->
    b = (walked s i rest).1
    /\ sv' = fold_left Values.erase (walked s i rest).2 sv.
Proof.
  induction rest as [|step rest IH]; intros i x y d sv b sv'; simpl.
  - intros [= <- <-]. auto.
  - unfold route_step. destruct (decide (stage step = STAGE1)); [|apply IH].
    destruct (type step); try discriminate.
    + apply IH.
    + destruct (steps s !! (i + 1)%nat) as [nx|]; [|discriminate].
      destruct (decide (stage nx = STAGE1_2)); [|apply IH].
      intros [= <- <-]. auto.
    + destruct (_ && _); [|discriminate].
      destruct (columns step !! 0%nat) as [c|]; [|discriminate].
      intros H. apply IH in H. destruct (walked s (S i) rest). exact H.
    + destruct (Qeq_bool _ _); [|discriminate].
      destruct (columns step !! 0%nat) as [c|]; [|discriminate].
      intros H. apply IH in H. destruct (walked s (S i) rest). exact H.
Qed.

Lemma bound_fill_with F a : bound (fill_with F a) = bound a.
Proof.
  unfold fill_with, bound. destruct a as [c [m|] [[h|]|]]; reflexivity.
Qed.

(** One call with a valid slot and the same call with an empty slot. *)
Lemma call_with_valid_slot this x y k sv s t fp :
  key_ok s k sv -> slot_valid s k t fp ->
  match executeStep1Spec TH1_Fill TH1_Fill2 this x y sv s t STAGE1 fp,
        executeStep1Spec TH1_Fill TH1_Fill2 this x y sv s t STAGE1 None with
  | Fatal e1, Fatal e2 => e1 = e2
  | Ok (sv1, t1, fp1), Ok (sv2, t2, fp2) =>
      sv1 = fill_key s k /\ sv2 = fill_key s k /\ t1 = t2
      /\ slot_valid s k t1 fp1 /\ slot_valid s k t1 fp2
  | _, _ => False
  end.
Proof.
  intros Hkey Hv. unfold executeStep1Spec. rewrite !walk_route. simpl.
  destruct (route s 0 (steps s) x y (dimensions this) sv) as [e|sv'|x' y' d' sv']
    eqn:R.
  - reflexivity.
  - (* the per-event increment path *)
    destruct (route_walked s (steps s) 0 x y (dimensions this) sv true sv')
      as [Hb Hsv]; [rewrite R; reflexivity|].
    fold (fill_key s sv) in Hsv. rewrite Hkey in Hsv. subst sv'.
    assert (Hlook : is_Some (Table.find (fill_key s k)
                      (Table.modify (fill_key s k) incr_count
                         (Table.touch (fill_key s k) t)))).
    { rewrite find_modify_eq.
      destruct (find_touch_eq (fill_key s k) t) as [a ->]. eauto. }
    unfold count_incremented, counter_of; simpl.
    destruct fp as [p|]; simpl.
    + destruct Hv as [-> Hf]. rewrite <- Hb in Hf. destruct Hf as [a Ha].
      simpl. rewrite (touch_present _ _ _ Ha) in Hlook.
      rewrite (touch_present _ _ _ Ha).
      repeat split; try reflexivity; rewrite <- Hb; exact Hlook.
    + repeat split; try reflexivity; rewrite <- Hb; exact Hlook.
  - (* the end of the steps *)
    destruct (route_walked s (steps s) 0 x y (dimensions this) sv false sv')
      as [Hb Hsv]; [rewrite R; reflexivity|].
    fold (fill_key s sv) in Hsv. rewrite Hkey in Hsv. subst sv'.
    unfold finish; simpl.
    set (f := if d' =? 0 then fill TH1_Fill 0
              else if d' =? 1 then fill TH1_Fill x'
              else fill2 TH1_Fill2 x' y').
    assert (Hf : forall a, bound (f a) = bound a).
    { intros a. unfold f, fill, fill2.
      destruct (d' =? 0); [|destruct (d' =? 1)]; apply bound_fill_with. }
    assert (Hnew : booked_in (fill_key s k) t = true ->
              booked_in (fill_key s k) (Table.modify (fill_key s k) f t)
              = true).
    { unfold booked_in. rewrite find_modify_eq.
      destruct (Table.find (fill_key s k) t) as [a|]; [|discriminate].
      simpl. rewrite Hf. auto. }
    destruct fp as [p|]; simpl.
    + destruct Hv as [-> Hbk]. rewrite <- Hb in Hbk. simpl.
      pose proof Hbk as Hbk'. unfold booked_in in Hbk'.
      destruct (Table.find (fill_key s k) t) as [a|]; [|discriminate].
      rewrite Hbk'. simpl.
      repeat split; try reflexivity; rewrite <- Hb; exact (Hnew Hbk).
    + destruct (Table.find (fill_key s k) t) as [a|] eqn:Ha.
      * destruct (bound a) eqn:Hbd; simpl.
        -- assert (Hbk : booked_in (fill_key s k) t = true)
             by (unfold booked_in; rewrite Ha; exact Hbd).
           repeat split; try reflexivity; rewrite <- Hb; exact (Hnew Hbk).
        -- destruct (bookUndefined this); [reflexivity|].
           repeat split; reflexivity.
      * destruct (bookUndefined this); [reflexivity|].
        repeat split; reflexivity.
Qed.

(** A key without a duplicate column: what the walk has erased stays
    erased. *)
Lemma erase_absent sv c : c ∉ sv.*1 -> Values.erase sv c = sv.
Proof.
  induction sv as [|[c' v] sv IH]; csimpl; [reflexivity|].
  rewrite not_elem_of_cons. intros [Hne Hin].
  destruct (Z.eqb_spec c c'); [congruence|]. rewrite IH; auto.
Qed.

Lemma erase_columns sv c c' : c' ∈ (Values.erase sv c).*1 -> c' ∈ sv.*1.
Proof.
  induction sv as [|[c0 v] sv IH]; csimpl; [auto|].
  destruct (Z.eqb_spec c c0); csimpl; rewrite !elem_of_cons; [auto|].
  intros [|]; auto.
Qed.

Lemma erase_NoDup sv c : NoDup sv.*1 -> NoDup (Values.erase sv c).*1.
Proof.
  induction sv as [|[c0 v] sv IH]; csimpl; [auto|].
  rewrite NoDup_cons. intros [Hin Hnd].
  destruct (Z.eqb_spec c c0); csimpl; [exact Hnd|].
  apply NoDup_cons. split; [|auto]. intros H. apply Hin, (erase_columns _ _ _ H).
Qed.

Lemma erase_erased sv c : NoDup sv.*1 -> c ∉ (Values.erase sv c).*1.
Proof.
  induction sv as [|[c0 v] sv IH]; csimpl.
  - intros _ H. inversion H.
  - rewrite NoDup_cons. intros [Hin Hnd].
    destruct (Z.eqb_spec c c0) as [->|Hne]; csimpl; [exact Hin|].
    rewrite not_elem_of_cons. auto.
Qed.

Lemma fold_erase_columns E :
  forall sv c, c ∈ (fold_left Values.erase E sv).*1 -> c ∈ sv.*1.
Proof.
  induction E as [|c0 E IH]; intros sv c; simpl; [auto|].
  intros H. apply IH in H. exact (erase_columns _ _ _ H).
Qed.

Lemma fold_erase_erased E :
  forall sv, NoDup sv.*1 ->
    Forall (fun c => c ∉ (fold_left Values.erase E sv).*1) E.
Proof.
  induction E as [|c0 E IH]; intros sv Hnd; simpl; constructor.
  - intros H. apply fold_erase_columns in H.
    exact (erase_erased _ _ Hnd H).
  - apply IH, erase_NoDup, Hnd.
Qed.

Lemma fold_erase_absent E :
  forall sv, Forall (fun c => c ∉ sv.*1) E -> fold_left Values.erase E sv = sv.
Proof.
  induction E as [|c0 E IH]; intros sv H; simpl; [reflexivity|].
  inversion H; subst. rewrite erase_absent by assumption. auto.
Qed.

Lemma fill_key_key_ok s k : NoDup k.*1 -> key_ok s k (fill_key s k).
Proof.
  intros Hnd. unfold key_ok, fill_key at 1.
  apply fold_erase_absent, fold_erase_erased, Hnd.
Qed.

Lemma run_calls_valid_slot this s k calls :
  NoDup k.*1 ->
  forall sv t fpA fpB,
    key_ok s k sv -> slot_valid s k t fpA ->
    table_of (run_calls TH1_Fill TH1_Fill2 this s k calls
                (mkSpecState sv t fpA))
    = table_of (run_calls TH1_Fill TH1_Fill2 this s k (without_slot <$> calls)
                  (mkSpecState sv t fpB)).
Proof.
  intros Hnd.
  induction calls as [|[[[reuse keep] x] y] calls IH];
    intros sv t fpA fpB Hkey Hv; csimpl; [reflexivity|].
  set (sv0 := if reuse then sv else k).
  assert (Hkey0 : key_ok s k sv0) by (unfold sv0; destruct reuse; auto; reflexivity).
  assert (Hv0 : slot_valid s k t (if keep then fpA else None))
    by (destruct keep; [exact Hv|exact I]).
  pose proof (call_with_valid_slot this x y k sv0 s t _ Hkey0 Hv0) as C.
  destruct (executeStep1Spec _ _ this x y sv0 s t STAGE1 (if keep then fpA else None))
    as [[[sv1 t1] fp1]|e1];
    destruct (executeStep1Spec _ _ this x y sv0 s t STAGE1 None)
      as [[[sv2 t2] fp2]|e2]; try contradiction.
  - destruct C as (-> & -> & <- & Hv1 & _).
    apply IH; [apply fill_key_key_ok, Hnd|exact Hv1].
  - simpl. congruence.
Qed.

(** C1. The cache slot is a pure optimisation of the stage-1 executor. The
    samples of a source, whose extracted key [k] has no column twice, go
    through the executor one call after the other, every call on [k] or on
    the key the last call left; passing to each call the slot the last call
    left or an empty one, as one likes, ends in the same table, or in the
    same fatal error, as passing an empty slot to every call. *)
Theorem cache_slot_is_pure_optimisation :
  forall this s k calls t,
    NoDup k.*1 ->
    table_of (run_calls TH1_Fill TH1_Fill2 this s k calls
                (mkSpecState k t None))
    = table_of (run_calls TH1_Fill TH1_Fill2 this s k (without_slot <$> calls)
                  (mkSpecState k t None)).
Proof.
  intros this s k calls t Hnd.
  apply run_calls_valid_slot; [exact Hnd|reflexivity|exact I].
Qed.

(** The calls that [HistogramManager::fill] makes are among them. *)
Lemma fills_run_calls this s k samples :
  enabled this = true ->
  forall st cached,
    fills TH1_Fill TH1_Fill2 this s k cached samples st
    = run_calls TH1_Fill TH1_Fill2 this s k
        (fill_call <$> match samples with
                       | [] => []
                       | (x, y) :: rest =>
                           (cached, x, y)
                           :: ((fun '(x, y) => (true, x, y)) <$> rest)
                       end) st.
Proof.
  intros Hen.
  assert (G : forall rest st,
            fills TH1_Fill TH1_Fill2 this s k true rest st
            = run_calls TH1_Fill TH1_Fill2 this s k
                (fill_call <$> ((fun '(x, y) => (true, x, y)) <$> rest)) st).
  { induction rest as [|[x y] rest IH]; intros st; csimpl; [reflexivity|].
    unfold fill_spec. rewrite Hen. simpl.
    destruct (executeStep1Spec _ _ _ _ _ _ _ _ _ _) as [[[sv' t'] fp']|];
      [apply IH|reflexivity]. }
  intros st cached. destruct samples as [|[x y] rest]; csimpl; [reflexivity|].
  unfold fill_spec. rewrite Hen. simpl.
  destruct (executeStep1Spec _ _ _ _ _ _ _ _ _ _) as [[[sv' t'] fp']|];
    [apply G|reflexivity].
Qed.

End Cache.

Lemma cache_slot_is_pure_optimisation_witness :
  table_of (run_calls Fill_fixed Fill2_fixed manager0 spec_per_ladder
              [(1, 1); (2, 7)]
              (carried_call <$> [(0, 0); (0, 0)]%Q)
              (mkSpecState [(1, 1); (2, 7)] table_booked None))
  = table_of (run_calls Fill_fixed Fill2_fixed manager0 spec_per_ladder
                [(1, 1); (2, 7)]
                (without_slot <$> (carried_call <$> [(0, 0); (0, 0)]%Q))
                (mkSpecState [(1, 1); (2, 7)] table_booked None)).
Proof.
  apply (cache_slot_is_pure_optimisation Fill_fixed Fill2_fixed manager0
           spec_per_ladder [(1, 1); (2, 7)]
           (carried_call <$> [(0, 0); (0, 0)]%Q) table_booked).
  apply (bool_decide_unpack _). vm_compute. exact I.
Defined.

(** A remark on the key, outside C1. On a cache hit
    [HistogramManager::fill] does not extract the key again: the executor
    gets [significantvalues[i]] as its last walk left it. When that walk has
    erased a column ([EXTEND_X] in the stage of the fills) the next sample
    of the source is filled at [UNDEFINED], with the cache slot and without
    it: two samples of ladder 7 end in bins 8 and 11 (overflow), where two
    calls on the extracted key fill bin 8 twice. *)
Remark fill_on_cache_hit_passes_walked_key :
  exists st st',
    fills Fill_fixed Fill2_fixed manager0 spec_per_ladder [(1, 1); (2, 7)]
      false [(0, 0); (0, 0)]%Q (mkSpecState [] table_booked None) = Ok st
    /\ run_calls Fill_fixed Fill2_fixed manager0 spec_per_ladder
         [(1, 1); (2, 7)] (carried_call <$> [(0, 0); (0, 0)]%Q)
         (mkSpecState [] table_booked None) = Ok st'
    /\ (cells ∘ getTH1) <$> (Table.find [(1, 1)] (tables st) ≫= me)
       = Some [0; 0; 0; 0; 0; 0; 0; 0; 1; 0; 0; 1]%Q
    /\ (cells ∘ getTH1) <$> (Table.find [(1, 1)] (tables st') ≫= me)
       = Some [0; 0; 0; 0; 0; 0; 0; 0; 2; 0; 0; 0]%Q.
Proof.
  eexists _, _. split; [vm_compute; reflexivity|].
  split; [vm_compute; reflexivity|]. split; vm_compute; reflexivity.
Qed.

(** ** Stage 1: counting per event and harvesting the counts *)

Lemma wrap32_small z : - 2 ^ 31 <= z < 2 ^ 31 -> wrap32 z = z.
Proof. intros H. unfold wrap32. rewrite Z.mod_small; lia. Qed.

Lemma walk_other_stage s stg rest :
  Forall (fun step => stage step <> stg) rest ->
  forall i l, walk s stg i rest l = Next l.
Proof.
  induction 1 as [|step rest Hs _ IH]; intros i l; simpl; [reflexivity|].
  rewrite (step1_other_stage _ _ _ _ _ Hs). apply IH.
Qed.

Section Iteration.

Implicit Types (t : Table) (k j : Values).

Lemma next_entry_at cur done j todo t :
  t.*1 = done ++ j :: todo -> Table_sorted t -> cur = last done ->
  exists a, next_entry cur t = Some (j, a) /\ Table.find j t = Some a.
Proof.
  intros Hk Hs ->. unfold Table_sorted in Hs. rewrite Hk in Hs.
  apply fmap_app_inv in Hk as (t1 & t2 & -> & Hk2 & ->).
  destruct t2 as [|[j' a] t2]; [discriminate|].
  injection Hk2 as Hj Hk2. simpl in Hj. subst j'.
  exists a.
  assert (Hlt : Forall (fun i => key_lt i j) t1.*1).
  { clear -Hs. induction t1 as [|[k1 a1] t1 IH]; csimpl in *; [constructor|].
    inversion Hs as [|? ? Hs' Hf]; subst. constructor; [|exact (IH Hs')].
    rewrite Forall_app, Forall_cons in Hf. tauto. }
  split.
  - destruct (last t1.*1) as [kc|] eqn:Hl; simpl.
    + rewrite next_after_app.
      * simpl. apply last_Some in Hl as [d Hd].
        rewrite Hd in Hs. rewrite <- app_assoc in Hs.
        apply StronglySorted_app_1_r in Hs.
        inversion Hs as [|? ? _ Hf]; subst.
        inversion Hf as [|? ? Hj _]; subst. rewrite Hj. reflexivity.
      * apply last_Some in Hl as [d Hd]. rewrite Hd in *.
        apply StronglySorted_app_1_l in Hs.
        clear -Hs. induction d as [|k1 d IH]; csimpl in *.
        -- repeat constructor. apply ltb_irrefl.
        -- inversion Hs as [|? ? Hs' Hf]; subst. constructor; [|exact (IH Hs')].
           rewrite Forall_app, Forall_singleton in Hf. apply ltb_asym, Hf.
    + destruct t1; [reflexivity|]. csimpl in Hl.
      rewrite last_cons in Hl. destruct (last _); discriminate.
  - rewrite find_app_r.
    + simpl. rewrite decide_True; auto.
    + intros Hin. rewrite Forall_forall in Hlt. apply Hlt in Hin.
      unfold key_lt in Hin. rewrite ltb_irrefl in Hin. discriminate.
Qed.

Lemma next_entry_end cur t :
  Table_sorted t -> cur = last t.*1 -> next_entry cur t = None.
Proof.
  intros Hs ->. unfold Table_sorted in Hs.
  destruct (last t.*1) as [kc|] eqn:Hl; simpl.
  - rewrite <- (app_nil_r t), next_after_app; [reflexivity|].
    apply last_Some in Hl as [d Hd]. rewrite Hd in *.
    clear -Hs. induction d as [|k1 d IH]; csimpl in *.
    + repeat constructor. apply ltb_irrefl.
    + inversion Hs as [|? ? Hs' Hf]; subst. constructor; [|exact (IH Hs')].
      rewrite Forall_app, Forall_singleton in Hf. apply ltb_asym, Hf.
  - destruct t; [reflexivity|]. csimpl in Hl.
    rewrite last_cons in Hl. destruct (last _); discriminate.
Qed.

End Iteration.

Section PerEvent.

Variable TH1_Fill : TH1 -> Q -> TH1.
Variable TH1_Fill2 : TH1 -> Q -> Q -> TH1.
Variable this : HistogramManager.
Variable s : SummationSpecification.
Variable ncolumns : nat.

Lemma harvest_loop_unfold fuel cur st :
  harvest_loop TH1_Fill TH1_Fill2 (S fuel) this s ncolumns cur st =
    match next_entry cur (tables st) with
    | None => Some (Ok st)
    | Some (k, e) =>
        if decide (length k = ncolumns) then
          match executeStep1Spec TH1_Fill TH1_Fill2 this 0 0 k s (tables st)
                  STAGE1_2 (Some (Copy k e)) with
          | Fatal err => Some (Fatal err)
          | Ok (sv', t', _) =>
              harvest_loop TH1_Fill TH1_Fill2 fuel this s ncolumns (Some k)
                (mkSpecState sv' t' (fastpath st))
          end
        else harvest_loop TH1_Fill TH1_Fill2 fuel this s ncolumns (Some k) st
    end.
Proof. destruct cur; reflexivity. Qed.

End PerEvent.

Section CountAndHarvest.

Variable TH1_Fill : TH1 -> Q -> TH1.
Variable TH1_Fill2 : TH1 -> Q -> Q -> TH1.
Variable this : HistogramManager.
Variable s : SummationSpecification.
Variables seed cols : list Column.
Hypothesis Hs : counts_per_event s seed cols.
Hypothesis Hen : enabled this = true.







(** The call of the harvesting loop on the counter of [k]. *)
Lemma harvesting_call k t a histo :
  Table.find k t = Some a ->
  regroup cols k <> k ->
  Table.find (regroup cols k) t = Some histo -> bound histo = true ->
  executeStep1Spec TH1_Fill TH1_Fill2 this 0 0 k s t STAGE1_2
    (Some (Copy k a))
  = Ok (regroup cols k,
        Table.modify (regroup cols k) (fill TH1_Fill (inject_Z (count a)))
          (Table.modify k (set_count 0) t),
        Some (InTable (regroup cols k))).
Proof.
  intros Ha Hne Hg Hb.
  destruct Hs as (a0 & a1 & rest & Hsteps & Hrest).
  unfold executeStep1Spec. rewrite Hsteps. cbn [walk].
  rewrite step1_other_stage by discriminate.
  unfold step1 at 1. simpl.
  rewrite (touch_present _ _ _ Ha).
  rewrite walk_other_stage.
  - unfold finish. simpl.
    rewrite find_modify_ne, Hg, Hb by exact Hne. reflexivity.
  - eapply Forall_impl; [exact Hrest|]. intros step ->. discriminate.
Qed.

End CountAndHarvest.

Lemma executePerEventHarvesting_nonempty TH1_Fill TH1_Fill2 fuel this s st :
  enabled this = true -> tables st <> [] ->
  executePerEventHarvesting TH1_Fill TH1_Fill2 fuel this s st =
    match steps s !! 0%nat with
    | None => Some (Fatal StepsOutOfRange)
    | Some step0 =>
        harvest_loop TH1_Fill TH1_Fill2 fuel this s (length (columns step0))
          None st
    end.
Proof.
  intros Hen Hne. unfold executePerEventHarvesting. rewrite Hen. simpl.
  destruct (tables st); congruence.
Qed.


(** ** Stage 2: [GROUPBY] *)

Section Cells.

Lemma Qplus_comm_eq (a b : Q) : Qplus a b = Qplus b a.
Proof.
  destruct a as [an ad], b as [bn bd]. unfold Qplus. simpl.
  f_equal; [lia | apply Pos.mul_comm].
Qed.

Lemma Qplus_assoc_eq (a b c : Q) : Qplus (Qplus a b) c = Qplus a (Qplus b c).
Proof.
  destruct a as [an ad], b as [bn bd], c as [cn cd]. unfold Qplus. simpl.
  f_equal; [rewrite !Pos2Z.inj_mul; lia | symmetry; apply Pos.mul_assoc].
Qed.

Lemma exact_add_comm (a b : list Q) : exact_add a b = exact_add b a.
Proof.
  unfold exact_add. revert b. induction a as [|x a IH]; intros [|y b]; simpl;
    try reflexivity.
  rewrite Qplus_comm_eq, IH. reflexivity.
Qed.

Lemma exact_add_assoc (a b c : list Q) :
  exact_add (exact_add a b) c = exact_add a (exact_add b c).
Proof.
  unfold exact_add. revert b c.
  induction a as [|x a IH]; intros [|y b] [|z c]; simpl; try reflexivity.
  rewrite Qplus_assoc_eq, IH. reflexivity.
Qed.

Lemma add_cells_length n (a b : list Float_t) :
  length a = n -> length b = n -> length (add_cells a b) = n.
Proof. intros Ha Hb. unfold add_cells. rewrite length_zip_with. lia. Qed.

Lemma fold_exact_add_perm (l l' : list (list Q)) :
  l ≡ₚ l' -> forall a, fold_left exact_add l a = fold_left exact_add l' a.
Proof.
  induction 1 as [|x l l' _ IH|x y l|l l' l'' _ IH1 _ IH2]; intros a; simpl.
  - reflexivity.
  - apply IH.
  - f_equal. rewrite !exact_add_assoc. f_equal. apply exact_add_comm.
  - rewrite IH1. apply IH2.
Qed.

Lemma binwise_sum_perm (hs hs' : list TH1) :
  hs ≡ₚ hs' -> binwise_sum hs = binwise_sum hs'.
Proof.
  induction 1 as [|x l l' Hp IH|x y l|l l' l'' _ IH1 _ IH2]; simpl.
  - reflexivity.
  - f_equal. apply fold_exact_add_perm. rewrite Hp. reflexivity.
  - f_equal. f_equal. apply exact_add_comm.
  - congruence.
Qed.

Lemma accumulated_snoc hs h :
  accumulated (hs ++ [h]) =
    Some (match accumulated hs with
          | Some cs => add_cells cs (fArray h)
          | None => fArray h
          end).
Proof.
  destruct hs as [|h0 r]; simpl; [reflexivity|].
  rewrite fmap_app, fold_left_app. reflexivity.
Qed.

Lemma accumulated_length n hs cs :
  Forall (fun h => length (fArray h) = n) hs ->
  accumulated hs = Some cs -> length cs = n.
Proof.
  revert cs. induction hs as [|h hs IH] using rev_ind; intros cs;
    [discriminate|].
  rewrite Forall_app, Forall_singleton, accumulated_snoc.
  intros [Hhs Hh] [= <-]. destruct (accumulated hs) as [cs|] eqn:E; [|exact Hh].
  apply add_cells_length; [apply IH; auto | exact Hh].
Qed.

(** *** Counts are accumulated without rounding *)

Lemma is_count_natural x : is_count x -> is_natural x.
Proof. intros (n & Hn & ->). exists n. split; [lia|reflexivity]. Qed.

Lemma exact_add_natural (a b : list Q) :
  Forall is_natural a -> Forall is_natural b ->
  Forall is_natural (exact_add a b).
Proof.
  unfold exact_add. intros Ha. revert b.
  induction Ha as [|x a (n & Hn & ->) _ IH]; intros b Hb; [constructor|].
  destruct Hb as [|y b (m & Hm & ->) Hb]; [constructor|]. simpl.
  constructor; [|apply IH, Hb].
  exists (n + m). split; [lia|apply inject_Z_plus_eq].
Qed.

(** Adding naturals does not lower a cell. *)
Lemma fold_exact_add_grows (l : list (list Q)) :
  forall a i t,
    Forall (Forall is_natural) l -> Forall is_natural a ->
    fold_left exact_add l a !! i = Some t ->
    exists n m, a !! i = Some (inject_Z n) /\ t = inject_Z m /\ 0 <= n <= m.
Proof.
  induction l as [|b l IH]; intros a i t Hl Ha Ht; simpl in Ht.
  - rewrite Forall_lookup in Ha. destruct (Ha i t Ht) as (n & Hn & ->).
    exists n, n. split; [exact Ht|]. split; [reflexivity|lia].
  - apply Forall_cons in Hl as [Hb Hl].
    destruct (IH (exact_add a b) i t Hl (exact_add_natural a b Ha Hb) Ht)
      as (n & m & Hn & -> & Hnm).
    unfold exact_add in Hn. apply lookup_zip_with_Some in Hn
      as (x & y & E & Hx & Hy).
    rewrite Forall_lookup in Ha, Hb.
    destruct (Ha i x Hx) as (nx & Hnx & ->).
    destruct (Hb i y Hy) as (ny & Hny & ->).
    rewrite inject_Z_plus_eq in E. injection E as E.
    exists nx, m. split; [exact Hx|]. split; [reflexivity|lia].
Qed.

Lemma add_cells_counts (fa fb : list Float_t) :
  Forall is_count (exact_add (doubles fa) (doubles fb)) ->
  Forall is_natural (doubles fa) ->
  Forall is_natural (doubles fb) ->
  doubles (add_cells fa fb) = exact_add (doubles fa) (doubles fb).
Proof.
  unfold add_cells, exact_add, doubles. revert fb.
  induction fa as [|x fa IH]; intros [|y fb]; csimpl; try reflexivity.
  intros Hs Ha Hb.
  apply Forall_cons in Hs as [(s & Hs1 & Hs2) Hs].
  apply Forall_cons in Ha as [(a & Ha1 & Ha2) Ha].
  apply Forall_cons in Hb as [(b & Hb1 & Hb2) Hb].
  f_equal; [|exact (IH fb Hs Ha Hb)].
  rewrite Ha2, Hb2, inject_Z_plus_eq in Hs2. injection Hs2 as Hs2.
  rewrite (to_double_plus_counts x y a b Ha2 Hb2) by lia.
  rewrite Ha2, Hb2. symmetry. apply inject_Z_plus_eq.
Qed.

Lemma length_doubles l : length (doubles l) = length l.
Proof. apply length_fmap. Qed.

Lemma fold_exact_add_length n (l : list (list Float_t)) :
  forall c : list Q,
    length c = n -> Forall (fun b => length b = n) l ->
    length (fold_left exact_add (doubles <$> l) c) = n.
Proof.
  induction l as [|b l IH]; intros c Hc Hl; [exact Hc|].
  apply Forall_cons in Hl as [Hb Hl]. simpl. apply IH; [|exact Hl].
  unfold exact_add. rewrite length_zip_with, length_doubles. lia.
Qed.

(** What [Add] accumulates of distributions of counts whose bin-wise sums
    are counts is these sums. *)
Lemma fold_add_cells_counts n (l : list (list Float_t)) :
  forall a,
    length a = n -> Forall (fun b => length b = n) l ->
    Forall is_natural (doubles a) ->
    Forall (fun b => Forall is_natural (doubles b)) l ->
    Forall is_count (fold_left exact_add (doubles <$> l) (doubles a)) ->
    doubles (fold_left add_cells l a)
    = fold_left exact_add (doubles <$> l) (doubles a).
Proof.
  induction l as [|b l IH]; intros a Hla Hl Ha Hnat Hsum; [reflexivity|].
  apply Forall_cons in Hl as [Hlb Hl]. apply Forall_cons in Hnat as [Hb Hnat].
  cbn [fold_left fmap list_fmap] in *.
  assert (Hstep : doubles (add_cells a b)
                  = exact_add (doubles a) (doubles b)).
  { apply add_cells_counts; [|exact Ha|exact Hb].
    apply Forall_lookup. intros i s Hs.
    assert (Hlen : (i < n)%nat).
    { apply lookup_lt_Some in Hs. unfold exact_add in Hs.
      rewrite length_zip_with, !length_doubles in Hs. lia. }
    assert (Hlt : length (fold_left exact_add (doubles <$> l)
                            (exact_add (doubles a) (doubles b))) = n).
    { apply fold_exact_add_length; [|exact Hl].
      unfold exact_add. rewrite length_zip_with, !length_doubles. lia. }
    destruct (lookup_lt_is_Some_2 _ i ltac:(rewrite Hlt; exact Hlen))
      as [t Ht].
    assert (Hnat' : Forall (Forall is_natural) (doubles <$> l))
      by (rewrite Forall_fmap; exact Hnat).
    destruct (fold_exact_add_grows _ _ i t Hnat'
                (exact_add_natural _ _ Ha Hb) Ht)
      as (k & m & Hk & -> & Hkm).
    rewrite Forall_lookup in Hsum.
    destruct (Hsum i _ Ht) as (m' & Hm' & Em).
    injection Em as <-. rewrite Hk in Hs. injection Hs as <-.
    exists k. split; [lia|reflexivity]. }
  rewrite <- Hstep in Hsum |- *.
  apply IH; auto.
  - apply add_cells_length; assumption.
  - rewrite Hstep. apply exact_add_natural; assumption.
Qed.

Lemma accumulated_counts n hs sums :
  Forall (fun h => length (fArray h) = n) hs ->
  Forall (fun h => Forall is_count (cells h)) hs ->
  binwise_sum hs = Some sums -> Forall is_count sums ->
  doubles <$> accumulated hs = Some sums.
Proof.
  destruct hs as [|h r]; [discriminate|]. simpl.
  intros Hlen Hc [= <-] Hsum.
  apply Forall_cons in Hlen as [Hh Hr]. apply Forall_cons in Hc as [Hch Hcr].
  f_equal. unfold cells in *.
  assert (E : cells <$> r = doubles <$> (fArray <$> r))
    by (rewrite <- list_fmap_compose; reflexivity).
  unfold cells in E. rewrite E in Hsum |- *.
  apply (fold_add_cells_counts n); auto.
  - rewrite Forall_fmap. exact Hr.
  - eapply Forall_impl; [exact Hch|]. apply is_count_natural.
  - rewrite Forall_fmap. eapply Forall_impl; [exact Hcr|].
    intros h' H'. simpl. eapply Forall_impl; [exact H'|].
    apply is_count_natural.
Qed.

End Cells.

Section GroupBy.

Variable step : SummationStep.
Variable ncells : nat.

Lemma get_column k c : (Values.get k c).1 = c.
Proof.
  induction k as [|[c' v] k IH]; simpl; [reflexivity|].
  destruct (Z.eqb_spec c c'); [simpl; congruence|exact IH].
Qed.

Lemma put_columns nv p c :
  c ∈ (Values.put nv p).*1 <-> c = p.1 \/ c ∈ nv.*1.
Proof.
  induction nv as [|[c' v] nv IH]; csimpl.
  - rewrite list_elem_of_singleton. split; [auto|]. intros [|H]; [auto|].
    inversion H.
  - destruct (Z.eqb_spec p.1 c') as [E|E]; csimpl;
      rewrite !elem_of_cons; [subst c'; tauto|].
    rewrite IH. tauto.
Qed.

Lemma regroup_columns cols k c :
  c ∈ (regroup cols k).*1 <-> c ∈ cols.
Proof.
  unfold regroup.
  assert (G : forall nv,
            c ∈ (fold_left (fun new_vals c0 =>
                              Values.put new_vals (Values.get k c0)) cols nv).*1
            <-> c ∈ cols \/ c ∈ nv.*1).
  { induction cols as [|c0 cols IH]; intros nv; simpl.
    - split; [auto|]. intros [H|]; [inversion H|auto].
    - rewrite IH, put_columns, get_column, elem_of_cons. tauto. }
  rewrite G. split; [|auto]. intros [|H]; [auto|inversion H].
Qed.

Lemma projecting_snoc g done k e :
  projecting step g (done ++ [(k, e)]) =
    projecting step g done
    ++ (if decide (regroup (columns step) k = g)
        then option_list (th1_target e) else []).
Proof.
  unfold projecting. rewrite omap_app. f_equal. simpl.
  destruct (decide _); [|reflexivity]. destruct (th1_target e); reflexivity.
Qed.

Lemma projecting_binning g t :
  same_binning ncells t ->
  Forall (fun h => length (fArray h) = ncells) (projecting step g t).
Proof.
  unfold projecting. induction 1 as [|[k e] t He _ IH]; simpl; [constructor|].
  destruct (decide _); [|exact IH].
  destruct (th1_target e) as [h|] eqn:E; [|exact IH].
  constructor; [apply He; exact E|exact IH].
Qed.

Lemma fArray_at_insert g g0 a out :
  fArray_at g (Table.insert g0 a out) =
    if decide (g = g0) then fArray <$> th1_target a else fArray_at g out.
Proof.
  unfold fArray_at. destruct (decide (g = g0)) as [->|Hne].
  - rewrite find_insert_eq. reflexivity.
  - rewrite find_insert_ne by exact Hne. reflexivity.
Qed.

Lemma fArray_at_modify g g0 f out :
  fArray_at g (Table.modify g0 f out) =
    if decide (g = g0)
    then fArray <$> (Table.find g0 out ≫= th1_target ∘ f)
    else fArray_at g out.
Proof.
  unfold fArray_at. destruct (decide (g = g0)) as [->|Hne].
  - rewrite find_modify_eq. destruct (Table.find g0 out); reflexivity.
  - rewrite find_modify_ne by exact Hne. reflexivity.
Qed.

Lemma groupby_entry_inv out done k e h :
  groupby_inv step out done -> same_binning ncells done ->
  th1_target e = Some h -> length (fArray h) = ncells ->
  exists out',
    groupby_entry step k e out = Ok out'
    /\ groupby_inv step out' (done ++ [(k, e)]).
Proof.
  intros [Hown Hcells] Hbin He Hlen. unfold groupby_entry.
  set (g0 := regroup (columns step) k).
  destruct (Table.find g0 out) as [a|] eqn:Ef.
  - (* the key is there: Add *)
    rewrite (touch_present _ _ _ Ef). unfold Table.at_. rewrite Ef. simpl.
    destruct (Forall_find owns_th1 _ _ _ Hown Ef) as [nh Hnh]. rewrite Hnh.
    eexists. split; [reflexivity|]. split.
    + apply Forall_modify; [|exact Hown]. intros a'. eexists. reflexivity.
    + intros g. rewrite fArray_at_modify, projecting_snoc, He. fold g0.
      destruct (decide (g = g0)) as [->|Hne].
      * rewrite decide_True by reflexivity. simpl.
        assert (length (fArray nh) = ncells) as Hn.
        { apply (accumulated_length ncells (projecting step g0 done)).
          - apply projecting_binning, Hbin.
          - rewrite <- Hcells. unfold fArray_at. rewrite Ef. simpl.
            unfold th1_target. rewrite Hnh. reflexivity. }
        rewrite accumulated_snoc, <- Hcells. unfold fArray_at.
        rewrite Ef. simpl. unfold th1_target. rewrite Hnh. simpl.
        rewrite decide_True by congruence. reflexivity.
      * rewrite decide_False by congruence. rewrite app_nil_r. apply Hcells.
  - (* a new key: Clone *)
    unfold Table.touch, Table.at_. rewrite Ef, find_insert_eq. simpl.
    rewrite He. eexists. split; [reflexivity|]. rewrite modify_insert. split.
    + apply Forall_insert; [|exact Hown]. eexists. reflexivity.
    + intros g. rewrite fArray_at_insert, projecting_snoc, He. fold g0.
      destruct (decide (g = g0)) as [->|Hne].
      * rewrite decide_True by reflexivity. simpl.
        rewrite accumulated_snoc, <- Hcells. unfold fArray_at. rewrite Ef.
        reflexivity.
      * rewrite decide_False by congruence. rewrite app_nil_r. apply Hcells.
Qed.

Lemma groupby_loop_inv t :
  forall out done,
    all_have_th1 t -> same_binning ncells t ->
    groupby_inv step out done -> same_binning ncells done ->
    exists out',
      groupby_loop step t out = Ok out' /\ groupby_inv step out' (done ++ t).
Proof.
  induction t as [|[k e] t IH]; intros out done Hall Hbin Hinv Hdone; simpl.
  - rewrite app_nil_r. eauto.
  - inversion Hall as [|? ? [h He] Hall']; subst. simpl in He.
    inversion Hbin as [|? ? Hh Hbin']; subst. simpl in Hh.
    destruct (groupby_entry_inv out done k e h Hinv Hdone He (Hh _ He))
      as (out1 & -> & Hinv1).
    destruct (IH out1 (done ++ [(k, e)]) Hall' Hbin' Hinv1) as (out' & E & Hinv').
    + apply Forall_app. split; [exact Hdone|]. repeat constructor. exact Hh.
    + exists out'. rewrite <- app_assoc in Hinv'. auto.
Qed.

Lemma executeGroupBy_cells t :
  all_have_th1 t -> same_binning ncells t ->
  exists out,
    executeGroupBy step t = Ok out
    /\ Forall (fun x : Values * AbstractHistogram => owns_th1 x.2) out
    /\ forall g, fArray_at g out = accumulated (projecting step g t).
Proof.
  intros Hall Hbin.
  destruct (groupby_loop_inv t [] [] Hall Hbin) as (out & E & Hown & Hcells).
  - split; [constructor|]. reflexivity.
  - constructor.
  - exists out. auto.
Qed.

Lemma cells_at_fArray_at g t :
  cells_at g t = doubles <$> fArray_at g t.
Proof.
  unfold cells_at, fArray_at, cells.
  destruct (Table.find g t ≫= th1_target); reflexivity.
Qed.

Lemma projecting_counts g t :
  Forall (fun e : Values * AbstractHistogram =>
            forall h, th1_target e.2 = Some h -> Forall is_count (cells h)) t ->
  Forall (fun h => Forall is_count (cells h)) (projecting step g t).
Proof.
  unfold projecting. induction 1 as [|[k e] t He _ IH]; simpl; [constructor|].
  destruct (decide _); [|exact IH].
  destruct (th1_target e) as [h|] eqn:E; [|exact IH].
  constructor; [apply He; exact E|exact IH].
Qed.

Lemma executeGroupBy_sums t :
  all_have_th1 t -> same_binning ncells t ->
  counts_in_single_precision step t ->
  exists out,
    executeGroupBy step t = Ok out
    /\ forall g, cells_at g out = binwise_sum (projecting step g t).
Proof.
  intros Hall Hbin [Hc Hs].
  destruct (executeGroupBy_cells t Hall Hbin) as (out & E & _ & Hacc).
  exists out. split; [exact E|]. intros g.
  rewrite cells_at_fArray_at, Hacc.
  destruct (binwise_sum (projecting step g t)) as [sums|] eqn:Eb.
  - apply (accumulated_counts ncells); auto.
    + apply projecting_binning, Hbin.
    + apply projecting_counts, Hc.
    + apply (Hs g). exact Eb.
  - destruct (projecting step g t); [reflexivity|discriminate].
Qed.

(** C6, as the code has it. [executeGroupBy], on a table whose entries all
    have a distribution of the same binning: the new table has keys on the
    columns of the step only, each the projection of an old key. When the
    distributions hold counts (integers from 0 on) and their bin-wise sums
    under every new key are at most [2 ^ 24], which single precision holds
    exactly, then under every new key is the bin-wise sum of the
    distributions of all the old entries whose key projects to it, and the
    sums are the same whatever the order in which the old entries come. *)
Theorem GROUPBY_sums_counts_per_key :
  forall t,
    all_have_th1 t -> same_binning ncells t ->
    exists out,
      executeGroupBy step t = Ok out
      /\ (forall g, is_Some (Table.find g out) ->
            (exists e, e ∈ t /\ g = regroup (columns step) e.1)
            /\ forall c, c ∈ g.*1 <-> c ∈ columns step)
      /\ (counts_in_single_precision step t ->
            (forall g, cells_at g out = binwise_sum (projecting step g t))
            /\ forall t', t' ≡ₚ t ->
                 exists out',
                   executeGroupBy step t' = Ok out'
                   /\ forall g, cells_at g out' = cells_at g out).
Proof.
  intros t Hall Hbin.
  destruct (executeGroupBy_cells t Hall Hbin) as (out & E & Hown & Hacc).
  exists out. split; [exact E|]. split.
  - intros g [a Ha].
    assert (Hin : exists e, e ∈ t /\ g = regroup (columns step) e.1).
    { destruct (Forall_find owns_th1 _ _ _ Hown Ha) as [nh Hnh].
      specialize (Hacc g). unfold fArray_at in Hacc. rewrite Ha in Hacc.
      simpl in Hacc. unfold th1_target in Hacc. rewrite Hnh in Hacc.
      destruct (projecting step g t) as [|h0 r] eqn:Ep; [discriminate|].
      assert (Hh0 : h0 ∈ projecting step g t) by (rewrite Ep; left).
      unfold projecting in Hh0. apply list_elem_of_omap in Hh0 as (e & He & Hd).
      destruct (decide _) as [Hg|]; [|discriminate]. eauto. }
    split; [exact Hin|]. destruct Hin as (e & _ & ->). intros c.
    apply regroup_columns.
  - intros Hcounts.
    destruct (executeGroupBy_sums t Hall Hbin Hcounts) as (out0 & E0 & Hsums).
    rewrite E in E0. injection E0 as <-.
    split; [exact Hsums|]. intros t' Hp.
    assert (Hall' : all_have_th1 t') by (unfold all_have_th1; rewrite Hp; exact Hall).
    assert (Hbin' : same_binning ncells t')
      by (unfold same_binning; rewrite Hp; exact Hbin).
    assert (Hproj : forall g, projecting step g t' ≡ₚ projecting step g t)
      by (intros g; unfold projecting; rewrite Hp; reflexivity).
    assert (Hcounts' : counts_in_single_precision step t').
    { destruct Hcounts as [Hc Hs]. split; [rewrite Hp; exact Hc|].
      intros g sums. rewrite (binwise_sum_perm _ _ (Hproj g)). apply Hs. }
    destruct (executeGroupBy_sums t' Hall' Hbin' Hcounts')
      as (out' & E' & Hsums').
    exists out'. split; [exact E'|]. intros g.
    rewrite Hsums, Hsums'. apply binwise_sum_perm, Hproj.
Qed.

End GroupBy.

Lemma GROUPBY_sums_counts_per_key_witness :
  exists out,
    executeGroupBy (step_of GROUPBY STAGE2 [1]) table_5_3 = Ok out
    /\ cells_at [(1, 1)] out = Some [0; 8; 0]%Q
    /\ (forall t', t' ≡ₚ table_5_3 ->
          exists out',
            executeGroupBy (step_of GROUPBY STAGE2 [1]) t' = Ok out'
            /\ forall g, cells_at g out' = cells_at g out).
Proof.
  destruct (GROUPBY_sums_counts_per_key (step_of GROUPBY STAGE2 [1]) 3
              table_5_3)
    as (out & E & _ & Hcounts).
  - repeat constructor; simpl; eauto.
  - repeat constructor; simpl; intros h [= <-]; reflexivity.
  - destruct Hcounts as [Hcells Hperm].
    + split.
      * repeat (apply List.Forall_cons;
                [simpl; intros h [= <-]; count_cells|]).
        apply List.Forall_nil.
      * intros g sums Hs.
        destruct (decide (g = [(1, 1)])) as [->|Hne].
        -- vm_compute in Hs. injection Hs as <-. count_cells.
        -- exfalso. cbn in Hs.
           repeat (destruct (decide _) as [Eg|_] in Hs;
                   [apply Hne; symmetry; exact Eg|]).
           discriminate Hs.
    + exists out. split; [exact E|]. split; [|exact Hperm].
      rewrite Hcells. reflexivity.
Defined.

(** C6, as stated, fails: single precision does not hold 16777217. Of the
    counts 16777216, 1 and 1 of the ladders 10, 20 and 30, [Add]
    accumulates 16777216 under layer 1, and not their sum. *)
Lemma groupby_sums_fails :
  ~ groupby_sums (step_of GROUPBY STAGE2 [1]) table_2p24_1_1.
Proof.
  intros H.
  specialize (H groupby_2p24_1_1 [(1, 1)]).
  vm_compute in H. specialize (H eq_refl). discriminate H.
Qed.

(** The order matters there: with the three counts under the ladders in
    the other order, the sum is reached. *)
Remark GROUPBY_depends_on_the_order :
  executeGroupBy (step_of GROUPBY STAGE2 [1]) table_2p24_1_1
  = Ok groupby_2p24_1_1
  /\ cells_at [(1, 1)] groupby_2p24_1_1 = Some [0; 16777216; 0]%Q
  /\ executeGroupBy (step_of GROUPBY STAGE2 [1]) table_1_1_2p24
     = Ok groupby_1_1_2p24
  /\ cells_at [(1, 1)] groupby_1_1_2p24 = Some [0; 16777218; 0]%Q.
Proof. repeat split; vm_compute; reflexivity. Qed.

(** ** Stage 2: [EXTEND_X] on 1-D distributions *)

Section Copy.

Lemma with_fArray_same H : with_fArray H (fArray H) = H.
Proof. destruct H; reflexivity. Qed.

Lemma length_bins_of h : length (bins_of h) = Z.to_nat (Nx h).
Proof. unfold bins_of, from_1_to. rewrite !length_fmap, length_seq. reflexivity. Qed.

Lemma length_stored_bins_of h : length (stored_bins_of h) = Z.to_nat (Nx h).
Proof.
  unfold stored_bins_of, from_1_to. rewrite !length_fmap, length_seq.
  reflexivity.
Qed.

(** A cell read as a double and stored again is the same cell. *)
Lemma to_double_stored h i : to_double (to_float (GetBinContent h i)) = GetBinContent h i.
Proof. unfold GetBinContent. rewrite to_float_to_double. reflexivity. Qed.

Lemma doubles_stored_bins_of h : doubles (stored_bins_of h) = bins_of h.
Proof.
  unfold doubles, stored_bins_of, bins_of. rewrite <- list_fmap_compose.
  apply list_fmap_ext. intros _ i _. apply to_double_stored.
Qed.

(** The loop [for (int i = 1; i <= n; i++)] of the 1-D case, from any
    start. *)
Lemma copy_loop h m :
  forall a H cnt,
    0 <= cnt -> cnt + Z.of_nat m <= INT_MAX ->
    (Z.to_nat cnt + m <= length (fArray H))%nat ->
    fold_left
      (fun '(new_th1, cnt) i =>
         (SetBinContent new_th1 cnt (GetBinContent h i), wrap32 (cnt + 1)))
      (Z.of_nat <$> seq a m) (H, cnt)
    = (with_fArray H
         (take (Z.to_nat cnt) (fArray H)
          ++ ((fun i => to_float (GetBinContent h i)) <$> (Z.of_nat <$> seq a m))
          ++ drop (Z.to_nat cnt + m) (fArray H)),
       cnt + Z.of_nat m).
Proof.
  induction m as [|m IH]; intros a H cnt Hc Hmax Hlen.
  - simpl. rewrite Nat.add_0_r, take_drop, with_fArray_same, Z.add_0_r.
    reflexivity.
  - cbn [seq fmap list_fmap fold_left].
    unfold SetBinContent at 2.
    destruct (Z.ltb_spec cnt 0) as [|_]; [lia|].
    rewrite wrap32_small by (unfold INT_MAX in Hmax; lia).
    rewrite IH; cbn [fArray with_fArray].
    + f_equal; [|lia]. unfold with_fArray. simpl. f_equal.
      rewrite insert_take_drop by lia.
      replace (Z.to_nat (cnt + 1)) with (S (Z.to_nat cnt)) by lia.
      set (n := Z.to_nat cnt) in *. set (cells := fArray H) in *.
      set (v := to_float (GetBinContent h (Z.of_nat a))).
      assert (Hn : length (take n cells ++ [v]) = S n).
      { rewrite length_app, length_take. simpl. lia. }
      assert (E1 : take (S n) (take n cells ++ v :: drop (S n) cells)
                   = take n cells ++ [v]).
      { rewrite (cons_middle v), app_assoc.
        apply take_app_length'. symmetry. exact Hn. }
      assert (E2 : drop (S n + m) (take n cells ++ v :: drop (S n) cells)
                   = drop (n + S m) cells).
      { rewrite (cons_middle v), app_assoc, <- Hn, drop_app_add, drop_drop.
        f_equal. lia. }
      rewrite E1, E2, <- !app_assoc. reflexivity.
    + lia.
    + lia.
    + rewrite length_insert. lia.
Qed.

Lemma copy_1D_spec h H cnt :
  0 <= Nx h -> 0 <= cnt -> cnt + Nx h <= INT_MAX ->
  (Z.to_nat cnt + Z.to_nat (Nx h) <= length (fArray H))%nat ->
  copy_1D h (H, cnt)
  = (with_fArray H
       (take (Z.to_nat cnt) (fArray H) ++ stored_bins_of h
        ++ drop (Z.to_nat cnt + Z.to_nat (Nx h)) (fArray H)),
     cnt + Nx h).
Proof.
  intros Hn Hc Hmax Hlen. unfold copy_1D, stored_bins_of, from_1_to.
  rewrite copy_loop by lia. f_equal. lia.
Qed.

Lemma copy_1D_state g N filled h H :
  GetDimension H = 1 -> Nx H = N ->
  fArray H = Float0 :: filled
               ++ replicate (Z.to_nat N - length filled + 1) Float0 ->
  0 <= Nx h -> N < INT_MAX ->
  (length filled + Z.to_nat (Nx h) <= Z.to_nat N)%nat ->
  forall cnt' H',
    copy_1D h (H, 1 + Z.of_nat (length filled)) = (H', cnt') ->
    extend_state g N (filled ++ stored_bins_of h)
      [(g, {| count := cnt'; me := None; th1 := Some (OwnTH1 H') |})].
Proof.
  intros Hd HN Hcells Hn Hmax Hfit cnt' H' E.
  rewrite copy_1D_spec in E.
  - injection E as <- <-. exists
      (with_fArray H
         (take (Z.to_nat (1 + Z.of_nat (length filled))) (fArray H)
          ++ stored_bins_of h
          ++ drop (Z.to_nat (1 + Z.of_nat (length filled))
                   + Z.to_nat (Nx h)) (fArray H))).
    split; [|split; [exact Hd|split; [exact HN|]]].
    + do 3 f_equal. rewrite length_app, length_stored_bins_of. lia.
    + cbn [fArray with_fArray]. rewrite Hcells.
      replace (Z.to_nat (1 + Z.of_nat (length filled)))
        with (S (length filled)) by lia.
      cbn [take drop Nat.add]. rewrite take_app_length, drop_app_add.
      rewrite drop_replicate, <- !app_assoc, length_app, length_stored_bins_of.
      simpl. do 4 f_equal. lia.
  - exact Hn.
  - lia.
  - unfold INT_MAX in *. lia.
  - rewrite Hcells. simpl. rewrite length_app, length_replicate. lia.
Qed.

End Copy.

Section ExtendX.

Variable pretty : Column -> string.
Variable step : SummationStep.
Variable c : Column.
Variable g : Values.
Variable layout : list Column.
Hypothesis Hc : columns step !! 0%nat = Some c.

Lemma nbins_at_set k n nb : nbins_at k (nbins_set k n nb) = n.
Proof.
  induction nb as [|[k' m] nb IH]; simpl.
  - rewrite decide_True; auto.
  - destruct (decide (k = k')); simpl.
    + rewrite decide_True; auto.
    + rewrite decide_False; auto.
Qed.

Lemma histograms_cons k e h t :
  th1_target e = Some h -> histograms ((k, e) :: t) = h :: histograms t.
Proof. intros E. unfold histograms. simpl. rewrite E. reflexivity. Qed.

Lemma total_bins_cons h hs : total_bins (h :: hs) = Nx h + total_bins hs.
Proof. reflexivity. Qed.

Lemma total_bins_nonneg t :
  differ_only_in c layout g t -> 0 <= total_bins (histograms t).
Proof.
  induction 1 as [|[k e] t (_ & _ & h & Hh & _ & Hn) _ IH].
  - reflexivity.
  - simpl in Hh. rewrite (histograms_cons _ _ _ _ Hh), total_bins_cons. lia.
Qed.

(** The first pass: the number of bins of the resulting key. *)
Lemma extend_nbins_total_bins t :
  differ_only_in c layout g t ->
  forall nb,
    0 <= nbins_at g nb ->
    nbins_at g nb + total_bins (histograms t) <= INT_MAX ->
    exists nb',
      extend_nbins step true t nb = Ok nb'
      /\ nbins_at g nb' = nbins_at g nb + total_bins (histograms t).
Proof.
  induction 1 as [|[k e] t (_ & Hg & h & Hh & _ & Hn) Ht IH];
    intros nb H0 Hmax.
  - exists nb. unfold total_bins. simpl. split; [reflexivity|lia].
  - simpl in Hg, Hh.
    rewrite (histograms_cons _ _ _ _ Hh), total_bins_cons in *.
    pose proof (total_bins_nonneg t Ht) as Hnn.
    simpl extend_nbins. rewrite Hc, Hg, Hh.
    destruct (th1_target_Some_th1 e) as [p ->]; [rewrite Hh; eauto|].
    rewrite wrap32_small by (unfold INT_MAX in Hmax; lia).
    destruct (IH (nbins_set g (nbins_at g nb + Nx h) nb)) as (nb' & E & Hnb').
    + rewrite nbins_at_set. lia.
    + rewrite nbins_at_set. lia.
    + exists nb'. split; [exact E|]. rewrite Hnb', nbins_at_set. lia.
Qed.

Lemma find_single k (a : AbstractHistogram) : Table.find k [(k, a)] = Some a.
Proof. simpl. rewrite decide_True; auto. Qed.

Lemma modify_single k f (a : AbstractHistogram) :
  Table.modify k f [(k, a)] = [(k, f a)].
Proof. simpl. rewrite decide_True; auto. Qed.

Lemma new_TH1F_state name title N lo hi :
  1 <= N ->
  GetDimension (new_TH1F name title N lo hi) = 1
  /\ Nx (new_TH1F name title N lo hi) = N
  /\ fArray (new_TH1F name title N lo hi)
     = Float0 :: [] ++ replicate (Z.to_nat N - length (@nil Float_t) + 1) Float0.
Proof.
  intros H1. unfold Nx, new_TH1F, at_least_one. simpl.
  destruct (Z.leb_spec N 0); [lia|]. repeat split.
  replace (Z.to_nat (N + 2)) with (S (Z.to_nat N - 0 + 1)) by lia.
  reflexivity.
Qed.

(** The second pass, for one entry. *)
Lemma extend_entry_1D nbins N filled k e h out :
  nbins_at g nbins = N -> 1 <= N -> N < INT_MAX ->
  Values.erase k c = g -> th1_target e = Some h ->
  GetDimension h = 1 -> 0 <= Nx h ->
  (length filled + Z.to_nat (Nx h) <= Z.to_nat N)%nat ->
  (out = [] /\ filled = []) \/ extend_state g N filled out ->
  exists out',
    extend_entry pretty step true nbins k e out = Ok out'
    /\ extend_state g N (filled ++ stored_bins_of h) out'.
Proof.
  intros HN H1 Hmax Hg Hh Hd Hn Hfit Hout. unfold extend_entry.
  rewrite Hc, Hg, Hh.
  destruct (th1_target_Some_th1 e) as [p ->]; [rewrite Hh; eauto|].
  destruct Hout as [[-> ->]|(H & -> & HdH & HNH & Hcells)].
  - (* the first entry books the histogram *)
    change (Table.touch g []) with [(g, AbstractHistogram0)].
    unfold Table.at_. rewrite find_single.
    simpl. rewrite HN. unfold extend_book. rewrite Hd. simpl.
    destruct (copy_1D h _) as [H' cnt'] eqn:E.
    try rewrite modify_single; try rewrite decide_True by reflexivity.
    eexists. split; [reflexivity|].
    match type of E with
    | copy_1D h (new_TH1F ?name ?title N ?lo ?hi, 1) = _ =>
        destruct (new_TH1F_state name title N lo hi H1) as (A1 & A2 & A3)
    end.
    exact (copy_1D_state g N [] h _ A1 A2 A3 Hn Hmax Hfit _ _ E).
  - (* the later ones find it *)
    rewrite (touch_present _ _ _ (find_single _ _)).
    unfold Table.at_. rewrite find_single.
    simpl. rewrite HdH. simpl.
    destruct (copy_1D h _) as [H' cnt'] eqn:E.
    try rewrite modify_single; try rewrite decide_True by reflexivity.
    eexists. split; [reflexivity|].
    eapply (copy_1D_state g N filled h H); eauto.
Qed.

Lemma extend_loop_1D nbins N t :
  nbins_at g nbins = N -> 1 <= N -> N < INT_MAX ->
  differ_only_in c layout g t ->
  forall filled out,
    (length filled + Z.to_nat (total_bins (histograms t)) <= Z.to_nat N)%nat ->
    (out = [] /\ filled = []) \/ extend_state g N filled out ->
    t <> [] ->
    exists out',
      extend_loop pretty step true nbins t out = Ok out'
      /\ extend_state g N (filled ++ concat (stored_bins_of <$> histograms t)) out'.
Proof.
  intros HN H1 Hmax.
  induction 1 as [|[k e] t (_ & Hg & h & Hh & Hd & Hn) Ht IH];
    intros filled out Hfit Hout Hne; [congruence|].
  simpl in Hg, Hh. rewrite (histograms_cons _ _ _ _ Hh) in *.
  pose proof (total_bins_nonneg t Ht) as Hnn.
  rewrite total_bins_cons in Hfit.
  simpl extend_loop.
  destruct (extend_entry_1D nbins N filled k e h out) as (out1 & -> & Hst);
    auto; try lia.
  destruct t as [|e2 t].
  - exists out1. split; [reflexivity|].
    unfold histograms. simpl. rewrite app_nil_r. exact Hst.
  - destruct (IH (filled ++ stored_bins_of h) out1) as (out' & E & Hst');
      [|right; exact Hst|discriminate|].
    + rewrite length_app, length_stored_bins_of. lia.
    + exists out'. split; [exact E|]. csimpl. rewrite app_assoc. exact Hst'.
Qed.

(** With [fArray] as the second pass leaves it, the bins are what was
    copied. *)
Lemma bins_of_state H filled :
  Nx H = Z.of_nat (length filled) ->
  fArray H = Float0 :: filled ++ [Float0] ->
  bins_of H = doubles filled.
Proof.
  intros HN Hcells. unfold bins_of, from_1_to. rewrite HN, Nat2Z.id.
  apply list_eq. intros i. unfold doubles. rewrite !list_lookup_fmap.
  destruct (decide (i < length filled)%nat) as [Hi|Hi].
  - rewrite (proj2 (lookup_seq 1 (length filled) i (1 + i)))
      by (split; [reflexivity|exact Hi]).
    simpl. unfold GetBinContent. rewrite Hcells. unfold clamp.
    cbn [length]. rewrite length_app. cbn [length].
    replace (Z.to_nat _) with (S i) by lia.
    simpl. rewrite lookup_app_l by exact Hi.
    destruct (lookup_lt_is_Some_2 filled i Hi) as [x ->]. reflexivity.
  - rewrite lookup_ge_None_2 by (rewrite length_seq; lia).
    rewrite lookup_ge_None_2 by lia. reflexivity.
Qed.

Lemma total_bins_positive t :
  differ_only_in c layout g t -> t <> [] -> 1 <= total_bins (histograms t).
Proof.
  intros Ht Hne. destruct Ht as [|[k e] t (_ & _ & h & Hh & _ & Hn) Ht];
    [congruence|].
  simpl in Hh. rewrite (histograms_cons _ _ _ _ Hh), total_bins_cons.
  pose proof (total_bins_nonneg t Ht). lia.
Qed.

Lemma doubles_concat_stored hs :
  doubles (concat (stored_bins_of <$> hs)) = concat (bins_of <$> hs).
Proof.
  induction hs as [|h hs IH]; [reflexivity|].
  csimpl. unfold doubles in *. rewrite fmap_app, IH.
  f_equal. apply doubles_stored_bins_of.
Qed.

Lemma length_concat_bins t :
  differ_only_in c layout g t ->
  length (concat (stored_bins_of <$> histograms t))
  = Z.to_nat (total_bins (histograms t)).
Proof.
  induction 1 as [|[k e] t (_ & _ & h & Hh & _ & Hn) Ht IH]; [reflexivity|].
  simpl in Hh. rewrite (histograms_cons _ _ _ _ Hh), total_bins_cons.
  csimpl. rewrite length_app, length_stored_bins_of, IH.
  pose proof (total_bins_nonneg t Ht). lia.
Qed.

(** Keys with the same columns that differ in column [c] only are ordered
    by their value in [c]. *)
Lemma same_layout_order k1 :
  forall k2,
    k1.*1 = k2.*1 -> c ∈ k1.*1 ->
    Values.erase k1 c = Values.erase k2 c ->
    Values.ltb k1 k2 = true ->
    Values.index k1 c < Values.index k2 c.
Proof.
  induction k1 as [|[c1 v1] k1 IH]; intros [|[c2 v2] k2]; csimpl;
    try discriminate.
  intros [= <- Hcols] Hin. unfold Values.index. simpl.
  unfold Values.pair_ltb. simpl. rewrite Z.ltb_irrefl, Z.eqb_refl. simpl.
  destruct (Z.eqb_spec c c1) as [->|Hne].
  - intros ->. simpl. destruct (Z.ltb_spec v1 v2); [lia|].
    destruct (Z.ltb_spec v2 v1); [discriminate|].
    rewrite ltb_irrefl. discriminate.
  - intros [= -> He]. rewrite Z.ltb_irrefl. apply IH; auto.
    apply elem_of_cons in Hin as [|]; [congruence|assumption].
Qed.

Lemma ascending_values t :
  Table_sorted t -> differ_only_in c layout g t -> c ∈ layout ->
  StronglySorted Z.lt ((fun e => Values.index e.1 c) <$> t).
Proof.
  intros Hs Ht Hin. induction Ht as [|[k e] t (Hl & Hg & _) Ht IH]; csimpl.
  - constructor.
  - apply Table_sorted_cons_inv in Hs as [Hs Hk]. constructor; [exact (IH Hs)|].
    apply Forall_fmap. rewrite Forall_forall in *. intros [k2 e2] Hx.
    destruct (Ht _ Hx) as (Hl2 & Hg2 & _). simpl in *.
    apply same_layout_order; try congruence. exact (Hk _ Hx).
Qed.

End ExtendX.

(** C5. [EXTEND_X] at harvest, on a table of 1-D distributions that agree
    on all columns but the dropped one [c]: the table becomes one entry
    under the remaining key, whose distribution is 1-D, has as many bins as
    the inputs together, and holds the bins of the inputs one input after
    the other in the order of the table, which is the ascending order of
    the values of [c]. *)
Theorem EXTEND_X_concatenates_bins :
  forall pretty step c g layout t,
    columns step !! 0%nat = Some c ->
    t <> [] -> Table_sorted t -> c ∈ layout ->
    differ_only_in c layout g t ->
    total_bins (histograms t) < INT_MAX ->
    exists H,
      executeExtend pretty step t true
      = Ok [(g, {| count := 1 + total_bins (histograms t); me := None;
                   th1 := Some (OwnTH1 H) |})]
      /\ GetDimension H = 1
      /\ Nx H = total_bins (histograms t)
      /\ bins_of H = concat (bins_of <$> histograms t)
      /\ StronglySorted Z.lt ((fun e => Values.index e.1 c) <$> t).
Proof.
  intros pretty step c g layout t Hc Hne Hs Hin Ht Hmax.
  set (N := total_bins (histograms t)) in *.
  pose proof (total_bins_positive c g layout t Ht Hne) as H1. fold N in H1.
  destruct (extend_nbins_total_bins step c g layout Hc t Ht []) as (nb & E1 & Hnb);
    [simpl; lia | simpl; fold N; lia |].
  simpl in Hnb. fold N in Hnb.
  destruct (extend_loop_1D pretty step c g layout Hc nb N t Hnb H1 Hmax Ht [] [])
    as (out & E2 & H & -> & Hd & HN & Hcells); [simpl; lia | auto | exact Hne |].
  pose proof (length_concat_bins c g layout t Ht) as Hlen. fold N in Hlen.
  simpl in Hcells, E2. rewrite Hlen in *.
  exists H. split; [|split; [exact Hd|split; [exact HN|split]]].
  - unfold executeExtend. rewrite E1, E2. do 4 f_equal. lia.
  - rewrite <- doubles_concat_stored. apply bins_of_state.
    + rewrite HN, Hlen. lia.
    + rewrite Hcells. replace (Z.to_nat N - Z.to_nat N + 1)%nat with 1%nat by lia.
      reflexivity.
  - eapply ascending_values; eauto.
Qed.

Lemma EXTEND_X_concatenates_bins_witness :
  exists H,
    executeExtend pretty0 (step_of EXTEND_X STAGE2 [2]) table_2_3_1 true
    = Ok [([(1, 1)], {| count := 1 + 6; me := None; th1 := Some (OwnTH1 H) |})]
    /\ GetDimension H = 1
    /\ Nx H = 6
    /\ bins_of H = [1; 2; 3; 4; 5; 6]%Q
    /\ StronglySorted Z.lt [10; 20; 30].
Proof.
  apply (EXTEND_X_concatenates_bins pretty0 (step_of EXTEND_X STAGE2 [2]) 2
           [(1, 1)] [1; 2] table_2_3_1).
  - reflexivity.
  - discriminate.
  - repeat constructor.
  - apply list_elem_of_further, list_elem_of_here.
  - constructor; [|constructor; [|constructor; [|constructor]]];
      (split; [reflexivity|split; [reflexivity|]];
       eexists; split; [reflexivity|split; [reflexivity|]];
       vm_compute; discriminate).
  - unfold INT_MAX. vm_compute. reflexivity.
Defined.

(** * The rest of the code *)

(** ** Stage 1: what a fill does to the keys of the table *)

Lemma ptr_fill_keys f p t : (ptr_fill f p t).2.*1 = t.*1.
Proof.
  destruct p as [k|k a]; simpl; [apply modify_keys|].
  destruct (bound a); simpl; [apply modify_keys|reflexivity].
Qed.

Lemma ptr_incr_keys p t : (ptr_incr p t).2.*1 = t.*1.
Proof. destruct p as [k|k a]; simpl; [apply modify_keys|reflexivity]. Qed.

Lemma finish_keys TH1_Fill TH1_Fill2 this l sv' t' fp' :
  finish TH1_Fill TH1_Fill2 this l = Ok (sv', t', fp') ->
  t'.*1 = (l_t l).*1.
Proof.
  unfold finish.
  set (f := if l_dimensions l =? 0 then _ else _).
  assert (Hf : forall p, (let '(p', t'0) := ptr_fill f p (l_t l) in
                          Ok (l_significantvalues l, t'0, Some p'))
                         = Ok (sv', t', fp') -> t'.*1 = (l_t l).*1).
  { intros p. pose proof (ptr_fill_keys f p (l_t l)) as Hk.
    destruct (ptr_fill f p (l_t l)) as [p' t1]. simpl in Hk.
    intros [= <- <- <-]. exact Hk. }
  destruct (l_fastpath l) as [p|]; [apply Hf|].
  destruct (Table.find _ _) as [histo|].
  - destruct (bound histo); [apply Hf|].
    destruct (bookUndefined this); [discriminate|]. intros [= <- <- <-].
    reflexivity.
  - destruct (bookUndefined this); [discriminate|]. intros [= <- <- <-].
    reflexivity.
Qed.

(** A call of the executor in stage [STAGE1] never removes or renames an
    entry of the table, and adds none, but for the counter that the
    per-event increment path creates when it is called with an empty cache
    slot: the final lookup of a fill does not create the entry it does not
    find. *)
Theorem fill_creates_only_the_counter :
  forall TH1_Fill TH1_Fill2 this x y sv s t fp sv' t' fp',
    executeStep1Spec TH1_Fill TH1_Fill2 this x y sv s t STAGE1 fp
    = Ok (sv', t', fp') ->
    t'.*1 = keys_after_fill s fp sv' t.
Proof.
  intros F F2 this x y sv s t fp sv' t' fp'. unfold executeStep1Spec.
  rewrite walk_route. simpl.
  destruct (route s 0 (steps s) x y (dimensions this) sv)
    as [e|sv1|x1 y1 d1 sv1] eqn:R; [discriminate| |].
  - destruct (route_walked s (steps s) 0 x y (dimensions this) sv true sv1)
      as [Hb _]; [rewrite R; reflexivity|].
    unfold count_incremented, counter_of, keys_after_fill. simpl.
    rewrite <- Hb. destruct fp as [p|]; simpl.
    + pose proof (ptr_incr_keys p t) as Hk.
      destruct (ptr_incr p t) as [p2 t2]. simpl in Hk.
      intros [= <- <- <-]. exact Hk.
    + intros [= <- <- <-]. apply modify_keys.
  - destruct (route_walked s (steps s) 0 x y (dimensions this) sv false sv1)
      as [Hb _]; [rewrite R; reflexivity|].
    intros H. apply finish_keys in H. simpl in H.
    unfold keys_after_fill. rewrite <- Hb. destruct fp; exact H.
Qed.

Lemma fill_creates_only_the_counter_witness :
  (Table.modify [(1, 1)] (fill Fill_fixed 7) table_booked).*1
  = keys_after_fill spec_per_ladder None [(1, 1)] table_booked.
Proof.
  apply (fill_creates_only_the_counter Fill_fixed Fill2_fixed manager0 0 0
           [(1, 1); (2, 7)] spec_per_ladder table_booked None [(1, 1)]
           (Table.modify [(1, 1)] (fill Fill_fixed 7) table_booked)
           (Some (InTable [(1, 1)]))).
  reflexivity.
Defined.

(** ** Stage 1: the per-event harvesting of a table of counters *)

Lemma find_in_sorted k a t :
  Table_sorted t -> (k, a) ∈ t -> Table.find k t = Some a.
Proof.
  induction t as [|[k' a'] t IH]; intros Hs Hin; [inversion Hin|].
  apply Table_sorted_cons_inv in Hs as [Hs Hk]. simpl.
  apply elem_of_cons in Hin as [[= <- <-]|Hin].
  - rewrite decide_True; auto.
  - rewrite decide_False; [apply IH; assumption|].
    intros ->. rewrite Forall_forall in Hk. specialize (Hk _ Hin).
    simpl in Hk. rewrite ltb_irrefl in Hk. discriminate.
Qed.

Lemma booked_in_modify j k f t :
  (forall a, bound (f a) = bound a) ->
  booked_in j (Table.modify k f t) = booked_in j t.
Proof.
  intros Hf. unfold booked_in. destruct (decide (j = k)) as [->|Hne].
  - rewrite find_modify_eq. destruct (Table.find k t); simpl; auto.
  - rewrite find_modify_ne by exact Hne. reflexivity.
Qed.

Lemma bound_set_count c a : bound (set_count c a) = bound a.
Proof. reflexivity. Qed.

Section SnapshotLoop.

Variable TH1_Fill : TH1 -> Q -> TH1.
Variable TH1_Fill2 : TH1 -> Q -> Q -> TH1.
Variable this : HistogramManager.
Variable s : SummationSpecification.
Variables seed cols : list Column.
Hypothesis Hs : counts_per_event s seed cols.

Lemma harvest_loop_snapshot todo :
  forall done T sv fp cur fuel,
    T.*1 = done ++ todo.*1 -> Table_sorted T -> cur = last done ->
    Forall (fun e : Values * AbstractHistogram =>
              length e.1 = length seed ->
              Table.find e.1 T = Some e.2
              /\ length (regroup cols e.1) <> length seed
              /\ booked_in (regroup cols e.1) T = true) todo ->
    (length todo < fuel)%nat ->
    exists sv',
      harvest_loop TH1_Fill TH1_Fill2 fuel this s (length seed) cur
        (mkSpecState sv T fp)
      = Some (Ok (mkSpecState sv'
                    (fold_left (harvest_entry TH1_Fill (length seed) cols)
                       todo T) fp)).
Proof.
  induction todo as [|[k a] todo IH];
    intros done T sv fp cur fuel Hk Hsort Hc Hall Hfuel;
    (destruct fuel as [|fuel]; [simpl in Hfuel; lia|]);
    rewrite harvest_loop_unfold; simpl tables.
  - csimpl in Hk. rewrite app_nil_r in Hk. subst done.
    rewrite (next_entry_end _ _ Hsort Hc). eauto.
  - csimpl in Hk.
    destruct (next_entry_at cur done k todo.*1 _ Hk Hsort Hc)
      as (a0 & -> & Hfind).
    inversion Hall as [|? ? Hka Hall']; subst. simpl in Hka.
    assert (Hk' : T.*1 = (done ++ [k]) ++ todo.*1)
      by (rewrite <- app_assoc; exact Hk).
    simpl fold_left. unfold harvest_entry at 2. simpl.
    destruct (decide (length k = length seed)) as [Hlen|Hlen].
    + destruct (Hka Hlen) as (Ha & Hg & Hb).
      rewrite Hfind in Ha. injection Ha as ->.
      assert (Hgk : regroup cols k <> k) by congruence.
      unfold booked_in in Hb.
      destruct (Table.find (regroup cols k) T) as [histo|] eqn:Ehisto;
        [|discriminate].
      rewrite (harvesting_call TH1_Fill TH1_Fill2 this s seed cols Hs k T a
                 histo Hfind Hgk Ehisto Hb).
      fold (harvest_counter TH1_Fill cols T (k, a)).
      apply (IH (done ++ [k])).
      * unfold harvest_counter. rewrite !modify_keys. exact Hk'.
      * unfold Table_sorted, harvest_counter. rewrite !modify_keys.
        exact Hsort.
      * rewrite last_snoc. reflexivity.
      * unfold Table_sorted in Hsort. rewrite Hk in Hsort.
        apply StronglySorted_app_1_r in Hsort.
        apply StronglySorted_inv in Hsort as [_ Hgt].
        rewrite Forall_forall in Hall' |- *. intros [k2 a2] Hin Hlen2.
        simpl in *. destruct (Hall' _ Hin Hlen2) as (Ha2 & Hg2 & Hb2).
        simpl in *.
        assert (Hk2 : k2 <> k).
        { intros ->. rewrite Forall_forall in Hgt.
          assert (Hin' : k ∈ todo.*1)
            by (apply list_elem_of_fmap; exists (k, a2); auto).
          specialize (Hgt _ Hin'). unfold key_lt in Hgt.
          rewrite ltb_irrefl in Hgt. discriminate. }
        unfold harvest_counter. simpl. split; [|split; [exact Hg2|]].
        -- rewrite !find_modify_ne by congruence. exact Ha2.
        -- rewrite !booked_in_modify; [exact Hb2|reflexivity|].
           intros a1. unfold fill. apply bound_fill_with.
      * simpl in Hfuel. lia.
    + apply (IH (done ++ [k])); auto.
      * rewrite last_snoc. reflexivity.
      * simpl in Hfuel. lia.
Qed.

End SnapshotLoop.

(** For a program that counts per event, on a table (a [std::map]) whose
    counters each have a histogram booked for their grouped key, the
    per-event harvesting, which walks the map while the calls it makes
    write to it, does what a walk over a snapshot of the entries does:
    every counter is met once, in key order, its count as it was before
    the harvesting filled into the histogram of its grouped key (also when
    it is 0), and the counter reset; the other entries are passed over,
    and the cache slot of the fills is left alone. *)
Theorem per_event_harvesting_meets_every_counter_once :
  forall TH1_Fill TH1_Fill2 this s seed cols st fuel,
    enabled this = true ->
    counts_per_event s seed cols ->
    Table_sorted (tables st) ->
    counters_have_histograms (length seed) cols (tables st) ->
    (length (tables st) < fuel)%nat ->
    exists sv',
      executePerEventHarvesting TH1_Fill TH1_Fill2 fuel this s st
      = Some (Ok (mkSpecState sv'
                    (harvest_snapshot TH1_Fill (length seed) cols (tables st))
                    (fastpath st))).
Proof.
  intros F F2 this s seed cols [sv t fp] fuel Hen Hs Hsort Hc Hfuel.
  simpl in *. destruct (decide (t = [])) as [->|Hne].
  - exists sv. unfold executePerEventHarvesting. rewrite Hen. reflexivity.
  - rewrite executePerEventHarvesting_nonempty; [|exact Hen|exact Hne].
    pose proof Hs as (a0 & a1 & rest & Hsteps & _). rewrite Hsteps. simpl.
    apply (harvest_loop_snapshot F F2 this s seed cols Hs t []); auto.
    unfold counters_have_histograms in Hc.
    rewrite Forall_forall in Hc |- *. intros [k a] Hin Hlen.
    destruct (Hc _ Hin Hlen) as [Hg Hb]. simpl in *.
    split; [apply find_in_sorted; assumption|auto].
Qed.

Lemma per_event_harvesting_meets_every_counter_once_witness :
  exists sv',
    executePerEventHarvesting Fill_fixed Fill2_fixed 4 manager0 spec_ndigis
      (mkSpecState [] table_two_counters None)
    = Some (Ok (mkSpecState sv'
                  (harvest_snapshot Fill_fixed (length [1; 2]) [1]
                     table_two_counters) None)).
Proof.
  apply (per_event_harvesting_meets_every_counter_once Fill_fixed Fill2_fixed
           manager0 spec_ndigis [1; 2] [1]
           (mkSpecState [] table_two_counters None) 4).
  - reflexivity.
  - exists EmptyString, EmptyString, [step_of SAVE STAGE2 []].
    split; [reflexivity|]. repeat constructor.
  - repeat constructor.
  - unfold counters_have_histograms.
    repeat (apply List.Forall_cons;
            [simpl; intros _; split; [simpl; lia|reflexivity]|]).
    apply List.Forall_nil.
  - simpl. lia.
Defined.

(** ** The manager: the vectors and the loop of [fill] *)

Section Vectors.

Variable TH1_Fill : TH1 -> Q -> TH1.
Variable TH1_Fill2 : TH1 -> Q -> Q -> TH1.
Variable extractColumns : list Column -> InterestingQuantities -> Values.
Variable this : HistogramManager.

Lemma aligned_addSpec spec m : aligned m -> aligned (addSpec spec m).
Proof.
  unfold aligned, addSpec. simpl. rewrite !length_app. simpl.
  intros (H1 & H2 & H3). lia.
Qed.

Lemma fill_at_aligned cached x y i m :
  (i < length (specs m))%nat -> aligned m ->
  Forall (fun s => steps s <> []) (specs m) ->
  exists o,
    fill_at TH1_Fill TH1_Fill2 extractColumns this cached x y i m = Some o
    /\ forall m', o = Ok m' ->
         aligned m' /\ specs m' = specs m /\ iq m' = iq m.
Proof.
  intros Hi (H1 & H2 & H3) Hsteps. unfold fill_at.
  destruct (lookup_lt_is_Some_2 (specs m) i Hi) as [s Es].
  destruct (lookup_lt_is_Some_2 (m_tables m) i ltac:(lia)) as [t Et].
  destruct (lookup_lt_is_Some_2 (m_significantvalues m) i ltac:(lia))
    as [sv Esv].
  destruct (lookup_lt_is_Some_2 (m_fastpath m) i ltac:(lia)) as [fp Efp].
  rewrite Es, Et, Esv, Efp.
  assert (Hargs : exists sv1 fp1,
            (if cached then Some (sv, fp)
             else (fun step0 => (extractColumns (columns step0) (iq m), None))
                    <$> steps s !! 0%nat) = Some (sv1, fp1)).
  { destruct cached; [eauto|].
    rewrite Forall_forall in Hsteps.
    assert (Hs : steps s <> [])
      by (apply Hsteps; eapply list_elem_of_lookup_2; exact Es).
    destruct (steps s) as [|step0 rest]; [congruence|]. simpl. eauto. }
  destruct Hargs as (sv1 & fp1 & ->).
  destruct (executeStep1Spec _ _ _ _ _ _ _ _ _ _) as [[[sv' t'] fp']|e].
  - eexists. split; [reflexivity|]. intros m' [= <-]. simpl.
    unfold aligned. simpl. rewrite !length_insert. auto.
  - eexists. split; [reflexivity|]. discriminate.
Qed.

Lemma for_specs_fill cached x y todo :
  forall m,
    Forall (fun i => (i < length (specs m))%nat) todo -> aligned m ->
    Forall (fun s => steps s <> []) (specs m) ->
    exists o,
      for_specs (fill_at TH1_Fill TH1_Fill2 extractColumns this cached x y)
        todo m = Some o
      /\ forall m', o = Ok m' ->
           aligned m' /\ specs m' = specs m /\ iq m' = iq m.
Proof.
  induction todo as [|i todo IH]; intros m Htodo Ha Hs; simpl.
  - eexists. split; [reflexivity|]. intros m' [= <-]. auto.
  - inversion Htodo as [|? ? Hi Htodo']; subst.
    destruct (fill_at_aligned cached x y i m Hi Ha Hs) as (o & -> & Ho).
    destruct o as [m1|e].
    + destruct (Ho m1 eq_refl) as (Ha1 & Hs1 & Hq1).
      destruct (IH m1) as (o2 & -> & Ho2);
        [rewrite Hs1; exact Htodo'|exact Ha1|rewrite Hs1; exact Hs|].
      eexists. split; [reflexivity|]. intros m' Hm'.
      destruct (Ho2 m' Hm') as (? & ? & ?).
      split; [assumption|split; congruence].
    + eexists. split; [reflexivity|]. discriminate.
Qed.

Lemma aligned_construct spec_configs iq0 :
  aligned (construct spec_configs iq0).
Proof.
  unfold construct.
  assert (H : forall m, aligned m ->
            aligned (fold_left
                       (fun m (spec : bool * SummationSpecification) =>
                          if spec.1 then addSpec spec.2 m else m)
                       spec_configs m)).
  { induction spec_configs as [|[en spec] l IH]; intros m Hm; simpl; [exact Hm|].
    apply IH. destruct en; [apply aligned_addSpec, Hm|exact Hm]. }
  apply H. repeat split.
Qed.

(** The four vectors of the manager stay aligned: the constructor leaves
    them aligned, [addSpec] extends each by one element, and a [fill], on
    aligned vectors of specifications that each have a step, reads none of
    them outside its bounds and leaves them aligned, with the same
    specifications. *)
Theorem fill_stays_within_the_vectors :
  forall spec_configs iq0 spec x y sourceModule' sourceEvent' col' row' m,
    aligned m ->
    Forall (fun s => steps s <> []) (specs m) ->
    aligned (construct spec_configs iq0)
    /\ aligned (addSpec spec m)
    /\ exists o,
         fill_xy TH1_Fill TH1_Fill2 extractColumns this x y
           sourceModule' sourceEvent' col' row' m = Some o
         /\ forall m', o = Ok m' -> aligned m' /\ specs m' = specs m.
Proof.
  intros spec_configs iq0 spec x y sm se c r m Ha Hs.
  split; [apply aligned_construct|].
  split; [apply aligned_addSpec, Ha|].
  unfold fill_xy. destruct (enabled this); simpl.
  - set (m1 := if same_source m sm se c r then m else _).
    assert (Hm1 : specs m1 = specs m /\ aligned m1)
      by (unfold m1; destruct (same_source m sm se c r); auto).
    destruct Hm1 as [Hsp Ha1].
    destruct (for_specs_fill (same_source m sm se c r) x y
                (seq 0 (length (specs m1))) m1) as (o & -> & Ho).
    + apply Forall_forall. intros i Hi. apply elem_of_seq in Hi. lia.
    + exact Ha1.
    + rewrite Hsp. exact Hs.
    + eexists. split; [reflexivity|]. intros m' Hm'.
      destruct (Ho m' Hm') as (? & ? & ?). split; [assumption|congruence].
  - eexists. split; [reflexivity|]. intros m' [= <-]. auto.
Qed.

End Vectors.

Lemma fill_stays_within_the_vectors_witness :
  aligned (construct [(true, spec_per_ladder); (false, spec_COUNT_EXTEND);
                      (true, spec_ndigis)] (mkIQ 0 0 0 0))
  /\ aligned (addSpec spec_ndigis members0)
  /\ exists o,
       fill_xy Fill_fixed Fill2_fixed extractColumns0 manager0 0 0
         107 1 0 0 members0 = Some o
       /\ forall m', o = Ok m' -> aligned m' /\ specs m' = specs members0.
Proof.
  apply (fill_stays_within_the_vectors Fill_fixed Fill2_fixed extractColumns0
           manager0 [(true, spec_per_ladder); (false, spec_COUNT_EXTEND);
                     (true, spec_ndigis)] (mkIQ 0 0 0 0)
           spec_ndigis 0 0 107 1 0 0 members0).
  - repeat split.
  - repeat constructor; discriminate.
Defined.

Section ModuleZero.

Variable TH1_Fill : TH1 -> Q -> TH1.
Variable TH1_Fill2 : TH1 -> Q -> Q -> TH1.
Variable extractColumns : list Column -> InterestingQuantities -> Values.
Variable this : HistogramManager.

Lemma take_S_insert {A} (l1 l2 : list A) i v :
  (i < length l1)%nat -> (i < length l2)%nat ->
  take i l1 = take i l2 ->
  take (S i) (<[i := v]> l1) = take (S i) (<[i := v]> l2).
Proof.
  intros H1 H2 Ht.
  rewrite (take_S_r (<[i := v]> l1) i v)
    by (apply list_lookup_insert_eq; exact H1).
  rewrite (take_S_r (<[i := v]> l2) i v)
    by (apply list_lookup_insert_eq; exact H2).
  rewrite !take_insert_ge by lia. rewrite Ht. reflexivity.
Qed.

Lemma fill_at_uncached x y n i a b :
  (i < n)%nat -> same_but_cache n i a b ->
  match fill_at TH1_Fill TH1_Fill2 extractColumns this false x y i a,
        fill_at TH1_Fill TH1_Fill2 extractColumns this false x y i b with
  | Some (Ok a'), Some (Ok b') => same_but_cache n (S i) a' b'
  | Some (Fatal e1), Some (Fatal e2) => e1 = e2
  | None, None => True
  | _, _ => False
  end.
Proof.
  intros Hi (Hsp & Ht & Hq & Hn & Ha & Hb & Hsv & Hfp).
  pose proof Ha as (Ha1 & Ha2 & Ha3). pose proof Hb as (Hb1 & Hb2 & Hb3).
  unfold fill_at. rewrite <- Hsp, <- Ht, <- Hq.
  destruct (lookup_lt_is_Some_2 (specs a) i ltac:(lia)) as [s ->].
  destruct (lookup_lt_is_Some_2 (m_tables a) i ltac:(lia)) as [t ->].
  destruct (lookup_lt_is_Some_2 (m_significantvalues a) i ltac:(lia))
    as [sva ->].
  destruct (lookup_lt_is_Some_2 (m_significantvalues b) i
              ltac:(rewrite <- Hsp in *; lia)) as [svb ->].
  destruct (lookup_lt_is_Some_2 (m_fastpath a) i ltac:(lia)) as [fpa ->].
  destruct (lookup_lt_is_Some_2 (m_fastpath b) i
              ltac:(rewrite <- Hsp in *; lia)) as [fpb ->].
  destruct (steps s !! 0%nat) as [step0|]; simpl; [|exact I].
  destruct (executeStep1Spec _ _ _ _ _ _ _ _ _ _) as [[[sv' t'] fp']|e];
    [|reflexivity].
  unfold same_but_cache, aligned. simpl. rewrite !length_insert.
  rewrite <- Hsp in *. rewrite Ht.
  repeat split; try assumption; try lia.
  - apply take_S_insert; [lia|lia|exact Hsv].
  - apply take_S_insert; [lia|lia|exact Hfp].
Qed.

Lemma for_specs_uncached x y n len :
  forall i a b,
    (i + len = n)%nat -> same_but_cache n i a b ->
    match for_specs (fill_at TH1_Fill TH1_Fill2 extractColumns this false x y)
            (seq i len) a,
          for_specs (fill_at TH1_Fill TH1_Fill2 extractColumns this false x y)
            (seq i len) b with
    | Some (Ok a'), Some (Ok b') => same_but_cache n n a' b'
    | Some (Fatal e1), Some (Fatal e2) => e1 = e2
    | None, None => True
    | _, _ => False
    end.
Proof.
  induction len as [|len IH]; intros i a b Hlen H; simpl.
  - assert (i = n) as -> by lia. exact H.
  - pose proof (fill_at_uncached x y n i a b ltac:(lia) H) as Hstep.
    destruct (fill_at _ _ _ _ _ _ _ i a) as [[a1|e1]|];
      destruct (fill_at _ _ _ _ _ _ _ i b) as [[b1|e2]|];
      try contradiction; try exact Hstep.
    apply IH; [lia|exact Hstep].
Qed.

(** A sample of module 0 is never taken for a sample of the source of the
    last call: whatever values and cache slots the last [fill] left, the
    values are extracted anew and the slots emptied for every
    specification, so that two states of the manager with the same
    specifications and tables end in the same state, or the same abort. *)
Theorem fill_of_module_0_is_never_cached :
  forall x y sourceEvent' col' row' a b,
    enabled this = true ->
    aligned a -> aligned b ->
    specs a = specs b -> m_tables a = m_tables b ->
    fill_xy TH1_Fill TH1_Fill2 extractColumns this x y 0 sourceEvent' col'
      row' a
    = fill_xy TH1_Fill TH1_Fill2 extractColumns this x y 0 sourceEvent' col'
        row' b.
Proof.
  intros x y se c r a b Hen Ha Hb Hsp Ht.
  unfold fill_xy. rewrite Hen. simpl.
  assert (Hc : forall m, same_source m 0 se c r = false).
  { intros m. unfold same_source. simpl. rewrite !orb_true_r. reflexivity. }
  rewrite !Hc.
  set (a1 := mkMembers _ _ _ _ _). set (b1 := mkMembers _ _ _ _ _).
  assert (Hinit : same_but_cache (length (specs a1)) 0 a1 b1).
  { unfold same_but_cache, aligned, a1, b1. simpl.
    destruct Ha as (? & ? & ?), Hb as (? & ? & ?). repeat split; auto. }
  pose proof (for_specs_uncached x y (length (specs a1))
                (length (specs a1)) 0 a1 b1 eq_refl Hinit) as H.
  replace (length (specs b1)) with (length (specs a1))
    by (simpl; rewrite Hsp; reflexivity).
  destruct (for_specs _ (seq 0 (length (specs a1))) a1) as [[a2|e1]|];
    destruct (for_specs _ (seq 0 (length (specs a1))) b1) as [[b2|e2]|];
    try contradiction; try reflexivity.
  - destruct H as (E1 & E2 & E3 & En & (_ & A2 & A3) & (_ & B2 & B3) & E4 & E5).
    assert (Eb : length (specs b2) = length (specs a2))
      by (rewrite E1; reflexivity).
    rewrite !take_ge in E4 by lia. rewrite !take_ge in E5 by lia.
    destruct a2, b2. simpl in *. subst. reflexivity.
  - rewrite H. reflexivity.
Qed.

End ModuleZero.

Lemma fill_of_module_0_is_never_cached_witness :
  fill_xy Fill_fixed Fill2_fixed extractColumns0 manager0 0 0 0 1 0 0 members0
  = fill_xy Fill_fixed Fill2_fixed extractColumns0 manager0 0 0 0 1 0 0
      members1.
Proof.
  apply (fill_of_module_0_is_never_cached Fill_fixed Fill2_fixed
           extractColumns0 manager0 0 0 1 0 0 members0 members1).
  - reflexivity.
  - repeat split.
  - repeat split.
  - reflexivity.
  - reflexivity.
Defined.

(** ** Counting and harvesting: every counter of the table is harvested *)

Section PerCounter.

Variable TH1_Fill : TH1 -> Q -> TH1.
Variable ncolumns : nat.
Variable cols : list Column.



End PerCounter.






(** ** Booking *)

Section TableMore.

Implicit Types (t : Table) (k j : Values) (a : AbstractHistogram).

Lemma find_touch_ne k j t : j <> k -> Table.find j (Table.touch k t) = Table.find j t.
Proof.
  intros Hne. unfold Table.touch. destruct (Table.find k t); [reflexivity|].
  apply find_insert_ne, Hne.
Qed.

Lemma find_touch_present k j a t :
  Table.find j t = Some a -> Table.find j (Table.touch k t) = Some a.
Proof.
  intros H. destruct (decide (j = k)) as [->|Hne].
  - rewrite (touch_present _ _ _ H). exact H.
  - rewrite find_touch_ne by exact Hne. exact H.
Qed.

Lemma modify_id k f a t :
  Table.find k t = Some a -> f a = a -> Table.modify k f t = t.
Proof.
  intros Hf Ha. induction t as [|[k' a'] t IH]; simpl in *; [reflexivity|].
  destruct (decide (k = k')) as [->|Hne].
  - injection Hf as ->. rewrite Ha. reflexivity.
  - rewrite IH by exact Hf. reflexivity.
Qed.

Lemma zero_at_reset_id k t : zero_at k t -> reset_counter k t = t.
Proof.
  intros (a & Ha & Hc). unfold reset_counter.
  rewrite (touch_present _ _ _ Ha). apply (modify_id _ _ a); [exact Ha|].
  destruct a; simpl in *; subst; reflexivity.
Qed.

Lemma zero_at_reset k t : zero_at k (reset_counter k t).
Proof.
  unfold zero_at, reset_counter. rewrite find_modify_eq.
  destruct (find_touch_eq k t) as [a ->]. simpl. eauto.
Qed.

Lemma zero_at_reset_mono j k t : zero_at j t -> zero_at j (reset_counter k t).
Proof.
  intros H. destruct (decide (j = k)) as [->|Hne]; [apply zero_at_reset|].
  destruct H as (a & Ha & Hc). exists a. split; [|exact Hc].
  unfold reset_counter. rewrite find_modify_ne, find_touch_ne; auto.
Qed.

Lemma has_me_reset_mono j k t : has_me j t -> has_me j (reset_counter k t).
Proof.
  intros (a & m & Ha & Hm). unfold has_me, reset_counter.
  destruct (decide (j = k)) as [->|Hne].
  - rewrite find_modify_eq, (touch_present _ _ _ Ha), Ha. simpl.
    exists (set_count 0 a), m. auto.
  - rewrite find_modify_ne, find_touch_ne by auto. eauto.
Qed.

Lemma reset_counters_id cs t :
  Forall (fun k => zero_at k t) cs -> reset_counters cs t = t.
Proof.
  induction 1 as [|k cs Hk _ IH]; simpl; [reflexivity|].
  unfold reset_counters in *. simpl. rewrite (zero_at_reset_id _ _ Hk).
  exact IH.
Qed.

Lemma zero_at_resets_mono j cs :
  forall t, zero_at j t -> zero_at j (reset_counters cs t).
Proof.
  induction cs as [|k cs IH]; intros t H; [exact H|].
  apply (IH (reset_counter k t)), zero_at_reset_mono, H.
Qed.

Lemma has_me_resets_mono j cs :
  forall t, has_me j t -> has_me j (reset_counters cs t).
Proof.
  induction cs as [|k cs IH]; intros t H; [exact H|].
  apply (IH (reset_counter k t)), has_me_reset_mono, H.
Qed.

Lemma zero_at_resets cs :
  forall t, Forall (fun k => zero_at k (reset_counters cs t)) cs.
Proof.
  induction cs as [|k cs IH]; intros t; constructor.
  - apply (zero_at_resets_mono k cs (reset_counter k t)), zero_at_reset.
  - apply (IH (reset_counter k t)).
Qed.

Lemma reset_counters_app cs1 cs2 t :
  reset_counters (cs1 ++ cs2) t = reset_counters cs2 (reset_counters cs1 t).
Proof. apply fold_left_app. Qed.

End TableMore.

Section BookFacts.

Variable pretty : Column -> string.
Variable to_string : Value -> string.
Variables minValue maxValue : Column -> Q.
Variable this : HistogramManager.
Variable q : Quantity.
Variable s : SummationSpecification.

Lemma with_t_same l : with_t l (b_t l) = l.
Proof. destruct l; reflexivity. Qed.

(** The table has no say in the walk of [book]. *)
Lemma book_step_table step l t2 :
  book_step pretty minValue maxValue q s step (with_t l t2) =
    match book_step pretty minValue maxValue q s step l with
    | Fatal e => Fatal e
    | Ok l' =>
        Ok (with_t l'
              (if counts_here step
               then reset_counter (b_significantvalues l) t2 else t2))
    end.
Proof.
  unfold book_step, counts_here.
  destruct (in_step1 step); [|reflexivity].
  destruct (type step); simpl; try reflexivity.
  - destruct (columns step !! 0%nat); [|reflexivity].
    destruct (b_dimensions l =? 1); reflexivity.
  - destruct (columns step !! 0%nat); [|reflexivity].
    destruct (b_dimensions l =? 2); reflexivity.
  - destruct (b_dimensions l =? 0); reflexivity.
Qed.

Lemma book_counters_table rest :
  forall l t2,
    book_counters pretty minValue maxValue q s rest (with_t l t2)
    = book_counters pretty minValue maxValue q s rest l.
Proof.
  induction rest as [|step rest IH]; intros l t2; simpl; [reflexivity|].
  rewrite book_step_table.
  destruct (book_step _ _ _ _ _ _ l) as [l'|e]; [|reflexivity].
  rewrite IH. reflexivity.
Qed.

Lemma book_walk_table rest :
  forall l t2,
    book_walk pretty minValue maxValue q s rest (with_t l t2) =
      match book_walk pretty minValue maxValue q s rest l with
      | Fatal e => Fatal e
      | Ok l' =>
          Ok (with_t l'
                (reset_counters
                   (book_counters pretty minValue maxValue q s rest l) t2))
      end.
Proof.
  induction rest as [|step rest IH]; intros l t2; simpl; [reflexivity|].
  rewrite book_step_table.
  destruct (book_step _ _ _ _ _ _ l) as [l'|e]; [|reflexivity].
  rewrite IH.
  destruct (book_walk _ _ _ _ _ rest l') as [l2|e]; [|reflexivity].
  rewrite reset_counters_app. destruct (counts_here step); reflexivity.
Qed.

(** [book] for one module, on any table, from its walk on the empty
    table. *)
Lemma book_module_plan sv t iBooker :
  book_module pretty to_string minValue maxValue this q s sv t iBooker =
    match book_walk pretty minValue maxValue q s (steps s)
            (book_locals this q sv []) with
    | Fatal e => Fatal e
    | Ok l =>
        Ok (book_histogram pretty to_string this
              (with_t l
                 (reset_counters
                    (book_counters pretty minValue maxValue q s (steps s)
                       (book_locals this q sv [])) t))
              iBooker)
    end.
Proof.
  unfold book_module.
  change (book_locals this q sv t) with (with_t (book_locals this q sv []) t).
  rewrite book_walk_table.
  destruct (book_walk _ _ _ _ _ _ (book_locals this q sv [])); reflexivity.
Qed.

Lemma book_histogram_settled l t iBooker :
  has_me (b_significantvalues l) t ->
  book_histogram pretty to_string this (with_t l t) iBooker = (t, iBooker).
Proof.
  intros (a & m & Ha & Hm). unfold book_histogram. simpl.
  rewrite (touch_present _ _ _ Ha). unfold Table.at_. rewrite Ha. simpl.
  rewrite Hm. rewrite bool_decide_true by eauto. reflexivity.
Qed.

Lemma book_histogram_cases l iBooker :
  let sv := b_significantvalues l in
  let r := book_histogram pretty to_string this l iBooker in
  r.1 = Table.touch sv (b_t l)
  \/ (exists m, r.1 = Table.modify sv (set_me m) (Table.touch sv (b_t l))
                /\ 0 <= b_dimensions l <= 2).
Proof.
  simpl. unfold book_histogram.
  destruct (bool_decide _); [left; reflexivity|].
  destruct (b_dimensions l =? 0) eqn:E0; simpl.
  - right. eexists. split; [reflexivity|lia].
  - destruct (b_dimensions l =? 1) eqn:E1; simpl.
    + right. eexists. split; [reflexivity|lia].
    + destruct (b_dimensions l =? 2) eqn:E2; simpl.
      * right. eexists. split; [reflexivity|lia].
      * left. reflexivity.
Qed.

Lemma zero_at_book_histogram j l iBooker :
  zero_at j (b_t l) ->
  zero_at j (book_histogram pretty to_string this l iBooker).1.
Proof.
  intros (a & Ha & Hc).
  destruct (book_histogram_cases l iBooker) as [->|(m & -> & _)].
  - exists a. split; [apply find_touch_present, Ha|exact Hc].
  - destruct (decide (j = b_significantvalues l)) as [->|Hne].
    + exists (set_me m a). rewrite find_modify_eq, (touch_present _ _ _ Ha), Ha.
      auto.
    + exists a. rewrite find_modify_ne, find_touch_ne by auto. auto.
Qed.

Lemma has_me_book_histogram j l iBooker :
  has_me j (b_t l) ->
  has_me j (book_histogram pretty to_string this l iBooker).1.
Proof.
  intros (a & m0 & Ha & Hm).
  destruct (book_histogram_cases l iBooker) as [->|(m & -> & _)].
  - exists a, m0. split; [apply find_touch_present, Ha|exact Hm].
  - destruct (decide (j = b_significantvalues l)) as [->|Hne].
    + exists (set_me m a), m.
      rewrite find_modify_eq, (touch_present _ _ _ Ha), Ha. auto.
    + exists a, m0. rewrite find_modify_ne, find_touch_ne by auto. auto.
Qed.

Lemma book_histogram_has_me l iBooker :
  0 <= b_dimensions l <= 2 ->
  has_me (b_significantvalues l)
    (book_histogram pretty to_string this l iBooker).1.
Proof.
  intros Hd. unfold book_histogram.
  set (sv := b_significantvalues l).
  destruct (find_touch_eq sv (b_t l)) as [a Ha].
  destruct (bool_decide _) eqn:Ed.
  - apply bool_decide_eq_true in Ed as [m Hm]. unfold Table.at_ in Hm.
    rewrite Ha in Hm. simpl in *. exists a, m. auto.
  - assert (Hset : forall m,
              has_me sv (Table.modify sv (set_me m) (Table.touch sv (b_t l)))).
    { intros m. exists (set_me m a), m. rewrite find_modify_eq, Ha. auto. }
    destruct (b_dimensions l =? 0) eqn:E0; simpl; [apply Hset|].
    destruct (b_dimensions l =? 1) eqn:E1; simpl; [apply Hset|].
    destruct (b_dimensions l =? 2) eqn:E2; simpl; [apply Hset|]. lia.
Qed.

Lemma book_step_dimensions step l l' :
  book_step pretty minValue maxValue q s step l = Ok l' ->
  0 <= b_dimensions l <= 2 -> 0 <= b_dimensions l' <= 2.
Proof.
  unfold book_step. destruct (in_step1 step); [|intros [= <-]; auto].
  destruct (type step); try discriminate.
  - intros [= <-]; auto.
  - intros [= <-]. simpl. lia.
  - destruct (columns step !! 0%nat); [|discriminate].
    destruct (b_dimensions l =? 1); [discriminate|].
    intros [= <-]. simpl. destruct (b_dimensions l =? 0); lia.
  - destruct (columns step !! 0%nat); [|discriminate].
    destruct (b_dimensions l =? 2); [discriminate|].
    intros [= <-]. simpl. lia.
  - destruct (negb _); [discriminate|]. intros [= <-]. simpl. lia.
Qed.

Lemma book_walk_dimensions rest :
  forall l l',
    book_walk pretty minValue maxValue q s rest l = Ok l' ->
    0 <= b_dimensions l <= 2 -> 0 <= b_dimensions l' <= 2.
Proof.
  induction rest as [|step rest IH]; intros l l'; simpl.
  - intros [= <-]. auto.
  - destruct (book_step _ _ _ _ _ _ l) as [l1|e] eqn:E; [|discriminate].
    intros H Hd. apply (IH _ _ H). apply (book_step_dimensions _ _ _ E Hd).
Qed.

(** One module: what was booked stays booked, and the module is booked. *)
Lemma book_module_mono sv t iBooker t' b' :
  book_module pretty to_string minValue maxValue this q s sv t iBooker
  = Ok (t', b') ->
  (forall j, zero_at j t -> zero_at j t')
  /\ (forall j, has_me j t -> has_me j t').
Proof.
  rewrite book_module_plan.
  destruct (book_walk _ _ _ _ _ _ _) as [l|e]; [|discriminate].
  intros H.
  assert (Ht : t' = (book_histogram pretty to_string this
                       (with_t l
                          (reset_counters
                             (book_counters pretty minValue maxValue q s
                                (steps s) (book_locals this q sv [])) t))
                       iBooker).1) by (injection H as H; rewrite H; reflexivity).
  split; intros j Hj; rewrite Ht.
  - apply zero_at_book_histogram. simpl. apply zero_at_resets_mono, Hj.
  - apply has_me_book_histogram. simpl. apply has_me_resets_mono, Hj.
Qed.

Lemma module_booked_mono sv t t' :
  (forall j, zero_at j t -> zero_at j t') ->
  (forall j, has_me j t -> has_me j t') ->
  module_booked pretty minValue maxValue this q s sv t ->
  module_booked pretty minValue maxValue this q s sv t'.
Proof.
  intros Hz Hm. unfold module_booked.
  destruct (book_walk _ _ _ _ _ _ _) as [l|e]; [|auto].
  intros [Hc Hk]. split; [|apply Hm, Hk].
  eapply Forall_impl; [exact Hc|]. intros k. apply Hz.
Qed.

Lemma book_module_books sv t iBooker t' b' :
  (forall l, book_walk pretty minValue maxValue q s (steps s)
               (book_locals this q sv []) = Ok l ->
             0 <= b_dimensions l <= 2) ->
  book_module pretty to_string minValue maxValue this q s sv t iBooker
  = Ok (t', b') ->
  module_booked pretty minValue maxValue this q s sv t'.
Proof.
  intros Hd. rewrite book_module_plan. unfold module_booked.
  destruct (book_walk _ _ _ _ _ _ _) as [l|e] eqn:E; [|discriminate].
  intros H.
  set (cs := book_counters pretty minValue maxValue q s (steps s)
               (book_locals this q sv [])) in *.
  assert (Ht : t' = (book_histogram pretty to_string this
                       (with_t l (reset_counters cs t)) iBooker).1)
    by (injection H as H; rewrite H; reflexivity).
  rewrite Ht. split.
  - eapply Forall_impl; [apply (zero_at_resets cs t)|].
    intros k Hk. apply zero_at_book_histogram. exact Hk.
  - apply (book_histogram_has_me (with_t l (reset_counters cs t))). simpl.
    apply Hd. reflexivity.
Qed.

Lemma book_module_again sv t iBooker :
  module_booked pretty minValue maxValue this q s sv t ->
  book_module pretty to_string minValue maxValue this q s sv t iBooker
  = Ok (t, iBooker).
Proof.
  unfold module_booked. rewrite book_module_plan.
  destruct (book_walk _ _ _ _ _ _ _) as [l|e]; [|contradiction].
  intros [Hc Hk]. rewrite (reset_counters_id _ _ Hc).
  rewrite (book_histogram_settled _ _ _ Hk). reflexivity.
Qed.

Variable extractColumns : list Column -> InterestingQuantities -> Values.

Lemma book_modules_mono modules :
  forall t iBooker t1 b1,
    book_modules pretty to_string minValue maxValue extractColumns this q s
      modules t iBooker = Ok (t1, b1) ->
    (forall j, zero_at j t -> zero_at j t1)
    /\ (forall j, has_me j t -> has_me j t1).
Proof.
  induction modules as [|iq modules IH]; intros t b t1 b1; simpl.
  - intros [= <- <-]. auto.
  - destruct (steps s !! 0%nat) as [step0|]; [|discriminate].
    destruct (negb (bookUndefined this) && _); [apply IH|].
    destruct (book_module _ _ _ _ _ _ _ _ _ _) as [[t' b']|e] eqn:E;
      [|discriminate].
    intros H. destruct (book_module_mono _ _ _ _ _ E) as [Hz Hm].
    destruct (IH _ _ _ _ H) as [Hz' Hm']. split; auto.
Qed.

Lemma book_modules_books step0 modules :
  steps s !! 0%nat = Some step0 ->
  (forall sv l, book_walk pretty minValue maxValue q s (steps s)
                  (book_locals this q sv []) = Ok l ->
                0 <= b_dimensions l <= 2) ->
  forall t iBooker t1 b1,
    book_modules pretty to_string minValue maxValue extractColumns this q s
      modules t iBooker = Ok (t1, b1) ->
    forall iq, iq ∈ modules ->
      to_be_booked this (extractColumns (columns step0) iq) = true ->
      module_booked pretty minValue maxValue this q s
        (extractColumns (columns step0) iq) t1.
Proof.
  intros H0 Hd. induction modules as [|iq0 modules IH];
    intros t b t1 b1 H iq Hin Hb; [inversion Hin|].
  simpl in H. rewrite H0 in H.
  apply elem_of_cons in Hin as [->|Hin].
  - unfold to_be_booked in Hb.
    assert (Hskip : negb (bookUndefined this)
                    && any_UNDEFINED (extractColumns (columns step0) iq0)
                    = false).
    { destruct (bookUndefined this); [reflexivity|]. simpl in *.
      destruct (any_UNDEFINED _); [discriminate|reflexivity]. }
    rewrite Hskip in H.
    destruct (book_module _ _ _ _ _ _ _ _ _ _) as [[t' b']|e] eqn:E;
      [|discriminate].
    destruct (book_modules_mono _ _ _ _ _ H) as [Hz Hm].
    apply (module_booked_mono _ t' t1 Hz Hm).
    apply (book_module_books _ _ _ _ _ (Hd _) E).
  - destruct (negb (bookUndefined this) && _); [apply (IH _ _ _ _ H); auto|].
    destruct (book_module _ _ _ _ _ _ _ _ _ _) as [[t' b']|e];
      [|discriminate].
    apply (IH _ _ _ _ H); auto.
Qed.

Lemma book_modules_again step0 modules t iBooker :
  steps s !! 0%nat = Some step0 ->
  (forall iq, iq ∈ modules ->
     to_be_booked this (extractColumns (columns step0) iq) = true ->
     module_booked pretty minValue maxValue this q s
       (extractColumns (columns step0) iq) t) ->
  book_modules pretty to_string minValue maxValue extractColumns this q s
    modules t iBooker = Ok (t, iBooker).
Proof.
  intros H0. induction modules as [|iq modules IH]; intros Hall; simpl;
    [reflexivity|].
  rewrite H0.
  assert (IH' : book_modules pretty to_string minValue maxValue
                  extractColumns this q s modules t iBooker = Ok (t, iBooker)).
  { apply IH. intros iq' Hin. apply Hall. right. exact Hin. }
  destruct (negb (bookUndefined this) && _) eqn:Hskip; [exact IH'|].
  rewrite book_module_again; [exact IH'|].
  apply Hall; [left|].
  unfold to_be_booked. destruct (bookUndefined this); [reflexivity|].
  simpl in *. rewrite Hskip. reflexivity.
Qed.

End BookFacts.

(** [book] is idempotent, specification by specification: when the
    booking of the modules has gone through for a quantity of 0, 1 or 2
    dimensions, a second booking on the table and the booker it left books
    nothing and leaves the table as it is: every counter is at 0 already,
    and every key has its monitor element, which is kept. *)
Theorem book_is_idempotent :
  forall pretty to_string minValue maxValue extractColumns this q s modules
         t0 b0 t1 b1,
    0 <= dimensions this <= 2 ->
    book_modules pretty to_string minValue maxValue extractColumns this q s
      modules t0 b0 = Ok (t1, b1) ->
    book_modules pretty to_string minValue maxValue extractColumns this q s
      modules t1 b1 = Ok (t1, b1).
Proof.
  intros pretty to_string minValue maxValue extractColumns this q s modules
    t0 b0 t1 b1 Hd H.
  destruct (steps s !! 0%nat) as [step0|] eqn:H0.
  - apply (book_modules_again _ _ _ _ _ _ _ _ step0); [exact H0|].
    intros iq Hin Hb.
    apply (book_modules_books pretty to_string minValue maxValue this q s
             extractColumns step0 modules H0) with (t := t0) (iBooker := b0)
             (b1 := b1); auto.
    intros sv l Hl. apply (book_walk_dimensions _ _ _ _ _ _ _ _ Hl). exact Hd.
  - destruct modules as [|iq modules]; simpl in *; [|rewrite H0 in H; discriminate].
    reflexivity.
Qed.

Lemma book_is_idempotent_witness :
  book_modules pretty0 to_string0 minValue0 maxValue0 extractColumns0
    manager0 quantity0 spec_ndigis modules0 booked_ndigis.1 booked_ndigis.2
  = Ok (booked_ndigis.1, booked_ndigis.2).
Proof.
  apply (book_is_idempotent pretty0 to_string0 minValue0 maxValue0
           extractColumns0 manager0 quantity0 spec_ndigis modules0 []
           iBooker0).
  - simpl. lia.
  - vm_compute. reflexivity.
Defined.

Section BookCounting.

Variable pretty : Column -> string.
Variable to_string : Value -> string.
Variables minValue maxValue : Column -> Q.
Variable extractColumns : list Column -> InterestingQuantities -> Values.
Variable this : HistogramManager.
Variable q : Quantity.
Variable s : SummationSpecification.

Lemma book_walk_stage2 rest :
  Forall (fun step => stage step = STAGE2) rest ->
  forall l,
    book_walk pretty minValue maxValue q s rest l = Ok l
    /\ book_counters pretty minValue maxValue q s rest l = [].
Proof.
  induction 1 as [|step rest Hs _ IH]; intros l; simpl; [auto|].
  unfold book_step, counts_here, in_step1. rewrite Hs. simpl.
  destruct (IH l) as [-> ->]. auto.
Qed.

Lemma book_modules_total modules :
  is_Some (steps s !! 0%nat) ->
  (forall sv, is_Some_Ok (book_walk pretty minValue maxValue q s (steps s)
                            (book_locals this q sv [])) = true) ->
  forall t iBooker,
    exists t1 b1,
      book_modules pretty to_string minValue maxValue extractColumns this q s
        modules t iBooker = Ok (t1, b1).
Proof.
  intros [step0 H0] Hw. induction modules as [|iq modules IH];
    intros t b; simpl; [eauto|].
  rewrite H0. destruct (negb (bookUndefined this) && _); [apply IH|].
  rewrite book_module_plan.
  specialize (Hw (extractColumns (columns step0) iq)).
  destruct (book_walk _ _ _ _ _ _ _) as [l|e]; [|discriminate].
  destruct (book_histogram _ _ _ _ _) as [t' b']. apply IH.
Qed.

Variables seed cols : list Column.
Hypothesis Hs : counts_per_event s seed cols.

Lemma book_walk_counting sv :
  exists l,
    book_walk pretty minValue maxValue q s (steps s)
      (book_locals this q sv []) = Ok l
    /\ b_significantvalues l = regroup cols sv
    /\ b_dimensions l = 1
    /\ book_counters pretty minValue maxValue q s (steps s)
         (book_locals this q sv []) = [sv].
Proof.
  destruct Hs as (a0 & a1 & rest & Hsteps & Hrest). rewrite Hsteps.
  simpl book_walk. simpl book_counters.
  match goal with
  | |- context [book_walk _ _ _ _ _ rest ?l] =>
      destruct (book_walk_stage2 rest Hrest l) as [-> ->]
  end.
  eexists. repeat split.
Qed.

End BookCounting.

Lemma book_prepares_counting_lemma pretty to_string minValue maxValue
    extractColumns this q s seed cols modules t0 b0 t1 b1 :
  counts_per_event s seed cols ->
  book_modules pretty to_string minValue maxValue extractColumns this q s
    modules t0 b0 = Ok (t1, b1) ->
  forall iq,
    iq ∈ modules ->
    to_be_booked this (extractColumns seed iq) = true ->
    zero_at (extractColumns seed iq) t1
    /\ has_me (regroup cols (extractColumns seed iq)) t1.
Proof.
  intros Hs H iq Hin Hb.
  pose proof Hs as (a0 & a1 & rest & Hsteps & Hrest).
  assert (H0 : steps s !! 0%nat = Some (mkStep COUNT STAGE1 seed a0))
    by (rewrite Hsteps; reflexivity).
  pose proof (book_modules_books pretty to_string minValue maxValue this q s
                extractColumns _ modules H0) as Hbk.
  specialize (Hbk ltac:(intros sv l Hl;
    destruct (book_walk_counting pretty minValue maxValue this q s seed cols
                Hs sv) as (l' & Hl' & _ & Hd & _);
    rewrite Hl in Hl'; injection Hl' as <-; lia) t0 b0 t1 b1 H iq Hin Hb).
  simpl in Hbk. unfold module_booked in Hbk.
  destruct (book_walk_counting pretty minValue maxValue this q s seed cols
              Hs (extractColumns seed iq)) as (l & Hl & Hk & _ & Hc).
  rewrite Hl, Hc, Hk in Hbk. destruct Hbk as [Hz Hm].
  inversion Hz; subst. auto.
Qed.

(** For a program that counts per event, [book] goes through whatever the
    geometry is, and leaves what the counting needs for every module it
    does not pass over: a counter at 0 under the extracted key of the
    module, and a monitor element under its grouped key. *)
Theorem book_prepares_the_per_event_counting :
  forall pretty to_string minValue maxValue extractColumns this q s seed cols
         modules t0 b0,
    counts_per_event s seed cols ->
    exists t1 b1,
      book_modules pretty to_string minValue maxValue extractColumns this q s
        modules t0 b0 = Ok (t1, b1)
      /\ forall iq,
           iq ∈ modules ->
           to_be_booked this (extractColumns seed iq) = true ->
           zero_at (extractColumns seed iq) t1
           /\ has_me (regroup cols (extractColumns seed iq)) t1.
Proof.
  intros pretty to_string minValue maxValue extractColumns this q s seed cols
    modules t0 b0 Hs.
  pose proof Hs as (a0 & a1 & rest & Hsteps & Hrest).
  assert (H0 : steps s !! 0%nat = Some (mkStep COUNT STAGE1 seed a0))
    by (rewrite Hsteps; reflexivity).
  destruct (book_modules_total pretty to_string minValue maxValue
              extractColumns this q s modules) with (t := t0) (iBooker := b0)
    as (t1 & b1 & H).
  - rewrite H0. eauto.
  - intros sv.
    destruct (book_walk_counting pretty minValue maxValue this q s seed cols
                Hs sv) as (l & -> & _). reflexivity.
  - exists t1, b1. split; [exact H|].
    exact (book_prepares_counting_lemma pretty to_string minValue maxValue
             extractColumns this q s seed cols modules t0 b0 t1 b1 Hs H).
Qed.

Lemma book_prepares_the_per_event_counting_witness :
  exists t1 b1,
    book_modules pretty0 to_string0 minValue0 maxValue0 extractColumns0
      manager0 quantity0 spec_ndigis modules0 [] iBooker0 = Ok (t1, b1)
    /\ forall iq,
         iq ∈ modules0 ->
         to_be_booked manager0 (extractColumns0 [1; 2] iq) = true ->
         zero_at (extractColumns0 [1; 2] iq) t1
         /\ has_me (regroup [1] (extractColumns0 [1; 2] iq)) t1.
Proof.
  apply (book_prepares_the_per_event_counting pretty0 to_string0 minValue0
           maxValue0 extractColumns0 manager0 quantity0 spec_ndigis [1; 2]
           [1] modules0 [] iBooker0).
  exists EmptyString, EmptyString, [step_of SAVE STAGE2 []].
  split; [reflexivity|]. repeat constructor.
Defined.

Section BookAndFill.

Variable pretty : Column -> string.
Variables minValue maxValue : Column -> Q.
Variable q : Quantity.
Variable s : SummationSpecification.
Hypothesis Hstages : Forall (fun step => stage step <> STAGE1_2) (steps s).

Lemma key_column k c : (Values.get k c).1 = c.
Proof.
  induction k as [|[c' v] k IH]; simpl; [reflexivity|].
  destruct (c =? c') eqn:E; [|exact IH]. apply Z.eqb_eq in E. auto.
Qed.

(** The walk of [book] and the walk of a fill, on a program without a step
    of the per-event harvesting stage: when both go to the end, they end on
    the same key, with the same dimensionality. *)
Lemma book_walk_route rest :
  Forall (fun step => stage step <> STAGE1_2) rest ->
  forall i l l' x y x' y' d' sv',
    book_walk pretty minValue maxValue q s rest l = Ok l' ->
    route s i rest x y (b_dimensions l) (b_significantvalues l)
    = REnd x' y' d' sv' ->
    b_significantvalues l' = sv' /\ b_dimensions l' = d'.
Proof.
  induction 1 as [|step rest Hst _ IH]; intros i l l' x y x' y' d' sv'; simpl.
  - intros [= <-] [= _ _ <- <-]. auto.
  - unfold book_step, route_step, in_step1.
    rewrite (bool_decide_eq_false_2 _ Hst), orb_false_r.
    destruct (decide (stage step = STAGE1)) as [H1|H1].
    + rewrite (bool_decide_eq_true_2 _ H1).
      destruct (type step); try discriminate.
      * apply IH.
      * destruct (steps s !! (i + 1)%nat) as [nx|] eqn:Enx; [|discriminate].
        destruct (decide (stage nx = STAGE1_2)); [discriminate|].
        intros Hb Hr. eapply (IH (S i)); [exact Hb|exact Hr].
      * destruct (Qeq_bool x 0 && negb (b_dimensions l =? 1)) eqn:Ea;
          [|discriminate].
        destruct (columns step !! 0%nat) as [c|]; [|discriminate].
        apply andb_true_iff in Ea as [_ Ed]. apply negb_true_iff in Ed.
        rewrite Ed, key_column.
        intros Hb Hr. eapply (IH (S i)); [exact Hb|exact Hr].
      * destruct (Qeq_bool y 0); [|discriminate].
        destruct (columns step !! 0%nat) as [c|]; [|discriminate].
        destruct (b_dimensions l =? 2); [discriminate|].
        rewrite key_column.
        intros Hb Hr. eapply (IH (S i)); [exact Hb|exact Hr].
    + rewrite (bool_decide_eq_false_2 _ H1). apply IH.
Qed.

Lemma route_no_count rest :
  forall i x y d sv sv', route s i rest x y d sv <> RCount sv'.
Proof.
  induction rest as [|step rest IH]; intros i x y d sv sv'; simpl;
    [discriminate|].
  unfold route_step.
  destruct (decide (stage step = STAGE1)); [|apply IH].
  destruct (type step); try discriminate; try apply IH.
  - destruct (steps s !! (i + 1)%nat) as [nx|] eqn:Enx; [|discriminate].
    destruct (decide (stage nx = STAGE1_2)) as [Hnx|]; [|apply IH].
    exfalso. rewrite Forall_forall in Hstages.
    apply (Hstages nx); [|exact Hnx].
    eapply list_elem_of_lookup_2. exact Enx.
  - destruct (_ && _); [|discriminate].
    destruct (columns step !! 0%nat); [apply IH|discriminate].
  - destruct (Qeq_bool y 0); [|discriminate].
    destruct (columns step !! 0%nat); [apply IH|discriminate].
Qed.

End BookAndFill.

(** Booking and filling agree. For a program without a step of the
    per-event harvesting stage and a quantity of 0, 1 or 2 dimensions:
    once [book] has gone through, a fill for a module that [book] did not
    pass over, when it does not abort, ends on a key that has a monitor
    element, and fills it: the table after the call is the table before
    it with the histogram of that monitor element filled by ROOT's [Fill]
    with the sample the walk ended with ([Fill(0)], [Fill(x)] or
    [Fill(x, y)], by the dimensionality), nothing else is touched, and the
    cache slot is left on the entry. The sample is not dropped. *)
Theorem samples_of_booked_modules_are_filled :
  forall TH1_Fill TH1_Fill2 pretty to_string minValue maxValue extractColumns
         this q s modules t0 b0 t1 b1 step0 iq x y sv' t' fp',
    0 <= dimensions this <= 2 ->
    Forall (fun step => stage step <> STAGE1_2) (steps s) ->
    book_modules pretty to_string minValue maxValue extractColumns this q s
      modules t0 b0 = Ok (t1, b1) ->
    steps s !! 0%nat = Some step0 ->
    iq ∈ modules ->
    to_be_booked this (extractColumns (columns step0) iq) = true ->
    executeStep1Spec TH1_Fill TH1_Fill2 this x y
      (extractColumns (columns step0) iq) s t1 STAGE1 None
    = Ok (sv', t', fp') ->
    has_me sv' t1 /\ fp' = Some (InTable sv') /\ booked_in sv' t' = true
    /\ exists x1 y1 d1 a m,
         route s 0 (steps s) x y (dimensions this)
           (extractColumns (columns step0) iq) = REnd x1 y1 d1 sv'
         /\ Table.find sv' t1 = Some a /\ me a = Some m
         /\ t' = Table.modify sv'
                   (fill_with (TH1_fill_of TH1_Fill TH1_Fill2 d1 x1 y1)) t1
         /\ Table.find sv' t'
            = Some {| count := count a;
                      me := Some {| me_folder := me_folder m;
                                    getTH1 := TH1_fill_of TH1_Fill TH1_Fill2
                                                d1 x1 y1 (getTH1 m) |};
                      th1 := th1 a |}.
Proof.
  intros F F2 pretty to_string minValue maxValue extractColumns this q s
    modules t0 b0 t1 b1 step0 iq x y sv' t' fp' Hd Hst Hbook H0 Hin Hb.
  set (sv := extractColumns (columns step0) iq).
  assert (Hbk : module_booked pretty minValue maxValue this q s sv t1).
  { apply (book_modules_books pretty to_string minValue maxValue this q s
             extractColumns step0 modules H0) with (t := t0) (iBooker := b0)
             (b1 := b1); auto.
    intros sv0 l Hl. apply (book_walk_dimensions _ _ _ _ _ _ _ _ Hl).
    exact Hd. }
  unfold module_booked in Hbk.
  destruct (book_walk _ _ _ _ _ _ _) as [l|e] eqn:Hl; [|contradiction].
  destruct Hbk as [_ Hme].
  unfold executeStep1Spec. rewrite walk_route. simpl.
  destruct (route s 0 (steps s) x y (dimensions this) sv)
    as [e|sv1|x1 y1 d1 sv1] eqn:R; [discriminate| |].
  - exfalso. exact (route_no_count s Hst _ _ _ _ _ _ _ R).
  - destruct (book_walk_route pretty minValue maxValue q s (steps s) Hst 0
                (book_locals this q sv []) l x y x1 y1 d1 sv1 Hl R)
      as [Hk _].
    rewrite Hk in Hme. destruct Hme as (a & m & Ha & Hm).
    unfold finish. simpl. rewrite Ha.
    assert (Hbd : bound a = true).
    { unfold bound. rewrite Hm. rewrite (bool_decide_eq_true_2 (is_Some (Some m)))
        by eauto. apply orb_true_r. }
    rewrite Hbd. intros [= <- <- <-].
    assert (Hfill : (if d1 =? 0 then fill F 0
                     else if d1 =? 1 then fill F x1 else fill2 F2 x1 y1)
                    = fill_with (TH1_fill_of F F2 d1 x1 y1)).
    { unfold TH1_fill_of, fill, fill2.
      destruct (d1 =? 0); [|destruct (d1 =? 1)]; reflexivity. }
    rewrite Hfill.
    split; [exists a, m; auto|]. split; [reflexivity|]. split.
    + unfold booked_in. rewrite find_modify_eq, Ha. simpl.
      rewrite bound_fill_with. exact Hbd.
    + exists x1, y1, d1, a, m. split; [reflexivity|].
      split; [exact Ha|]. split; [exact Hm|]. split; [reflexivity|].
      rewrite find_modify_eq, Ha. simpl. unfold fill_with. rewrite Hm.
      reflexivity.
Qed.

Lemma samples_of_booked_modules_are_filled_witness :
  has_me [(1, 1)] booked_per_ladder.1
  /\ Some (InTable [(1, 1)]) = Some (InTable [(1, 1)])
  /\ booked_in [(1, 1)] filled_per_ladder = true
  /\ exists x1 y1 d1 a m,
       route spec_per_ladder 0 (steps spec_per_ladder) 0 0
         (dimensions manager0)
         (extractColumns0 (columns (step_COUNT STAGE1)) (mkIQ 108 0 0 0))
       = REnd x1 y1 d1 [(1, 1)]
       /\ Table.find [(1, 1)] booked_per_ladder.1 = Some a
       /\ me a = Some m
       /\ filled_per_ladder
          = Table.modify [(1, 1)]
              (fill_with (TH1_fill_of Fill_fixed Fill2_fixed d1 x1 y1))
              booked_per_ladder.1
       /\ Table.find [(1, 1)] filled_per_ladder
          = Some {| count := count a;
                    me := Some {| me_folder := me_folder m;
                                  getTH1 := TH1_fill_of Fill_fixed Fill2_fixed
                                              d1 x1 y1 (getTH1 m) |};
                    th1 := th1 a |}.
Proof.
  apply (samples_of_booked_modules_are_filled Fill_fixed Fill2_fixed pretty0
           to_string0 minValue0 maxValue0 extractColumns0 manager0 quantity0
           spec_per_ladder modules0 [] iBooker0 booked_per_ladder.1
           booked_per_ladder.2 (step_COUNT STAGE1) (mkIQ 108 0 0 0) 0 0
           [(1, 1)] filled_per_ladder (Some (InTable [(1, 1)]))).
  - simpl. lia.
  - repeat constructor; discriminate.
  - vm_compute. reflexivity.
  - reflexivity.
  - apply list_elem_of_further, list_elem_of_here.
  - reflexivity.
  - vm_compute. reflexivity.
Defined.

(** *** The bins booked for an [EXTEND_X] *)

Lemma Qfloor_unique (q : Q) (n : Z) :
  (inject_Z n <= q)%Q -> (q < inject_Z (n + 1))%Q -> Qfloor q = n.
Proof.
  intros H1 H2.
  assert (n <= Qfloor q).
  { rewrite <- (Qfloor_Z n). apply Qfloor_resp_le, H1. }
  assert (Qfloor q < n + 1).
  { rewrite Zlt_Qlt. eapply Qle_lt_trans; [apply Qfloor_le|exact H2]. }
  lia.
Qed.

Lemma to_int_Z (d : Q) (n : Z) :
  0 <= n <= INT_MAX -> (d == inject_Z n)%Q -> to_int d = n.
Proof.
  intros Hn Hd. unfold to_int. destruct (Qlt_le_dec d 0) as [Hlt|_].
  - exfalso. rewrite Hd in Hlt. change 0%Q with (inject_Z 0) in Hlt.
    rewrite <- Zlt_Qlt in Hlt. lia.
  - rewrite (Qfloor_comp _ _ Hd), Qfloor_Z.
    unfold INT_MIN, INT_MAX in *.
    destruct (Z.leb_spec (- 2 ^ 31) n); [|lia].
    destruct (Z.leb_spec n (2 ^ 31 - 1)); [reflexivity|lia].
Qed.

Lemma FindBin_half_integer_edges title (lo hi v : Z) (xmin xmax : Q) :
  (xmin == inject_Z lo - (1 # 2))%Q -> (xmax == inject_Z hi + (1 # 2))%Q ->
  lo <= v <= hi ->
  FindBin (mkTAxis (hi - lo + 1) xmin xmax title) (inject_Z v) = v - lo + 1.
Proof.
  intros Hmin Hmax Hv. unfold FindBin. cbn [GetXmin GetXmax GetNbins].
  assert (Hlo : (inject_Z lo <= inject_Z v)%Q) by (rewrite <- Zle_Qle; lia).
  assert (Hhi : (inject_Z v <= inject_Z hi)%Q) by (rewrite <- Zle_Qle; lia).
  destruct (Qlt_le_dec (inject_Z v) xmin) as [H|_].
  { exfalso. rewrite Hmin in H. 
    apply (Qlt_irrefl (inject_Z v)). eapply Qlt_le_trans; [exact H|].
    eapply Qle_trans; [|exact Hlo]. 
    rewrite <- (Qplus_0_r (inject_Z lo)) at 2. unfold Qminus.
    apply Qplus_le_r. discriminate. }
  destruct (Qlt_le_dec (inject_Z v) xmax) as [_|H].
  2:{ exfalso. rewrite Hmax in H.
      apply (Qlt_irrefl (inject_Z v)). eapply Qle_lt_trans; [exact Hhi|].
      eapply Qlt_le_trans; [|exact H].
      rewrite <- (Qplus_0_r (inject_Z hi)) at 1. apply Qplus_lt_r. reflexivity. }
  assert (HN : (inject_Z (hi - lo + 1) == inject_Z hi - inject_Z lo + 1)%Q).
  { unfold Z.sub. rewrite !inject_Z_plus, inject_Z_opp. reflexivity. }
  assert (Hden : (xmax - xmin == inject_Z (hi - lo + 1))%Q).
  { rewrite Hmin, Hmax, HN. ring. }
  assert (Hnz : ~ (inject_Z (hi - lo + 1) == 0)%Q).
  { change 0%Q with (inject_Z 0). rewrite inject_Z_injective. lia. }
  assert (E : (inject_Z (hi - lo + 1) * (inject_Z v - xmin) / (xmax - xmin)
               == inject_Z (v - lo) + (1 # 2))%Q).
  { rewrite Hden, Qmult_comm, Qdiv_mult_l by exact Hnz.
    rewrite Hmin. unfold Z.sub. rewrite inject_Z_plus, inject_Z_opp. ring. }
  rewrite (Qfloor_comp _ _ E).
  rewrite (Qfloor_unique _ (v - lo)); [lia| |].
  - rewrite <- (Qplus_0_r (inject_Z (v - lo))) at 1. apply Qplus_le_r. discriminate.
  - rewrite inject_Z_plus. apply Qplus_lt_r. reflexivity.
Qed.

(** An [EXTEND_X] in [book], on a column whose values range over the
    integers from [lo] to [hi], as many as an [int] counts, books one bin
    per value: [hi - lo + 1] bins between [lo - 0.5] and [hi + 0.5], so
    that the value [v] of the column, which is what a fill takes for its
    [x], lies in bin [v - lo + 1]. *)
Theorem EXTEND_X_books_a_bin_per_value :
  forall pretty minValue maxValue q s step l l' c lo hi,
    in_step1 step = true ->
    type step = EXTEND_X ->
    columns step !! 0%nat = Some c ->
    (minValue c == inject_Z lo)%Q ->
    (maxValue c == inject_Z hi)%Q ->
    lo <= hi ->
    hi - lo < INT_MAX ->
    book_step pretty minValue maxValue q s step l = Ok l' ->
    b_range_x_nbins l' = hi - lo + 1
    /\ forall v,
         lo <= v <= hi ->
         FindBin (mkTAxis (b_range_x_nbins l') (b_range_x_min l')
                    (b_range_x_max l') (b_xlabel l')) (inject_Z v)
         = v - lo + 1.
Proof.
  intros pretty minValue maxValue q s step l l' c lo hi Hin Hty Hc Hmin Hmax
    Hle Hint.
  unfold book_step. rewrite Hin, Hty, Hc, key_column.
  destruct (b_dimensions l =? 1); [discriminate|]. intros [= <-]. simpl.
  assert (HN : to_int (maxValue c + (1 # 2) - (minValue c - (1 # 2)))
               = hi - lo + 1).
  { apply to_int_Z; [lia|]. rewrite Hmin, Hmax.
    unfold Z.sub. rewrite !inject_Z_plus, inject_Z_opp. ring. }
  split; [exact HN|]. intros v Hv. rewrite HN.
  apply FindBin_half_integer_edges; [rewrite Hmin|rewrite Hmax|exact Hv];
    reflexivity.
Qed.

Lemma EXTEND_X_books_a_bin_per_value_witness :
  b_range_x_nbins extended_per_ladder = 20 - 1 + 1
  /\ forall v,
       1 <= v <= 20 ->
       FindBin (mkTAxis (b_range_x_nbins extended_per_ladder)
                  (b_range_x_min extended_per_ladder)
                  (b_range_x_max extended_per_ladder)
                  (b_xlabel extended_per_ladder)) (inject_Z v)
       = v - 1 + 1.
Proof.
  apply (EXTEND_X_books_a_bin_per_value pretty0 minValue0 maxValue0 quantity0
           spec_per_ladder (step_of EXTEND_X STAGE1 [2])
           (book_locals manager0 quantity0 [(1, 1); (2, 7)] [])
           extended_per_ladder 2 1 20);
    try reflexivity; try (vm_compute; reflexivity).
  lia.
Defined.

(** Past that bound the conversion does not count the values: for the
    values 0 to 2147483647 the difference of the edges is [2 ^ 31], which
    [int] does not hold. *)
Remark to_int_of_the_full_range :
  to_int (inject_Z 2147483647 + (1 # 2) - (inject_Z 0 - (1 # 2))) = INT_MIN.
Proof. vm_compute. reflexivity. Qed.

(** *** What [loadFromDQMStore] recomputes *)

Lemma load_step_book_step pretty minValue maxValue q s step l l' :
  book_step pretty minValue maxValue q s step l = Ok l' ->
  load_step pretty step (b_name l, b_significantvalues l)
  = Ok (b_name l', b_significantvalues l').
Proof.
  unfold book_step, load_step. destruct (in_step1 step); [|intros [= <-]; auto].
  destruct (type step); try discriminate.
  - intros [= <-]. reflexivity.
  - intros [= <-]. reflexivity.
  - destruct (columns step !! 0%nat); [|discriminate].
    destruct (b_dimensions l =? 1); [discriminate|]. intros [= <-]. reflexivity.
  - destruct (columns step !! 0%nat); [|discriminate].
    destruct (b_dimensions l =? 2); [discriminate|]. intros [= <-]. reflexivity.
  - destruct (negb _); [discriminate|]. intros [= <-]. reflexivity.
Qed.

Lemma load_walk_book_walk pretty minValue maxValue q s rest :
  forall l l',
    book_walk pretty minValue maxValue q s rest l = Ok l' ->
    load_walk pretty rest (b_name l, b_significantvalues l)
    = Ok (b_name l', b_significantvalues l').
Proof.
  induction rest as [|step rest IH]; intros l l'; cbn [book_walk load_walk].
  - intros [= <-]. reflexivity.
  - destruct (book_step _ _ _ _ _ _ l) as [l1|e] eqn:E; [|discriminate].
    rewrite (load_step_book_step _ _ _ _ _ _ _ _ E). apply IH.
Qed.

(** [loadFromDQMStore] recomputes what [book] computed: for a module
    whose booking goes through, the walk of [loadFromDQMStore] over the
    steps ends on the key and the name of the walk of [book], so that the
    path it asks the store for is the folder [book] set followed by the
    name [book] booked under, and the entry it fills is the entry [book]
    bound. *)
Theorem loadFromDQMStore_recomputes_the_key_and_the_name :
  forall pretty minValue maxValue this q s significantvalues t l,
    book_walk pretty minValue maxValue q s (steps s)
      (book_locals this q significantvalues t) = Ok l ->
    load_walk pretty (steps s) (this_name q, significantvalues)
    = Ok (b_name l, b_significantvalues l).
Proof.
  intros pretty minValue maxValue this q s sv t l H.
  exact (load_walk_book_walk _ _ _ _ _ _ _ _ H).
Qed.

Lemma loadFromDQMStore_recomputes_the_key_and_the_name_witness :
  load_walk pretty0 (steps spec_per_ladder)
    (this_name quantity0, [(1, 1); (2, 7)])
  = Ok (b_name locals_per_ladder, b_significantvalues locals_per_ladder).
Proof.
  apply (loadFromDQMStore_recomputes_the_key_and_the_name pretty0 minValue0
           maxValue0 manager0 quantity0 spec_per_ladder [(1, 1); (2, 7)] []).
  vm_compute. reflexivity.
Defined.

(** *** What [book] keeps *)

Section BookKeeps.

Variable pretty : Column -> string.
Variable to_string : Value -> string.
Variables minValue maxValue : Column -> Q.
Variable extractColumns : list Column -> InterestingQuantities -> Values.
Variable this : HistogramManager.
Variable q : Quantity.
Variable s : SummationSpecification.

Lemma holds_me_reset j m p k t :
  holds_me j m p t -> holds_me j m p (reset_counter k t).
Proof.
  intros (a & Ha & Hm & Hp). unfold holds_me, reset_counter.
  destruct (decide (j = k)) as [->|Hne].
  - rewrite find_modify_eq, (touch_present _ _ _ Ha), Ha. simpl.
    exists (set_count 0 a). auto.
  - rewrite find_modify_ne, find_touch_ne by auto. eauto.
Qed.

Lemma holds_me_resets j m p cs :
  forall t, holds_me j m p t -> holds_me j m p (reset_counters cs t).
Proof.
  induction cs as [|k cs IH]; intros t H; [exact H|].
  apply (IH (reset_counter k t)), holds_me_reset, H.
Qed.

Lemma holds_me_book_histogram j m p l iBooker :
  holds_me j m p (b_t l) ->
  holds_me j m p (book_histogram pretty to_string this l iBooker).1.
Proof.
  intros (a & Ha & Hm & Hp). unfold book_histogram.
  set (sv := b_significantvalues l).
  assert (Hkeep : holds_me j m p (Table.touch sv (b_t l))).
  { exists a. split; [apply find_touch_present, Ha|auto]. }
  destruct (bool_decide _) eqn:Ed; [exact Hkeep|].
  assert (Hne : j <> sv).
  { intros ->. apply bool_decide_eq_false in Ed. apply Ed.
    unfold Table.at_. rewrite (touch_present _ _ _ Ha), Ha. simpl.
    rewrite Hm. eauto. }
  assert (Hset : forall m', holds_me j m p
                   (Table.modify sv (set_me m') (Table.touch sv (b_t l)))).
  { intros m'. exists a. rewrite find_modify_ne, find_touch_ne by auto. auto. }
  destruct (_ || _); [apply Hset|]. destruct (_ =? 2); [apply Hset|].
  exact Hkeep.
Qed.

Lemma booked_book_histogram l iBooker :
  exists new,
    booked (book_histogram pretty to_string this l iBooker).2
    = booked iBooker ++ new.
Proof.
  unfold book_histogram.
  destruct (bool_decide _); [exists []; simpl; rewrite app_nil_r; reflexivity|].
  destruct (_ || _); [simpl; eauto|].
  destruct (_ =? 2); [simpl; eauto|].
  exists []. simpl. rewrite app_nil_r. reflexivity.
Qed.

Lemma book_modules_keeps modules :
  forall t iBooker t1 b1,
    book_modules pretty to_string minValue maxValue extractColumns this q s
      modules t iBooker = Ok (t1, b1) ->
    (forall j m p, holds_me j m p t -> holds_me j m p t1)
    /\ exists new, booked b1 = booked iBooker ++ new.
Proof.
  induction modules as [|iq modules IH]; intros t b t1 b1; simpl.
  - intros [= <- <-]. split; [auto|]. exists []. rewrite app_nil_r. reflexivity.
  - destruct (steps s !! 0%nat) as [step0|]; [|discriminate].
    destruct (negb (bookUndefined this) && _); [apply IH|].
    rewrite book_module_plan.
    destruct (book_walk _ _ _ _ _ _ _) as [l|e]; [|discriminate].
    match goal with
    | |- context [book_histogram _ _ _ ?l' b] =>
        pose proof (fun j m p => holds_me_book_histogram j m p l' b) as Hh;
        destruct (booked_book_histogram l' b) as [new1 Hb1];
        destruct (book_histogram pretty to_string this l' b) as [t' b']
    end.
    simpl in Hh, Hb1. intros H. destruct (IH _ _ _ _ H) as [Hk [new2 Hb2]].
    split.
    + intros j m p Hj. apply Hk, Hh, holds_me_resets, Hj.
    + exists (new1 ++ new2). rewrite Hb2, Hb1, app_assoc. reflexivity.
Qed.

End BookKeeps.

(** [book] never unbooks: when it has gone through, every entry that had a
    monitor element before still has it, with the [th1] pointer it had
    (at most its count has been reset), and what was booked before is
    still booked, what [book] booked being added behind. *)
Theorem book_keeps_what_is_booked :
  forall pretty to_string minValue maxValue extractColumns this q s modules
         t0 b0 t1 b1,
    book_modules pretty to_string minValue maxValue extractColumns this q s
      modules t0 b0 = Ok (t1, b1) ->
    (forall k m p, holds_me k m p t0 -> holds_me k m p t1)
    /\ exists new, booked b1 = booked b0 ++ new.
Proof.
  intros pretty to_string minValue maxValue extractColumns this q s modules
    t0 b0 t1 b1 H.
  exact (book_modules_keeps _ _ _ _ _ _ _ _ _ _ _ _ _ H).
Qed.

Lemma book_keeps_what_is_booked_witness :
  (forall k m p, holds_me k m p table_booked ->
                 holds_me k m p booked_over_booked.1)
  /\ exists new, booked booked_over_booked.2 = booked iBooker0 ++ new.
Proof.
  apply (book_keeps_what_is_booked pretty0 to_string0 minValue0 maxValue0
           extractColumns0 manager0 quantity0 spec_ndigis modules0
           table_booked iBooker0).
  vm_compute. reflexivity.
Defined.

(** ** The folder of a key *)

Section Paths.

Variable pretty : Column -> string.
Variable to_string : Value -> string.

Lemma concat_empty_cons (x : string) (l : list string) :
  String.concat EmptyString (x :: l)
  = (x ++ String.concat EmptyString l)%string.
Proof.
  destruct l as [|y l]; simpl; [|reflexivity].
  induction x as [|c x IH]; simpl; [reflexivity|]. rewrite <- IH. reflexivity.
Qed.

Lemma string_app_assoc (a b c : string) :
  ((a ++ b) ++ c = a ++ (b ++ c))%string.
Proof. induction a as [|x a IH]; simpl; [reflexivity|]. rewrite IH. reflexivity. Qed.

Lemma concat_empty_app (l1 l2 : list string) :
  String.concat EmptyString (l1 ++ l2)
  = (String.concat EmptyString l1 ++ String.concat EmptyString l2)%string.
Proof.
  induction l1 as [|x l1 IH]; [reflexivity|].
  rewrite <- app_comm_cons, !concat_empty_cons, IH, string_app_assoc.
  reflexivity.
Qed.

End Paths.

(** A column without a name leaves no trace in the path: the folder of a
    key is the folder of the key without its nameless columns, whatever
    their values, so that keys that differ only there share a folder. *)
Theorem makePath_drops_nameless_columns :
  forall pretty to_string this k1 c v k2,
    pretty c = EmptyString ->
    makePath pretty to_string this (k1 ++ (c, v) :: k2)
    = makePath pretty to_string this (k1 ++ k2).
Proof.
  intros pretty to_string this k1 c v k2 Hc. unfold makePath.
  rewrite !fmap_app, fmap_cons, !concat_empty_app, concat_empty_cons.
  unfold makePath_entry at 2. simpl. rewrite Hc. reflexivity.
Qed.

Lemma makePath_drops_nameless_columns_witness :
  makePath pretty0 to_string0 manager0 ([(1, 1)] ++ (3, 5) :: [(2, 7)])
  = makePath pretty0 to_string0 manager0 ([(1, 1)] ++ [(2, 7)]).
Proof.
  apply (makePath_drops_nameless_columns pretty0 to_string0 manager0
           [(1, 1)] 3 5 [(2, 7)]).
  reflexivity.
Defined.

(** ** The dimension of what is booked *)

Section BookDimension.

Variable pretty : Column -> string.
Variable to_string : Value -> string.
Variables minValue maxValue : Column -> Q.
Variable extractColumns : list Column -> InterestingQuantities -> Values.
Variable this : HistogramManager.
Variable q : Quantity.
Variable s : SummationSpecification.

Lemma book_step_dimension_only step l1 l2 l1' l2' :
  b_dimensions l1 = b_dimensions l2 ->
  book_step pretty minValue maxValue q s step l1 = Ok l1' ->
  book_step pretty minValue maxValue q s step l2 = Ok l2' ->
  b_dimensions l1' = b_dimensions l2'.
Proof.
  intros Hd. unfold book_step. rewrite <- Hd.
  destruct (in_step1 step); [|intros [= <-] [= <-]; exact Hd].
  destruct (type step); try discriminate.
  - intros [= <-] [= <-]; exact Hd.
  - intros [= <-] [= <-]. reflexivity.
  - destruct (columns step !! 0%nat); [|discriminate].
    destruct (b_dimensions l1 =? 1); [discriminate|].
    intros [= <-] [= <-]. reflexivity.
  - destruct (columns step !! 0%nat); [|discriminate].
    destruct (b_dimensions l1 =? 2); [discriminate|].
    intros [= <-] [= <-]. reflexivity.
  - destruct (negb _); [discriminate|]. intros [= <-] [= <-]. reflexivity.
Qed.

Lemma book_walk_dimension_only rest :
  forall l1 l2 l1' l2',
    b_dimensions l1 = b_dimensions l2 ->
    book_walk pretty minValue maxValue q s rest l1 = Ok l1' ->
    book_walk pretty minValue maxValue q s rest l2 = Ok l2' ->
    b_dimensions l1' = b_dimensions l2'.
Proof.
  induction rest as [|step rest IH]; intros l1 l2 l1' l2' Hd;
    cbn [book_walk].
  - intros [= <-] [= <-]. exact Hd.
  - destruct (book_step _ _ _ _ _ _ l1) as [m1|e] eqn:E1; [|discriminate].
    destruct (book_step _ _ _ _ _ _ l2) as [m2|e] eqn:E2; [|discriminate].
    apply IH. exact (book_step_dimension_only _ _ _ _ _ Hd E1 E2).
Qed.

Lemma all_me_dimension_reset D k t :
  all_me_dimension D t -> all_me_dimension D (reset_counter k t).
Proof.
  intros Ht. unfold reset_counter, Table.touch.
  destruct (Table.find k t).
  - unfold all_me_dimension in *. induction Ht as [|[k' a'] t Ha Ht IH];
      csimpl; [constructor|].
    destruct (decide (k = k')); constructor; auto.
  - rewrite modify_insert. unfold all_me_dimension.
    apply (Forall_insert (fun a => forall m, me a = Some m ->
                                     GetDimension (getTH1 m) = D));
      [discriminate|exact Ht].
Qed.

Lemma all_me_dimension_resets D cs :
  forall t, all_me_dimension D t -> all_me_dimension D (reset_counters cs t).
Proof.
  induction cs as [|k cs IH]; intros t H; [exact H|].
  apply (IH (reset_counter k t)), all_me_dimension_reset, H.
Qed.

Lemma all_me_dimension_touch D k t :
  all_me_dimension D t -> all_me_dimension D (Table.touch k t).
Proof.
  intros Ht. unfold Table.touch. destruct (Table.find k t); [exact Ht|].
  apply (Forall_insert (fun a => forall m, me a = Some m ->
                                   GetDimension (getTH1 m) = D));
    [discriminate|exact Ht].
Qed.

Lemma all_me_dimension_book_histogram l iBooker :
  0 <= b_dimensions l <= 2 ->
  all_me_dimension (histogram_dimension (b_dimensions l)) (b_t l) ->
  all_me_dimension (histogram_dimension (b_dimensions l))
    (book_histogram pretty to_string this l iBooker).1.
Proof.
  intros Hd Ht. unfold book_histogram.
  set (sv := b_significantvalues l).
  pose proof (all_me_dimension_touch _ sv _ Ht) as Ht1.
  destruct (bool_decide _); [exact Ht1|].
  assert (Hset : forall m,
            GetDimension (getTH1 m) = histogram_dimension (b_dimensions l) ->
            all_me_dimension (histogram_dimension (b_dimensions l))
              (Table.modify sv (set_me m) (Table.touch sv (b_t l)))).
  { intros m Hm.
    apply (Forall_modify_touch
             (fun a => forall m0, me a = Some m0 ->
                         GetDimension (getTH1 m0)
                         = histogram_dimension (b_dimensions l)));
      [|exact Ht].
    intros a m0 [= <-]. exact Hm. }
  unfold histogram_dimension in *.
  destruct (b_dimensions l =? 0) eqn:E0; simpl.
  { apply Hset. simpl. destruct (b_dimensions l =? 2) eqn:E2; [lia|reflexivity]. }
  destruct (b_dimensions l =? 1) eqn:E1; simpl.
  { apply Hset. simpl. destruct (b_dimensions l =? 2) eqn:E2; [lia|reflexivity]. }
  destruct (b_dimensions l =? 2) eqn:E2; [|lia].
  apply Hset. reflexivity.
Qed.

Lemma book_modules_dimension D modules :
  0 <= dimensions this <= 2 ->
  (forall sv l,
     book_walk pretty minValue maxValue q s (steps s)
       (book_locals this q sv []) = Ok l ->
     histogram_dimension (b_dimensions l) = D) ->
  forall t iBooker t1 b1,
    book_modules pretty to_string minValue maxValue extractColumns this q s
      modules t iBooker = Ok (t1, b1) ->
    all_me_dimension D t -> all_me_dimension D t1.
Proof.
  intros Hd HD. induction modules as [|iq modules IH];
    intros t b t1 b1; simpl.
  - intros [= <- <-]. auto.
  - destruct (steps s !! 0%nat) as [step0|]; [|discriminate].
    destruct (negb (bookUndefined this) && _); [apply IH|].
    rewrite book_module_plan.
    destruct (book_walk _ _ _ _ _ _ _) as [l|e] eqn:El; [|discriminate].
    pose proof (HD _ _ El) as HDl.
    pose proof (book_walk_dimensions _ _ _ _ _ _ _ _ El Hd) as Hdl.
    match goal with
    | |- context [book_histogram _ _ _ ?l' b] =>
        pose proof (all_me_dimension_book_histogram l' b) as Hh;
        destruct (book_histogram pretty to_string this l' b) as [t' b']
    end.
    simpl in Hh. rewrite HDl in Hh. intros H Ht. apply (IH _ _ _ _ H).
    apply Hh; [exact Hdl|]. apply all_me_dimension_resets, Ht.
Qed.

End BookDimension.

(** What [book] books has the dimension the fills need. For a program
    without a step of the per-event harvesting stage and a quantity of 0,
    1 or 2 dimensions, booked on an empty table: when the walk of a fill
    for a module that [book] did not pass over ends with the
    dimensionality [d'] on the key [sv'], the monitor element under [sv']
    holds a 2-D histogram if [d'] is 2, where the executor calls
    [fill(x, y)], and a 1-D histogram if it is 0 or 1, where it calls
    [fill(0)] or [fill(x)]. *)
Theorem booked_histograms_have_the_dimension_of_the_fills :
  forall pretty to_string minValue maxValue extractColumns this q s modules
         b0 t1 b1 step0 iq x y x' y' d' sv',
    0 <= dimensions this <= 2 ->
    Forall (fun step => stage step <> STAGE1_2) (steps s) ->
    book_modules pretty to_string minValue maxValue extractColumns this q s
      modules [] b0 = Ok (t1, b1) ->
    steps s !! 0%nat = Some step0 ->
    iq ∈ modules ->
    to_be_booked this (extractColumns (columns step0) iq) = true ->
    route s 0 (steps s) x y (dimensions this)
      (extractColumns (columns step0) iq) = REnd x' y' d' sv' ->
    exists a m,
      Table.find sv' t1 = Some a /\ me a = Some m
      /\ GetDimension (getTH1 m) = histogram_dimension d'.
Proof.
  intros pretty to_string minValue maxValue extractColumns this q s modules
    b0 t1 b1 step0 iq x y x' y' d' sv' Hd Hst Hbook H0 Hin Hb R.
  set (sv := extractColumns (columns step0) iq) in *.
  assert (Hbk : module_booked pretty minValue maxValue this q s sv t1).
  { apply (book_modules_books pretty to_string minValue maxValue this q s
             extractColumns step0 modules H0) with (t := []) (iBooker := b0)
             (b1 := b1); auto.
    intros sv0 l Hl. apply (book_walk_dimensions _ _ _ _ _ _ _ _ Hl).
    exact Hd. }
  unfold module_booked in Hbk.
  destruct (book_walk _ _ _ _ _ _ _) as [l|e] eqn:Hl; [|contradiction].
  destruct Hbk as [_ Hme].
  destruct (book_walk_route pretty minValue maxValue q s (steps s) Hst 0
              (book_locals this q sv []) l x y x' y' d' sv' Hl R)
    as [Hk Hdl].
  rewrite Hk in Hme. destruct Hme as (a & m & Ha & Hm).
  exists a, m. split; [exact Ha|]. split; [exact Hm|].
  assert (Hall : all_me_dimension (histogram_dimension d') t1).
  { apply (book_modules_dimension pretty to_string minValue maxValue
             extractColumns this q s (histogram_dimension d') modules Hd)
      with (t := []) (iBooker := b0) (b1 := b1); [|exact Hbook|constructor].
    intros sv0 l0 Hl0. f_equal. rewrite <- Hdl.
    exact (book_walk_dimension_only pretty minValue maxValue q s (steps s)
             (book_locals this q sv0 []) (book_locals this q sv []) l0 l
             eq_refl Hl0 Hl). }
  exact (Forall_find
           (fun a0 => forall m0, me a0 = Some m0 ->
                        GetDimension (getTH1 m0) = histogram_dimension d')
           _ _ _ Hall Ha m Hm).
Qed.

Lemma booked_histograms_have_the_dimension_of_the_fills_witness :
  exists a m,
    Table.find [(1, 1)] booked_per_ladder.1 = Some a /\ me a = Some m
    /\ GetDimension (getTH1 m) = histogram_dimension 1.
Proof.
  apply (booked_histograms_have_the_dimension_of_the_fills pretty0 to_string0
           minValue0 maxValue0 extractColumns0 manager0 quantity0
           spec_per_ladder modules0 iBooker0 booked_per_ladder.1
           booked_per_ladder.2 (step_COUNT STAGE1) (mkIQ 108 0 0 0) 0 0
           8 0 1 [(1, 1)]).
  - simpl. lia.
  - repeat constructor; discriminate.
  - vm_compute. reflexivity.
  - reflexivity.
  - apply list_elem_of_further, list_elem_of_here.
  - reflexivity.
  - vm_compute. reflexivity.
Defined.

(** ** From booking to the per-event harvesting *)

Section BookThenHarvest.

Variable pretty : Column -> string.
Variable to_string : Value -> string.
Variables minValue maxValue : Column -> Q.
Variable extractColumns : list Column -> InterestingQuantities -> Values.
Variable this : HistogramManager.
Variable q : Quantity.
Variable s : SummationSpecification.
Variables seed cols : list Column.
Hypothesis Hs : counts_per_event s seed cols.

Lemma touch_sorted k t : Table_sorted t -> Table_sorted (Table.touch k t).
Proof.
  intros H. unfold Table.touch. destruct (Table.find k t); [exact H|].
  apply insert_sorted, H.
Qed.

Lemma Forall_touch_keys (P : Values -> Prop) k t :
  P k -> Forall P t.*1 -> Forall P (Table.touch k t).*1.
Proof.
  intros Hk H. unfold Table.touch. destruct (Table.find k t); [exact H|].
  apply Forall_insert_keys; assumption.
Qed.

Lemma book_histogram_keys (P : Values -> Prop) l iBooker :
  P (b_significantvalues l) -> Table_sorted (b_t l) -> Forall P (b_t l).*1 ->
  Table_sorted (book_histogram pretty to_string this l iBooker).1
  /\ Forall P (book_histogram pretty to_string this l iBooker).1.*1.
Proof.
  intros Hk Hsort H.
  destruct (book_histogram_cases pretty to_string this l iBooker)
    as [->|(m & -> & _)].
  - split; [apply touch_sorted, Hsort|apply Forall_touch_keys; assumption].
  - unfold Table_sorted. rewrite modify_keys.
    split; [apply touch_sorted, Hsort|apply Forall_touch_keys; assumption].
Qed.

Lemma book_modules_keys (P : Values -> Prop) modules :
  (forall iq, iq ∈ modules ->
     to_be_booked this (extractColumns seed iq) = true ->
     P (extractColumns seed iq) /\ P (regroup cols (extractColumns seed iq))) ->
  forall t iBooker t1 b1,
    book_modules pretty to_string minValue maxValue extractColumns this q s
      modules t iBooker = Ok (t1, b1) ->
    Table_sorted t -> Forall P t.*1 ->
    Table_sorted t1 /\ Forall P t1.*1.
Proof.
  pose proof Hs as (a0 & a1 & rest & Hsteps & Hrest).
  induction modules as [|iq modules IH]; intros HP t b t1 b1; simpl.
  - intros [= <- <-]. auto.
  - rewrite Hsteps. simpl.
    assert (HP' : forall iq0, iq0 ∈ modules ->
              to_be_booked this (extractColumns seed iq0) = true ->
              P (extractColumns seed iq0)
              /\ P (regroup cols (extractColumns seed iq0)))
      by (intros iq0 Hin; apply HP; right; exact Hin).
    destruct (negb (bookUndefined this) && _) eqn:Hskip; [apply IH, HP'|].
    destruct (HP iq) as [Pk Pg]; [left|..].
    { unfold to_be_booked. destruct (bookUndefined this); [reflexivity|].
      simpl in *. rewrite Hskip. reflexivity. }
    rewrite book_module_plan.
    destruct (book_walk_counting pretty minValue maxValue this q s seed cols
                Hs (extractColumns seed iq)) as (l & -> & Hk & _ & ->).
    intros H Hsort Hall.
    set (t2 := reset_counters [extractColumns seed iq] t) in *.
    assert (H2 : Table_sorted t2 /\ Forall P t2.*1).
    { unfold t2, reset_counters, reset_counter, Table_sorted. simpl.
      rewrite !modify_keys.
      split; [apply touch_sorted, Hsort|apply Forall_touch_keys; assumption]. }
    destruct H2 as [Hsort2 Hall2].
    destruct (book_histogram_keys P (with_t l t2) b) as [Hsort3 Hall3];
      [simpl; rewrite Hk; exact Pg|exact Hsort2|exact Hall2|].
    destruct (book_histogram _ _ _ _ _) as [t' b']. simpl in *.
    apply (IH HP' _ _ _ _ H); assumption.
Qed.

End BookThenHarvest.

(** Booking makes the table ready for the per-event harvesting. For a
    program that counts per event, with grouped keys that do not have as
    many columns as the first step: the table that [book] builds from the
    empty table is ordered by key, and each of its counters (the entries
    whose key has as many columns as the first step) has a histogram
    booked under its grouped key, which is what the per-event harvesting
    needs. *)
Theorem booking_makes_the_counters_harvestable :
  forall pretty to_string minValue maxValue extractColumns this q s seed cols
         modules b0 t1 b1,
    counts_per_event s seed cols ->
    (forall iq, length (regroup cols (extractColumns seed iq)) <> length seed) ->
    book_modules pretty to_string minValue maxValue extractColumns this q s
      modules [] b0 = Ok (t1, b1) ->
    Table_sorted t1 /\ counters_have_histograms (length seed) cols t1.
Proof.
  intros pretty to_string minValue maxValue extractColumns this q s seed cols
    modules b0 t1 b1 Hs Hg Hbook.
  set (P := fun k : Values =>
              length k = length seed ->
              exists iq, iq ∈ modules
                /\ to_be_booked this (extractColumns seed iq) = true
                /\ k = extractColumns seed iq).
  assert (HK : Table_sorted t1 /\ Forall P t1.*1).
  { apply (book_modules_keys pretty to_string minValue maxValue
             extractColumns this q s seed cols Hs P modules) with
      (t := @nil (Values * AbstractHistogram)) (iBooker := b0) (b1 := b1).
    - intros iq Hin Hb. split.
      + intros _. exists iq. auto.
      + intros E. destruct (Hg iq E).
    - exact Hbook.
    - constructor.
    - constructor. }
  destruct HK as [Hsort Hkeys].
  split; [exact Hsort|].
  - pose proof (book_prepares_counting_lemma pretty to_string minValue maxValue
                  extractColumns this q s seed cols modules [] b0 t1 b1 Hs
                  Hbook) as Hall.
    unfold counters_have_histograms. apply Forall_forall.
    intros [k a] Hin Hk. simpl in *.
    rewrite Forall_forall in Hkeys.
    destruct (Hkeys k) as (iq & Hiq & Hb & ->);
      [apply list_elem_of_fmap; exists (k, a); auto|exact Hk|].
    split; [apply Hg|].
    destruct (Hall iq Hiq Hb) as [_ (a' & m & Ha' & Hm)].
    unfold booked_in. rewrite Ha'. unfold bound. rewrite Hm.
    rewrite (bool_decide_eq_true_2 (is_Some (Some m))) by eauto.
    apply orb_true_r.
Qed.

Lemma booking_makes_the_counters_harvestable_witness :
  Table_sorted booked_ndigis.1
  /\ counters_have_histograms (length [1; 2]) [1] booked_ndigis.1.
Proof.
  apply (booking_makes_the_counters_harvestable pretty0 to_string0 minValue0
           maxValue0 extractColumns0 manager0 quantity0 spec_ndigis [1; 2] [1]
           modules0 iBooker0 booked_ndigis.1 booked_ndigis.2).
  - exists EmptyString, EmptyString, [step_of SAVE STAGE2 []].
    split; [reflexivity|]. repeat constructor.
  - intros iq. discriminate.
  - vm_compute. reflexivity.
Defined.

(** ** Offline harvesting *)

Section Load.

Variable pretty : Column -> string.
Variable to_string : Value -> string.
Variable extractColumns : list Column -> InterestingQuantities -> Values.
Variable this : HistogramManager.
Variable q : Quantity.
Variable s : SummationSpecification.
Variable iGetter : IGetter.

Lemma loadFromDQMStore_ind_inv (P : Table -> Prop) modules :
  (forall t sv m, P t -> P (Table.modify sv (set_loaded m) (Table.touch sv t))) ->
  forall t log t' log',
    loadFromDQMStore pretty to_string extractColumns this q s modules iGetter
      t log = Ok (t', log') ->
    P t -> P t'.
Proof.
  intros Hstep. induction modules as [|iq modules IH];
    intros t log t' log'; simpl.
  - intros [= <- <-]. auto.
  - destruct (steps s !! 0%nat) as [step0|]; [|discriminate].
    destruct (load_walk _ _ _) as [[name sv]|e]; [|discriminate].
    destruct (iGetter _) as [m|].
    + intros H Ht. apply (IH _ _ _ _ H). apply Hstep, Ht.
    + apply IH.
Qed.

Lemma loadFromDQMStore_log modules :
  bookUndefined this = false ->
  forall t log t' log',
    loadFromDQMStore pretty to_string extractColumns this q s modules iGetter
      t log = Ok (t', log') ->
    log' = log.
Proof.
  intros Hb. induction modules as [|iq modules IH];
    intros t log t' log'; simpl.
  - intros [= <- <-]. auto.
  - destruct (steps s !! 0%nat) as [step0|]; [|discriminate].
    destruct (load_walk _ _ _) as [[name sv]|e]; [|discriminate].
    rewrite Hb. destruct (iGetter _) as [m|]; apply IH.
Qed.

End Load.

(** [loadFromDQMStore] leaves no empty entry: it touches the table only
    for a monitor element it has found, so that every entry of the table
    it leaves is an entry it found there or an entry with a monitor
    element and the histogram of it; a table in which every entry has a
    histogram stays such a table; and nothing is logged unless every
    histogram was to be booked. *)
Theorem loadFromDQMStore_leaves_no_empty_entry :
  forall pretty to_string extractColumns this q s modules iGetter t log t'
         log',
    loadFromDQMStore pretty to_string extractColumns this q s modules iGetter
      t log = Ok (t', log') ->
    (forall k a, Table.find k t' = Some a ->
       Table.find k t = Some a \/ loaded a)
    /\ (all_have_th1 t -> all_have_th1 t')
    /\ (bookUndefined this = false -> log' = log).
Proof.
  intros pretty to_string extractColumns this q s modules iGetter t log t'
    log' H.
  split; [|split].
  - apply (loadFromDQMStore_ind_inv pretty to_string extractColumns this q s
             iGetter
             (fun T => forall k a, Table.find k T = Some a ->
                         Table.find k t = Some a \/ loaded a)
             modules) with (t := t) (log := log) (log' := log'); auto.
    intros T sv m HT k a.
    destruct (decide (k = sv)) as [->|Hne].
    + rewrite find_modify_eq. destruct (find_touch_eq sv T) as [a0 ->].
      simpl. intros [= <-]. right. split; simpl; eauto.
    + rewrite find_modify_ne, find_touch_ne by exact Hne. apply HT.
  - apply (loadFromDQMStore_ind_inv pretty to_string extractColumns this q s
             iGetter all_have_th1 modules) with (log := log) (log' := log');
      auto.
    intros T sv m HT. unfold all_have_th1.
    apply (Forall_modify_touch (fun a => is_Some (th1_target a)));
      [|exact HT].
    intros a. unfold th1_target. simpl. eauto.
  - intros Hb.
    exact (loadFromDQMStore_log pretty to_string extractColumns this q s
             iGetter modules Hb _ _ _ _ H).
Qed.

Lemma loadFromDQMStore_leaves_no_empty_entry_witness :
  (forall k a, Table.find k loaded_per_ladder = Some a ->
     Table.find k [] = Some a \/ loaded a)
  /\ (all_have_th1 [] -> all_have_th1 loaded_per_ladder)
  /\ (bookUndefined manager0 = false -> ([] : list string) = []).
Proof.
  apply (loadFromDQMStore_leaves_no_empty_entry pretty0 to_string0
           extractColumns0 manager0 quantity0 spec_per_ladder modules0
           iGetter0 [] []).
  vm_compute. reflexivity.
Defined.

Section HarvestTotal.

Variable pretty : Column -> string.
Variable to_string : Value -> string.
Variable GetMean : TH1 -> Q.
Variable GetEntries : TH1 -> Q.
Variable this : HistogramManager.

Lemma owns_have_th1 (t : Table) :
  Forall (fun x : Values * AbstractHistogram => owns_th1 x.2) t ->
  all_have_th1 t.
Proof.
  intros H. eapply Forall_impl; [exact H|]. intros [k a] [h Hh]. simpl in *.
  unfold th1_target. rewrite Hh. eauto.
Qed.

Lemma save_entry_total k e iBooker :
  is_Some (th1_target e) ->
  exists e' b',
    save_entry pretty to_string this k e iBooker = Ok (e', b')
    /\ is_Some (th1_target e').
Proof.
  intros He. unfold save_entry.
  destruct (me e) as [m|] eqn:Hme; simpl.
  - eauto.
  - destruct (th1_target_Some_th1 _ He) as [p Hp]. rewrite Hp. simpl.
    rewrite andb_false_r. destruct He as [h ->].
    destruct (GetDimension h =? 1); simpl;
      eexists _, _; (split; [reflexivity|]); unfold th1_target; simpl; eauto.
Qed.

Lemma executeSave_total t :
  all_have_th1 t ->
  forall iBooker,
    exists t' b',
      executeSave pretty to_string this t iBooker = Ok (t', b')
      /\ all_have_th1 t'.
Proof.
  induction 1 as [|[k e] t He Ht IH]; intros b; simpl.
  - eexists _, _. split; [reflexivity|constructor].
  - destruct (save_entry_total k e b He) as (e' & b1 & -> & He').
    destruct (IH b1) as (t' & b2 & -> & Ht').
    eexists _, _. split; [reflexivity|]. constructor; assumption.
Qed.

Lemma groupby_entry_total step k e out :
  is_Some (th1_target e) ->
  Forall (fun x : Values * AbstractHistogram => owns_th1 x.2) out ->
  exists out',
    groupby_entry step k e out = Ok out'
    /\ Forall (fun x : Values * AbstractHistogram => owns_th1 x.2) out'.
Proof.
  intros [h Hh] Hout. unfold groupby_entry. rewrite at_touch, Hh.
  unfold Table.at_.
  destruct (Table.find (regroup (columns step) k) out) as [a|] eqn:Ef; simpl.
  - destruct (Forall_find owns_th1 _ _ _ Hout Ef) as [nh ->].
    eexists. split; [reflexivity|].
    apply Forall_modify_touch; [|exact Hout]. intros a0. eexists. reflexivity.
  - eexists. split; [reflexivity|].
    apply Forall_modify_touch; [|exact Hout]. intros a0. eexists. reflexivity.
Qed.

Lemma executeGroupBy_total step t :
  all_have_th1 t ->
  exists t', executeGroupBy step t = Ok t' /\ all_have_th1 t'.
Proof.
  unfold executeGroupBy. intros Ht.
  assert (H : forall out,
            Forall (fun x : Values * AbstractHistogram => owns_th1 x.2) out ->
            exists t', groupby_loop step t out = Ok t'
              /\ Forall (fun x : Values * AbstractHistogram => owns_th1 x.2) t').
  { induction Ht as [|[k e] t He Ht IH]; intros out Hout; simpl; [eauto|].
    destruct (groupby_entry_total step k e out He Hout) as (out1 & -> & H1).
    apply IH, H1. }
  destruct (H [] ltac:(constructor)) as (t' & -> & Ho).
  eexists. split; [reflexivity|apply owns_have_th1, Ho].
Qed.

Lemma reduce_entry_total step k e out :
  is_Some (th1_target e) ->
  Forall (fun x : Values * AbstractHistogram => owns_th1 x.2) out ->
  exists out' errors,
    reduce_entry GetMean GetEntries step k e out = Ok (out', errors)
    /\ Forall (fun x : Values * AbstractHistogram => owns_th1 x.2) out'.
Proof.
  intros [h Hh] Hout. unfold reduce_entry. rewrite Hh.
  destruct (if String.eqb (arg step) "MEAN" then _ else _)
    as [[[rq label] name] errors].
  eexists _, _. split; [reflexivity|].
  apply Forall_modify_touch; [|exact Hout]. intros a0. eexists. reflexivity.
Qed.

Lemma executeReduce_total step t :
  all_have_th1 t ->
  exists t' errors,
    executeReduce GetMean GetEntries step t = Ok (t', errors)
    /\ all_have_th1 t'.
Proof.
  unfold executeReduce. intros Ht.
  assert (H : forall out log,
            Forall (fun x : Values * AbstractHistogram => owns_th1 x.2) out ->
            exists t' log',
              reduce_loop GetMean GetEntries step t out log = Ok (t', log')
              /\ Forall (fun x : Values * AbstractHistogram => owns_th1 x.2) t').
  { induction Ht as [|[k e] t He Ht IH]; intros out log Hout; simpl; [eauto|].
    destruct (reduce_entry_total step k e out He Hout)
      as (out1 & errors & -> & H1).
    apply IH, H1. }
  destruct (H [] [] ltac:(constructor)) as (t' & log' & -> & Ho).
  eexists _, _. split; [reflexivity|apply owns_have_th1, Ho].
Qed.

Lemma executeExtend_total step isX t :
  columns step <> [] -> all_have_th1 t ->
  exists t', executeExtend pretty step t isX = Ok t' /\ all_have_th1 t'.
Proof.
  intros Hc Ht. unfold executeExtend.
  destruct (columns step) as [|c cols] eqn:Ec; [congruence|].
  assert (Hc0 : columns step !! 0%nat = Some c) by (rewrite Ec; reflexivity).
  destruct (extend_nbins_total step isX c t Hc0 Ht []) as [nb ->].
  assert (H : forall out,
            Forall (fun x : Values * AbstractHistogram => owns_th1 x.2) out ->
            exists t', extend_loop pretty step isX nb t out = Ok t'
              /\ Forall (fun x : Values * AbstractHistogram => owns_th1 x.2) t').
  { clear -Hc0 Ht. induction Ht as [|[k e] t He Ht IH]; intros out Hout; simpl;
      [eauto|].
    destruct (extend_entry_total pretty step isX nb c k e out Hc0 He Hout)
      as (out1 & -> & H1).
    apply IH, H1. }
  destruct (H [] ltac:(constructor)) as (t' & -> & Ho).
  eexists. split; [reflexivity|apply owns_have_th1, Ho].
Qed.

Lemma harvest_step_total customHandler step t iBooker log :
  harvestable step -> all_have_th1 t ->
  exists t' b' log',
    harvest_step pretty to_string GetMean GetEntries this customHandler step
      (t, iBooker, log) = Ok (t', b', log')
    /\ all_have_th1 t'.
Proof.
  intros Hh Ht. unfold harvest_step, harvestable in *.
  destruct (decide (stage step = STAGE2)) as [H2|H2]; [|eauto 6].
  specialize (Hh H2). destruct (type step); try contradiction.
  - destruct (executeSave_total t Ht iBooker) as (t' & b' & -> & Ht'). eauto 6.
  - destruct (executeExtend_total step true t Hh Ht) as (t' & -> & Ht').
    eauto 6.
  - destruct (executeExtend_total step false t Hh Ht) as (t' & -> & Ht').
    eauto 6.
  - destruct (executeGroupBy_total step t Ht) as (t' & -> & Ht'). eauto 6.
  - destruct (executeReduce_total step t Ht) as (t' & errors & -> & Ht').
    eauto 6.
Qed.

End HarvestTotal.

(** The steps of the offline harvesting never meet a null pointer on what
    [loadFromDQMStore] leaves. On a table in which every entry has a
    histogram, a program whose steps of stage 2 are [SAVE], [GROUPBY],
    [REDUCE] and [EXTEND] steps that name their column is executed to its
    end, without an abort, and leaves a table in which every entry has a
    histogram. *)
Theorem offline_harvesting_goes_through :
  forall pretty to_string GetMean GetEntries this customHandler rest t
         iBooker log,
    all_have_th1 t ->
    Forall harvestable rest ->
    exists t' b' log',
      harvest_steps pretty to_string GetMean GetEntries this customHandler
        rest (t, iBooker, log) = Ok (t', b', log')
      /\ all_have_th1 t'.
Proof.
  intros pretty to_string GetMean GetEntries this customHandler rest.
  induction rest as [|step rest IH]; intros t b log Ht Hr;
    cbn [harvest_steps].
  - eauto 6.
  - inversion Hr as [|? ? Hh Hr']; subst.
    destruct (harvest_step_total pretty to_string GetMean GetEntries this
                customHandler step t b log Hh Ht) as (t1 & b1 & log1 & -> & H1).
    apply IH; assumption.
Qed.

Lemma offline_harvesting_goes_through_witness :
  exists t' b' log',
    harvest_steps pretty0 to_string0 (fun _ => 1%Q) (fun _ => 1%Q) manager0
      None
      [step_COUNT STAGE1; step_of EXTEND_X STAGE2 [2];
       mkStep REDUCE STAGE2 [] "MEAN"; step_of SAVE STAGE2 []]
      (table_2_3_1, iBooker0, []) = Ok (t', b', log')
    /\ all_have_th1 t'.
Proof.
  apply (offline_harvesting_goes_through pretty0 to_string0 (fun _ => 1%Q)
           (fun _ => 1%Q) manager0 None).
  - repeat constructor; simpl; eauto.
  - repeat constructor; unfold harvestable; simpl; try discriminate; auto.
Defined.

(** ** Stage 2: what [SAVE] publishes *)

Section SaveCopy.

Variable pretty : Column -> string.
Variable to_string : Value -> string.
Variable this : HistogramManager.

(** Adding to cells that hold zero rounds nothing: the sum is the cell
    that is added. *)
Lemma add_cells_zero (l : list Float_t) :
  add_cells (replicate (length l) Float0) l = l.
Proof.
  unfold add_cells. induction l as [|x l IH]; [reflexivity|].
  cbn [length replicate zip_with]. rewrite to_float_plus_0, IH. reflexivity.
Qed.

Lemma at_least_one_id n : 1 <= n -> at_least_one n = n.
Proof.
  intros H. unfold at_least_one. destruct (n <=? 0) eqn:E; [lia|reflexivity].
Qed.

Lemma axis_eta (a : TAxis) :
  mkTAxis (GetNbins a) (GetXmin a) (GetXmax a) (axis_title a) = a.
Proof. destruct a; reflexivity. Qed.

Lemma save_entry_copy k e iBooker :
  unpublished e ->
  exists e' b',
    save_entry pretty to_string this k e iBooker = Ok (e', b')
    /\ published (makePath pretty to_string this k) e e'
    /\ booked b' = booked iBooker
                   ++ [(makePath pretty to_string this k,
                        default EmptyString (GetName <$> th1_target e))].
Proof.
  intros (Hme & h & Hth & Hnx & Hwf). unfold save_entry.
  rewrite Hme, Hth. unfold th1_target. rewrite Hth. simpl.
  rewrite andb_false_r. unfold Nx, Ny in *.
  destruct Hwf as [(Hd & Hlen)|(Hd & Hny & Hlen)]; rewrite Hd; simpl.
  - unfold TH1_Add. simpl. rewrite (at_least_one_id _ Hnx).
    rewrite length_replicate.
    destruct (decide (Z.to_nat (GetNbins (GetXaxis h) + 2)
                      = length (fArray h))) as [E|E]; [|congruence].
    eexists _, _. split; [reflexivity|]. split; [|reflexivity].
    split; [reflexivity|]. split; [reflexivity|].
    exists h. eexists. split; [exact Hth|]. split; [reflexivity|].
    split; [reflexivity|]. unfold copy_of. simpl.
    rewrite E, add_cells_zero. unfold with_title. simpl.
    rewrite axis_eta. repeat split; auto. congruence.
  - unfold TH1_Add. simpl.
    rewrite (at_least_one_id _ Hnx), (at_least_one_id _ Hny).
    rewrite length_replicate.
    destruct (decide (Z.to_nat ((GetNbins (GetXaxis h) + 2)
                                * (GetNbins (GetYaxis h) + 2))
                      = length (fArray h))) as [E|E]; [|congruence].
    eexists _, _. split; [reflexivity|]. split; [|reflexivity].
    split; [reflexivity|]. split; [reflexivity|].
    exists h. eexists. split; [exact Hth|]. split; [reflexivity|].
    split; [reflexivity|]. unfold copy_of. simpl.
    rewrite E, add_cells_zero. unfold with_title. simpl.
    rewrite !axis_eta. repeat split; auto.
Qed.

End SaveCopy.

(** [SAVE] publishes a copy. On a table whose entries have a well-formed
    histogram of their own and no monitor element, [executeSave] goes
    through, keeps the keys and their order, and gives every entry a
    monitor element in the folder of its key that holds a copy of the
    histogram: the same name, dimension, axes and cells. The monitor
    elements are booked in the order of the keys, under the names of the
    histograms. *)
Theorem SAVE_publishes_a_copy_of_every_histogram :
  forall pretty to_string this t iBooker,
    Forall (fun e : Values * AbstractHistogram => unpublished e.2) t ->
    exists t' b',
      executeSave pretty to_string this t iBooker = Ok (t', b')
      /\ Forall2 (fun e e' : Values * AbstractHistogram =>
                    e'.1 = e.1
                    /\ published (makePath pretty to_string this e.1) e.2 e'.2)
           t t'
      /\ booked b'
         = booked iBooker
           ++ ((fun e : Values * AbstractHistogram =>
                  (makePath pretty to_string this e.1,
                   default EmptyString (GetName <$> th1_target e.2))) <$> t).
Proof.
  intros pretty to_string this t. induction t as [|[k e] t IH];
    intros b Ht; simpl.
  - eexists _, _. split; [reflexivity|]. split; [constructor|].
    rewrite app_nil_r. reflexivity.
  - inversion Ht as [|? ? He Ht']; subst. simpl in He.
    destruct (save_entry_copy pretty to_string this k e b He)
      as (e' & b1 & -> & Hp & Hb1).
    destruct (IH b1 Ht') as (t' & b2 & -> & Hall & Hb2).
    eexists _, _. split; [reflexivity|]. split.
    + constructor; [split; [reflexivity|exact Hp]|exact Hall].
    + rewrite Hb2, Hb1, <- app_assoc. reflexivity.
Qed.

Lemma SAVE_publishes_a_copy_of_every_histogram_witness :
  exists t' b',
    executeSave pretty0 to_string0 manager0 table_2_3_1 iBooker0 = Ok (t', b')
    /\ Forall2 (fun e e' : Values * AbstractHistogram =>
                  e'.1 = e.1
                  /\ published (makePath pretty0 to_string0 manager0 e.1)
                       e.2 e'.2)
         table_2_3_1 t'
    /\ booked b'
       = booked iBooker0
         ++ ((fun e : Values * AbstractHistogram =>
                (makePath pretty0 to_string0 manager0 e.1,
                 default EmptyString (GetName <$> th1_target e.2)))
               <$> table_2_3_1).
Proof.
  apply (SAVE_publishes_a_copy_of_every_histogram pretty0 to_string0 manager0
           table_2_3_1 iBooker0).
  repeat (apply List.Forall_cons;
          [split; [reflexivity|];
           eexists; split; [reflexivity|];
           split; [unfold Nx; simpl; lia|left; split; reflexivity]|]).
  apply List.Forall_nil.
Defined.

(** ** Stage 2: what [REDUCE] leaves *)

Section ReduceQuantity.

Variable GetMean : TH1 -> Q.
Variable GetEntries : TH1 -> Q.

Lemma find_fmap_entries (g : AbstractHistogram -> AbstractHistogram) k
    (t : Table) :
  Table.find k ((fun e : Values * AbstractHistogram => (e.1, g e.2)) <$> t)
  = g <$> Table.find k t.
Proof.
  induction t as [|[k' a] t IH]; csimpl; [reflexivity|].
  destruct (decide (k = k')); [reflexivity|exact IH].
Qed.

Lemma reduce_entry_quantity step k e out :
  arg step = "MEAN"%string \/ arg step = "COUNT"%string ->
  is_Some (th1_target e) -> all_below k out ->
  reduce_entry GetMean GetEntries step k e out
  = Ok (out ++ [(k, reduced_entry GetMean GetEntries step e)], []).
Proof.
  intros Harg [h Hh] Hb. unfold reduce_entry, reduced_entry, reduced, own.
  rewrite Hh.
  destruct Harg as [Ha|Ha]; rewrite Ha; simpl;
    match goal with
    | |- Ok (Table.modify k ?f _, _) = _ =>
        destruct (touch_modify_all_below k f out Hb) as [E _]; rewrite E
    end; reflexivity.
Qed.

Lemma reduce_loop_quantity step t :
  arg step = "MEAN"%string \/ arg step = "COUNT"%string ->
  forall out log,
    Table_sorted t -> all_have_th1 t ->
    Forall (fun e : Values * AbstractHistogram => all_below e.1 out) t ->
    reduce_loop GetMean GetEntries step t out log
    = Ok (out ++ ((fun e => (e.1, reduced_entry GetMean GetEntries step e.2))
                    <$> t), log).
Proof.
  intros Harg. induction t as [|[k e] t IH]; intros out log Hs Ht Hb;
    cbn [reduce_loop].
  - rewrite app_nil_r. reflexivity.
  - apply Table_sorted_cons_inv in Hs as [Hs Hk].
    inversion Ht as [|? ? He Ht']; subst. inversion Hb as [|? ? Hbk Hb']; subst.
    rewrite (reduce_entry_quantity step k e out Harg He Hbk).
    rewrite IH; auto.
    + rewrite app_nil_r, <- app_assoc. reflexivity.
    + rewrite Forall_forall in *. intros x Hx.
      apply Forall_app. split; [apply Hb', Hx|].
      constructor; [|constructor]. apply Hk, Hx.
Qed.

End ReduceQuantity.

(** A [REDUCE] by [MEAN] or by [COUNT], on a table (a [std::map]) in which
    every entry has a histogram, logs no error, keeps the keys, and
    replaces the histogram of every entry by a 1-D histogram of one bin
    under the name of the old histogram behind [mean_] or [num_]; the new
    entry has no monitor element. The bin holds the quantity (the mean, or
    the number of entries, as ROOT tells them) rounded to single
    precision, the cell type of a [TH1F], as long as the quantity is in
    the range of that type: what is read back is the nearest [float], not
    the [double] that was stored. *)
Theorem REDUCE_leaves_one_bin_with_the_quantity :
  forall GetMean GetEntries step t,
    arg step = "MEAN"%string \/ arg step = "COUNT"%string ->
    Table_sorted t -> all_have_th1 t ->
    exists t',
      executeReduce GetMean GetEntries step t = Ok (t', [])
      /\ t'.*1 = t.*1
      /\ forall k e h,
           Table.find k t = Some e -> th1_target e = Some h ->
           exists h',
             Table.find k t' = Some (own h')
             /\ GetDimension h' = 1 /\ Nx h' = 1
             /\ ((Qabs (quantity GetMean GetEntries step h) <= FLT_MAX)%Q ->
                 GetBinContent h' 1
                 = float_round (quantity GetMean GetEntries step h))
             /\ GetName h'
                = ((if String.eqb (arg step) "MEAN" then "mean_" else "num_")
                     ++ GetName h)%string.
Proof.
  intros GetMean GetEntries step t Harg Hs Ht.
  eexists. split; [|split].
  - unfold executeReduce.
    rewrite (reduce_loop_quantity GetMean GetEntries step t Harg [] [] Hs Ht);
      [reflexivity|].
    apply Forall_forall. intros; constructor.
  - simpl. rewrite <- list_fmap_compose. reflexivity.
  - intros k e h Hf Hh. simpl. rewrite find_fmap_entries, Hf. simpl.
    unfold reduced_entry. rewrite Hh. eexists. split; [reflexivity|].
    unfold reduced, quantity.
    destruct (String.eqb (arg step) "MEAN"); simpl; repeat split;
      intros _; apply to_double_to_float.
Qed.

Lemma REDUCE_leaves_one_bin_with_the_quantity_witness :
  exists t',
    executeReduce (fun _ => 27 # 14) (fun _ => 8%Q)
      (mkStep REDUCE STAGE2 [] "MEAN") table_layer1 = Ok (t', [])
    /\ t'.*1 = table_layer1.*1
    /\ forall k e h,
         Table.find k table_layer1 = Some e -> th1_target e = Some h ->
         exists h',
           Table.find k t' = Some (own h')
           /\ GetDimension h' = 1 /\ Nx h' = 1
           /\ GetBinContent h' 1 = (8089015 # 4194304)%Q
           /\ GetName h' = ("mean_" ++ GetName h)%string.
Proof.
  assert (Hs : Table_sorted table_layer1) by repeat constructor.
  assert (Ht : all_have_th1 table_layer1)
    by (repeat constructor; simpl; eauto).
  destruct (REDUCE_leaves_one_bin_with_the_quantity
              (fun _ => 27 # 14) (fun _ => 8%Q)
              (mkStep REDUCE STAGE2 [] "MEAN") table_layer1
              (or_introl eq_refl) Hs Ht)
    as (t' & E & Hk & Hall).
  exists t'. split; [exact E|]. split; [exact Hk|].
  intros k e h Hf Hh.
  destruct (Hall k e h Hf Hh) as (h' & F & Hd & Hn & Hq & Hname).
  exists h'. repeat split; try assumption.
  rewrite Hq; [vm_compute; reflexivity|].
  unfold Qle. vm_compute. discriminate.
Defined.

(** ** Stage 2: [EXTEND_Y] on 1-D distributions *)

Section Cells2D.

Variables n N : Z.
Hypothesis Hn : 1 <= n.
Hypothesis HN : 1 <= N.

Lemma cell_index i r i' r' :
  0 <= i <= n + 1 -> 0 <= i' <= n + 1 -> 0 <= r -> 0 <= r' ->
  i + (n + 2) * r = i' + (n + 2) * r' -> i = i' /\ r = r'.
Proof.
  intros Hi Hi' Hr Hr' E.
  assert (r = r').
  { destruct (Z.lt_trichotomy r r') as [Hlt|[Heq|Hgt]]; [exfalso|exact Heq|exfalso].
    - assert (0 <= (n + 2) * (r' - r - 1)) by (apply Z.mul_nonneg_nonneg; lia).
      lia.
    - assert (0 <= (n + 2) * (r - r' - 1)) by (apply Z.mul_nonneg_nonneg; lia).
      lia. }
  subst. split; lia.
Qed.

Lemma cell_in_range i r :
  0 <= i <= n + 1 -> 0 <= r <= N + 1 ->
  0 <= i + (n + 2) * r < (n + 2) * (N + 2).
Proof.
  intros Hi Hr.
  assert (0 <= (n + 2) * r) by (apply Z.mul_nonneg_nonneg; lia).
  assert (0 <= (n + 2) * (N + 1 - r)) by (apply Z.mul_nonneg_nonneg; lia).
  lia.
Qed.

Lemma GetBin_2D H i r :
  shape_2D n N H -> 0 <= i <= n + 1 -> 0 <= r <= N + 1 ->
  GetBin H i r = i + (n + 2) * r.
Proof.
  intros (Hd & Hx & Hy & _) Hi Hr. unfold GetBin, clamp.
  rewrite Hd, Hx, Hy. simpl. lia.
Qed.

Lemma shape_2D_SetBinContent H b q :
  shape_2D n N H -> shape_2D n N (SetBinContent H b q).
Proof.
  intros (Hd & Hx & Hy & Hl). unfold SetBinContent, shape_2D.
  destruct (b <? 0); [auto|]. unfold Nx, Ny in *. simpl.
  rewrite length_insert. auto.
Qed.

Lemma GetBinContent_SetBinContent H b b' q :
  0 <= b < Z.of_nat (length (fArray H)) ->
  0 <= b' < Z.of_nat (length (fArray H)) ->
  GetBinContent (SetBinContent H b q) b'
  = if decide (b = b') then to_double (to_float q) else GetBinContent H b'.
Proof.
  intros Hb Hb'. unfold GetBinContent, SetBinContent, clamp.
  destruct (Z.ltb_spec b 0); [lia|]. simpl. rewrite length_insert.
  replace (Z.max 0 (Z.min (Z.of_nat (length (fArray H)) - 1) b')) with b'
    by lia.
  destruct (decide (b = b')) as [->|Hne].
  - rewrite list_lookup_insert_eq by lia. reflexivity.
  - rewrite list_lookup_insert_ne by lia. reflexivity.
Qed.

Lemma GetBinContent2_SetBinContent2 H i r i' r' q :
  shape_2D n N H ->
  0 <= i <= n + 1 -> 0 <= r <= N + 1 -> 0 <= i' <= n + 1 -> 0 <= r' <= N + 1 ->
  GetBinContent2 (SetBinContent2 H i r q) i' r'
  = if decide (i = i' /\ r = r') then to_double (to_float q)
    else GetBinContent2 H i' r'.
Proof.
  intros Hs Hi Hr Hi' Hr'. unfold GetBinContent2, SetBinContent2.
  rewrite (GetBin_2D _ i' r' (shape_2D_SetBinContent H _ q Hs) Hi' Hr').
  rewrite (GetBin_2D H i r Hs Hi Hr), (GetBin_2D H i' r' Hs Hi' Hr').
  destruct Hs as (_ & _ & _ & Hl).
  pose proof (cell_in_range i r Hi Hr). pose proof (cell_in_range i' r' Hi' Hr').
  rewrite GetBinContent_SetBinContent by (rewrite Hl; lia).
  destruct (decide (i + (n + 2) * r = i' + (n + 2) * r')) as [E|E].
  - apply cell_index in E as [-> ->]; try lia.
    rewrite decide_True; auto.
  - rewrite decide_False; [reflexivity|]. intros [-> ->]. auto.
Qed.

(** The inner loop of the [EXTEND_Y] case: row [cnt] is written, from bin 1
    to bin [m]. *)
Lemma copy_row (f : Z -> Q) cnt m :
  1 <= cnt <= N -> (Z.of_nat m <= n) ->
  forall H,
    shape_2D n N H ->
    shape_2D n N
      (fold_left (fun new_th1 i => SetBinContent2 new_th1 i cnt (f i))
         (Z.of_nat <$> seq 1 m) H)
    /\ forall i r,
         0 <= i <= n + 1 -> 0 <= r <= N + 1 ->
         GetBinContent2
           (fold_left (fun new_th1 i => SetBinContent2 new_th1 i cnt (f i))
              (Z.of_nat <$> seq 1 m) H) i r
         = if decide (r = cnt /\ 1 <= i <= Z.of_nat m)
           then to_double (to_float (f i))
           else GetBinContent2 H i r.
Proof.
  intros Hc. induction m as [|m IH]; intros Hm H Hs.
  - split; [exact Hs|]. intros i r Hi Hr.
    rewrite decide_False by lia. reflexivity.
  - rewrite seq_S, fmap_app, fold_left_app.
    destruct (IH ltac:(lia) H Hs) as [Hs' Hget].
    cbn [fmap list_fmap fold_left].
    split; [apply shape_2D_SetBinContent, Hs'|].
    intros i r Hi Hr.
    rewrite GetBinContent2_SetBinContent2 by (auto; lia).
    rewrite Hget by auto.
    destruct (decide (Z.of_nat (1 + m) = i /\ cnt = r)) as [[E1 E2]|E].
    + rewrite decide_True by lia. subst i. reflexivity.
    + destruct (decide (r = cnt /\ 1 <= i <= Z.of_nat m)) as [D|D].
      * rewrite decide_True by lia. reflexivity.
      * rewrite decide_False by lia. reflexivity.
Qed.

End Cells2D.

Section ExtendY.

Variable pretty : Column -> string.
Variable step : SummationStep.
Variable c : Column.
Variable g : Values.
Variable layout : list Column.
Variables n N : Z.
Hypothesis Hc : columns step !! 0%nat = Some c.
Hypothesis Hn : 1 <= n.
Hypothesis HN : 1 <= N.
Hypothesis Hmax : N < INT_MAX.

Lemma shape_2D_new name title xlo xhi ylo yhi :
  shape_2D n N (new_TH2F name title n xlo xhi N ylo yhi)
  /\ forall i r, GetBinContent2 (new_TH2F name title n xlo xhi N ylo yhi) i r
                 = 0%Q.
Proof.
  unfold shape_2D, new_TH2F, Nx, Ny, at_least_one. simpl.
  destruct (Z.leb_spec n 0); [lia|]. destruct (Z.leb_spec N 0); [lia|].
  rewrite length_replicate. repeat split.
  intros i r. unfold GetBinContent2, GetBinContent. simpl.
  destruct (replicate _ _ !! _) as [x|] eqn:E; [|reflexivity].
  apply lookup_replicate in E as [-> _]. reflexivity.
Qed.

(** The loops of the [EXTEND_Y] case for a 1-D distribution: one row. *)
Lemma copy_2D_Y_row h H cnt :
  GetDimension h = 1 -> Nx h = n -> Ny h = 1 ->
  shape_2D n N H -> 1 <= cnt <= N ->
  exists H',
    copy_2D_Y h (H, cnt) = (H', cnt + 1)
    /\ shape_2D n N H'
    /\ forall i r,
         1 <= i <= n -> 1 <= r <= N ->
         GetBinContent2 H' i r
         = if decide (r = cnt) then GetBinContent h i
           else GetBinContent2 H i r.
Proof.
  intros Hd Hx Hy Hs Hcnt. unfold copy_2D_Y, from_1_to. rewrite Hx, Hy.
  change (Z.of_nat <$> seq 1 (Z.to_nat 1)) with [1].
  cbn [fold_left].
  destruct (copy_row n N Hn HN (fun i => GetBinContent2 h i 1) cnt (Z.to_nat n)
              Hcnt ltac:(lia) H Hs) as [Hs' Hget].
  eexists. split; [|split; [exact Hs'|]].
  - rewrite wrap32_small by (unfold INT_MAX in Hmax; lia). reflexivity.
  - intros i r Hi Hr. rewrite Hget by lia.
    destruct (decide (r = cnt)) as [->|Hne].
    + rewrite decide_True by lia. unfold GetBinContent2.
      rewrite to_double_stored. unfold GetBin, clamp.
      rewrite Hd, Hx. simpl. f_equal. lia.
    + rewrite decide_False by lia. reflexivity.
Qed.

Lemma stack_next done h H H' :
  shape_2D n N H' ->
  (forall r h0 i,
     done !! r = Some h0 -> 1 <= i <= n ->
     GetBinContent2 H i (Z.of_nat r + 1) = GetBinContent h0 i) ->
  (Z.of_nat (length done) < N) ->
  (forall i r,
     1 <= i <= n -> 1 <= r <= N ->
     GetBinContent2 H' i r
     = if decide (r = 1 + Z.of_nat (length done)) then GetBinContent h i
       else GetBinContent2 H i r) ->
  stack_state g n N (done ++ [h])
    [(g, {| count := 1 + Z.of_nat (length done) + 1; me := None;
            th1 := Some (OwnTH1 H') |})].
Proof.
  intros Hs Hrows Hfit Hget. exists H'. split; [|split; [exact Hs|]].
  - rewrite length_app. simpl. do 3 f_equal. lia.
  - intros r h0 i Hr Hi.
    pose proof (lookup_lt_Some _ _ _ Hr) as Hlt.
    rewrite length_app in Hlt. simpl in Hlt.
    rewrite Hget by lia.
    destruct (decide (r = length done)) as [->|Hne].
    + rewrite decide_True by lia.
      rewrite lookup_app_r, Nat.sub_diag in Hr by lia.
      injection Hr as <-. reflexivity.
    + rewrite decide_False by lia.
      rewrite lookup_app_l in Hr by lia. apply Hrows; assumption.
Qed.

(** The second pass, for one entry. *)
Lemma extend_entry_stack nbins done k e h out :
  nbins_at g nbins = N ->
  Values.erase k c = g -> th1_target e = Some h ->
  GetDimension h = 1 -> Nx h = n -> Ny h = 1 ->
  Z.of_nat (length done) < N ->
  (out = [] /\ done = []) \/ stack_state g n N done out ->
  exists out',
    extend_entry pretty step false nbins k e out = Ok out'
    /\ stack_state g n N (done ++ [h]) out'.
Proof.
  intros Hnb Hg Hh Hd Hx Hy Hfit Hout. unfold extend_entry.
  rewrite Hc, Hg, Hh.
  destruct (th1_target_Some_th1 e) as [p ->]; [rewrite Hh; eauto|].
  destruct Hout as [[-> ->]|(H & -> & Hs & Hrows)].
  - change (Table.touch g []) with [(g, AbstractHistogram0)].
    unfold Table.at_. rewrite find_single.
    cbn [th1 AbstractHistogram0 count default]. rewrite Hnb.
    unfold extend_book. rewrite Hd. cbn [Z.eqb Pos.eqb andb]. rewrite Hx.
    match goal with
    | |- context [new_TH2F ?name ?title n ?xlo ?xhi N ?ylo ?yhi] =>
        destruct (shape_2D_new name title xlo xhi ylo yhi) as [Hs0 Hz];
        set (H0 := new_TH2F name title n xlo xhi N ylo yhi) in *
    end.
    assert (Hd0 : GetDimension H0 = 2) by (destruct Hs0; assumption).
    clearbody H0. unfold id. cbn [th1 AbstractHistogram0 count].
    rewrite Hd0. cbn [Z.eqb Pos.eqb].
    destruct (copy_2D_Y_row h H0 1 Hd Hx Hy Hs0 ltac:(lia))
      as (H' & -> & Hs' & Hget).
    rewrite modify_single.
    eexists. split; [reflexivity|].
    apply (stack_next [] h H0 H' Hs'); [|simpl; lia|exact Hget].
    intros r h0 i Hr. rewrite lookup_nil in Hr. discriminate.
  - rewrite (touch_present _ _ _ (find_single _ _)).
    unfold Table.at_. rewrite find_single.
    cbn [th1 count default]. unfold id. cbn [th1 count].
    assert (HdH : GetDimension H = 2) by (destruct Hs; assumption).
    rewrite HdH. cbn [Z.eqb Pos.eqb].
    destruct (copy_2D_Y_row h H (1 + Z.of_nat (length done)) Hd Hx Hy Hs
                ltac:(lia)) as (H' & -> & Hs' & Hget).
    rewrite modify_single.
    eexists. split; [reflexivity|].
    apply (stack_next done h H H' Hs' Hrows Hfit Hget).
Qed.

Lemma extend_loop_stack nbins t :
  nbins_at g nbins = N ->
  differ_only_in c layout g t -> all_of_bins n t ->
  forall done out,
    Z.of_nat (length done + length t) <= N ->
    (out = [] /\ done = []) \/ stack_state g n N done out ->
    t <> [] ->
    exists out',
      extend_loop pretty step false nbins t out = Ok out'
      /\ stack_state g n N (done ++ histograms t) out'.
Proof.
  intros Hnb Ht. induction Ht as [|[k e] t (_ & Hg & h & Hh & Hd & _) Ht IH];
    intros Hbins done out Hfit Hout Hne; [congruence|].
  simpl in Hg, Hh. apply Forall_cons in Hbins as [Hb Hbins'].
  destruct (Hb h Hh) as [Hx Hy].
  rewrite (histograms_cons _ _ _ _ Hh).
  cbn [extend_loop]. simpl length in Hfit.
  destruct (extend_entry_stack nbins done k e h out Hnb Hg Hh Hd Hx Hy
              ltac:(lia) Hout) as (out1 & -> & Hst).
  destruct t as [|e2 t].
  - exists out1. split; [reflexivity|exact Hst].
  - destruct (IH Hbins' (done ++ [h]) out1) as (out' & E & Hst');
      [|right; exact Hst|discriminate|].
    + rewrite length_app. simpl in *. lia.
    + exists out'. split; [exact E|].
      rewrite <- app_assoc in Hst'. exact Hst'.
Qed.

(** The first pass: one bin of the y axis per distribution. *)
Lemma extend_nbins_rows t :
  differ_only_in c layout g t -> all_of_bins n t ->
  forall nb,
    0 <= nbins_at g nb ->
    nbins_at g nb + Z.of_nat (length t) <= INT_MAX ->
    exists nb',
      extend_nbins step false t nb = Ok nb'
      /\ nbins_at g nb' = nbins_at g nb + Z.of_nat (length t).
Proof.
  induction 1 as [|[k e] t (_ & Hg & h & Hh & _ & _) Ht IH];
    intros Hbins nb H0 Hm.
  - exists nb. simpl. split; [reflexivity|lia].
  - simpl in Hg, Hh. apply Forall_cons in Hbins as [Hb Hbins'].
    destruct (Hb h Hh) as [_ Hy].
    simpl extend_nbins. rewrite Hc, Hg, Hh.
    destruct (th1_target_Some_th1 e) as [p ->]; [rewrite Hh; eauto|].
    rewrite Hy. simpl length in Hm.
    rewrite wrap32_small by (unfold INT_MAX in Hm; lia).
    destruct (IH Hbins' (nbins_set g (nbins_at g nb + 1) nb))
      as (nb' & E & Hnb').
    + rewrite nbins_at_set. lia.
    + rewrite nbins_at_set. lia.
    + exists nb'. split; [exact E|]. rewrite Hnb', nbins_at_set.
      simpl length. lia.
Qed.

End ExtendY.

(** [EXTEND_Y] at harvest stacks 1-D distributions. On a table (a
    [std::map]) of 1-D distributions of [n] bins each that agree on all
    columns but the dropped one, the table becomes one entry under the
    remaining key, whose distribution is 2-D, of [n] bins along x and one
    bin along y per input; row [r] of it holds the bins of the [r]-th
    input, in the order of the table. *)
Theorem EXTEND_Y_stacks_the_distributions :
  forall pretty step c g layout n t,
    columns step !! 0%nat = Some c ->
    t <> [] -> differ_only_in c layout g t -> all_of_bins n t ->
    Z.of_nat (length t) < INT_MAX ->
    exists H,
      executeExtend pretty step t false
      = Ok [(g, {| count := 1 + Z.of_nat (length t); me := None;
                   th1 := Some (OwnTH1 H) |})]
      /\ shape_2D n (Z.of_nat (length t)) H
      /\ forall r h i,
           histograms t !! r = Some h -> 1 <= i <= n ->
           GetBinContent2 H i (Z.of_nat r + 1) = GetBinContent h i.
Proof.
  intros pretty step c g layout n t Hc Hne Ht Hbins Hmax.
  set (N := Z.of_nat (length t)) in *.
  assert (HN : 1 <= N) by (destruct t; [congruence|unfold N; simpl; lia]).
  assert (Hn : 1 <= n).
  { destruct Ht as [|[k e] t (_ & _ & h & Hh & _ & H1) Ht]; [congruence|].
    apply Forall_cons in Hbins as [Hb _]. simpl in *.
    destruct (Hb h Hh) as [<- _]. exact H1. }
  assert (Hlen : length (histograms t) = length t).
  { clear -Ht. induction Ht as [|[k e] t (_ & _ & h & Hh & _) Ht IH];
      [reflexivity|].
    simpl in Hh. rewrite (histograms_cons _ _ _ _ Hh). simpl. rewrite IH.
    reflexivity. }
  destruct (extend_nbins_rows step c g layout n Hc t Ht Hbins [])
    as (nb & E1 & Hnb); [simpl; lia|simpl; fold N; lia|].
  simpl in Hnb. fold N in Hnb.
  destruct (extend_loop_stack pretty step c g layout n N Hc Hn HN Hmax nb t
              Hnb Ht Hbins [] [])
    as (out & E2 & H & -> & Hs & Hrows); [simpl; fold N; lia|auto|exact Hne|].
  simpl in Hrows, E2. exists H. split; [|split; [exact Hs|exact Hrows]].
  unfold executeExtend. rewrite E1, E2. rewrite Hlen. reflexivity.
Qed.

Lemma EXTEND_Y_stacks_the_distributions_witness :
  exists H,
    executeExtend pretty0 (step_of EXTEND_Y STAGE2 [2]) table_2_2_2 false
    = Ok [([(1, 1)], {| count := 1 + Z.of_nat (length table_2_2_2);
                        me := None; th1 := Some (OwnTH1 H) |})]
    /\ shape_2D 2 (Z.of_nat (length table_2_2_2)) H
    /\ forall r h i,
         histograms table_2_2_2 !! r = Some h -> 1 <= i <= 2 ->
         GetBinContent2 H i (Z.of_nat r + 1) = GetBinContent h i.
Proof.
  apply (EXTEND_Y_stacks_the_distributions pretty0
           (step_of EXTEND_Y STAGE2 [2]) 2 [(1, 1)] [1; 2] 2 table_2_2_2).
  - reflexivity.
  - discriminate.
  - constructor; [|constructor; [|constructor; [|constructor]]];
      (split; [reflexivity|split; [reflexivity|]];
       eexists; split; [reflexivity|split; [reflexivity|]];
       vm_compute; discriminate).
  - repeat (apply List.Forall_cons;
            [intros h [= <-]; split; reflexivity|]).
    apply List.Forall_nil.
  - unfold INT_MAX. vm_compute. reflexivity.
Defined.

(** ** Stage 2: [EXTEND_X] on 2-D distributions *)

Section Columns2D.

Variables n N : Z.
Hypothesis Hn : 1 <= n.
Hypothesis HN : 1 <= N.
Hypothesis Hmax : n < INT_MAX.

(** The inner loop of the [EXTEND_X] case: column [cnt] is written, from
    bin 1 to bin [m]. *)
Lemma copy_column (f : Z -> Q) cnt m :
  1 <= cnt <= n -> (Z.of_nat m <= N) ->
  forall H,
    shape_2D n N H ->
    shape_2D n N
      (fold_left (fun new_th1 j => SetBinContent2 new_th1 cnt j (f j))
         (Z.of_nat <$> seq 1 m) H)
    /\ forall i r,
         0 <= i <= n + 1 -> 0 <= r <= N + 1 ->
         GetBinContent2
           (fold_left (fun new_th1 j => SetBinContent2 new_th1 cnt j (f j))
              (Z.of_nat <$> seq 1 m) H) i r
         = if decide (i = cnt /\ 1 <= r <= Z.of_nat m)
           then to_double (to_float (f r))
           else GetBinContent2 H i r.
Proof.
  intros Hc. induction m as [|m IH]; intros Hm H Hs.
  - split; [exact Hs|]. intros i r Hi Hr.
    rewrite decide_False by lia. reflexivity.
  - rewrite seq_S, fmap_app, fold_left_app.
    destruct (IH ltac:(lia) H Hs) as [Hs' Hget].
    cbn [fmap list_fmap fold_left].
    split; [apply shape_2D_SetBinContent, Hs'|].
    intros i r Hi Hr.
    rewrite (GetBinContent2_SetBinContent2 n N) by (auto; lia).
    rewrite Hget by auto.
    destruct (decide (cnt = i /\ Z.of_nat (1 + m) = r)) as [[E1 E2]|E].
    + rewrite decide_True by lia. subst r. reflexivity.
    + destruct (decide (i = cnt /\ 1 <= r <= Z.of_nat m)) as [D|D].
      * rewrite decide_True by lia. reflexivity.
      * rewrite decide_False by lia. reflexivity.
Qed.

(** The outer loop: the columns 1 to [m] of [h] are written to the columns
    [cnt] to [cnt + m - 1], and the fill pointer moves on by [m]. *)
Lemma copy_columns h m :
  Ny h = N ->
  forall H cnt,
    shape_2D n N H -> 1 <= cnt -> cnt + Z.of_nat m <= n + 1 ->
    exists H',
      fold_left
        (fun '(new_th1, cnt) i =>
           (fold_left
              (fun new_th1 j =>
                 SetBinContent2 new_th1 cnt j (GetBinContent2 h i j))
              (from_1_to (Ny h)) new_th1,
            wrap32 (cnt + 1)))
        (Z.of_nat <$> seq 1 m) (H, cnt)
      = (H', cnt + Z.of_nat m)
      /\ shape_2D n N H'
      /\ forall i j,
           1 <= i <= n -> 1 <= j <= N ->
           GetBinContent2 H' i j
           = if decide (cnt <= i < cnt + Z.of_nat m)
             then GetBinContent2 h (i - cnt + 1) j
             else GetBinContent2 H i j.
Proof.
  intros Hy. induction m as [|m IH]; intros H cnt Hs Hc Hfit.
  - exists H. split; [simpl; f_equal; lia|]. split; [exact Hs|].
    intros i j Hi Hj. rewrite decide_False by lia. reflexivity.
  - destruct (IH H cnt Hs Hc ltac:(lia)) as (H1 & E & Hs1 & Hget1).
    rewrite seq_S, fmap_app, fold_left_app, E.
    cbn [fmap list_fmap fold_left]. rewrite Hy. unfold from_1_to.
    destruct (copy_column
                (fun j => GetBinContent2 h (Z.of_nat (1 + m)) j)
                (cnt + Z.of_nat m) (Z.to_nat N) ltac:(lia) ltac:(lia) H1 Hs1)
      as [Hs2 Hget2].
    eexists. split; [|split; [exact Hs2|]].
    + rewrite wrap32_small by (unfold INT_MAX in Hmax; lia).
      f_equal. lia.
    + intros i j Hi Hj. rewrite Hget2 by lia. rewrite Hget1 by lia.
      destruct (decide (i = cnt + Z.of_nat m /\ 1 <= j <= Z.of_nat (Z.to_nat N)))
        as [[-> _]|D].
      * rewrite decide_True by lia. unfold GetBinContent2.
        rewrite to_double_stored. do 2 f_equal. lia.
      * destruct (decide (cnt <= i < cnt + Z.of_nat m)) as [D'|D'].
        -- rewrite decide_True by lia. reflexivity.
        -- rewrite decide_False by lia. reflexivity.
Qed.

End Columns2D.

Section ExtendX2D.

Variable pretty : Column -> string.
Variable step : SummationStep.
Variable c : Column.
Variable g : Values.
Variables N ny : Z.
Hypothesis Hc : columns step !! 0%nat = Some c.
Hypothesis HN : 1 <= N.
Hypothesis Hny : 1 <= ny.
Hypothesis Hmax : N < INT_MAX.

(** The loops of the [EXTEND_X] case for one 2-D distribution. *)
Lemma copy_2D_X_columns h H cnt :
  Ny h = ny -> 1 <= Nx h ->
  shape_2D N ny H -> 1 <= cnt -> cnt + Nx h <= N + 1 ->
  exists H',
    copy_2D_X h (H, cnt) = (H', cnt + Nx h)
    /\ shape_2D N ny H'
    /\ forall i j,
         1 <= i <= N -> 1 <= j <= ny ->
         GetBinContent2 H' i j
         = if decide (cnt <= i < cnt + Nx h)
           then GetBinContent2 h (i - cnt + 1) j
           else GetBinContent2 H i j.
Proof.
  intros Hy Hx Hs Hcnt Hfit. unfold copy_2D_X. unfold from_1_to at 2.
  destruct (copy_columns N ny HN Hny Hmax h (Z.to_nat (Nx h)) Hy H cnt Hs Hcnt
              ltac:(lia)) as (H' & E & Hs' & Hget).
  exists H'. rewrite E. rewrite Z2Nat.id in * by lia.
  split; [reflexivity|]. split; [exact Hs'|exact Hget].
Qed.

Lemma total_bins_app hs h : total_bins (hs ++ [h]) = total_bins hs + Nx h.
Proof.
  induction hs as [|h0 hs IH]; [unfold total_bins; simpl; lia|].
  rewrite <- app_comm_cons, !total_bins_cons, IH. lia.
Qed.

Lemma side_by_side_next done h H H' :
  shape_2D N ny H' ->
  (forall r h0 i j,
     done !! r = Some h0 -> 1 <= i <= Nx h0 -> 1 <= j <= ny ->
     GetBinContent2 H (total_bins (take r done) + i) j
     = GetBinContent2 h0 i j) ->
  Forall (fun h0 => 1 <= Nx h0) done -> 1 <= Nx h ->
  total_bins done + Nx h <= N ->
  (forall i j,
     1 <= i <= N -> 1 <= j <= ny ->
     GetBinContent2 H' i j
     = if decide (1 + total_bins done <= i < 1 + total_bins done + Nx h)
       then GetBinContent2 h (i - (1 + total_bins done) + 1) j
       else GetBinContent2 H i j) ->
  side_by_side g N ny (done ++ [h])
    [(g, {| count := 1 + total_bins done + Nx h; me := None;
            th1 := Some (OwnTH1 H') |})].
Proof.
  intros Hs Hcols Hpos Hx Hfit Hget. exists H'. split; [|split; [exact Hs|]].
  - rewrite total_bins_app. do 3 f_equal. lia.
  - intros r h0 i j Hr Hi Hj.
    pose proof (lookup_lt_Some _ _ _ Hr) as Hlt.
    rewrite length_app in Hlt. simpl in Hlt.
    assert (Hnn : forall l, Forall (fun h0 => 1 <= Nx h0) l ->
                            0 <= total_bins l).
    { clear. induction 1; [reflexivity|]. rewrite total_bins_cons. lia. }
    destruct (decide (r = length done)) as [->|Hne].
    + rewrite lookup_app_r, Nat.sub_diag in Hr by lia.
      injection Hr as <-.
      rewrite take_app_length.
      pose proof (Hnn _ Hpos).
      rewrite Hget by lia. rewrite decide_True by lia. f_equal. lia.
    + rewrite lookup_app_l in Hr by lia.
      rewrite take_app_le by lia.
      assert (Hsplit : total_bins done
                       = total_bins (take r done) + Nx h0
                         + total_bins (drop (S r) done)).
      { rewrite <- (take_drop_middle done r h0 Hr) at 1.
        clear. induction (take r done) as [|x l IH];
          [rewrite app_nil_l, total_bins_cons; unfold total_bins; simpl; lia|].
        rewrite <- app_comm_cons, !total_bins_cons, IH. lia. }
      pose proof (Hnn (take r done) (Forall_take _ _ _ Hpos)).
      pose proof (Hnn (drop (S r) done) (Forall_drop _ _ _ Hpos)).
      pose proof (Hnn _ Hpos).
      rewrite Hget by lia. rewrite decide_False by lia.
      apply Hcols; assumption.
Qed.

(** The second pass, for one entry. *)
Lemma extend_entry_side_by_side nbins done k e h out :
  nbins_at g nbins = N ->
  Values.erase k c = g -> th1_target e = Some h ->
  GetDimension h = 2 -> 1 <= Nx h -> Ny h = ny ->
  Forall (fun h0 => 1 <= Nx h0) done ->
  total_bins done + Nx h <= N ->
  (out = [] /\ done = []) \/ side_by_side g N ny done out ->
  exists out',
    extend_entry pretty step true nbins k e out = Ok out'
    /\ side_by_side g N ny (done ++ [h]) out'.
Proof.
  intros Hnb Hg Hh Hd Hx Hy Hpos Hfit Hout. unfold extend_entry.
  rewrite Hc, Hg, Hh.
  destruct (th1_target_Some_th1 e) as [p ->]; [rewrite Hh; eauto|].
  destruct Hout as [[-> ->]|(H & -> & Hs & Hcols)].
  - change (Table.touch g []) with [(g, AbstractHistogram0)].
    unfold Table.at_. rewrite find_single.
    cbn [th1 AbstractHistogram0 count default]. rewrite Hnb.
    unfold extend_book. rewrite Hd. cbn [Z.eqb Pos.eqb andb]. rewrite Hy.
    match goal with
    | |- context [new_TH2F ?name ?title N ?xlo ?xhi ny ?ylo ?yhi] =>
        destruct (shape_2D_new N ny HN Hny name title xlo xhi ylo yhi)
          as [Hs0 Hz];
        set (H0 := new_TH2F name title N xlo xhi ny ylo yhi) in *
    end.
    assert (Hd0 : GetDimension H0 = 2) by (destruct Hs0; assumption).
    clearbody H0. unfold id. cbn [th1 AbstractHistogram0 count].
    rewrite Hd0. cbn [Z.eqb Pos.eqb].
    change (total_bins []) with 0 in Hfit.
    destruct (copy_2D_X_columns h H0 1 Hy Hx Hs0 ltac:(lia) ltac:(lia))
      as (H' & -> & Hs' & Hget).
    rewrite modify_single.
    eexists. split; [reflexivity|].
    apply (side_by_side_next [] h H0 H' Hs'); [|constructor|exact Hx|exact Hfit|exact Hget].
    intros r h0 i j Hr. rewrite lookup_nil in Hr. discriminate.
  - rewrite (touch_present _ _ _ (find_single _ _)).
    unfold Table.at_. rewrite find_single.
    cbn [th1 count default]. unfold id. cbn [th1 count].
    assert (HdH : GetDimension H = 2) by (destruct Hs; assumption).
    rewrite HdH. cbn [Z.eqb Pos.eqb].
    assert (0 <= total_bins done).
    { clear -Hpos. induction Hpos; [reflexivity|].
      rewrite total_bins_cons. lia. }
    destruct (copy_2D_X_columns h H (1 + total_bins done) Hy Hx Hs
                ltac:(lia) ltac:(lia)) as (H' & -> & Hs' & Hget).
    rewrite modify_single.
    eexists. split; [reflexivity|].
    apply (side_by_side_next done h H H' Hs' Hcols Hpos Hx Hfit Hget).
Qed.

Lemma extend_loop_side_by_side nbins t :
  nbins_at g nbins = N ->
  panels c g ny t ->
  forall done out,
    Forall (fun h0 => 1 <= Nx h0) done ->
    total_bins done + total_bins (histograms t) <= N ->
    (out = [] /\ done = []) \/ side_by_side g N ny done out ->
    t <> [] ->
    exists out',
      extend_loop pretty step true nbins t out = Ok out'
      /\ side_by_side g N ny (done ++ histograms t) out'.
Proof.
  intros Hnb Ht.
  induction Ht as [|[k e] t (Hg & h & Hh & Hd & Hx & Hy) Ht IH];
    intros done out Hpos Hfit Hout Hne; [congruence|].
  simpl in Hg, Hh.
  rewrite (histograms_cons _ _ _ _ Hh) in *. rewrite total_bins_cons in Hfit.
  assert (Hnn : 0 <= total_bins (histograms t)).
  { clear -Ht. induction Ht as [|[k e] t (_ & h & Hh & _ & Hx & _) _ IH];
      [reflexivity|].
    simpl in Hh. rewrite (histograms_cons _ _ _ _ Hh), total_bins_cons. lia. }
  cbn [extend_loop].
  destruct (extend_entry_side_by_side nbins done k e h out Hnb Hg Hh Hd Hx Hy
              Hpos ltac:(lia) Hout) as (out1 & -> & Hst).
  destruct t as [|e2 t].
  - exists out1. split; [reflexivity|exact Hst].
  - destruct (IH (done ++ [h]) out1) as (out' & E & Hst');
      [| |right; exact Hst|discriminate|].
    + apply Forall_app. split; [exact Hpos|]. constructor; [exact Hx|constructor].
    + rewrite total_bins_app. lia.
    + exists out'. split; [exact E|].
      rewrite <- app_assoc in Hst'. exact Hst'.
Qed.

(** The first pass: the bins along x add up. *)
Lemma extend_nbins_panels t :
  panels c g ny t ->
  forall nb,
    0 <= nbins_at g nb ->
    nbins_at g nb + total_bins (histograms t) <= INT_MAX ->
    exists nb',
      extend_nbins step true t nb = Ok nb'
      /\ nbins_at g nb' = nbins_at g nb + total_bins (histograms t).
Proof.
  induction 1 as [|[k e] t (Hg & h & Hh & _ & Hx & _) Ht IH]; intros nb H0 Hm.
  - exists nb. unfold total_bins. simpl. split; [reflexivity|lia].
  - simpl in Hg, Hh.
    rewrite (histograms_cons _ _ _ _ Hh), total_bins_cons in *.
    assert (Hnn : 0 <= total_bins (histograms t)).
    { clear -Ht. induction Ht as [|[k e] t (_ & h & Hh & _ & Hx & _) _ IH];
        [reflexivity|].
      simpl in Hh. rewrite (histograms_cons _ _ _ _ Hh), total_bins_cons.
      lia. }
    simpl extend_nbins. rewrite Hc, Hg, Hh.
    destruct (th1_target_Some_th1 e) as [p ->]; [rewrite Hh; eauto|].
    rewrite wrap32_small by (unfold INT_MAX in Hm; lia).
    destruct (IH (nbins_set g (nbins_at g nb + Nx h) nb)) as (nb' & E & Hnb').
    + rewrite nbins_at_set. lia.
    + rewrite nbins_at_set. lia.
    + exists nb'. split; [exact E|]. rewrite Hnb', nbins_at_set. lia.
Qed.

End ExtendX2D.

(** [EXTEND_X] at harvest puts 2-D distributions side by side. On a table
    (a [std::map]) of 2-D distributions of [ny] bins along y that agree on
    all columns but the dropped one, the table becomes one entry under the
    remaining key, whose distribution is 2-D, of [ny] bins along y and as
    many bins along x as the inputs have together; its columns are the
    columns of the inputs, one input after the other in the order of the
    table. *)
Theorem EXTEND_X_puts_2D_distributions_side_by_side :
  forall pretty step c g ny t,
    columns step !! 0%nat = Some c ->
    t <> [] -> panels c g ny t -> 1 <= ny ->
    total_bins (histograms t) < INT_MAX ->
    exists H,
      executeExtend pretty step t true
      = Ok [(g, {| count := 1 + total_bins (histograms t); me := None;
                   th1 := Some (OwnTH1 H) |})]
      /\ shape_2D (total_bins (histograms t)) ny H
      /\ forall r h i j,
           histograms t !! r = Some h -> 1 <= i <= Nx h -> 1 <= j <= ny ->
           GetBinContent2 H (total_bins (take r (histograms t)) + i) j
           = GetBinContent2 h i j.
Proof.
  intros pretty step c g ny t Hc Hne Ht Hny Hmax.
  set (N := total_bins (histograms t)) in *.
  assert (HN : 1 <= N).
  { unfold N. clear -Ht Hne.
    destruct Ht as [|[k e] t (_ & h & Hh & _ & Hx & _) Ht]; [congruence|].
    simpl in Hh. rewrite (histograms_cons _ _ _ _ Hh), total_bins_cons.
    assert (0 <= total_bins (histograms t)); [|lia].
    clear -Ht. induction Ht as [|[k e] t (_ & h & Hh & _ & Hx & _) _ IH];
      [reflexivity|].
    simpl in Hh. rewrite (histograms_cons _ _ _ _ Hh), total_bins_cons. lia. }
  destruct (extend_nbins_panels step c g ny Hc t Ht [])
    as (nb & E1 & Hnb); [simpl; lia|simpl; fold N; lia|].
  simpl in Hnb. fold N in Hnb.
  destruct (extend_loop_side_by_side pretty step c g N ny Hc HN Hny Hmax nb t
              Hnb Ht [] [])
    as (out & E2 & H & -> & Hs & Hcols);
    [constructor|change (total_bins []) with 0; fold N; lia|auto|exact Hne|].
  simpl in Hcols, E2. exists H. split; [|split; [exact Hs|exact Hcols]].
  unfold executeExtend. rewrite E1, E2. reflexivity.
Qed.

Lemma EXTEND_X_puts_2D_distributions_side_by_side_witness :
  exists H,
    executeExtend pretty0 (step_of EXTEND_X STAGE2 [2]) table_panels true
    = Ok [([(1, 1)], {| count := 1 + total_bins (histograms table_panels);
                        me := None; th1 := Some (OwnTH1 H) |})]
    /\ shape_2D (total_bins (histograms table_panels)) 1 H
    /\ forall r h i j,
         histograms table_panels !! r = Some h ->
         1 <= i <= Nx h -> 1 <= j <= 1 ->
         GetBinContent2 H (total_bins (take r (histograms table_panels)) + i) j
         = GetBinContent2 h i j.
Proof.
  apply (EXTEND_X_puts_2D_distributions_side_by_side pretty0
           (step_of EXTEND_X STAGE2 [2]) 2 [(1, 1)] 1 table_panels).
  - reflexivity.
  - discriminate.
  - constructor; [|constructor; [|constructor]];
      (split; [reflexivity|];
       eexists; split; [reflexivity|split; [reflexivity|]];
       split; [vm_compute; discriminate|reflexivity]).
  - lia.
  - unfold INT_MAX. vm_compute. reflexivity.
Defined.

(** ** [book], over all the specifications *)

Section BookAll.

Variable pretty : Column -> string.
Variable to_string : Value -> string.
Variables minValue maxValue : Column -> Q.
Variable extractColumns : list Column -> InterestingQuantities -> Values.
Variable this : HistogramManager.
Variable q : Quantity.
Variable allModules : list InterestingQuantities.

(** Once booked, a table is booked whatever the booker has taken since. *)
Lemma book_modules_settled s t0 b0 t1 b1 :
  0 <= dimensions this <= 2 ->
  book_modules pretty to_string minValue maxValue extractColumns this q s
    allModules t0 b0 = Ok (t1, b1) ->
  forall b,
    book_modules pretty to_string minValue maxValue extractColumns this q s
      allModules t1 b = Ok (t1, b).
Proof.
  intros Hd H b.
  destruct (steps s !! 0%nat) as [step0|] eqn:H0.
  - apply (book_modules_again _ _ _ _ _ _ _ _ step0); [exact H0|].
    intros iq Hin Hb.
    apply (book_modules_books pretty to_string minValue maxValue this q s
             extractColumns step0 allModules H0) with (t := t0) (iBooker := b0)
             (b1 := b1); auto.
    intros sv l Hl. apply (book_walk_dimensions _ _ _ _ _ _ _ _ Hl). exact Hd.
  - destruct allModules as [|iq modules]; simpl in *;
      [|rewrite H0 in H; discriminate].
    reflexivity.
Qed.

Lemma book_at_frame i m b m' b' :
  book_at pretty to_string minValue maxValue extractColumns this q allModules
    i (m, b) = Some (Ok (m', b')) ->
  specs m' = specs m
  /\ (forall j, j <> i -> m_tables m' !! j = m_tables m !! j)
  /\ (0 <= dimensions this <= 2 ->
      book_settled_at pretty to_string minValue maxValue extractColumns this
        q allModules m' i).
Proof.
  unfold book_at.
  destruct (specs m !! i) as [s|] eqn:Es; [|discriminate].
  destruct (m_tables m !! i) as [t|] eqn:Et; [|discriminate].
  destruct (book_modules _ _ _ _ _ _ _ _ _ _ _) as [[t' b1]|e] eqn:E;
    [|discriminate].
  intros [= <- <-]. simpl. split; [reflexivity|]. split.
  - intros j Hj. apply list_lookup_insert_ne. congruence.
  - intros Hd. exists s, t'. simpl. split; [exact Es|]. split.
    + apply list_lookup_insert_eq. eapply lookup_lt_Some, Et.
    + apply (book_modules_settled s t b t' b1 Hd E).
Qed.

Lemma for_specs_book_frame todo :
  forall m b m' b',
    for_specs
      (book_at pretty to_string minValue maxValue extractColumns this q
         allModules) todo (m, b) = Some (Ok (m', b')) ->
    specs m' = specs m
    /\ forall j, j ∉ todo -> m_tables m' !! j = m_tables m !! j.
Proof.
  induction todo as [|i todo IH]; intros m b m' b' H; cbn [for_specs] in H.
  - injection H as <- <-. auto.
  - destruct (book_at _ _ _ _ _ _ _ _ _ _) as [[[m1 b1]|e]|] eqn:E;
      try discriminate.
    destruct (book_at_frame _ _ _ _ _ E) as (Hs1 & Ht1 & _).
    destruct (IH _ _ _ _ H) as (Hs2 & Ht2).
    split; [congruence|]. intros j Hj.
    apply not_elem_of_cons in Hj as [Hji Hj].
    rewrite (Ht2 j Hj), (Ht1 j Hji). reflexivity.
Qed.

Lemma for_specs_book_settles todo :
  0 <= dimensions this <= 2 -> NoDup todo ->
  forall m b m' b',
    for_specs
      (book_at pretty to_string minValue maxValue extractColumns this q
         allModules) todo (m, b) = Some (Ok (m', b')) ->
    forall i,
      i ∈ todo ->
      book_settled_at pretty to_string minValue maxValue extractColumns this
        q allModules m' i.
Proof.
  intros Hd. induction 1 as [|i todo Hi Hnd IH]; intros m b m' b' H j Hj;
    [apply elem_of_nil in Hj; contradiction|].
  cbn [for_specs] in H.
  destruct (book_at _ _ _ _ _ _ _ _ _ _) as [[[m1 b1]|e]|] eqn:E;
    try discriminate.
  apply elem_of_cons in Hj as [->|Hj]; [|exact (IH _ _ _ _ H j Hj)].
  destruct (book_at_frame _ _ _ _ _ E) as (_ & _ & Hset).
  destruct (Hset Hd) as (s & t & Es & Et & Hbook).
  destruct (for_specs_book_frame _ _ _ _ _ H) as (Hs2 & Ht2).
  exists s, t. rewrite Hs2, (Ht2 i Hi). auto.
Qed.

Lemma for_specs_book_again todo :
  forall m b,
    (forall i,
       i ∈ todo ->
       book_settled_at pretty to_string minValue maxValue extractColumns this
         q allModules m i) ->
    for_specs
      (book_at pretty to_string minValue maxValue extractColumns this q
         allModules) todo (m, b) = Some (Ok (m, b)).
Proof.
  induction todo as [|i todo IH]; intros m b Hall; [reflexivity|].
  destruct (Hall i ltac:(left)) as (s & t & Es & Et & Hbook).
  cbn [for_specs]. unfold book_at at 1. rewrite Es, Et, Hbook.
  rewrite list_insert_id by exact Et.
  replace {| specs := specs m; m_tables := m_tables m;
             m_significantvalues := m_significantvalues m;
             m_fastpath := m_fastpath m; iq := iq m |} with m
    by (destruct m; reflexivity).
  apply IH. intros j Hj. apply Hall. right. exact Hj.
Qed.

End BookAll.

(** [book] is idempotent for the whole manager, although the
    specifications share one booker: when [book] has gone through for a
    quantity of 0, 1 or 2 dimensions, a second [book] on the manager and
    the booker it left goes through as well, books no monitor element and
    leaves every table, and the rest of the manager, as it is. *)
Theorem book_twice_is_book_once :
  forall pretty to_string minValue maxValue extractColumns this q allModules
         m b m' b',
    0 <= dimensions this <= 2 ->
    book pretty to_string minValue maxValue extractColumns this q allModules
      m b = Some (Ok (m', b')) ->
    book pretty to_string minValue maxValue extractColumns this q allModules
      m' b' = Some (Ok (m', b')).
Proof.
  intros pretty to_string minValue maxValue extractColumns this q allModules
    m b m' b' Hd. unfold book.
  destruct (negb (enabled this)); [intros [= <- <-]; reflexivity|].
  intros H.
  destruct (for_specs_book_frame _ _ _ _ _ _ _ _ _ _ _ _ _ H) as (Hs & _).
  rewrite Hs. apply for_specs_book_again.
  apply (for_specs_book_settles _ _ _ _ _ _ _ _ _ Hd (NoDup_seq _ _) _ _ _ _ H).
Qed.

Lemma book_twice_is_book_once_witness :
  book pretty0 to_string0 minValue0 maxValue0 extractColumns0 manager0
    quantity0 modules0 booked_members.1 booked_members.2
  = Some (Ok (booked_members.1, booked_members.2)).
Proof.
  apply (book_twice_is_book_once pretty0 to_string0 minValue0 maxValue0
           extractColumns0 manager0 quantity0 modules0 members0 iBooker0).
  - simpl. lia.
  - vm_compute. reflexivity.
Defined.

(** ** [executeHarvestingOffline], over all the specifications *)

Section HarvestAll.

Variable pretty : Column -> string.
Variable to_string : Value -> string.
Variable extractColumns : list Column -> InterestingQuantities -> Values.
Variable GetMean : TH1 -> Q.
Variable GetEntries : TH1 -> Q.
Variable this : HistogramManager.
Variable q : Quantity.
Variable customHandler : option (SummationStep -> Table -> Table).
Variable allModules : list InterestingQuantities.
Variable iGetter : IGetter.

Lemma load_walk_total rest :
  Forall loadable rest ->
  forall l, exists l', load_walk pretty rest l = Ok l'.
Proof.
  induction 1 as [|step rest Hs _ IH]; intros [name sv]; cbn [load_walk];
    [eauto|].
  assert (E : exists l', load_step pretty step (name, sv) = Ok l').
  { unfold load_step, loadable in *.
    destruct (in_step1 step); [|eauto]. specialize (Hs eq_refl).
    destruct (type step); try contradiction; eauto;
      (destruct (columns step) as [|c cs]; [congruence|simpl; eauto]). }
  destruct E as [l' ->]. apply IH.
Qed.

Lemma loadFromDQMStore_total s modules :
  steps s <> [] -> Forall loadable (steps s) ->
  forall t log,
    all_have_th1 t ->
    exists t' log',
      loadFromDQMStore pretty to_string extractColumns this q s modules
        iGetter t log = Ok (t', log')
      /\ all_have_th1 t'.
Proof.
  intros Hne Hl. induction modules as [|iq modules IH]; intros t log Ht;
    cbn [loadFromDQMStore]; [eauto|].
  destruct (steps s) as [|step0 rest] eqn:Es; [congruence|].
  cbn [lookup list_lookup].
  destruct (load_walk_total _ Hl (this_name q, extractColumns (columns step0) iq))
    as [[name sv] ->].
  destruct (iGetter _) as [m|]; apply IH; [|exact Ht].
  unfold all_have_th1.
  apply (Forall_modify_touch (fun a => is_Some (th1_target a))); [|exact Ht].
  intros a. unfold th1_target. simpl. eauto.
Qed.

Lemma harvest_steps_total rest :
  Forall harvestable rest ->
  forall t iBooker log,
    all_have_th1 t ->
    exists t' b' log',
      harvest_steps pretty to_string GetMean GetEntries this customHandler
        rest (t, iBooker, log) = Ok (t', b', log')
      /\ all_have_th1 t'.
Proof.
  induction 1 as [|step rest Hh _ IH]; intros t b log Ht;
    cbn [harvest_steps]; [eauto 6|].
  destruct (harvest_step_total pretty to_string GetMean GetEntries this
              customHandler step t b log Hh Ht) as (t1 & b1 & log1 & -> & H1).
  apply IH. exact H1.
Qed.

Lemma harvest_spec_total s t iBooker log :
  harvestable_spec s -> all_have_th1 t ->
  exists t' b' log',
    harvest_spec pretty to_string extractColumns GetMean GetEntries this q
      customHandler allModules iGetter s (t, iBooker, log)
    = Ok (t', b', log')
    /\ all_have_th1 t'.
Proof.
  intros (Hne & Hl & Hh) Ht. unfold harvest_spec.
  destruct (loadFromDQMStore_total s allModules Hne Hl t log Ht)
    as (t1 & log1 & -> & Ht1).
  apply harvest_steps_total; assumption.
Qed.

Lemma for_specs_harvest todo :
  forall m b log,
    Forall (fun i => (i < length (specs m))%nat) todo ->
    aligned m ->
    Forall harvestable_spec (specs m) ->
    Forall all_have_th1 (m_tables m) ->
    exists m' b' log',
      for_specs
        (harvest_at_offline pretty to_string extractColumns GetMean GetEntries
           this q customHandler allModules iGetter)
        todo (m, b, log) = Some (Ok (m', b', log'))
      /\ specs m' = specs m /\ aligned m'
      /\ Forall all_have_th1 (m_tables m')
      /\ m_significantvalues m' = m_significantvalues m
      /\ m_fastpath m' = m_fastpath m.
Proof.
  induction todo as [|i todo IH]; intros m b log Htodo Ha Hs Ht;
    cbn [for_specs].
  - exists m, b, log. auto 6.
  - apply Forall_cons in Htodo as [Hi Htodo].
    destruct Ha as (A1 & A2 & A3).
    destruct (lookup_lt_is_Some_2 (specs m) i Hi) as [s Es].
    destruct (lookup_lt_is_Some_2 (m_tables m) i ltac:(lia)) as [t Et].
    unfold harvest_at_offline at 1. rewrite Es, Et.
    destruct (harvest_spec_total s t b log) as (t1 & b1 & log1 & -> & Ht1).
    { rewrite Forall_forall in Hs. apply Hs.
      eapply list_elem_of_lookup_2. exact Es. }
    { rewrite Forall_forall in Ht. apply Ht.
      eapply list_elem_of_lookup_2. exact Et. }
    match goal with
    | |- context [for_specs _ todo (?m1, b1, log1)] =>
        destruct (IH m1 b1 log1) as (m' & b' & log' & -> & E1 & E2 & E3 & E4 & E5)
    end.
    + exact Htodo.
    + unfold aligned. simpl. rewrite length_insert. auto.
    + exact Hs.
    + simpl. apply Forall_lookup. intros j x Hx.
      destruct (decide (j = i)) as [->|Hne].
      * rewrite list_lookup_insert_eq in Hx by (eapply lookup_lt_Some, Et).
        injection Hx as <-. exact Ht1.
      * rewrite list_lookup_insert_ne in Hx by congruence.
        exact (Forall_lookup_1 _ _ _ _ Ht Hx).
    + exists m', b', log'. simpl in *. auto 6.
Qed.

End HarvestAll.

(** The offline harvesting of a manager does not abort, whatever the store
    holds. For specifications that have a first step, whose steps of the
    stages of the fills are [SAVE], [COUNT], [GROUPBY] and [EXTEND] steps
    with a column, and whose steps of stage 2 are [SAVE], [GROUPBY],
    [REDUCE] and [EXTEND] steps with a column, on tables in which every
    entry has a histogram (the empty tables of a harvesting job among
    them), [executeHarvestingOffline] reads no vector outside its bounds
    and comes to its end; the specifications, [significantvalues] and
    [fastpath] are as before, and every entry of every table has a
    histogram. *)
Theorem executeHarvestingOffline_goes_through :
  forall pretty to_string extractColumns GetMean GetEntries this q
         customHandler allModules iGetter m b log,
    aligned m ->
    Forall harvestable_spec (specs m) ->
    Forall all_have_th1 (m_tables m) ->
    exists m' b' log',
      executeHarvestingOffline pretty to_string extractColumns GetMean
        GetEntries this q customHandler allModules iGetter m b log
      = Some (Ok (m', b', log'))
      /\ specs m' = specs m /\ aligned m'
      /\ Forall all_have_th1 (m_tables m')
      /\ m_significantvalues m' = m_significantvalues m
      /\ m_fastpath m' = m_fastpath m.
Proof.
  intros pretty to_string extractColumns GetMean GetEntries this q
    customHandler allModules iGetter m b log Ha Hs Ht.
  unfold executeHarvestingOffline.
  destruct (negb (enabled this)); [exists m, b, log; auto 6|].
  apply for_specs_harvest; auto.
  apply Forall_forall. intros i Hi. apply elem_of_seq in Hi. lia.
Qed.

Lemma executeHarvestingOffline_goes_through_witness :
  exists m' b' log',
    executeHarvestingOffline pretty0 to_string0 extractColumns0
      (fun _ => 1%Q) (fun _ => 1%Q) manager0 quantity0 None modules0 iGetter0
      members0 iBooker0 []
    = Some (Ok (m', b', log'))
    /\ specs m' = specs members0 /\ aligned m'
    /\ Forall all_have_th1 (m_tables m')
    /\ m_significantvalues m' = m_significantvalues members0
    /\ m_fastpath m' = m_fastpath members0.
Proof.
  apply (executeHarvestingOffline_goes_through pretty0 to_string0
           extractColumns0 (fun _ => 1%Q) (fun _ => 1%Q) manager0 quantity0
           None modules0 iGetter0 members0 iBooker0 []).
  - repeat split.
  - repeat (apply List.Forall_cons;
            [split; [discriminate|];
             split; repeat constructor; intros H; try discriminate H;
             simpl; auto; discriminate|]).
    apply List.Forall_nil.
  - repeat (apply List.Forall_cons; [apply List.Forall_nil|]).
    apply List.Forall_nil.
Defined.

(** ** The per-event harvesting on a program that does not count *)

Section PlainHarvesting.

Variable TH1_Fill : TH1 -> Q -> TH1.
Variable TH1_Fill2 : TH1 -> Q -> Q -> TH1.
Variable this : HistogramManager.
Variable s : SummationSpecification.
Variable ncolumns : nat.
Hypothesis Hs : Forall (fun step => stage step <> STAGE1_2) (steps s).

Lemma plain_harvesting_call k a T :
  exists p,
    executeStep1Spec TH1_Fill TH1_Fill2 this 0 0 k s T STAGE1_2
      (Some (Copy k a))
    = Ok (k,
          if bound a
          then Table.modify k (fill_of_0 TH1_Fill TH1_Fill2 this) T
          else T,
          Some p).
Proof.
  unfold executeStep1Spec. rewrite (walk_other_stage _ _ _ Hs).
  unfold finish, fill_of_0, ptr_fill. cbn [l_fastpath l_dimensions l_x l_y
    l_significantvalues l_t].
  destruct (bound a); eauto.
Qed.

Lemma modify_app_r k f (t1 t2 : Table) :
  k ∉ t1.*1 -> Table.modify k f (t1 ++ t2) = t1 ++ Table.modify k f t2.
Proof.
  induction t1 as [|[k' a'] t1 IH]; csimpl; [reflexivity|].
  rewrite not_elem_of_cons. intros [Hne Hk].
  rewrite decide_False by exact Hne. rewrite IH by exact Hk. reflexivity.
Qed.

Lemma passed_entry_keys (t : Table) :
  (passed_entry TH1_Fill TH1_Fill2 this ncolumns <$> t).*1 = t.*1.
Proof.
  induction t as [|[k a] t IH]; csimpl; [reflexivity|]. rewrite IH.
  f_equal. unfold passed_entry. simpl.
  destruct (decide _); [destruct (bound a)|]; reflexivity.
Qed.

Lemma harvest_loop_plain todo :
  forall done sv fp cur fuel,
    Table_sorted (done ++ todo) -> cur = last done.*1 ->
    (length todo < fuel)%nat ->
    exists sv',
      harvest_loop TH1_Fill TH1_Fill2 fuel this s ncolumns cur
        (mkSpecState sv
           ((passed_entry TH1_Fill TH1_Fill2 this ncolumns <$> done) ++ todo)
           fp)
      = Some (Ok (mkSpecState sv'
                    (passed_entry TH1_Fill TH1_Fill2 this ncolumns
                       <$> (done ++ todo)) fp)).
Proof.
  induction todo as [|[k a] todo IH]; intros done sv fp cur fuel Hsort Hc Hfuel;
    (destruct fuel as [|fuel]; [simpl in Hfuel; lia|]);
    rewrite harvest_loop_unfold; simpl tables.
  - rewrite app_nil_r in Hsort. rewrite !app_nil_r.
    rewrite next_entry_end; [eauto| |].
    + unfold Table_sorted. rewrite passed_entry_keys. exact Hsort.
    + rewrite passed_entry_keys. exact Hc.
  - set (g := passed_entry TH1_Fill TH1_Fill2 this ncolumns) in *.
    assert (Hkeys : ((g <$> done) ++ (k, a) :: todo).*1
                    = done.*1 ++ k :: todo.*1).
    { rewrite fmap_app. unfold g. rewrite passed_entry_keys. reflexivity. }
    assert (Hsort' : Table_sorted ((g <$> done) ++ (k, a) :: todo)).
    { unfold Table_sorted in *. rewrite Hkeys. rewrite fmap_app in Hsort.
      exact Hsort. }
    destruct (next_entry_at cur done.*1 k todo.*1 _ Hkeys Hsort' Hc)
      as (a0 & -> & Hfind).
    assert (Ha : Table.find k ((g <$> done) ++ (k, a) :: todo) = Some a).
    { apply find_in_sorted; [exact Hsort'|].
      apply elem_of_app. right. left. }
    rewrite Hfind in Ha. injection Ha as ->.
    assert (Hnew : k ∉ (g <$> done).*1).
    { unfold g. rewrite passed_entry_keys.
      unfold Table_sorted in Hsort. rewrite fmap_app in Hsort. csimpl in Hsort.
      clear -Hsort. induction done as [|[k1 a1] done IH]; csimpl in *.
      - apply not_elem_of_nil.
      - inversion Hsort as [|? ? Hs' Hf]; subst.
        apply not_elem_of_cons. split; [|exact (IH Hs')].
        intros ->. rewrite Forall_app, Forall_cons in Hf.
        destruct Hf as (_ & Hk & _). unfold key_lt in Hk.
        rewrite ltb_irrefl in Hk. discriminate. }
    assert (Hnext :
      (if bound a
       then Table.modify k (fill_of_0 TH1_Fill TH1_Fill2 this)
              ((g <$> done) ++ (k, a) :: todo)
       else (g <$> done) ++ (k, a) :: todo)
      = (g <$> done) ++ (if bound a
                         then (k, fill_of_0 TH1_Fill TH1_Fill2 this a)
                         else (k, a)) :: todo).
    { destruct (bound a); [|reflexivity].
      rewrite modify_app_r by exact Hnew. simpl.
      rewrite decide_True by reflexivity. reflexivity. }
    assert (Hstep : forall b : Values * AbstractHistogram,
              b = g (k, a) ->
              (g <$> done) ++ b :: todo = (g <$> (done ++ [(k, a)])) ++ todo).
    { intros b ->. rewrite fmap_app, <- app_assoc. reflexivity. }
    assert (Hdone : done ++ (k, a) :: todo = (done ++ [(k, a)]) ++ todo)
      by (rewrite <- app_assoc; reflexivity).
    assert (Hlast : Some k = last (done ++ [(k, a)]).*1)
      by (rewrite fmap_app; csimpl; rewrite last_snoc; reflexivity).
    destruct (decide (length k = ncolumns)) as [Hlen|Hlen].
    + destruct (plain_harvesting_call k a ((g <$> done) ++ (k, a) :: todo))
        as [p ->].
      rewrite Hnext.
      rewrite (Hstep _); [|unfold g, passed_entry; simpl;
                            rewrite decide_True by exact Hlen; reflexivity].
      rewrite Hdone. apply IH; [rewrite <- Hdone; exact Hsort|exact Hlast|].
      simpl in Hfuel. lia.
    + rewrite (Hstep (k, a)); [|unfold g, passed_entry; simpl;
                                 rewrite decide_False by exact Hlen;
                                 reflexivity].
      rewrite Hdone. apply IH; [rewrite <- Hdone; exact Hsort|exact Hlast|].
      simpl in Hfuel. lia.
Qed.

End PlainHarvesting.

(** The per-event harvesting is not without effect on a program that does
    not count. For a specification without steps of the per-event
    harvesting stage, [executePerEventHarvesting] comes to its end and has
    filled the sample 0 (or (0, 0), by the dimensions of the quantity) once
    into the histogram of every entry whose key has as many columns as
    [steps[0]]; the other entries and the cache slot are as before. *)
Theorem per_event_harvesting_fills_histograms_under_full_keys :
  forall TH1_Fill TH1_Fill2 this s step0 sv T fp fuel,
    enabled this = true ->
    steps s !! 0%nat = Some step0 ->
    Forall (fun step => stage step <> STAGE1_2) (steps s) ->
    Table_sorted T ->
    (length T < fuel)%nat ->
    exists sv',
      executePerEventHarvesting TH1_Fill TH1_Fill2 fuel this s
        (mkSpecState sv T fp)
      = Some (Ok (mkSpecState sv'
                    (passed_entry TH1_Fill TH1_Fill2 this
                       (length (columns step0)) <$> T) fp)).
Proof.
  intros F F2 this s step0 sv T fp fuel Hen H0 Hs Hsort Hfuel.
  destruct (decide (T = [])) as [->|Hne].
  - exists sv. unfold executePerEventHarvesting. rewrite Hen. reflexivity.
  - rewrite executePerEventHarvesting_nonempty; [|exact Hen|exact Hne].
    rewrite H0.
    apply (harvest_loop_plain F F2 this s (length (columns step0)) Hs T []);
      auto.
Qed.

Lemma per_event_harvesting_fills_histograms_under_full_keys_witness :
  exists sv',
    executePerEventHarvesting Fill_fixed Fill2_fixed 4 manager0 spec_plain
      (mkSpecState [] table_2_3_1 None)
    = Some (Ok (mkSpecState sv'
                  (passed_entry Fill_fixed Fill2_fixed manager0
                     (length (columns (step_of SAVE STAGE1 [1; 2])))
                     <$> table_2_3_1) None)).
Proof.
  apply (per_event_harvesting_fills_histograms_under_full_keys Fill_fixed
           Fill2_fixed manager0 spec_plain (step_of SAVE STAGE1 [1; 2]) []
           table_2_3_1 None 4).
  - reflexivity.
  - reflexivity.
  - repeat constructor; discriminate.
  - repeat constructor.
  - simpl. lia.
Defined.
